(* ===== verification/_CoqProject ===== *)
-Q . S2P
Prelude.v
Persister.v
Raft.v
RaftCluster.v
RaftElection.v
RaftLogMatching.v
RaftTheorems.v
RaftTypes.v
RaftCommit.v
RaftCommitSteps.v
RaftSafety.v
RaftRuns.v
Fnv.v
LabRpc.v
Labgob.v
LabRpcService.v
RaftConfig.v
RaftAgree.v
ShardMap.v
FileShardMap.v
ShardWorkflows.v
KvServer.v
KvNode.v
KvCluster.v
KvTestPool.v
KvClient.v
KvSystem.v
Strconv.v
KvCommands.v
Queue.v
Semaphore.v
Merge.v
ParallelFetcher.v
Backend.v
DetBcrypt.v
Ranker.v
VideoRec.v
VideoRecPool.v
LoadGen.v
Logging.v
Deployment.v
Frontend.v
Checker.v
StressTester.v
KvTestSetup.v
