(* ===== verification/Prelude.v ===== *)
(** * Verification of the distributed-systems labs

    The repository (src/cs426-fall24) holds four labs of a course on
    distributed systems, in Go: small concurrency exercises (lab0), a video
    recommendation service in front of a user and a video service (lab1, and
    lab2 with a pool of connections), the Raft consensus protocol over a
    simulated network (lab3), and a sharded key-value store with a dynamic
    shard map (lab4). The program is translated function by function; every
    definition keeps the name of the Go function it models.

    ** How Go is modelled

    Code that can panic or block for ever returns in the monad [go] of this
    file ([Ret], [Panic], [Block]); slices are lists with bounds-checked
    indexing ([go_index], [go_update], [go_range]); maps are [gmap], sets
    [gset]. State is passed explicitly. Code under a lock is one atomic
    function; goroutines are explicit processes of an executable step function
    or a step relation, and theorems about them quantify over all
    interleavings. Machine integers are [Z], with the wrap-around written out
    where the code depends on it (hashes, [int32] shard numbers, 64-bit
    counters and scores) and left out where it cannot matter (Raft terms and
    indices, which grow by one). Time, random numbers, replies of remote
    services and the iteration order of maps are inputs, over which the
    theorems quantify. Third-party code is a class with the laws its
    documentation states, or a parameter: the Blowfish cipher
    ([DetBcrypt.Blowfish]), the weighted semaphore
    ([ParallelFetcher.Weighted]), the random generator ([Backend.Rand]), the
    sorting routine ([VideoRec.SortSlice]), gob ([LabRpcService.Gob]: what
    arrives is [transmitted v], which need not be all of [v]), math/rand
    ([StressTester.RandSource], [ShardWorkflows.RandPerm]), the JSON decoder
    (FileShardMap.v), gRPC dialling ([KvClient.pool_GetClient]) and gRPC
    connections ([VideoRecPool.ConnBackends], what a call on a connection
    does; [VideoRecPool.by_target], [Deployment.delivers] and
    [Frontend.answers] say that it is handled at the address of the
    connection), listening, DNS and the host name (Logging.v, Deployment.v,
    KvCommands.v), the invented names and titles (Frontend.v). Each class has
    a concrete instance, on which the witnesses run. Reflection is a graph of
    types and values (Labgob.v) and a list of methods (LabRpcService.v).

    ** Files

    - Prelude.v: the monad, slices, tactics ([go_inv], [bprop]), the hint
      database [golib], quorums, rotations.
    - Raft. Persister.v (raft/persister.go); Raft.v (raft/raft.go: one peer,
      every function); RaftCluster.v (a cluster with its goroutines and
      messages; [step] is executable, [reachable] is crash-free execution; a
      crash and a restart leave the requests of the old incarnation in flight);
      RaftElection.v (the election invariant, with ghost votes and leaders);
      RaftLogMatching.v (the log invariant, with ghost logs of terms);
      RaftTheorems.v (what holds of every crash-free execution); RaftTypes.v
      (what survives crashes: the shape of peers, messages and stable
      storage); RaftCommit.v (the history of committed entries and its
      invariant), RaftCommitSteps.v (one lemma per kind of step) and
      RaftSafety.v (state machine safety and leader completeness); RaftRuns.v
      (concrete runs: witnesses, and the runs in which the code departs from
      the protocol).
    - Raft's surroundings. LabRpc.v (labrpc/labrpc.go: the simulated network);
      LabRpcService.v (the same file: services, dispatch of encoded calls,
      [Call] from end to end); Labgob.v (labgob/labgob.go); RaftConfig.v
      (raft/config.go: partitions and the checks of committed entries and
      leaders); RaftAgree.v (the same file: [one], [wait], the waiting checks
      and the statistics, over the class [TestWorld] of clusters under test).
    - Key-value store. Fnv.v (hash/fnv); ShardMap.v (kv/shardmap.go,
      kv/util.go, with [Listeners] for updates and shutdown); FileShardMap.v
      (kv/file_shardmap.go); KvServer.v (kv/server.go: the operations of a
      node); KvNode.v (the same file: a node's constructor, listen loop,
      requests and shutdown as interleaved steps); KvCluster.v (several nodes
      that copy shards from each other while the map changes); KvClient.v
      (kv/client.go against the interface [KvNodes], with what the client sees
      of the nodes in [KvView] and the laws in [KvNodesLaws], and [Pool] for
      kv/clientpool.go); KvSystem.v (servers, pool and clock as an instance of
      that interface, which discharges the laws); Strconv.v and KvCommands.v
      (cmd/client, cmd/server, logging: the command line on that interface,
      and the start of a node); ShardWorkflows.v (kv/test/test_setup.go:
      moving shards, draining nodes, the maps of the tests); KvTestPool.v
      (kv/test/test_clientpool.go and the constructors of test_setup.go);
      Checker.v (checker/checker.go beside an atomic register); StressTester.v
      (cmd/stress/tester.go with the checker); KvTestSetup.v
      (kv/test/test_setup.go: the client on the setups of the tests, a second
      instance of the interface, [Shutdown] and [RunTestWith]).
    - lab0. Queue.v, Semaphore.v, Merge.v, ParallelFetcher.v.
    - lab1 and lab2. Backend.v (failure injection, user and video service);
      DetBcrypt.v (det_bcrypt); Ranker.v (ranker); VideoRec.v
      (video_rec_service, with the mock clients as an instance of
      [Backends]); VideoRecPool.v (lab2: the pool and the handlers on it);
      LoadGen.v (cmd/loadgen); Logging.v (logging: loggers and the
      interceptor); Deployment.v (the programs of the three services and the
      services together); Frontend.v (cmd/frontend and cmd/stats, alone and
      against the deployment).

    ** What the theorems show

    - Raft: election safety, one vote per term, log matching, leader
      append-only, the commit rule, replication by successful calls and
      in-order application for every crash-free execution; well-formed peers,
      messages and stable storage, absence of panics in the handlers
      of remote calls, in starting elections and in restarts, and recovery of
      persisted state, with any number of crashes. State machine safety,
      leader completeness and the absence of panics when entries are applied
      hold for every crash-free execution in which a peer that becomes leader
      has no [matchIndex] left of an earlier term, as when no peer wins two
      elections. The three defects of the code (a vote that is not persisted,
      [matchIndex] that is not reset, a deposed leader without a timer) are
      proved as runs: without that condition state machine safety does not
      hold of this program.
    - Network and harness: calls are executed at most once, by a server that
      their end was connected to, and replies are genuine; a delivered call is
      transparent for what gob transmits, from its arguments to its reply, and
      dispatching over encoded bytes refines dispatching over values; the
      checks of labgob terminate and are complete; partitions are exact; the
      checks of committed entries and of leaders are sound and complete; [one]
      returns only an index on which the servers agree, and it always returns
      or stops the test; the index is one at which a server of the run
      accepted the command.
    - Key-value store: a node serves a key exactly for its time to live, keeps
      every item in its shard, and copies items with their remaining time;
      when its updates do not overlap, maps are valid and keep their number of
      shards, the map stands still during an update and peers do not panic
      ([KvNode.calm]), no interleaving of updates with requests panics, they
      all finish while the peers' calls return, and the node then hosts
      exactly its assigned shards (overlapping updates can panic, which is a
      run of KvNode.v); the client reads what it wrote and is available as
      long as one replica is; shard map validity, lookups, updates and the
      deadlock of shutdown with update; a change of the map that gives a shard
      at most one new host never panics, can always be completed and loses
      nothing, so draining a node and moving a shard keep every value readable
      on every host (an abrupt move does lose the data, which is a run of
      KvCluster.v); what the command line stores it shows until its time to
      live has passed; a test client without overrides is transparent, a fresh
      setup stores what it is given, and [Shutdown] closes every listener; the
      checker accepts every value an atomic register returns; the stress
      tester keeps its counters and its permits, and does not panic (its wait
      group and its semaphore included) while values are distinct and the
      client's calls return.
    - lab0: FIFO order, merging, cancellation, the concurrency limit, and what
      the semaphore does and does not guarantee.
    - lab1 and lab2: correctness of batching, ranking, limits and fallback,
      consistency of the generated databases, round trips of base64 and of
      generated hashes, fairness of the pool; the pooled service refines the
      one of lab1, and the service with its interceptor the one without; the
      three programs started with compatible flags and addresses answer every
      sequence of requests with limits of zero or more for the users that the
      clients ask for; the test client meets no error of the services, but may
      fail to dial, or wait beyond its deadlines; the load generator counts
      right (its report may not).

    ** Fuel and bounds

    Loops over slices are structural. The batching loops of VideoRec.v take
    one unit of fuel per batch; [batching_correct] shows that as many units as
    there are ids are enough for every positive batch size, and
    [zero_batch_never_returns] that none are enough for zero. The retry loop
    of [retrieveShardData] has as many iterations as there are nodes.
    [checkType] needs one unit per type of the program and one more
    ([checkType_complete]); [checkDefault1] stops at depth 3, so 4 are enough.
    [one] takes 500 rounds of at most 250 polls: a round or a poll sleeps, and
    these cover its 25 seconds and the 5 of a round ([one_terminates]). Where
    random draws decide how long a loop runs, the draws are a list and its end
    is [Block] ([ShardWorkflows.find_shard], [pick_replicas]). No bound is
    placed on the number of peers, messages, keys or steps.

    ** Not modelled

    The texts of messages and the formatting of floats; how long things take:
    the timeouts of the test client's contexts are arguments of its calls,
    which may exceed them, other contexts have none; the serving of gRPC;
    protobuf-generated code; raft/util.go, which prints debug output; the
    bytes of gob (the persister stores the encoded values, and encoded calls
    go through [LabRpcService.Gob]); names, e-mails and URLs of generated
    users and videos; random names and the seed of config.go; the pace of rate
    limiters; the memory model below the level of locks and atomics. The files
    of lab2 that are identical to lab1's are not modelled a second time.
    KvCluster.v leaves out requests that write while shards move: those can be
    overwritten by a copy ([KvServer.copy_overwrites_set]). It publishes the
    next map once the cluster has settled ([KvCluster.follows]); in
    test_setup.go the second handling of an unchanged map may overlap the next
    [Update]. Crashes are part of the executable cluster and of RaftTypes.v,
    but not of the protocol's invariants, which do not survive them
    (RaftRuns.v).

    ** Plan

    Left for later: variants of the Raft invariants under crashes that isolate
    what persisting the vote would give; writes in KvCluster.v, for shards
    that are not being copied. *)

From Stdlib Require Import ZArith Lia.
From stdpp Require Import prelude gmap strings.

(** ** Outcomes of Go code

    A Go statement returns normally, panics (index out of range, nil
    dereference, an explicit [panic]) or blocks for ever (a send on a full
    channel nobody will drain, [select {}]). *)

Inductive go (A : Type) : Type :=
| Ret (a : A)
| Panic
| Block.
Arguments Ret {A} a.
Arguments Panic {A}.
Arguments Block {A}.

#[export] Instance go_ret : MRet go := @Ret.
#[export] Instance go_bind : MBind go := fun A B f m =>
  match m with Ret a => f a | Panic => Panic | Block => Block end.

Declare Scope go_scope.
Delimit Scope go_scope with go.
Notation "'let!' x ':=' m 'in' k" := (mbind (M := go) (fun x => k) m)
  (at level 10, x name, m at level 100, k at level 200) : go_scope.
Notation "'let!' ' p ':=' m 'in' k" := (mbind (M := go) (fun p => k) m)
  (at level 10, p strict pattern, m at level 100, k at level 200) : go_scope.
Open Scope go_scope.

(** [returns m]: the code neither panics nor blocks. *)
Definition returns {A} (m : go A) : Prop := exists a, m = Ret a.

(** ** Slices: indexing and slicing panic outside the bounds *)

Section Slices.
Context {A : Type}.

Definition go_index (l : list A) (i : Z) : go A :=
  if (i <? 0)%Z then Panic
  else match l !! Z.to_nat i with Some x => Ret x | None => Panic end.

Definition go_update (l : list A) (i : Z) (x : A) : go (list A) :=
  if ((i <? 0) || (Z.of_nat (length l) <=? i))%Z then Panic
  else Ret (<[Z.to_nat i := x]> l).

(** [l[lo:]], [l[:hi]] and [l[lo:hi]]. Go compares [hi] with the capacity;
    the model takes it to be the length, as it is for a slice made by [make],
    which is what raft.go cuts its log with. *)
Definition go_from (l : list A) (lo : Z) : go (list A) :=
  if ((lo <? 0) || (Z.of_nat (length l) <? lo))%Z then Panic
  else Ret (drop (Z.to_nat lo) l).

Definition go_upto (l : list A) (hi : Z) : go (list A) :=
  if ((hi <? 0) || (Z.of_nat (length l) <? hi))%Z then Panic
  else Ret (take (Z.to_nat hi) l).

Definition go_range (l : list A) (lo hi : Z) : go (list A) :=
  if ((lo <? 0) || (hi <? lo) || (Z.of_nat (length l) <? hi))%Z then Panic
  else Ret (take (Z.to_nat (hi - lo)) (drop (Z.to_nat lo) l)).

Definition len (l : list A) : Z := Z.of_nat (length l).

Lemma go_index_Ret l i x :
  go_index l i = Ret x <-> (0 <= i)%Z /\ l !! Z.to_nat i = Some x.
Proof.
  unfold go_index. destruct (Z.ltb_spec i 0); [split; [done|lia]|].
  destruct (l !! Z.to_nat i); naive_solver.
Qed.

Lemma go_index_nat l i x : l !! i = Some x -> go_index l (Z.of_nat i) = Ret x.
Proof. intros H. apply go_index_Ret. rewrite Nat2Z.id. split; [lia|done]. Qed.

Lemma go_index_returns l i : (0 <= i < len l)%Z -> returns (go_index l i).
Proof.
  intros Hi. unfold len in Hi.
  destruct (lookup_lt_is_Some_2 l (Z.to_nat i)) as [x Hx]; [lia|].
  exists x. apply go_index_Ret. split; [lia|done].
Qed.

Lemma go_update_Ret l i x l' :
  go_update l i x = Ret l' <-> (0 <= i < len l)%Z /\ l' = <[Z.to_nat i := x]> l.
Proof.
  unfold go_update, len.
  destruct (Z.ltb_spec i 0), (Z.leb_spec (Z.of_nat (length l)) i); simpl;
    split; naive_solver lia.
Qed.

Lemma go_from_Ret l lo l' :
  go_from l lo = Ret l' <-> (0 <= lo <= len l)%Z /\ l' = drop (Z.to_nat lo) l.
Proof.
  unfold go_from, len.
  destruct (Z.ltb_spec lo 0), (Z.ltb_spec (Z.of_nat (length l)) lo); simpl;
    split; naive_solver lia.
Qed.

Lemma go_upto_Ret l hi l' :
  go_upto l hi = Ret l' <-> (0 <= hi <= len l)%Z /\ l' = take (Z.to_nat hi) l.
Proof.
  unfold go_upto, len.
  destruct (Z.ltb_spec hi 0), (Z.ltb_spec (Z.of_nat (length l)) hi); simpl;
    split; naive_solver lia.
Qed.

Lemma go_range_Ret l lo hi l' :
  go_range l lo hi = Ret l' <->
  (0 <= lo <= hi)%Z /\ (hi <= len l)%Z /\
  l' = take (Z.to_nat (hi - lo)) (drop (Z.to_nat lo) l).
Proof.
  unfold go_range, len.
  destruct (Z.ltb_spec lo 0), (Z.ltb_spec hi lo),
    (Z.ltb_spec (Z.of_nat (length l)) hi); simpl; split; naive_solver lia.
Qed.

End Slices.

#[global] Arguments go_index : simpl never.
#[global] Arguments go_update : simpl never.
#[global] Arguments go_from : simpl never.
#[global] Arguments go_upto : simpl never.
#[global] Arguments go_range : simpl never.

(** A loop [for _, x := range l] over a state. *)
Fixpoint go_fold {A S} (f : S -> A -> go S) (s : S) (l : list A) : go S :=
  match l with
  | [] => Ret s
  | x :: l' => let! s' := f s x in go_fold f s' l'
  end.

(** ** Binding *)

Lemma bind_Ret {A B} (m : go A) (f : A -> go B) b :
  (let! x := m in f x) = Ret b <-> exists a, m = Ret a /\ f a = Ret b.
Proof. destruct m; naive_solver. Qed.

Lemma Ret_inj {A} (a b : A) : Ret a = Ret b -> a = b.
Proof. congruence. Qed.

Lemma bind_returns {A B} (m : go A) (f : A -> go B) :
  returns m -> (forall a, m = Ret a -> returns (f a)) -> returns (let! x := m in f x).
Proof. intros [a ->] H. apply (H a). reflexivity. Qed.

Lemma go_fold_app {A S} (f : S -> A -> go S) s l1 l2 :
  go_fold f s (l1 ++ l2) = let! s' := go_fold f s l1 in go_fold f s' l2.
Proof.
  revert s. induction l1 as [|x l1 IH]; intros s; [done|]. cbn.
  destruct (f s x); [apply IH|done|done].
Qed.

(** Induction over a fold with an invariant. *)
Lemma go_fold_inv {A S} (P : S -> Prop) (f : S -> A -> go S) s l s' :
  P s -> (forall s x s', x ∈ l -> P s -> f s x = Ret s' -> P s') ->
  go_fold f s l = Ret s' -> P s'.
Proof.
  revert s. induction l as [|x l IH]; cbn; intros s Hs Hstep H; [naive_solver|].
  apply bind_Ret in H as (s1 & H1 & H2).
  apply (IH s1); [|intros; eapply Hstep; [right|..]; eauto|done].
  eapply Hstep; [left|..]; eauto.
Qed.

(** ** Tactics *)

(** Invert every hypothesis that says a piece of code returned. *)
Ltac go_inv1 :=
  match goal with
  | H : Ret _ = Ret _ |- _ => apply Ret_inj in H; simplify_eq
  | H : Panic = Ret _ |- _ => discriminate H
  | H : Block = Ret _ |- _ => discriminate H
  | H : Ret _ = Panic |- _ => discriminate H
  | H : mret _ = Ret _ |- _ => cbn in H
  | H : mbind _ _ = Ret _ |- _ => apply bind_Ret in H as (? & ? & H)
  | H : (let (_, _) := ?p in _) = Ret _ |- _ => destruct p eqn:?
  | H : (if ?b then _ else _) = Ret _ |- _ => destruct b eqn:?
  | H : go_index _ _ = Ret _ |- _ => apply go_index_Ret in H as [? ?]
  | H : go_update _ _ _ = Ret _ |- _ => apply go_update_Ret in H as [? ?]; subst
  | H : go_from _ _ = Ret _ |- _ => apply go_from_Ret in H as [? ?]; subst
  | H : go_upto _ _ = Ret _ |- _ => apply go_upto_Ret in H as [? ?]; subst
  | H : go_range _ _ _ = Ret _ |- _ => apply go_range_Ret in H as (? & ? & ?); subst
  end.
Ltac go_inv := repeat (go_inv1; simpl in *).

(** Boolean comparisons of the code as propositions. *)
Ltac bprop :=
  repeat match goal with
  | H : andb _ _ = true |- _ => apply andb_true_iff in H as [? ?]
  | H : andb _ _ = false |- _ => apply andb_false_iff in H
  | H : orb _ _ = true |- _ => apply orb_true_iff in H
  | H : orb _ _ = false |- _ => apply orb_false_iff in H as [? ?]
  | H : negb _ = true |- _ => apply negb_true_iff in H
  | H : negb _ = false |- _ => apply negb_false_iff in H
  | H : (_ =? _)%Z = true |- _ => apply Z.eqb_eq in H
  | H : (_ =? _)%Z = false |- _ => apply Z.eqb_neq in H
  | H : (_ <? _)%Z = true |- _ => apply Z.ltb_lt in H
  | H : (_ <? _)%Z = false |- _ => apply Z.ltb_ge in H
  | H : (_ <=? _)%Z = true |- _ => apply Z.leb_le in H
  | H : (_ <=? _)%Z = false |- _ => apply Z.leb_gt in H
  | H : (_ =? _)%nat = true |- _ => apply Nat.eqb_eq in H
  | H : (_ =? _)%nat = false |- _ => apply Nat.eqb_neq in H
  end.

Create HintDb golib.
#[export] Hint Resolve go_index_returns : golib.

(** ** Quorums: two majorities of [0..n-1] share a member *)

Definition majority (n : nat) (Q : list nat) : Prop :=
  NoDup Q /\ (n / 2 < length Q)%nat /\ forall q, q ∈ Q -> (q < n)%nat.

Lemma length_bounded_NoDup (n : nat) (Q : list nat) :
  NoDup Q -> (forall q, q ∈ Q -> (q < n)%nat) -> (length Q <= n)%nat.
Proof.
  intros Hnd Hb. rewrite <- (length_seq n 0).
  apply submseteq_length, NoDup_submseteq; [done|].
  intros q Hq. apply elem_of_seq. specialize (Hb q Hq). lia.
Qed.

Lemma majority_intersect n Q1 Q2 :
  majority n Q1 -> majority n Q2 -> exists q, q ∈ Q1 /\ q ∈ Q2.
Proof.
  intros (Hn1 & Hl1 & Hb1) (Hn2 & Hl2 & Hb2).
  destruct (decide (Exists (fun q => q ∈ Q2) Q1)) as [H|H].
  { apply Exists_exists in H as (q & ? & ?). by exists q. }
  exfalso.
  assert (length (Q1 ++ Q2) <= n)%nat as Hle.
  { apply length_bounded_NoDup.
    - apply NoDup_app. split; [done|]. split; [|done].
      intros q ? ?. apply H, Exists_exists. by exists q.
    - intros q [?|?]%elem_of_app; eauto. }
  rewrite length_app in Hle. pose proof (Nat.div_mod_eq n 2).
  pose proof (Nat.mod_upper_bound n 2). lia.
Qed.

(** ** Removing one element of a list *)

Lemma lookup_delete_perm {A} (l : list A) k x :
  l !! k = Some x -> l ≡ₚ x :: delete k l.
Proof. apply delete_Permutation. Qed.

Lemma omap_delete_sublist {A B} (f : A -> option B) (l : list A) k :
  omap f (delete k l) `sublist_of` omap f l.
Proof.
  revert k. induction l as [|x l IH]; intros [|k]; cbn; [done|done|..].
  - destruct (f x); [by apply sublist_cons|done].
  - destruct (f x); [apply sublist_skip|]; apply IH.
Qed.

(** ** Round robin: a rotation of [0..n-1] meets every index *)

Lemma rotation_covers (n start k : Z) :
  (0 <= k < n)%Z -> exists i : nat, (Z.of_nat i < n)%Z /\ ((start + Z.of_nat i) mod n)%Z = k.
Proof.
  intros Hk. exists (Z.to_nat ((k - start) mod n)).
  pose proof (Z.mod_pos_bound (k - start) n). rewrite Z2Nat.id by lia. split; [lia|].
  rewrite Zplus_mod_idemp_r. replace (start + (k - start))%Z with k by lia. by apply Z.mod_small.
Qed.
