(* ===== verification/Persister.v ===== *)
(** * lab3/raft/persister.go: the stable storage of a Raft peer

    The byte slices are lists over an arbitrary unit [B]; [clone] copies the
    contents, so a nil slice and an empty one are the same value here, as they
    are for every reader ([len(data) < 1]). *)

From S2P Require Import Prelude.
From stdpp Require Import prelude.

Section Persister.
Context {B : Type}.

Record Persister : Type := mkPersister {
  raftstate : list B;
  snapshot : list B
}.

Definition MakePersister : Persister := mkPersister [] [].

(** [x := make([]byte, len(orig)); copy(x, orig)]: a zeroed slice overwritten
    element by element. *)
Definition copy_into (dst src : list B) : list B :=
  take (length dst) src ++ drop (length src) dst.

Definition clone (zero : B) (orig : list B) : list B :=
  copy_into (replicate (length orig) zero) orig.

Definition Copy (ps : Persister) : Persister :=
  mkPersister (raftstate ps) (snapshot ps).

Definition SaveRaftState (zero : B) (state : list B) (ps : Persister) : Persister :=
  mkPersister (clone zero state) (snapshot ps).

Definition ReadRaftState (zero : B) (ps : Persister) : list B :=
  clone zero (raftstate ps).

Definition RaftStateSize (ps : Persister) : Z := len (raftstate ps).

Definition SaveStateAndSnapshot (zero : B) (state snap : list B) (ps : Persister) : Persister :=
  mkPersister (clone zero state) (clone zero snap).

Definition ReadSnapshot (zero : B) (ps : Persister) : list B :=
  clone zero (snapshot ps).

Definition SnapshotSize (ps : Persister) : Z := len (snapshot ps).

Lemma clone_id zero orig : clone zero orig = orig.
Proof.
  unfold clone, copy_into. rewrite length_replicate, firstn_all.
  rewrite drop_ge; [apply app_nil_r|]. by rewrite length_replicate.
Qed.

End Persister.
Arguments Persister B : clear implicits.
#[export] Hint Rewrite @clone_id : golib.

(** What [crash1] of lab3/raft/config.go does with the persister of a server
    that goes down: copy it, then save both parts into a fresh one. *)
Definition crash_persister {B} (zero : B) (ps : Persister B) : Persister B :=
  let saved := Copy ps in
  let raftlog := ReadRaftState zero saved in
  let snap := ReadSnapshot zero saved in
  SaveStateAndSnapshot zero raftlog snap MakePersister.

Lemma crash_persister_id {B} (zero : B) ps : crash_persister zero ps = ps.
Proof.
  unfold crash_persister, SaveStateAndSnapshot, ReadRaftState, ReadSnapshot.
  rewrite !clone_id. by destruct ps.
Qed.

Lemma save_read {B} (zero : B) data ps :
  ReadRaftState zero (SaveRaftState zero data ps) = data
  /\ ReadSnapshot zero (SaveRaftState zero data ps) = snapshot ps.
Proof. split; unfold ReadRaftState, ReadSnapshot, SaveRaftState; by rewrite ?clone_id. Qed.
