(* ===== verification/Raft.v ===== *)
(** * lab3/raft/raft.go: one Raft peer

    Every function below is the body of the Go function of the same name that
    runs while [rf.mu] is held, so each is one atomic action of the peer.
    Goroutines started with [go] are returned as a list of [proc]s.

    - Terms and indices are Go [int]s; they are modelled by [Z] without
      wrap-around (a term or an index grows by one per election or command).
    - [Command interface{}] is [option C], [None] being the nil interface.
    - A [time.Timer] is the boolean "it is armed"; [Reset] arms it, and a
      timer whose channel has been received from is not armed.
    - [hasCommittedChan] carries no data: it is the number of buffered
      signals. A send that finds [1000] of them is [Block]: the action waits
      for [applyEntries] to receive one (the program waits with [rf.mu] held).
    - The receive from a timer and the locked block that follows are one
      action. So are an iteration of [applyEntries] and its sends: nobody else
      touches [lastApplied] or [applyCh].
    - The captured variable [totalVotes] of [conductElection] is kept in the
      peer, per election (an election is named by its term).
    - Slicing is checked against the length of the slice, not its capacity. *)

From S2P Require Import Prelude Persister.
From stdpp Require Import prelude gmap.

Inductive role := Follower | Candidate | Leader.

#[export] Instance role_eq_dec : EqDecision role.
Proof. solve_decision. Defined.

Definition is_leader (r : role) : bool := bool_decide (r = Leader).
Definition is_candidate (r : role) : bool := bool_decide (r = Candidate).

Section Raft.
Context {C : Type}.

Record ApplyMsg : Type := mkApplyMsg {
  CommandValid : bool;
  am_Command : option C;
  CommandIndex : Z;
  CommandTerm : Z
}.

Record LogEntry : Type := mkEntry {
  le_Term : Z;
  le_Command : option C;
  le_Index : Z
}.

(** What [labgob] writes for the values [persist] encodes, one element per
    call of [Encode]. *)
Inductive gobval : Type :=
| GInt (z : Z)
| GLog (l : list LogEntry).

Record Raft : Type := mkRaft {
  peers : nat;
  persister : Persister gobval;
  me : nat;
  dead : bool;
  currentTerm : Z;
  votedFor : Z;
  log : list LogEntry;
  state : role;
  electionTimeout : Z;
  heartbeatTime : bool;
  electionTime : bool;
  applyCh : list ApplyMsg;
  commitIndex : Z;
  nextIndex : list Z;
  matchIndex : list Z;
  lastApplied : Z;
  hasCommittedChan : nat;
  totalVotes : gmap Z Z
}.

Record AppendEntriesArgs : Type := mkAEArgs {
  ae_Term : Z;
  ae_LeaderId : Z;
  ae_PrevLogIndex : Z;
  ae_PrevLogTerm : Z;
  ae_Entries : list LogEntry;
  ae_LeaderCommit : Z
}.

Record AppendEntriesReply : Type := mkAEReply {
  aer_Term : Z;
  aer_Success : bool
}.

Record RequestVoteArgs : Type := mkRVArgs {
  rv_Term : Z;
  rv_CandidateId : Z;
  rv_LastLogIndex : Z;
  rv_LastLogTerm : Z
}.

Record RequestVoteReply : Type := mkRVReply {
  rvr_Term : Z;
  rvr_VoteGranted : bool
}.

(** The goroutines of the program, at the points where they wait for the
    network or for [rf.mu]. The first [nat] is the peer that runs them. *)
Inductive proc : Type :=
| PSendRV (src peer : nat) (args : RequestVoteArgs)
    (* conductElection: inside sendRequestVote *)
| PVoteReply (src peer : nat) (args : RequestVoteArgs) (reply : RequestVoteReply)
    (* conductElection: the call returned true *)
| PHandleAE (src server : nat) (expected : Z) (args : AppendEntriesArgs)
    (* handleAppendEntries: not started *)
| PSentAE (src server : nat) (expected : Z) (args : AppendEntriesArgs)
    (* handleAppendEntries: inside sendAppendEntries *)
| PRespAE (src server : nat) (expected : Z) (args : AppendEntriesArgs)
    (reply : AppendEntriesReply)
    (* handleAppendEntries: the call returned true *)
| PPersist (src : nat).
    (* handleAppendEntries: the deferred rf.mu.Lock(); rf.persist() *)

(** ** Field updates *)

Definition set_persister v rf :=
  mkRaft (peers rf) v (me rf) (dead rf) (currentTerm rf) (votedFor rf) (log rf) (state rf) (electionTimeout rf) (heartbeatTime rf) (electionTime rf) (applyCh rf) (commitIndex rf) (nextIndex rf) (matchIndex rf) (lastApplied rf) (hasCommittedChan rf) (totalVotes rf).
Definition set_dead v rf :=
  mkRaft (peers rf) (persister rf) (me rf) v (currentTerm rf) (votedFor rf) (log rf) (state rf) (electionTimeout rf) (heartbeatTime rf) (electionTime rf) (applyCh rf) (commitIndex rf) (nextIndex rf) (matchIndex rf) (lastApplied rf) (hasCommittedChan rf) (totalVotes rf).
Definition set_currentTerm v rf :=
  mkRaft (peers rf) (persister rf) (me rf) (dead rf) v (votedFor rf) (log rf) (state rf) (electionTimeout rf) (heartbeatTime rf) (electionTime rf) (applyCh rf) (commitIndex rf) (nextIndex rf) (matchIndex rf) (lastApplied rf) (hasCommittedChan rf) (totalVotes rf).
Definition set_votedFor v rf :=
  mkRaft (peers rf) (persister rf) (me rf) (dead rf) (currentTerm rf) v (log rf) (state rf) (electionTimeout rf) (heartbeatTime rf) (electionTime rf) (applyCh rf) (commitIndex rf) (nextIndex rf) (matchIndex rf) (lastApplied rf) (hasCommittedChan rf) (totalVotes rf).
Definition set_log v rf :=
  mkRaft (peers rf) (persister rf) (me rf) (dead rf) (currentTerm rf) (votedFor rf) v (state rf) (electionTimeout rf) (heartbeatTime rf) (electionTime rf) (applyCh rf) (commitIndex rf) (nextIndex rf) (matchIndex rf) (lastApplied rf) (hasCommittedChan rf) (totalVotes rf).
Definition set_state v rf :=
  mkRaft (peers rf) (persister rf) (me rf) (dead rf) (currentTerm rf) (votedFor rf) (log rf) v (electionTimeout rf) (heartbeatTime rf) (electionTime rf) (applyCh rf) (commitIndex rf) (nextIndex rf) (matchIndex rf) (lastApplied rf) (hasCommittedChan rf) (totalVotes rf).
Definition set_heartbeatTime v rf :=
  mkRaft (peers rf) (persister rf) (me rf) (dead rf) (currentTerm rf) (votedFor rf) (log rf) (state rf) (electionTimeout rf) v (electionTime rf) (applyCh rf) (commitIndex rf) (nextIndex rf) (matchIndex rf) (lastApplied rf) (hasCommittedChan rf) (totalVotes rf).
Definition set_electionTime v rf :=
  mkRaft (peers rf) (persister rf) (me rf) (dead rf) (currentTerm rf) (votedFor rf) (log rf) (state rf) (electionTimeout rf) (heartbeatTime rf) v (applyCh rf) (commitIndex rf) (nextIndex rf) (matchIndex rf) (lastApplied rf) (hasCommittedChan rf) (totalVotes rf).
Definition set_applied v a rf :=
  mkRaft (peers rf) (persister rf) (me rf) (dead rf) (currentTerm rf) (votedFor rf) (log rf) (state rf) (electionTimeout rf) (heartbeatTime rf) (electionTime rf) a (commitIndex rf) (nextIndex rf) (matchIndex rf) v (hasCommittedChan rf) (totalVotes rf).
Definition set_commitIndex v rf :=
  mkRaft (peers rf) (persister rf) (me rf) (dead rf) (currentTerm rf) (votedFor rf) (log rf) (state rf) (electionTimeout rf) (heartbeatTime rf) (electionTime rf) (applyCh rf) v (nextIndex rf) (matchIndex rf) (lastApplied rf) (hasCommittedChan rf) (totalVotes rf).
Definition set_nextIndex v rf :=
  mkRaft (peers rf) (persister rf) (me rf) (dead rf) (currentTerm rf) (votedFor rf) (log rf) (state rf) (electionTimeout rf) (heartbeatTime rf) (electionTime rf) (applyCh rf) (commitIndex rf) v (matchIndex rf) (lastApplied rf) (hasCommittedChan rf) (totalVotes rf).
Definition set_matchIndex v rf :=
  mkRaft (peers rf) (persister rf) (me rf) (dead rf) (currentTerm rf) (votedFor rf) (log rf) (state rf) (electionTimeout rf) (heartbeatTime rf) (electionTime rf) (applyCh rf) (commitIndex rf) (nextIndex rf) v (lastApplied rf) (hasCommittedChan rf) (totalVotes rf).
Definition set_hasCommitted v rf :=
  mkRaft (peers rf) (persister rf) (me rf) (dead rf) (currentTerm rf) (votedFor rf) (log rf) (state rf) (electionTimeout rf) (heartbeatTime rf) (electionTime rf) (applyCh rf) (commitIndex rf) (nextIndex rf) (matchIndex rf) (lastApplied rf) v (totalVotes rf).
Definition set_totalVotes v rf :=
  mkRaft (peers rf) (persister rf) (me rf) (dead rf) (currentTerm rf) (votedFor rf) (log rf) (state rf) (electionTimeout rf) (heartbeatTime rf) (electionTime rf) (applyCh rf) (commitIndex rf) (nextIndex rf) (matchIndex rf) (lastApplied rf) (hasCommittedChan rf) v.

(** ** Helpers of the code *)

(** [rf.log[0].Index] *)
Definition log_base (l : list LogEntry) : go Z :=
  let! e := go_index l 0 in Ret (le_Index e).

Definition lastLogTerm (rf : Raft) : go Z :=
  if (len (log rf) =? 0)%Z then Ret (-1)%Z
  else let! e := go_index (log rf) (len (log rf) - 1) in Ret (le_Term e).

Definition lastLogIndex (rf : Raft) : go Z :=
  let! e := go_index (log rf) (len (log rf) - 1) in Ret (le_Index e).

(** [rf.hasCommittedChan <- struct{}{}] on the channel of capacity 1000 *)
Definition chan_capacity : nat := 1000.
Definition signal_commit (rf : Raft) : go Raft :=
  if (hasCommittedChan rf <? chan_capacity)%nat
  then Ret (set_hasCommitted (S (hasCommittedChan rf)) rf) else Block.

(** The encoder into a buffer is taken not to fail on these three values (the
    code ignores its errors), and the stored bytes are the encoded values. *)
Definition persist (rf : Raft) : Raft :=
  let data := [GInt (currentTerm rf); GInt (votedFor rf); GLog (log rf)] in
  set_persister (SaveRaftState (GInt 0) data (persister rf)) rf.

Definition readPersist (data : list gobval) (rf : Raft) : go Raft :=
  if (len data <? 1)%Z then Ret rf
  else match data with
       | GInt ct :: GInt vf :: GLog l :: _ =>
           Ret (set_log l (set_votedFor vf (set_currentTerm ct rf)))
       | _ => Panic
       end.

Definition GetState (rf : Raft) : Z * bool := (currentTerm rf, is_leader (state rf)).

Definition Kill (rf : Raft) : Raft := set_dead true rf.
Definition killed (rf : Raft) : bool := dead rf.

(** ** Replication *)

(** The arguments [sendHeartbeats] builds for peer [i]. *)
Definition heartbeat_args (rf : Raft) (i : nat) : go (Z * AppendEntriesArgs) :=
  let! ni := go_index (nextIndex rf) (Z.of_nat i) in
  let prevLogIndex := (ni - 1)%Z in
  let! base := log_base (log rf) in
  let! prev := go_index (log rf) (prevLogIndex - base) in
  let! entries := go_from (log rf) (ni - base) in
  Ret ((ni + len entries)%Z,
       mkAEArgs (currentTerm rf) (Z.of_nat (me rf)) prevLogIndex (le_Term prev)
         entries (commitIndex rf)).

Definition sendHeartbeats (rf : Raft) : go (list proc) :=
  go_fold (fun ps i =>
    if (i =? me rf)%nat then Ret ps
    else let! ea := heartbeat_args rf i in
         Ret (ps ++ [PHandleAE (me rf) i ea.1 ea.2]))
    [] (seq 0 (peers rf)).

(** The loop over [rf.peers] that counts the peers whose [matchIndex] has
    reached [m]. *)
Definition countAgrees (rf : Raft) (m : Z) : go Z :=
  go_fold (fun n i =>
    if (i =? me rf)%nat then Ret n
    else let! mi := go_index (matchIndex rf) (Z.of_nat i) in
         Ret (if (m <=? mi)%Z then (n + 1)%Z else n))
    1%Z (seq 0 (peers rf)).

Definition respAppendEntries (rf : Raft) (server : nat) (expectedNextIndex : Z)
    (args : AppendEntriesArgs) (reply : AppendEntriesReply) : go (Raft * list proc) :=
  if is_leader (state rf) && (ae_Term args =? currentTerm rf)%Z then
    if (currentTerm rf <? aer_Term reply)%Z then
      let rf := persist rf in
      Ret (set_electionTime true
             (set_currentTerm (aer_Term reply)
                (set_votedFor (-1) (set_state Follower rf))), [])
    else if aer_Success reply then
      let! ni := go_index (nextIndex rf) (Z.of_nat server) in
      let! rf :=
        (if (ni + len (ae_Entries args) =? expectedNextIndex)%Z then
           let! nis := go_update (nextIndex rf) (Z.of_nat server) expectedNextIndex in
           let! mis := go_update (matchIndex rf) (Z.of_nat server) (expectedNextIndex - 1)%Z in
           Ret (set_matchIndex mis (set_nextIndex nis rf))
         else Ret rf) in
      let! mi := go_index (matchIndex rf) (Z.of_nat server) in
      let! numAgreesToCommit := countAgrees rf mi in
      let majorityThreshold := (Z.of_nat (peers rf) / 2)%Z in
      let! base := log_base (log rf) in
      let! e := go_index (log rf) (mi - base) in
      let isLogEntryInCurrentTerm := (le_Term e =? currentTerm rf)%Z in
      if (majorityThreshold <? numAgreesToCommit)%Z && isLogEntryInCurrentTerm then
        let! rf := signal_commit (set_commitIndex (Z.max (commitIndex rf) mi) rf) in
        Ret (rf, [])
      else Ret (rf, [])
    else
      let! nis := go_update (nextIndex rf) (Z.of_nat server) 1%Z in
      let rf := set_nextIndex nis rf in
      let! ea := heartbeat_args rf server in
      Ret (rf, [PHandleAE (me rf) server ea.1 ea.2])
  else Ret (rf, []).

(** The first part of [handleAppendEntries], up to the remote call: either
    the call is made (the goroutine continues as [PSentAE]) or the function
    returns, which runs the deferred [persist]. *)
Definition handleAppendEntries (rf : Raft) (server : nat) (expectedNextIndex : Z)
    (args : AppendEntriesArgs) : Raft * list proc :=
  if is_leader (state rf) && (ae_Term args =? currentTerm rf)%Z
  then (rf, [PSentAE (me rf) server expectedNextIndex args])
  else (persist rf, []).

(** The loop over [request.Entries] of [AppendEntries]: at the first entry
    that is missing or has another term, the log is cut there and the rest of
    the entries is copied behind it. *)
Fixpoint mergeEntries (l entries : list LogEntry) : go (list LogEntry) :=
  match entries with
  | [] => Ret l
  | newEntry :: rest =>
      let! base := log_base l in
      let k := (le_Index newEntry - base)%Z in
      let! conflict :=
        (if (len l <=? k)%Z then Ret true
         else let! old := go_index l k in
              Ret (negb (le_Term old =? le_Term newEntry)%Z)) in
      if (conflict : bool) then
        let! kept := go_upto l k in Ret (kept ++ entries)
      else mergeEntries l rest
  end.

(** [request.PrevLogIndex > rf.lastLogIndex() ||
     rf.log[request.PrevLogIndex-rf.log[0].Index].Term != request.PrevLogTerm] *)
Definition prevMismatch (rf : Raft) (request : AppendEntriesArgs) : go bool :=
  let! last := lastLogIndex rf in
  if (last <? ae_PrevLogIndex request)%Z then Ret true
  else let! base := log_base (log rf) in
       let! e := go_index (log rf) (ae_PrevLogIndex request - base) in
       Ret (negb (le_Term e =? ae_PrevLogTerm request)%Z).

(** [if request.LeaderCommit > rf.commitIndex { ... }] *)
Definition advanceCommit (rf : Raft) (leaderCommit : Z) : go Raft :=
  if (commitIndex rf <? leaderCommit)%Z then
    let! last := lastLogIndex rf in
    signal_commit
      (set_commitIndex (if (leaderCommit <? last)%Z then leaderCommit else last) rf)
  else Ret rf.

Definition AppendEntries (rf : Raft) (request : AppendEntriesArgs)
    : go (Raft * AppendEntriesReply) :=
  if (ae_Term request <? currentTerm rf)%Z then
    Ret (persist rf, mkAEReply (currentTerm rf) false)
  else
    let rf := if (currentTerm rf <? ae_Term request)%Z
              then set_currentTerm (ae_Term request) (set_votedFor (-1) rf) else rf in
    let rf := set_electionTime true (set_state Follower rf) in
    let! base := log_base (log rf) in
    if (ae_PrevLogIndex request <? base - 1)%Z then
      Ret (persist rf, mkAEReply 0 false)
    else
      let! mismatch := prevMismatch rf request in
      if (mismatch : bool) then
        Ret (persist rf, mkAEReply (currentTerm rf) false)
      else
        let! newLog := mergeEntries (log rf) (ae_Entries request) in
        let! rf := advanceCommit (set_log newLog rf) (ae_LeaderCommit request) in
        Ret (persist rf, mkAEReply (currentTerm rf) true).

(** One iteration of the loop of [applyEntries]: either the newly committed
    entries are sent to [applyCh], or a signal is received. *)
Definition entry_msg (e : LogEntry) : ApplyMsg :=
  mkApplyMsg true (le_Command e) (le_Index e) (le_Term e).

Definition applyEntries (rf : Raft) : go Raft :=
  if (lastApplied rf <? commitIndex rf)%Z then
    let! base := log_base (log rf) in
    let! entriesToApply :=
      go_range (log rf) (lastApplied rf + 1 - base) (commitIndex rf + 1 - base) in
    if (len entriesToApply =? 0)%Z then Ret rf
    else Ret (set_applied (commitIndex rf)
                (applyCh rf ++ (entry_msg <$> entriesToApply)) rf)
  else match hasCommittedChan rf with
       | O => Block
       | S n => Ret (set_hasCommitted n rf)
       end.

(** ** Elections *)

(** The log comparison of [RequestVote]; [||] and [&&] short-circuit. *)
Definition candidateUpToDate (rf : Raft) (args : RequestVoteArgs) : go bool :=
  let! llt := lastLogTerm rf in
  if (llt <? rv_LastLogTerm args)%Z then Ret true
  else if (rv_LastLogTerm args =? llt)%Z then
    let! lli := lastLogIndex rf in Ret (lli <=? rv_LastLogIndex args)%Z
  else Ret false.

Definition RequestVote (rf : Raft) (args : RequestVoteArgs)
    : go (Raft * RequestVoteReply) :=
  let replyTerm := currentTerm rf in
  let rf := if (currentTerm rf <? rv_Term args)%Z
            then set_votedFor (-1) (set_state Follower (set_currentTerm (rv_Term args) rf))
            else rf in
  let! upToDate := candidateUpToDate rf args in
  if upToDate && ((votedFor rf =? -1) || (votedFor rf =? rv_CandidateId args))%Z then
    Ret (set_electionTime true (set_votedFor (rv_CandidateId args) rf),
         mkRVReply replyTerm true)
  else Ret (rf, mkRVReply replyTerm false).

(** [conductElection]: the vote count starts at 1 and one goroutine per peer
    sends the request. *)
Definition conductElection (rf : Raft) (request : RequestVoteArgs) : Raft * list proc :=
  (set_totalVotes (<[rv_Term request := 1%Z]> (totalVotes rf)) rf,
   (fun i => PSendRV (me rf) i request) <$>
     filter (fun i => i <> me rf) (seq 0 (peers rf))).

(** The body of such a goroutine after [sendRequestVote] returned true. *)
Definition voteReply (rf : Raft) (request : RequestVoteArgs) (response : RequestVoteReply)
    : go (Raft * list proc) :=
  if is_candidate (state rf) && (currentTerm rf =? rv_Term request)%Z then
    if (currentTerm rf <? rvr_Term response)%Z then
      let rf := persist rf in
      Ret (set_electionTime true
             (set_votedFor (-1)
                (set_currentTerm (rvr_Term response) (set_state Follower rf))), [])
    else if rvr_VoteGranted response then
      let votes := (default 0 (totalVotes rf !! rv_Term request) + 1)%Z in
      let rf := set_totalVotes (<[rv_Term request := votes]> (totalVotes rf)) rf in
      if (Z.of_nat (peers rf) / 2 <? votes)%Z then
        let rf := set_nextIndex (replicate (length (nextIndex rf)) (commitIndex rf + 1)%Z) rf in
        let rf := set_state Leader rf in
        let! ps := sendHeartbeats rf in
        Ret (set_heartbeatTime true rf, ps)
      else Ret (rf, [])
    else Ret (rf, [])
  else Ret (rf, []).

(** ** The two cases of the [select] of [ticker] *)

Definition tickHeartbeat (rf : Raft) : go (Raft * list proc) :=
  let rf := set_heartbeatTime false rf in
  if is_leader (state rf) then
    let! ps := sendHeartbeats rf in
    Ret (set_heartbeatTime true rf, ps)
  else Ret (rf, []).

Definition tickElection (rf : Raft) : go (Raft * list proc) :=
  let rf := set_electionTime false rf in
  if negb (is_leader (state rf)) then
    let rf := persist rf in
    let rf := set_currentTerm (currentTerm rf + 1)%Z rf in
    let rf := set_state Candidate rf in
    let rf := set_votedFor (Z.of_nat (me rf)) rf in
    let! lli := lastLogIndex rf in
    let! llt := lastLogTerm rf in
    let '(rf, ps) :=
      conductElection rf (mkRVArgs (currentTerm rf) (votedFor rf) lli llt) in
    Ret (set_electionTime true rf, ps)
  else Ret (rf, []).

(** ** The service interface *)

Definition Start (rf : Raft) (command : option C)
    : go (Raft * list proc * (Z * Z * bool)) :=
  if is_leader (state rf) then
    let rf := persist rf in
    let term := currentTerm rf in
    let! last := lastLogIndex rf in
    let index := (last + 1)%Z in
    let rf := set_log (log rf ++ [mkEntry term command index]) rf in
    let! ps := sendHeartbeats rf in
    Ret (rf, ps, (index, term, true))
  else Ret (rf, [], ((-1)%Z, (-1)%Z, false)).

Definition Make (npeers me : nat) (ps : Persister gobval) (timeout : Z) : go Raft :=
  let rf := mkRaft npeers ps me false 0 (-1) [mkEntry 0 None 0] Follower timeout
              true true [] 0 (replicate npeers 0%Z) (replicate npeers 0%Z) 0 0 ∅ in
  readPersist (ReadRaftState (GInt 0) ps) rf.

End Raft.
Arguments ApplyMsg C : clear implicits.
Arguments LogEntry C : clear implicits.
Arguments gobval C : clear implicits.
Arguments Raft C : clear implicits.
Arguments AppendEntriesArgs C : clear implicits.
Arguments proc C : clear implicits.
#[global] Arguments log_base : simpl never.
#[global] Arguments lastLogIndex : simpl never.
#[global] Arguments lastLogTerm : simpl never.
#[global] Arguments signal_commit : simpl never.
