(* ===== verification/RaftCluster.v ===== *)
(** * A cluster of Raft peers over a lossy network

    The state is the peers and the goroutines that wait for the network or for
    a lock. One [action] is one atomic action of the program: a timer that
    fires, a goroutine that proceeds, a remote call that is lost (labrpc loses
    a request or a reply, never duplicates one), a call of [Start], one
    iteration of [applyEntries], [Kill], or a crash followed by a restart from
    the persister (config.go: [crash1], [start1]).

    [step] is executable; an action that is not enabled, or whose code does
    not return, has no successor. *)

From S2P Require Import Prelude Persister Raft.
From stdpp Require Import prelude gmap relations.

Section Cluster.
Context {C : Type}.
Notation Raft := (Raft C).
Notation proc := (proc C).

Record cluster : Type := mkCluster {
  nodes : list Raft;
  procs : list proc
}.

Inductive action : Type :=
| ATickHeartbeat (i : nat)
| ATickElection (i : nat)
| ARun (k : nat)
| ALose (k : nat)
| AStart (i : nat) (command : option C)
| AApply (i : nat)
| AKill (i : nat)
| ARestart (i : nat) (timeout : Z).

(** Replace peer [i] by what [f] makes of it, adding the goroutines [f]
    starts. *)
Definition with_node (c : cluster) (i : nat) (f : Raft -> go (Raft * list proc))
    : option cluster :=
  match nodes c !! i with
  | Some rf =>
      match f rf with
      | Ret (rf', ps) => Some (mkCluster (<[i := rf']> (nodes c)) (procs c ++ ps))
      | _ => None
      end
  | None => None
  end.

(** The next atomic action of a goroutine that has been taken off the list. *)
Definition run_proc (c : cluster) (p : proc) : option cluster :=
  match p with
  | PSendRV s d args =>
      with_node c d (fun rf =>
        let! '(rf', reply) := RequestVote rf args in
        Ret (rf', [PVoteReply s d args reply]))
  | PVoteReply s d args reply =>
      with_node c s (fun rf => voteReply rf args reply)
  | PHandleAE s d expected args =>
      with_node c s (fun rf => Ret (handleAppendEntries rf d expected args))
  | PSentAE s d expected args =>
      with_node c d (fun rf =>
        let! '(rf', reply) := AppendEntries rf args in
        Ret (rf', [PRespAE s d expected args reply]))
  | PRespAE s d expected args reply =>
      with_node c s (fun rf =>
        let! '(rf', ps) := respAppendEntries rf d expected args reply in
        Ret (rf', ps ++ [PPersist s]))
  | PPersist s => with_node c s (fun rf => Ret (persist rf, []))
  end.

(** A call that returns false: [conductElection] gives up on the peer,
    [handleAppendEntries] goes on to its deferred [persist]. *)
Definition lose_proc (c : cluster) (p : proc) : option cluster :=
  match p with
  | PSendRV _ _ _ | PVoteReply _ _ _ _ => Some c
  | PSentAE s _ _ _ | PRespAE s _ _ _ _ =>
      Some (mkCluster (nodes c) (procs c ++ [PPersist s]))
  | PHandleAE _ _ _ _ | PPersist _ => None
  end.

Definition proc_owner (p : proc) : nat :=
  match p with
  | PSendRV s _ _ | PVoteReply s _ _ _ | PHandleAE s _ _ _
  | PSentAE s _ _ _ | PRespAE s _ _ _ _ | PPersist s => s
  end.

(** What is left of a goroutine of peer [i] when [i] crashes. The client ends
    of the old incarnation are disabled, its memory and its persister are out
    of reach; but a request that the network has already accepted may still be
    executed by its receiver. The old incarnation keeps no index of its own:
    such a request belongs to [gone], which is no peer, so its answer reaches
    nobody. *)
Definition orphan (i gone : nat) (p : proc) : option proc :=
  if decide (proc_owner p = i) then
    match p with
    | PSendRV _ d args => Some (PSendRV gone d args)
    | PSentAE _ d expected args => Some (PSentAE gone d expected args)
    | _ => None
    end
  else Some p.

Definition restart (c : cluster) (i : nat) (timeout : Z) : option cluster :=
  match nodes c !! i with
  | Some rf =>
      match Make (peers rf) i (crash_persister (GInt 0) (persister rf)) timeout with
      | Ret rf' => Some (mkCluster (<[i := rf']> (nodes c))
                           (omap (orphan i (length (nodes c))) (procs c)))
      | _ => None
      end
  | None => None
  end.

Definition step (c : cluster) (a : action) : option cluster :=
  match a with
  | ATickHeartbeat i =>
      with_node c i (fun rf => if heartbeatTime rf && negb (killed rf)
                               then tickHeartbeat rf else Block)
  | ATickElection i =>
      with_node c i (fun rf => if electionTime rf && negb (killed rf)
                               then tickElection rf else Block)
  | ARun k =>
      match procs c !! k with
      | Some p => run_proc (mkCluster (nodes c) (delete k (procs c))) p
      | None => None
      end
  | ALose k =>
      match procs c !! k with
      | Some p => lose_proc (mkCluster (nodes c) (delete k (procs c))) p
      | None => None
      end
  | AStart i command =>
      with_node c i (fun rf => let! '(rf', ps, _) := Start rf command in Ret (rf', ps))
  | AApply i =>
      with_node c i (fun rf => if killed rf then Block
                               else let! rf' := applyEntries rf in Ret (rf', []))
  | AKill i => with_node c i (fun rf => Ret (Kill rf, []))
  | ARestart i timeout => restart c i timeout
  end.

Definition crash_free (a : action) : bool :=
  match a with ARestart _ _ => false | _ => true end.

Fixpoint run (c : cluster) (acts : list action) : option cluster :=
  match acts with
  | [] => Some c
  | a :: acts' => match step c a with Some c' => run c' acts' | None => None end
  end.

(** [start1] for every server of a new cluster. *)
Definition start1 (n : nat) (timeout : nat -> Z) (i : nat) : option Raft :=
  match Make n i MakePersister (timeout i) with Ret rf => Some rf | _ => None end.

Definition init (n : nat) (timeout : nat -> Z) : cluster :=
  mkCluster (omap (start1 n timeout) (seq 0 n)) [].

(** Executions without a crash. *)
Definition cstep (c c' : cluster) : Prop :=
  exists a, crash_free a = true /\ step c a = Some c'.
Definition reachable (n : nat) (timeout : nat -> Z) (c : cluster) : Prop :=
  rtc cstep (init n timeout) c.

Lemma run_rtc c acts c' :
  forallb crash_free acts = true -> run c acts = Some c' -> rtc cstep c c'.
Proof.
  revert c. induction acts as [|a acts IH]; cbn; intros c Hf H; [naive_solver|].
  apply andb_true_iff in Hf as [Ha Hf].
  destruct (step c a) as [c1|] eqn:E; [|done].
  eapply rtc_l; [exists a; eauto|eauto].
Qed.

Lemma with_node_Some c i f c' :
  with_node c i f = Some c' ->
  exists rf rf' ps, nodes c !! i = Some rf /\ f rf = Ret (rf', ps)
    /\ c' = mkCluster (<[i := rf']> (nodes c)) (procs c ++ ps).
Proof.
  unfold with_node. destruct (nodes c !! i) as [rf|]; [|done].
  destruct (f rf) as [[rf' ps]| |] eqn:E; [|done|done]. naive_solver.
Qed.

(** The shape of a step, used by every invariant proof: which goroutine has
    left the list, and which peer has executed which code. *)
Inductive shape (c c' : cluster) : Prop :=
| shape_local i rf rf' ps
    (Hi : nodes c !! i = Some rf)
    (Hc' : c' = mkCluster (<[i := rf']> (nodes c)) (procs c ++ ps))
    (Hcode : tickHeartbeat rf = Ret (rf', ps) \/ tickElection rf = Ret (rf', ps)
      \/ (exists cmd r, Start rf cmd = Ret (rf', ps, r))
      \/ (applyEntries rf = Ret rf' /\ ps = []) \/ (rf' = Kill rf /\ ps = []))
| shape_proc k p i rf rf' ps
    (Hk : procs c !! k = Some p)
    (Hi : nodes c !! i = Some rf)
    (Hc' : c' = mkCluster (<[i := rf']> (nodes c)) (delete k (procs c) ++ ps))
    (Hcode : match p with
      | PSendRV s d args => i = d /\ exists reply,
          RequestVote rf args = Ret (rf', reply) /\ ps = [PVoteReply s d args reply]
      | PVoteReply s d args reply => i = s /\ voteReply rf args reply = Ret (rf', ps)
      | PHandleAE s d e args => i = s /\ handleAppendEntries rf d e args = (rf', ps)
      | PSentAE s d e args => i = d /\ exists reply,
          AppendEntries rf args = Ret (rf', reply) /\ ps = [PRespAE s d e args reply]
      | PRespAE s d e args reply => i = s /\ exists ps0,
          respAppendEntries rf d e args reply = Ret (rf', ps0) /\ ps = ps0 ++ [PPersist s]
      | PPersist s => i = s /\ rf' = persist rf /\ ps = []
      end)
| shape_lose k p ps
    (Hk : procs c !! k = Some p)
    (Hc' : c' = mkCluster (nodes c) (delete k (procs c) ++ ps))
    (Hps : forall q, q ∈ ps -> exists s, q = PPersist s)
    (Hown : forall s, PPersist s ∈ ps -> s = proc_owner p).

Ltac with_node_inv :=
  match goal with
  | H : with_node _ _ _ = Some _ |- _ =>
      apply with_node_Some in H as (?rf & ?rf' & ?ps & ?Hi & ?Hf & ->); cbn in *
  end.

Lemma step_shape c a c' : crash_free a = true -> step c a = Some c' -> shape c c'.
Proof.
  destruct a as [i|i|k|k|i cmd|i|i|]; cbn; intros Hcf H; [..|done].
  1,2: with_node_inv; destruct (_ && _); [eapply shape_local; eauto|done].
  - destruct (procs c !! k) as [p|] eqn:Hk; [|done].
    destruct p; cbn in H; with_node_inv; eapply shape_proc; eauto; cbn;
      split; try reflexivity; go_inv; eauto; congruence.
  - destruct (procs c !! k) as [p|] eqn:Hk; [|done].
    destruct p; cbn in H; try discriminate H; injection H as <-.
    1,2: apply (shape_lose c _ k _ [] Hk); [by rewrite app_nil_r|set_solver|set_solver].
    all: eapply (shape_lose c _ k _ _ Hk); [reflexivity|set_solver|set_solver].
  - with_node_inv. go_inv. eapply shape_local; eauto 10.
  - with_node_inv. destruct (killed rf); [done|]. go_inv. eapply shape_local; eauto 10.
  - with_node_inv. go_inv. eapply shape_local; eauto 10.
Qed.

(** Goroutines of the next state come from the old state or from the step. *)
Lemma elem_of_delete_app k (l ps : list proc) q :
  q ∈ delete k l ++ ps -> q ∈ l \/ q ∈ ps.
Proof.
  rewrite elem_of_app. intros [H|H]; [left|by right].
  apply list_elem_of_lookup in H as [j Hj].
  rewrite list_lookup_delete in Hj. case_decide; eapply list_elem_of_lookup_2; eauto.
Qed.

Lemma lookup_update_Some (l : list Raft) i rf' j rf :
  <[i := rf']> l !! j = Some rf ->
  (i = j /\ rf = rf' /\ i < length l) \/ (i <> j /\ l !! j = Some rf).
Proof. rewrite list_lookup_insert_Some. naive_solver. Qed.

(** The initial peers *)
Lemma init_lookup n timeout i rf :
  nodes (init n timeout) !! i = Some rf ->
  Make n i MakePersister (timeout i) = Ret rf /\ i < n.
Proof.
  unfold init. cbn [nodes].
  assert (forall m k i, omap (start1 n timeout) (seq k m) !! i = Some rf ->
      Make n (k + i) MakePersister (timeout (k + i)) = Ret rf /\ i < m) as H.
  { induction m as [|m IH]; intros k j; [done|]. cbn. destruct j as [|j]; cbn.
    - intros [= <-]. rewrite Nat.add_0_r. split; [done|lia].
    - intros H%IH. rewrite <- Nat.add_succ_comm. split; [apply H|lia]. }
  intros HH%H. done.
Qed.

Lemma init_length n timeout : length (nodes (init n timeout)) = n.
Proof.
  unfold init. cbn [nodes].
  assert (forall m k, length (omap (start1 n timeout) (seq k m)) = m) as H; [|apply H].
  induction m as [|m IH]; intros k; cbn; [done|].
  change (S (length (omap (start1 n timeout) (seq (S k) m))) = S m). f_equal. apply IH.
Qed.

End Cluster.
Arguments cluster C : clear implicits.
Arguments action C : clear implicits.
