(* ===== verification/RaftElection.v ===== *)
(** * Elections: at most one leader per term

    The invariant is stated with two ghost histories: [V v T], the peer that
    [v] has voted for in term [T], and [Ld T], the peer that has won the
    election of term [T]. *)

From S2P Require Import Prelude Persister Raft RaftCluster.
From stdpp Require Import prelude gmap relations.

Section Election.
Context {C : Type}.
Notation Raft := (Raft C).
Notation proc := (proc C).
Notation cluster := (cluster C).

(** ** What a peer may do to its term, vote and role *)

Inductive vtrans (rf rf' : Raft) : Prop :=
| vt_stay
    (Hme : me rf' = me rf) (Hpeers : peers rf' = peers rf)
    (Htv : totalVotes rf' = totalVotes rf)
    (Hterm : currentTerm rf' = currentTerm rf)
    (Hvote : votedFor rf' = votedFor rf)
    (Hstate : state rf' = state rf \/ state rf' = Follower)
| vt_bump
    (Hme : me rf' = me rf) (Hpeers : peers rf' = peers rf)
    (Htv : totalVotes rf' = totalVotes rf)
    (Hterm : (currentTerm rf < currentTerm rf')%Z)
    (Hvote : votedFor rf' = (-1)%Z)
    (Hstate : state rf' = Follower).

Definition vote_key (p : proc) : option (nat * nat * Z) :=
  match p with
  | PSendRV s d a | PVoteReply s d a _ => Some (s, d, rv_Term a)
  | _ => None
  end.

Lemma sendHeartbeats_procs (rf : Raft) ps :
  sendHeartbeats rf = Ret ps ->
  forall p, p ∈ ps -> exists i ea, p = PHandleAE (me rf) i ea.1 ea.2
    /\ i < peers rf /\ heartbeat_args rf i = Ret ea.
Proof.
  unfold sendHeartbeats. intros H. revert H.
  apply (go_fold_inv (fun ps => forall p, p ∈ ps -> exists i ea,
    p = PHandleAE (me rf) i ea.1 ea.2 /\ i < peers rf /\ heartbeat_args rf i = Ret ea));
    [set_solver|].
  intros s x s' Hx IH Hf. cbn in Hf. go_inv; [done|].
  intros p [Hp | ->%list_elem_of_singleton]%elem_of_app; [eauto|].
  apply elem_of_seq in Hx. eauto with lia.
Qed.

Lemma heartbeats_keys (rf : Raft) ps :
  sendHeartbeats rf = Ret ps -> omap vote_key ps = [].
Proof.
  intros H. pose proof (sendHeartbeats_procs rf ps H) as Hp. clear H.
  induction ps as [|p ps IH]; [done|].
  destruct (Hp p) as (i & ea & -> & _); [left|]. cbn. apply IH. set_solver.
Qed.

Ltac stay := apply vt_stay; cbn; solve [auto].
Ltac bump := apply vt_bump; cbn; solve [auto | lia].

Lemma tickHeartbeat_vtrans (rf rf' : Raft) ps :
  tickHeartbeat rf = Ret (rf', ps) -> vtrans rf rf' /\ omap vote_key ps = [].
Proof.
  unfold tickHeartbeat. intros H. go_inv; (split; [stay|]); [|done].
  eapply heartbeats_keys; eauto.
Qed.

Lemma Start_vtrans (rf rf' : Raft) cmd ps r :
  Start rf cmd = Ret (rf', ps, r) -> vtrans rf rf' /\ omap vote_key ps = [].
Proof.
  unfold Start. intros H. go_inv; (split; [stay|]); [|done].
  eapply heartbeats_keys; eauto.
Qed.

Lemma applyEntries_vtrans (rf rf' : Raft) : applyEntries rf = Ret rf' -> vtrans rf rf'.
Proof.
  unfold applyEntries. intros H. destruct (hasCommittedChan rf) eqn:E;
    go_inv; stay.
Qed.

Lemma handleAE_vtrans (rf rf' : Raft) d e args ps :
  handleAppendEntries rf d e args = (rf', ps) -> vtrans rf rf' /\ omap vote_key ps = [].
Proof. unfold handleAppendEntries. case_match; intros [= <- <-]; (split; [stay|done]). Qed.

Lemma signal_commit_fields (rf rf' : Raft) :
  signal_commit rf = Ret rf' ->
  hasCommittedChan rf' = S (hasCommittedChan rf)
  /\ rf' = set_hasCommitted (S (hasCommittedChan rf)) rf.
Proof. unfold signal_commit. intros H. go_inv. done. Qed.

Lemma respAE_vtrans (rf rf' : Raft) d e args reply ps :
  respAppendEntries rf d e args reply = Ret (rf', ps) ->
  vtrans rf rf' /\ omap vote_key ps = [].
Proof.
  unfold respAppendEntries. intros H. go_inv; bprop;
    repeat match goal with H : signal_commit _ = Ret _ |- _ =>
      apply signal_commit_fields in H as [_ ->] end;
    (split; [first [stay | bump]|reflexivity]).
Qed.

Lemma advanceCommit_fields (rf rf' : Raft) lc :
  advanceCommit rf lc = Ret rf' ->
  exists ci hc, rf' = set_hasCommitted hc (set_commitIndex ci rf).
Proof.
  unfold advanceCommit. intros H. go_inv.
  - apply signal_commit_fields in H as [_ ->]. eauto.
  - exists (commitIndex rf'), (hasCommittedChan rf'). by destruct rf'.
Qed.

Lemma AppendEntries_vtrans (rf rf' : Raft) args reply :
  AppendEntries rf args = Ret (rf', reply) -> vtrans rf rf'.
Proof.
  unfold AppendEntries. intros H.
  destruct (Z.ltb_spec (currentTerm rf) (ae_Term args)); go_inv; bprop;
    repeat match goal with H : advanceCommit _ _ = Ret _ |- _ =>
      apply advanceCommit_fields in H as (? & ? & ->) end;
    first [stay | bump].
Qed.

(** [RequestVote]: a possible move to the term of the request, then the vote. *)
Lemma RequestVote_spec (rf rf' : Raft) args reply :
  RequestVote rf args = Ret (rf', reply) ->
  exists rf1, vtrans rf rf1 /\ log rf1 = log rf
    /\ rvr_Term reply = currentTerm rf
    /\ currentTerm rf1 = Z.max (currentTerm rf) (rv_Term args)
    /\ ((rvr_VoteGranted reply = false /\ rf' = rf1)
        \/ (rvr_VoteGranted reply = true
            /\ rf' = set_electionTime true (set_votedFor (rv_CandidateId args) rf1)
            /\ (votedFor rf1 = -1 \/ votedFor rf1 = rv_CandidateId args)%Z)).
Proof.
  unfold RequestVote. intros H. destruct (Z.ltb_spec (currentTerm rf) (rv_Term args)) as [Hlt|Hge].
  - exists (set_votedFor (-1) (set_state Follower (set_currentTerm (rv_Term args) rf))).
    split; [bump|]. split; [done|]. go_inv; bprop; (split; [done|]; split; [lia|]); auto.
  - exists rf. split; [stay|]. split; [done|].
    go_inv; bprop; (split; [done|]; split; [lia|]); auto.
    right. split; [done|]. split; [done|].
    match goal with H : _ \/ _ |- _ => destruct H; bprop; auto end.
Qed.

Lemma tickElection_spec (rf rf' : Raft) ps :
  tickElection rf = Ret (rf', ps) ->
  (vtrans rf rf' /\ ps = [] /\ log rf' = log rf)
  \/ (exists args, me rf' = me rf /\ peers rf' = peers rf
      /\ currentTerm rf' = (currentTerm rf + 1)%Z /\ votedFor rf' = Z.of_nat (me rf)
      /\ state rf' = Candidate /\ log rf' = log rf
      /\ rv_Term args = currentTerm rf' /\ rv_CandidateId args = Z.of_nat (me rf)
      /\ totalVotes rf' = <[currentTerm rf' := 1%Z]> (totalVotes rf)
      /\ ps = (fun i => PSendRV (me rf) i args) <$>
                filter (fun i => i <> me rf) (seq 0 (peers rf))).
Proof.
  unfold tickElection. intros H. go_inv.
  - right. eexists. repeat split; reflexivity.
  - left. split; [stay|done].
Qed.

Lemma voteReply_spec (rf rf' : Raft) args reply ps :
  voteReply rf args reply = Ret (rf', ps) ->
  omap vote_key ps = [] /\ log rf' = log rf
  /\ (vtrans rf rf'
      \/ (state rf = Candidate /\ currentTerm rf = rv_Term args
          /\ rvr_VoteGranted reply = true /\ (rvr_Term reply <= currentTerm rf)%Z
          /\ me rf' = me rf /\ peers rf' = peers rf
          /\ currentTerm rf' = currentTerm rf /\ votedFor rf' = votedFor rf
          /\ let votes := (default 0 (totalVotes rf !! rv_Term args) + 1)%Z in
             totalVotes rf' = <[rv_Term args := votes]> (totalVotes rf)
             /\ (state rf' = Candidate
                 \/ (state rf' = Leader /\ (Z.of_nat (peers rf) / 2 < votes)%Z)))).
Proof.
  unfold voteReply, is_candidate. intros H. go_inv; bprop;
    repeat match goal with H : bool_decide _ = true |- _ => apply bool_decide_eq_true in H end.
  - split; [done|]. split; [done|]. left. bump.
  - split; [eapply heartbeats_keys; eauto|]. split; [done|]. right. repeat split; auto.
  - split; [done|]. split; [done|]. right. repeat split; auto.
  - split; [done|]. split; [done|]. left. stay.
  - split; [done|]. split; [done|]. left. stay.
Qed.

(** ** The invariant *)

Definition vote_of (z : Z) : option Z := if (z =? -1)%Z then None else Some z.

Definition voters (V : nat -> Z -> option Z) (n : nat) (T : Z) (i : nat) (Q : list nat) : Prop :=
  NoDup Q /\ forall q, q ∈ Q -> (q < n)%nat /\ V q T = Some (Z.of_nat i).

Definition elected (V : nat -> Z -> option Z) (n : nat) (T : Z) (i : nat) : Prop :=
  exists Q, voters V n T i Q /\ (n / 2 < length Q)%nat.

Record node_ok (V : nat -> Z -> option Z) (Ld : Z -> option nat)
    (ps : list proc) (n i : nat) (rf : Raft) : Prop := {
  no_me : me rf = i;
  no_peers : peers rf = n;
  no_term : (0 <= currentTerm rf)%Z;
  no_vote : V i (currentTerm rf) = vote_of (votedFor rf);
  no_future : forall T, (currentTerm rf < T)%Z -> V i T = None;
  no_count : forall T k, totalVotes rf !! T = Some k ->
    (1 <= T <= currentTerm rf)%Z /\
    exists Q, voters V n T i Q /\ Z.of_nat (length Q) = k
      /\ forall q, q ∈ Q -> (i, q, T) ∉ omap vote_key ps;
  no_leader : state rf = Leader -> Ld (currentTerm rf) = Some i
}.

Definition proc_ok (V : nat -> Z -> option Z) (ns : list Raft) (p : proc) : Prop :=
  match p with
  | PSendRV s d a => rv_CandidateId a = Z.of_nat s
      /\ exists rf, ns !! s = Some rf /\ is_Some (totalVotes rf !! rv_Term a)
  | PVoteReply s d a r => (d < length ns)%nat
      /\ (exists rf, ns !! s = Some rf /\ is_Some (totalVotes rf !! rv_Term a))
      /\ (rvr_VoteGranted r = true -> (rvr_Term r <= rv_Term a)%Z ->
          V d (rv_Term a) = Some (Z.of_nat s))
  | _ => True
  end.

Definition lead_ok (V : nat -> Z -> option Z) (Ld : Z -> option nat) (ns : list Raft) : Prop :=
  forall T i, Ld T = Some i -> elected V (length ns) T i
    /\ exists rf, ns !! i = Some rf
       /\ ((T < currentTerm rf)%Z \/ (T = currentTerm rf /\ state rf <> Candidate)).

Record einv (V : nat -> Z -> option Z) (Ld : Z -> option nat) (c : cluster) : Prop := {
  e_node : forall i rf, nodes c !! i = Some rf ->
    node_ok V Ld (procs c) (length (nodes c)) i rf;
  e_keys : NoDup (omap vote_key (procs c));
  e_proc : forall p, p ∈ procs c -> proc_ok V (nodes c) p;
  e_lead : lead_ok V Ld (nodes c)
}.

(** Histories only grow. *)
Definition ext {A B} (f g : A -> option B) : Prop := forall a b, f a = Some b -> g a = Some b.
Definition ext2 {A A' B} (f g : A -> A' -> option B) : Prop :=
  forall a a' b, f a a' = Some b -> g a a' = Some b.

Lemma voters_ext V V' n T i Q : ext2 V V' -> voters V n T i Q -> voters V' n T i Q.
Proof. intros HV [? H]. split; [done|]. intros q Hq. destruct (H q Hq). eauto. Qed.

Lemma elected_ext V V' n T i : ext2 V V' -> elected V n T i -> elected V' n T i.
Proof. intros HV (Q & HQ & ?). exists Q. eauto using voters_ext. Qed.

(** Two winners of one term are the same peer. *)
Lemma elected_unique V n T i j : elected V n T i -> elected V n T j -> i = j.
Proof.
  intros (Q1 & [Hn1 H1] & Hl1) (Q2 & [Hn2 H2] & Hl2).
  destruct (majority_intersect n Q1 Q2) as (q & Hq1 & Hq2).
  { split; [done|]. split; [done|]. intros q Hq. apply (H1 q Hq). }
  { split; [done|]. split; [done|]. intros q Hq. apply (H2 q Hq). }
  destruct (H1 q Hq1) as [_ E1], (H2 q Hq2) as [_ E2]. rewrite E1 in E2.
  apply (inj Some), (inj Z.of_nat) in E2. done.
Qed.

Lemma node_ok_keys V Ld ps ps' n i rf :
  (forall x, x ∈ omap vote_key ps' -> x ∈ omap vote_key ps) ->
  node_ok V Ld ps n i rf -> node_ok V Ld ps' n i rf.
Proof.
  intros Hk []. split; auto. intros T k HT.
  destruct (no_count0 T k HT) as (? & Q & ? & ? & HQ). split; [done|]. exists Q.
  split; [done|]. split; [done|]. intros q Hq Hin. eapply HQ; eauto.
Qed.

(** Only the multiset of goroutines matters. *)
Lemma einv_perm V Ld ns ps ps' :
  ps ≡ₚ ps' -> einv V Ld (mkCluster ns ps) -> einv V Ld (mkCluster ns ps').
Proof.
  intros Hp [H1 H2 H3 H4]. cbn in *.
  assert (omap vote_key ps ≡ₚ omap vote_key ps') as Hk by (by rewrite Hp).
  split; cbn; auto.
  - intros i rf Hi. eapply node_ok_keys; [|by apply H1]. intros x. by rewrite Hk.
  - by rewrite <- Hk.
  - intros p Hin. apply H3. by rewrite Hp.
Qed.

Lemma vtrans_node_ok V Ld ps n i rf rf' :
  vtrans rf rf' -> node_ok V Ld ps n i rf -> node_ok V Ld ps n i rf'.
Proof.
  intros Ht []. destruct Ht.
  - split; [congruence|congruence|lia|congruence| | |].
    + intros T HT. apply no_future0. lia.
    + intros T k. rewrite Htv, Hterm. apply no_count0.
    + intros Hl. rewrite Hterm. apply no_leader0. destruct Hstate; congruence.
  - split; [congruence|congruence|lia| | | |congruence].
    + rewrite Hvote. by apply no_future0.
    + intros T HT. apply no_future0. lia.
    + intros T k. rewrite Htv. intros [? ?]%no_count0. split; [lia|done].
Qed.

Lemma proc_ok_update V V' (ns : list Raft) i rf rf' p :
  ext2 V V' -> ns !! i = Some rf ->
  (forall T, is_Some (totalVotes rf !! T) -> is_Some (totalVotes rf' !! T)) ->
  proc_ok V ns p -> proc_ok V' (<[i := rf']> ns) p.
Proof.
  intros HV Hi Htv. assert (forall s T, (exists rf0, ns !! s = Some rf0 /\
      is_Some (totalVotes rf0 !! T)) -> exists rf0, <[i:=rf']> ns !! s = Some rf0 /\
      is_Some (totalVotes rf0 !! T)) as Hl.
  { intros s T (rf0 & Hs & HT). destruct (decide (i = s)) as [->|Hne].
    - exists rf'. rewrite list_lookup_insert_eq; [|by eapply lookup_lt_Some].
      split; [done|]. apply Htv. congruence.
    - exists rf0. by rewrite list_lookup_insert_ne. }
  destruct p; cbn; rewrite ?length_insert; naive_solver.
Qed.

Lemma lead_ok_update V V' Ld (ns : list Raft) i rf rf' :
  ext2 V V' -> ns !! i = Some rf ->
  (forall T, (T < currentTerm rf)%Z \/ (T = currentTerm rf /\ state rf <> Candidate) ->
     (T < currentTerm rf')%Z \/ (T = currentTerm rf' /\ state rf' <> Candidate)) ->
  lead_ok V Ld ns -> lead_ok V' Ld (<[i := rf']> ns).
Proof.
  intros HV Hi Hst HL T j HT. destruct (HL T j HT) as (He & rf0 & Hj & Hst0).
  rewrite length_insert. split; [by eapply elected_ext|].
  destruct (decide (i = j)) as [->|Hne].
  - exists rf'. rewrite list_lookup_insert_eq; [|by eapply lookup_lt_Some].
    split; [done|]. apply Hst. congruence.
  - exists rf0. by rewrite list_lookup_insert_ne.
Qed.

(** A peer that only moves as in [vtrans]; vote goroutines may disappear and
    other goroutines appear. *)
Lemma einv_vtrans V Ld ns ps ps' i rf rf' :
  einv V Ld (mkCluster ns ps) -> ns !! i = Some rf -> vtrans rf rf' ->
  omap vote_key ps' `sublist_of` omap vote_key ps ->
  (forall p, p ∈ ps' -> p ∈ ps \/ vote_key p = None) ->
  einv V Ld (mkCluster (<[i := rf']> ns) ps').
Proof.
  intros [H1 H2 H3 H4] Hi Ht Hsub Hnew. cbn in *. split; cbn.
  - intros j rfj Hj. rewrite length_insert.
    apply (node_ok_keys _ _ ps); [intros x Hx; by eapply elem_of_sublist|].
    apply lookup_update_Some in Hj as [(-> & -> & _)|[_ Hj]]; [|by apply H1].
    eapply vtrans_node_ok; eauto.
  - by eapply sublist_NoDup.
  - intros p Hp. destruct (Hnew p Hp) as [Hin|Hnone].
    + eapply proc_ok_update; [by intros ???|done| |by apply H3].
      destruct Ht; by rewrite Htv.
    + by destruct p.
  - eapply lead_ok_update; [by intros ???|done| |done].
    intros T HT. destruct Ht; rewrite ?Hterm in *; [|lia].
    destruct HT as [?|[? ?]]; [by left|right]. split; [done|].
    destruct Hstate; congruence.
Qed.

Definition upd2 {B} (V : nat -> Z -> option B) (i : nat) (T : Z) (x : B) : nat -> Z -> option B :=
  fun j T' => if decide (j = i /\ T' = T) then Some x else V j T'.
Definition upd1 {B} (L : Z -> option B) (T : Z) (x : B) : Z -> option B :=
  fun T' => if decide (T' = T) then Some x else L T'.

Lemma ext2_upd2 {B} (V : nat -> Z -> option B) i T x :
  V i T = None \/ V i T = Some x -> ext2 V (upd2 V i T x).
Proof.
  intros H j T' b Hb. unfold upd2. case_decide as Hd; [|done].
  destruct Hd as [-> ->]. destruct H; congruence.
Qed.

Lemma ext_upd1 {B} (L : Z -> option B) T x :
  L T = None \/ L T = Some x -> ext L (upd1 L T x).
Proof.
  intros H T' b Hb. unfold upd1. case_decide as Hd; [subst|done]. destruct H; congruence.
Qed.

(** Growing the vote history at the current term of one peer. *)
Lemma node_ok_grow V Ld Ld' ps n i rf d T x :
  node_ok V Ld ps n i rf -> (d <> i) -> V d T = None \/ V d T = Some x -> ext Ld Ld' ->
  node_ok (upd2 V d T x) Ld' ps n i rf.
Proof.
  intros [] Hne Hd HL. assert (forall T', upd2 V d T x i T' = V i T') as Hi.
  { intros T'. unfold upd2. case_decide; naive_solver. }
  split; auto.
  - by rewrite Hi.
  - intros T' HT'. rewrite Hi. auto.
  - intros T' k Hk. destruct (no_count0 T' k Hk) as (? & Q & ? & ? & ?). split; [done|].
    exists Q. split; [|done]. eapply voters_ext; [by apply ext2_upd2|done].
Qed.

(** The vote of [RequestVote]: the goroutine that asked for it now carries
    the reply. *)
Lemma einv_grant V Ld ns ps s d a r rf :
  einv V Ld (mkCluster ns (PSendRV s d a :: ps)) -> ns !! d = Some rf ->
  (rvr_VoteGranted r = true -> (rvr_Term r <= rv_Term a)%Z -> currentTerm rf = rv_Term a) ->
  rvr_VoteGranted r = true -> (votedFor rf = -1 \/ votedFor rf = rv_CandidateId a)%Z ->
  exists V', ext2 V V' /\
    einv V' Ld (mkCluster (<[d := set_electionTime true (set_votedFor (rv_CandidateId a) rf)]> ns)
                  (PVoteReply s d a r :: ps)).
Proof.
  intros [H1 H2 H3 H4] Hd Hterm Hgr Hvf. cbn in *.
  destruct (H3 (PSendRV s d a)) as [Hcand Hs]; [left|]. rewrite Hcand in *.
  pose proof (H1 d rf Hd) as Hok.
  assert (V d (currentTerm rf) = None \/ V d (currentTerm rf) = Some (Z.of_nat s)) as Hold.
  { rewrite (no_vote _ _ _ _ _ _ Hok). unfold vote_of.
    destruct Hvf as [->| ->]; [by left|]. right. by destruct (Z.eqb_spec (Z.of_nat s) (-1)); [lia|]. }
  exists (upd2 V d (currentTerm rf) (Z.of_nat s)).
  pose proof (ext2_upd2 _ _ _ _ Hold) as Hext. split; [done|]. split; cbn.
  - intros j rfj Hj. rewrite length_insert. apply (node_ok_keys _ _ (PSendRV s d a :: ps)); [done|].
    apply lookup_update_Some in Hj as [(<- & -> & _)|[Hne Hj]];
      [|by apply node_ok_grow with (Ld := Ld); [apply H1| | |intros ??]].
    destruct Hok. split; cbn; auto.
    + unfold upd2, vote_of. case_decide; [|naive_solver].
      by destruct (Z.eqb_spec (Z.of_nat s) (-1)); [lia|].
    + intros T HT. unfold upd2. case_decide; [lia|auto].
    + intros T k Hk. destruct (no_count0 T k Hk) as (? & Q & ? & ? & ?). split; [done|].
      exists Q. split; [by eapply voters_ext|done].
  - done.
  - intros p [->|Hp]%elem_of_cons.
    + cbn. rewrite length_insert. split; [by eapply lookup_lt_Some|]. split.
      * by apply (proc_ok_update V V ns d rf _ (PSendRV s d a));
          [intros ???|..|apply H3; left].
      * intros _ Hle. rewrite <- Hterm by done. unfold upd2. case_decide; naive_solver.
    + eapply proc_ok_update; [done|done| |by apply H3; right]. done.
  - eapply lead_ok_update; [done|done|auto|done].
Qed.

Lemma einv_deny V Ld ns ps s d a r :
  einv V Ld (mkCluster ns (PSendRV s d a :: ps)) -> (d < length ns)%nat ->
  rvr_VoteGranted r = false -> einv V Ld (mkCluster ns (PVoteReply s d a r :: ps)).
Proof.
  intros [H1 H2 H3 H4] Hd Hgr. cbn in *. split; cbn; auto.
  - intros j rfj Hj. by apply (node_ok_keys _ _ (PSendRV s d a :: ps)); auto.
  - intros p [->|Hp]%elem_of_cons; [|by apply H3; right].
    destruct (H3 (PSendRV s d a)) as [_ Hs]; [left|]. cbn.
    split; [done|]. split; [done|]. congruence.
Qed.

(** A new election: the peer votes for itself and asks all the others. *)
Lemma vote_keys_of_election (m : nat) (a : RequestVoteArgs) (ds : list nat) :
  omap vote_key ((fun i => @PSendRV C m i a) <$> ds) = (fun i => (m, i, rv_Term a)) <$> ds.
Proof. induction ds as [|d ds IH]; cbn; [done|]. by f_equal. Qed.

(** No request of an election the peer has not held yet is under way. *)
Lemma election_fresh V Ld ns ps i rf T j :
  einv V Ld (mkCluster ns ps) -> ns !! i = Some rf -> (currentTerm rf < T)%Z ->
  (i, j, T) ∉ omap vote_key ps.
Proof.
  intros [H1 _ H3 _] Hi HT (p & Hp & Hk)%list_elem_of_omap. pose proof (H3 p Hp) as Hpo. cbn in *.
  assert (exists rf0, ns !! i = Some rf0 /\ is_Some (totalVotes rf0 !! T)) as (rf0 & Hi0 & [k Hk0]).
  { destruct p; cbn in Hk; try discriminate Hk; injection Hk as -> -> HT';
      cbn in Hpo; rewrite HT' in Hpo; apply Hpo. }
  rewrite Hi in Hi0. injection Hi0 as <-.
  destruct (no_count _ _ _ _ _ _ (H1 i rf Hi) T k Hk0) as [? _]. lia.
Qed.

Lemma einv_elect V Ld ns ps i rf rf' a :
  einv V Ld (mkCluster ns ps) -> ns !! i = Some rf ->
  me rf' = me rf -> peers rf' = peers rf ->
  currentTerm rf' = (currentTerm rf + 1)%Z -> votedFor rf' = Z.of_nat (me rf) ->
  state rf' = Candidate -> rv_Term a = currentTerm rf' ->
  rv_CandidateId a = Z.of_nat (me rf) ->
  totalVotes rf' = <[currentTerm rf' := 1%Z]> (totalVotes rf) ->
  exists V', ext2 V V' /\ einv V' Ld (mkCluster (<[i := rf']> ns)
    (ps ++ ((fun j => PSendRV (me rf) j a) <$> filter (fun j => j <> me rf) (seq 0 (peers rf))))).
Proof.
  intros He Hi Hme Hpeers Hterm Hvote Hst Ha Hc Htv.
  pose proof (election_fresh V Ld ns ps i rf (rv_Term a)) as Hfresh.
  pose proof He as [H1 H2 H3 H4]. cbn in *.
  pose proof (H1 i rf Hi) as Hok. pose proof (no_me _ _ _ _ _ _ Hok) as Hmi. rewrite Hmi in *.
  rewrite <- Ha in *.
  pose proof (no_future _ _ _ _ _ _ Hok (rv_Term a) ltac:(lia)) as Hfut.
  pose proof (ext2_upd2 V i (rv_Term a) (Z.of_nat i) (or_introl Hfut)) as Hext.
  specialize (fun j => Hfresh j He Hi ltac:(lia)).
  exists (upd2 V i (rv_Term a) (Z.of_nat i)). split; [done|].
  split; cbn.
  - intros j rfj Hj. rewrite length_insert.
    assert (forall q, (j, q, rv_Term a) ∈ (fun j => (i, j, rv_Term a)) <$> filter (fun j => j <> i)
      (seq 0 (peers rf)) -> j = i /\ q <> i) as Hnew.
    { intros q (q' & [= -> ->] & Hq)%list_elem_of_fmap. apply list_elem_of_filter in Hq. naive_solver. }
    apply lookup_update_Some in Hj as [(<- & -> & Hlt)|[Hne Hj]].
    + destruct Hok. split; try congruence; try lia.
      * rewrite Hvote. rewrite <- Ha. unfold upd2, vote_of. case_decide; [|naive_solver].
        by destruct (Z.eqb_spec (Z.of_nat i) (-1)); [lia|].
      * intros T' HT'. unfold upd2. case_decide; [lia|]. apply no_future0. lia.
      * intros T' k. rewrite Htv, lookup_insert_Some. intros [[<- <-]|[HTne Hk]].
        -- split; [lia|]. exists [i]. split; [split; [apply NoDup_singleton|]|split; [done|]].
           ++ intros q ->%list_elem_of_singleton. split; [done|]. unfold upd2. case_decide; naive_solver.
           ++ intros q ->%list_elem_of_singleton. rewrite omap_app, elem_of_app, vote_keys_of_election.
              intros [Hin|Hin]; [by eapply Hfresh|]. naive_solver.
        -- destruct (no_count0 T' k Hk) as (? & Q & ? & ? & HQ). split; [lia|]. exists Q.
           split; [by eapply voters_ext|]. split; [done|]. intros q Hq.
           rewrite omap_app, elem_of_app, vote_keys_of_election.
           intros [Hin|(?&?&?)%list_elem_of_fmap]; [by eapply HQ|]. naive_solver.
    + apply node_ok_grow with (Ld := Ld); [|naive_solver|by left|by intros ??].
      destruct (H1 j rfj Hj). split; auto. intros T' k Hk.
      destruct (no_count0 T' k Hk) as (? & Q & ? & ? & HQ). split; [done|]. exists Q.
      split; [done|]. split; [done|]. intros q Hq.
      rewrite omap_app, elem_of_app, vote_keys_of_election.
      intros [Hin|(?&?&?)%list_elem_of_fmap]; [by eapply HQ|]. naive_solver.
  - rewrite omap_app, vote_keys_of_election. apply NoDup_app. split; [done|]. split.
    + intros x Hx (j & -> & _)%list_elem_of_fmap. by eapply Hfresh.
    + apply NoDup_fmap_2; [intros ?? [= ->]; done|]. apply NoDup_filter, NoDup_seq.
  - assert (forall T', is_Some (totalVotes rf !! T') -> is_Some (totalVotes rf' !! T')) as Hmono.
    { intros T'. rewrite Htv, lookup_insert_is_Some'. naive_solver. }
    intros p [Hp|(j & -> & _)%list_elem_of_fmap]%elem_of_app.
    + eapply proc_ok_update; [done|done|done|by apply H3].
    + cbn. split; [done|]. exists rf'.
      rewrite list_lookup_insert_eq by (by eapply lookup_lt_Some).
      split; [done|]. rewrite Htv, lookup_insert_eq. eauto.
  - eapply lead_ok_update; [done|done| |done]. intros T' [?|[? ?]]; left; lia.
Qed.

(** A candidate with a majority is the first leader of its term. *)
Lemma winner_new V Ld ns s rf Q :
  lead_ok V Ld ns -> ns !! s = Some rf -> state rf = Candidate ->
  voters V (length ns) (currentTerm rf) s Q -> (length ns / 2 < length Q)%nat ->
  Ld (currentTerm rf) = None /\ elected V (length ns) (currentTerm rf) s.
Proof.
  intros H4 Hs Hcand HQ Hl. assert (elected V (length ns) (currentTerm rf) s) as He by (by exists Q).
  split; [|done]. destruct (Ld (currentTerm rf)) as [j|] eqn:EL; [|done]. exfalso.
  destruct (H4 _ j EL) as (He' & rf0 & Hj & Hcase).
  rewrite <- (elected_unique _ _ _ _ _ He He') in Hj. simplify_eq.
  destruct Hcase as [?|[? ?]]; [lia|congruence].
Qed.

(** Counting a vote, and winning. *)
Lemma einv_count V Ld ns ps s d a r rf rf' :
  einv V Ld (mkCluster ns (PVoteReply s d a r :: ps)) -> ns !! s = Some rf ->
  state rf = Candidate -> currentTerm rf = rv_Term a -> rvr_VoteGranted r = true ->
  (rvr_Term r <= currentTerm rf)%Z -> me rf' = me rf -> peers rf' = peers rf ->
  currentTerm rf' = currentTerm rf -> votedFor rf' = votedFor rf ->
  let votes := (default 0 (totalVotes rf !! rv_Term a) + 1)%Z in
  totalVotes rf' = <[rv_Term a := votes]> (totalVotes rf) ->
  (state rf' = Candidate \/ (state rf' = Leader /\ (Z.of_nat (peers rf) / 2 < votes)%Z)) ->
  exists Ld', ext Ld Ld' /\ einv V Ld' (mkCluster (<[s := rf']> ns) ps)
    /\ (Ld' = Ld \/ (state rf' = Leader /\ Ld (rv_Term a) = None /\ Ld' = upd1 Ld (rv_Term a) s)).
Proof.
  intros [H1 H2 H3 H4] Hs Hcand Hterm Hgr Hle Hme Hpeers Hterm' Hvote votes Htv Hst. cbn in *.
  pose proof (H1 s rf Hs) as Hok. set (T := rv_Term a) in *.
  destruct (H3 (PVoteReply s d a r)) as (Hd & (rf0 & Hs0 & [k Hk]) & HV); [left|].
  rewrite Hs in Hs0. injection Hs0 as <-. fold T in Hk, HV.
  specialize (HV Hgr ltac:(lia)).
  destruct (no_count _ _ _ _ _ _ Hok T k Hk) as (HT & Q & [HQn HQ] & HQk & HQf).
  assert (votes = k + 1)%Z as Hv by (unfold votes; by rewrite Hk). cbn in HQf.
  apply NoDup_cons in H2 as [Hkey H2].
  assert (d ∉ Q) as HdQ by (intros Hin; apply (HQf d Hin); left).
  assert (voters V (length ns) T s (d :: Q)) as HQ'.
  { split; [by apply NoDup_cons|]. intros q [->|Hq]%elem_of_cons; auto. }
  assert (state rf' = Leader -> Ld T = None /\ elected V (length ns) T s) as Hwin.
  { intros HL. rewrite <- Hterm in HQ' |- *. apply (winner_new V Ld ns s rf (d :: Q)); try done. cbn [length].
    destruct Hst as [?|[_ Hlt]]; [congruence|]. rewrite (no_peers _ _ _ _ _ _ Hok), Hv in Hlt.
    change 2%Z with (Z.of_nat 2) in Hlt. rewrite <- Nat2Z.inj_div in Hlt. lia. }
  exists (if decide (state rf' = Leader) then upd1 Ld T s else Ld).
  assert (ext Ld (if decide (state rf' = Leader) then upd1 Ld T s else Ld)) as Hext.
  { case_decide; [|by intros ??]. apply ext_upd1. left. by apply Hwin. }
  split; [done|].
  split; [|case_decide as HL; [right; split; [done|]; split; [by apply Hwin|done]|by left]].
  split; cbn.
  - intros j rfj Hj. rewrite length_insert.
    assert (node_ok V Ld ps (length ns) j rfj \/ j = s /\ rfj = rf') as [Hok'|[-> ->]].
    { apply lookup_update_Some in Hj as [(<- & -> & _)|[_ Hj]]; [by right|left].
      eapply node_ok_keys; [|by apply H1]. cbn. intros x Hx. by right. }
    + destruct Hok'. split; auto.
    + destruct Hok. split; try congruence.
      * intros T' HT'. apply no_future0. lia.
      * intros T' k'. rewrite Htv, lookup_insert_Some. intros [[<- <-]|[HTne Hk']].
        -- split; [lia|]. exists (d :: Q). split; [done|]. split; [cbn; lia|].
           intros q [->|Hq]%elem_of_cons; [done|]. intros Hin. apply (HQf q Hq). by right.
        -- destruct (no_count0 T' k' Hk') as (? & Q' & ? & ? & HQ'f). split; [lia|]. exists Q'.
           split; [done|]. split; [done|]. intros q Hq Hin. apply (HQ'f q Hq). by right.
      * intros HL. rewrite decide_True by done. unfold upd1. rewrite decide_True by congruence. done.
  - done.
  - intros p Hp. eapply proc_ok_update; [by intros ???|done| |by apply H3; right].
    intros T'. rewrite Htv, lookup_insert_is_Some'. naive_solver.
  - assert (lead_ok V Ld (<[s := rf']> ns)) as Hlead.
    { eapply lead_ok_update; [by intros ???|done| |done].
      intros T' [?|[? ?]]; [left; lia|congruence]. }
    case_decide as HL; [|done]. intros T' j. unfold upd1. case_decide as HTT; [|apply Hlead].
    intros [= <-]. subst T'. rewrite length_insert. split; [by apply Hwin|]. exists rf'.
    rewrite list_lookup_insert_eq by (by eapply lookup_lt_Some). split; [done|].
    right. split; congruence.
Qed.

(** A step either leaves the winners as they were or adds a new one. *)
Definition new_winner (Ld Ld' : Z -> option nat) (c c' : cluster) : Prop :=
  Ld' = Ld \/
  exists T s rf', Ld' = upd1 Ld T s /\ Ld T = None /\ nodes c' !! s = Some rf'
    /\ state rf' = Leader /\ currentTerm rf' = T.

Lemma new_winner_ext Ld Ld' c c' : new_winner Ld Ld' c c' -> ext Ld Ld'.
Proof.
  intros [->|(T & s & rf' & -> & HT & _)]; [by intros ??|]. apply ext_upd1. by left.
Qed.

Lemma sublist_delete_app (ps qs : list proc) k :
  omap vote_key qs = [] -> omap vote_key (delete k ps ++ qs) `sublist_of` omap vote_key ps.
Proof. intros Hq. rewrite omap_app, Hq, app_nil_r. apply omap_delete_sublist. Qed.

Lemma no_keys (qs : list proc) p : omap vote_key qs = [] -> p ∈ qs -> vote_key p = None.
Proof.
  intros Hq Hp. destruct (vote_key p) as [x|] eqn:E; [|done]. exfalso.
  assert (x ∈ omap vote_key qs) as Hx by (apply list_elem_of_omap; eauto).
  rewrite Hq in Hx. by apply elem_of_nil in Hx.
Qed.

(** The conclusion of the preservation lemma below. *)
Definition eprogress (V : nat -> Z -> option Z) (Ld : Z -> option nat) (c c' : cluster) : Prop :=
  exists V' Ld', ext2 V V' /\ new_winner Ld Ld' c c' /\ einv V' Ld' c'.

Lemma eprogress_same V Ld c c' : einv V Ld c' -> eprogress V Ld c c'.
Proof. intros H. exists V, Ld. split; [by intros ???|]. split; [by left|done]. Qed.

Section Steps.
Context (V : nat -> Z -> option Z) (Ld : Z -> option nat) (ns : list Raft) (ps : list proc).
Context (Hinv : einv V Ld (mkCluster ns ps)).

Lemma eprogress_local i rf rf' qs :
  ns !! i = Some rf -> vtrans rf rf' -> omap vote_key qs = [] ->
  eprogress V Ld (mkCluster ns ps) (mkCluster (<[i:=rf']> ns) (ps ++ qs)).
Proof.
  intros Hi Ht Hq. apply eprogress_same.
  eapply einv_vtrans; [done|done|done|by rewrite omap_app, Hq, app_nil_r|].
  intros p [?|?]%elem_of_app; eauto using no_keys.
Qed.

Lemma eprogress_proc i rf rf' k qs :
  ns !! i = Some rf -> vtrans rf rf' -> omap vote_key qs = [] ->
  eprogress V Ld (mkCluster ns ps) (mkCluster (<[i:=rf']> ns) (delete k ps ++ qs)).
Proof.
  intros Hi Ht Hq. apply eprogress_same.
  eapply einv_vtrans; [done|done|done|by apply sublist_delete_app|].
  intros p Hp. apply elem_of_delete_app in Hp as [?|?]; eauto using no_keys.
Qed.

Lemma eprogress_election i rf rf' qs :
  ns !! i = Some rf -> tickElection rf = Ret (rf', qs) ->
  eprogress V Ld (mkCluster ns ps) (mkCluster (<[i:=rf']> ns) (ps ++ qs)).
Proof.
  intros Hi H.
  apply tickElection_spec in H as [(Ht & -> & _)|(args & ? & ? & ? & ? & ? & _ & ? & ? & ? & ->)].
  - by eapply eprogress_local.
  - destruct (einv_elect V Ld ns ps i rf rf' args) as (V' & HV & Hinv'); try done; try congruence.
    exists V', Ld. split; [done|]. split; [by left|done].
Qed.

Lemma eprogress_request_vote s d args reply rf rf' k :
  ns !! d = Some rf -> ps !! k = Some (PSendRV s d args) ->
  RequestVote rf args = Ret (rf', reply) ->
  eprogress V Ld (mkCluster ns ps)
    (mkCluster (<[d:=rf']> ns) (delete k ps ++ [PVoteReply s d args reply])).
Proof.
  intros Hi Hk H. apply RequestVote_spec in H as (rf1 & Ht & _ & Hrt & Hct & Hg).
  pose proof (einv_perm _ _ _ _ (PSendRV s d args :: delete k ps)
    (lookup_delete_perm _ _ _ Hk) Hinv) as Hinv1.
  apply (einv_vtrans _ _ _ _ (PSendRV s d args :: delete k ps) d rf rf1) in Hinv1; auto.
  pose proof (lookup_lt_Some _ _ _ Hi) as Hd.
  destruct Hg as [[Hg ->]|(Hg & -> & Hvf)].
  - apply eprogress_same. eapply einv_perm; [|eapply einv_deny; [done|by rewrite length_insert|done]].
    apply Permutation_cons_append.
  - destruct (einv_grant V Ld _ _ s d args reply rf1 Hinv1) as (V' & HV & Hinv'); try done.
    { by rewrite list_lookup_insert_eq. }
    { intros _. lia. }
    rewrite list_insert_insert_eq in Hinv'. exists V', Ld. split; [done|]. split; [by left|].
    eapply einv_perm; [|exact Hinv']. apply Permutation_cons_append.
Qed.

Lemma eprogress_vote_reply s d args reply rf rf' qs k :
  ns !! s = Some rf -> ps !! k = Some (PVoteReply s d args reply) ->
  voteReply rf args reply = Ret (rf', qs) ->
  eprogress V Ld (mkCluster ns ps) (mkCluster (<[s:=rf']> ns) (delete k ps ++ qs)).
Proof.
  intros Hi Hk H. apply voteReply_spec in H as (Hq & _ & [Ht|Hcount]); [by eapply eprogress_proc|].
  destruct Hcount as (? & ? & ? & ? & ? & ? & ? & ? & Htv & Hst).
  pose proof (einv_perm _ _ _ _ (PVoteReply s d args reply :: delete k ps)
    (lookup_delete_perm _ _ _ Hk) Hinv) as Hinv1.
  destruct (einv_count V Ld ns (delete k ps) s d args reply rf rf') as (Ld' & HL & Hinv' & Hnew); try done.
  assert (<[s:=rf']> ns !! s = Some rf') as Hs
    by (rewrite list_lookup_insert_eq; [done|by eapply lookup_lt_Some]).
  exists V, Ld'. split; [by intros ???|]. split.
  - destruct Hnew as [->|(? & ? & ->)]; [by left|right]. exists (rv_Term args), s, rf'.
    split; [done|]. split; [done|]. split; [done|]. split; [done|congruence].
  - rewrite <- (list_insert_id _ s rf' Hs).
    eapply einv_vtrans; [exact Hinv'|exact Hs|apply vt_stay; auto| |].
    + by rewrite omap_app, Hq, app_nil_r.
    + intros p [?|?]%elem_of_app; eauto using no_keys.
Qed.

Lemma eprogress_lose k qs :
  (forall q, q ∈ qs -> exists s, q = PPersist s) ->
  eprogress V Ld (mkCluster ns ps) (mkCluster ns (delete k ps ++ qs)).
Proof.
  intros Hqs. apply eprogress_same. assert (omap vote_key qs = []) as Hq.
  { clear -Hqs. induction qs as [|q qs IH]; [done|].
    destruct (Hqs q) as [s ->]; [left|]. cbn. apply IH. set_solver. }
  pose proof (sublist_delete_app ps qs k Hq) as Hsub.
  destruct Hinv as [H1 H2 H3 H4]. cbn in *. split; cbn; auto.
  - intros i rf Hi. apply (node_ok_keys _ _ ps); [|auto].
    intros x Hx. by eapply elem_of_sublist.
  - by eapply sublist_NoDup.
  - intros q Hin. apply elem_of_delete_app in Hin as [?|Hin]; [auto|].
    apply (no_keys qs q Hq) in Hin. by destruct q.
Qed.

End Steps.

Lemma einv_step V Ld c c' : einv V Ld c -> cstep c c' -> eprogress V Ld c c'.
Proof.
  intros Hinv (a & Hcf & Hstep%step_shape); [|done]. destruct c as [ns ps].
  destruct Hstep as [i rf rf' qs Hi -> Hcode|k p i rf rf' qs Hk Hi -> Hcode|k p qs Hk -> Hqs]; cbn in *.
  - destruct Hcode as [H|[H|[(cmd & r & H)|[[H ->]|[-> ->]]]]]; [|by eapply eprogress_election|..].
    + apply tickHeartbeat_vtrans in H as [Ht Hq]. by eapply eprogress_local.
    + apply Start_vtrans in H as [Ht Hq]. by eapply eprogress_local.
    + apply applyEntries_vtrans in H. by eapply eprogress_local.
    + eapply eprogress_local; [done|done|apply vt_stay; cbn; auto|done].
  - destruct p as [s d args|s d args reply|s d e args|s d e args|s d e args reply|s].
    + destruct Hcode as (-> & reply & H & ->). by eapply eprogress_request_vote.
    + destruct Hcode as [-> H]. by eapply eprogress_vote_reply.
    + destruct Hcode as [-> H]. apply handleAE_vtrans in H as [Ht Hq]. by eapply eprogress_proc.
    + destruct Hcode as (-> & reply & H & ->). apply AppendEntries_vtrans in H. by eapply eprogress_proc.
    + destruct Hcode as (-> & qs0 & H & ->). apply respAE_vtrans in H as [Ht Hq].
      eapply eprogress_proc; [done|done|done|]. by rewrite omap_app, Hq.
    + destruct Hcode as (-> & -> & ->). eapply eprogress_proc; [done|done|apply vt_stay; cbn; auto|done].
  - by apply eprogress_lose.
Qed.

Lemma einv_init n timeout : einv (fun _ _ => None) (fun _ => None) (init n timeout : cluster).
Proof.
  split.
  - intros i rf [Hm Hi]%init_lookup. unfold Make in Hm. cbn in Hm. injection Hm as <-.
    pose proof (init_length (C := C) n timeout) as Hlen.
    split; cbn; auto; try lia; try done.
  - apply NoDup_nil_2.
  - intros p []%elem_of_nil.
  - intros T i. done.
Qed.

Lemma einv_reachable n timeout c :
  reachable n timeout c -> exists V Ld, einv V Ld (c : cluster).
Proof.
  unfold reachable. intros H. remember (init n timeout) as c0 eqn:E.
  assert (exists V Ld, einv V Ld c0) as Hinv by (subst; eauto using einv_init). clear E.
  induction H as [|x y z Hs _ IH]; [done|]. apply IH. destruct Hinv as (V & Ld & Hinv).
  destruct (einv_step _ _ _ _ Hinv Hs) as (? & ? & _ & _ & ?). eauto.
Qed.

Lemma einv_rtc V Ld c c' :
  einv V Ld c -> rtc cstep c c' ->
  exists V' Ld', ext2 V V' /\ ext Ld Ld' /\ einv V' Ld' (c' : cluster).
Proof.
  intros Hinv H. revert V Ld Hinv. induction H as [|x y z Hs _ IH]; intros V Ld Hinv.
  - exists V, Ld. split; [by intros ???|]. split; [by intros ??|done].
  - destruct (einv_step _ _ _ _ Hinv Hs) as (V1 & Ld1 & HV & Hw & Hinv1).
    destruct (IH _ _ Hinv1) as (V2 & Ld2 & HV2 & He & Hinv2). exists V2, Ld2.
    split; [intros ????; eauto|]. split; [|done].
    intros T i HT. apply He. by eapply new_winner_ext.
Qed.

End Election.
