(* ===== verification/RaftLogMatching.v ===== *)
(** * Log replication: the Log Matching property

    The ghost [L T] is the log of the winner of term [T] (empty while the term
    has no winner); it only grows. Every log of the cluster is [legit]: an
    entry of term [T] at position [k] comes with exactly the first [k+1]
    entries of [L T], and carries the index [k]. *)

From S2P Require Import Prelude Persister Raft RaftCluster RaftElection.
From stdpp Require Import prelude gmap relations.

Section LogMatching.
Context {C : Type}.
Notation Raft := (Raft C).
Notation proc := (proc C).
Notation cluster := (cluster C).
Notation entries := (list (LogEntry C)).

Definition legit (L : Z -> entries) (l : entries) : Prop :=
  forall k e, l !! k = Some e -> le_Index e = Z.of_nat k /\ take (S k) l `prefix_of` L (le_Term e).

Definition grows (L L' : Z -> entries) : Prop := forall T, L T `prefix_of` L' T.

Lemma legit_grows L L' l : grows L L' -> legit L l -> legit L' l.
Proof. intros HL Hl k e Hk. destruct (Hl k e Hk). split; [done|]. by etrans. Qed.

Lemma legit_prefix L l l' : l `prefix_of` l' -> legit L l' -> legit L l.
Proof.
  intros [r ->] Hl k e Hk. pose proof (lookup_lt_Some _ _ _ Hk).
  destruct (Hl k e) as [? Hp]; [by rewrite lookup_app_l|]. split; [done|].
  rewrite take_app_le in Hp by lia. done.
Qed.

(** Two legit logs with the same term at one position agree up to there. *)
Lemma legit_agree L l1 l2 k e1 e2 :
  legit L l1 -> legit L l2 -> l1 !! k = Some e1 -> l2 !! k = Some e2 ->
  le_Term e1 = le_Term e2 -> take (S k) l1 = take (S k) l2.
Proof.
  intros H1 H2 Hk1 Hk2 Ht.
  destruct (H1 k e1 Hk1) as [_ [r1 E1]], (H2 k e2 Hk2) as [_ [r2 E2]].
  rewrite Ht, E2 in E1.
  assert (length (take (S k) l1) = length (take (S k) l2)) as Hlen.
  { apply lookup_lt_Some in Hk1, Hk2. rewrite !length_take. lia. }
  symmetry. by apply (app_inj_1 _ _ _ _ (eq_sym Hlen)) in E1 as [? _].
Qed.

Lemma legit_base L l : legit L l -> l <> [] -> log_base l = Ret 0%Z.
Proof.
  intros Hl Hne. destruct l as [|e l]; [done|]. unfold log_base.
  rewrite (go_index_nat (e :: l) 0 e eq_refl : go_index _ 0 = _). cbn.
  f_equal. apply (Hl 0 e eq_refl).
Qed.

Lemma legit_last L (rf : Raft) :
  legit L (log rf) -> log rf <> [] -> lastLogIndex rf = Ret (len (log rf) - 1)%Z.
Proof.
  intros Hl Hne. unfold lastLogIndex, len.
  assert (0 < length (log rf)) by (destruct (log rf); [done|cbn; lia]).
  destruct (lookup_lt_is_Some_2 (log rf) (length (log rf) - 1)) as [e He]; [lia|].
  replace (Z.of_nat (length (log rf)) - 1)%Z with (Z.of_nat (length (log rf) - 1)) by lia.
  rewrite (go_index_nat _ _ _ He). cbn. by destruct (Hl _ _ He) as [-> _].
Qed.

(** ** Merging the entries of a request

    [S] is the leader's log when it sent the request, [m] the position of the
    first entry in the request. *)
Lemma mergeEntries_spec L l S m :
  legit L l -> legit L S -> 0 < m <= length S -> take m l = take m S ->
  exists l', mergeEntries l (drop m S) = Ret l'
    /\ ((l' = S /\ ~ S `prefix_of` l) \/ (l' = l /\ S `prefix_of` l)).
Proof.
  intros Hl HS Hm Heq. remember (drop m S) as es eqn:Ees. revert m Hm Heq Ees.
  induction es as [|e es IH]; intros m Hm Heq Ees; cbn [mergeEntries].
  - exists l. split; [done|]. right. split; [done|].
    assert (S = take m S) as -> by (rewrite <- (take_drop m S) at 1; by rewrite <- Ees, app_nil_r).
    rewrite <- Heq. apply prefix_take.
  - assert (S !! m = Some e) as He.
    { rewrite <- (take_drop m S), <- Ees, lookup_app_r; rewrite length_take; [|lia].
      by replace (m - m `min` length S) with 0 by lia. }
    pose proof (lookup_lt_Some _ _ _ He) as HmS.
    assert (m <= length l) as Hml.
    { assert (length (take m l) = m) by (rewrite Heq, length_take; lia).
      rewrite length_take in *. lia. }
    rewrite (legit_base L) by (done || (intros ->; cbn in Hml; lia)). cbn.
    destruct (HS _ _ He) as [-> _]. rewrite Z.sub_0_r. unfold len.
    assert (go_upto l (Z.of_nat m) = Ret (take m l)) as Hup.
    { apply go_upto_Ret. unfold len. rewrite Nat2Z.id. split; [lia|done]. }
    assert (take m l ++ e :: es = S) as Hwhole by (rewrite Heq, Ees; apply take_drop).
    destruct (Z.leb_spec (Z.of_nat (length l)) (Z.of_nat m)) as [Hle|Hlt]; cbn.
    + rewrite Hup. cbn. eexists. split; [done|]. left. split; [done|].
      intros Hpre%prefix_length. lia.
    + destruct (lookup_lt_is_Some_2 l m) as [old Hold]; [lia|].
      rewrite (go_index_nat _ _ _ Hold). cbn.
      destruct (Z.eqb_spec (le_Term old) (le_Term e)) as [Ht|Ht]; cbn.
      * apply (IH (Datatypes.S m)); [lia|by eapply legit_agree|].
        by rewrite <- Nat.add_1_r, <- drop_drop, <- Ees.
      * rewrite Hup. cbn. eexists. split; [done|]. left. split; [done|].
        intros [r ->]. rewrite lookup_app_l in Hold by lia. congruence.
Qed.

(** ** Requests that come from a leader's log *)

Record from_log (S : entries) (a : AppendEntriesArgs C) : Prop := {
  fl_prev : (0 <= ae_PrevLogIndex a)%Z;
  fl_term : exists e, S !! Z.to_nat (ae_PrevLogIndex a) = Some e /\ le_Term e = ae_PrevLogTerm a;
  fl_entries : ae_Entries a = drop (Z.to_nat (ae_PrevLogIndex a) + 1) S
}.

Lemma heartbeat_args_from_log L (rf : Raft) i ea :
  legit L (log rf) -> log rf <> [] -> heartbeat_args rf i = Ret ea ->
  from_log (log rf) ea.2 /\ ae_Term ea.2 = currentTerm rf
  /\ ea.1 = (ae_PrevLogIndex ea.2 + 1 + len (ae_Entries ea.2))%Z.
Proof.
  intros Hl Hne H. unfold heartbeat_args in H. rewrite (legit_base L _ Hl Hne) in H.
  go_inv. rewrite Z.sub_0_r in *. split; [|split; [done|lia]]. split; cbn; [lia|eauto|].
  f_equal. lia.
Qed.

Lemma prevMismatch_spec L (rf : Raft) S a :
  legit L (log rf) -> log rf <> [] -> legit L S -> from_log S a ->
  exists b, prevMismatch rf a = Ret b
    /\ (b = false -> take (Z.to_nat (ae_PrevLogIndex a) + 1) (log rf)
                     = take (Z.to_nat (ae_PrevLogIndex a) + 1) S).
Proof.
  intros Hl Hne HS [Hp (e & He & Ht) _]. unfold prevMismatch.
  rewrite (legit_last L) by done. cbn.
  destruct (Z.ltb_spec (len (log rf) - 1) (ae_PrevLogIndex a)) as [Hlt|Hge]; [by exists true|].
  rewrite (legit_base L) by done. cbn. rewrite Z.sub_0_r.
  destruct (lookup_lt_is_Some_2 (log rf) (Z.to_nat (ae_PrevLogIndex a))) as [old Hold];
    [unfold len in *; lia|].
  rewrite (proj2 (go_index_Ret (log rf) (ae_PrevLogIndex a) old)) by done. cbn.
  eexists. split; [done|]. intros Hb. apply negb_false_iff, Z.eqb_eq in Hb.
  rewrite Nat.add_1_r. eapply legit_agree; eauto. congruence.
Qed.

(** What a peer with a legit log does with a request built from the log [S]
    of a leader: it never panics, its log is kept or, when [S] is not a prefix
    of it, replaced by [S], and a success means that [S] is a prefix of its log. *)
Lemma AppendEntries_log L (rf : Raft) S a :
  legit L (log rf) -> log rf <> [] -> legit L S -> from_log S a ->
  match AppendEntries rf a with
  | Panic => False
  | Block => (hasCommittedChan rf >= chan_capacity)%nat
  | Ret (rf', r) => (log rf' = log rf \/ (log rf' = S /\ ~ S `prefix_of` log rf))
      /\ (state rf' = Leader -> rf' = persist rf)
      /\ (aer_Success r = true -> S `prefix_of` log rf')
  end.
Proof.
  intros Hl Hne HS Ha. unfold AppendEntries.
  destruct (Z.ltb_spec (ae_Term a) (currentTerm rf)); [cbn; split; [by left|done]|].
  set (rf1 := if (currentTerm rf <? ae_Term a)%Z then _ else rf).
  assert (log rf1 = log rf /\ hasCommittedChan rf1 = hasCommittedChan rf) as [E1 E2].
  { unfold rf1. by destruct (_ <? _)%Z. }
  clearbody rf1.
  cbn [log set_electionTime set_state]. rewrite E1, (legit_base L) by done. cbn [mbind go_bind].
  destruct (Z.ltb_spec (ae_PrevLogIndex a) (0 - 1)) as [Hneg|_].
  { destruct Ha. lia. }
  destruct (prevMismatch_spec L (set_electionTime true (set_state Follower rf1)) S a)
    as (b & -> & Hb); cbn; [by rewrite E1..|done|done|].
  destruct b; [cbn; rewrite E1; split; [by left|done]|].
  specialize (Hb eq_refl). cbn in Hb. rewrite E1 in Hb.
  destruct Ha as [Hp (e & He & Ht) Hes].
  destruct (mergeEntries_spec L (log rf) S (Z.to_nat (ae_PrevLogIndex a) + 1)) as (l' & Hm & Hl');
    [done|done|apply lookup_lt_Some in He; lia|done|].
  rewrite Hes, Hm. cbn [mbind go_bind].
  unfold advanceCommit. cbn [commitIndex set_log set_electionTime set_state].
  assert (S `prefix_of` l') as Hpre by (destruct Hl' as [[-> _]|[-> ?]]; done).
  assert (l' = log rf \/ (l' = S /\ ~ S `prefix_of` log rf)) as Hcase by naive_solver.
  destruct (_ <? _)%Z; [|cbn; split; [done|split; [done|auto]]].
  assert (legit L l') as Hleg by (destruct Hcase as [->|[-> _]]; done).
  assert (l' <> []) as Hne'.
  { intros ->. apply prefix_nil_inv in Hpre. subst. by rewrite lookup_nil in He. }
  rewrite (legit_last L) by done. cbn [mbind go_bind]. unfold signal_commit. cbn [hasCommittedChan set_commitIndex set_log set_electionTime set_state].
  rewrite E2. destruct (Nat.ltb_spec (hasCommittedChan rf) chan_capacity); [|assumption].
  cbn. split; [done|split; [done|auto]].
Qed.

(** ** The invariant *)

Definition ae_ok (L : Z -> entries) (p : proc) : Prop :=
  match p with
  | PHandleAE _ _ _ a | PSentAE _ _ _ a =>
      exists S, S `prefix_of` L (ae_Term a) /\ from_log S a
  | _ => True
  end.

Record linv (Ld : Z -> option nat) (L : Z -> entries) (c : cluster) : Prop := {
  l_node : forall i rf, nodes c !! i = Some rf ->
    log rf <> [] /\ legit L (log rf) /\ (state rf = Leader -> L (currentTerm rf) = log rf);
  l_ghost : forall T, legit L (L T);
  l_none : forall T, (T <> 0)%Z -> Ld T = None -> L T = [];
  l_proc : forall p, p ∈ procs c -> ae_ok L p
}.

Lemma ae_ok_grows L L' p : grows L L' -> ae_ok L p -> ae_ok L' p.
Proof. intros HL. destruct p; cbn; auto; intros (S & ? & ?); exists S; split; auto; by etrans. Qed.

(** A step of peer [i] that keeps its log: the goroutines it starts must come
    from its log. *)
Lemma linv_keep Ld Ld' L ns ps i rf rf' ps' :
  linv Ld L (mkCluster ns ps) -> ext Ld Ld' -> ns !! i = Some rf -> log rf' = log rf ->
  (state rf' = Leader -> L (currentTerm rf') = log rf) ->
  (forall p, p ∈ ps' -> p ∈ ps \/ ae_ok L p) ->
  linv Ld' L (mkCluster (<[i := rf']> ns) ps').
Proof.
  intros [H1 H2 H3 H4] HL Hi Hlog Hlead Hps. cbn in *. split; cbn; auto.
  - intros j rfj Hj. apply lookup_update_Some in Hj as [(<- & -> & _)|[_ Hj]]; [|by eapply H1].
    rewrite Hlog. destruct (H1 i rf Hi) as (? & ? & _). auto.
  - intros T HT Hn. apply H3; [done|]. destruct (Ld T) eqn:E; [|done].
    apply HL in E. congruence.
  - intros p Hp. destruct (Hps p Hp); auto.
Qed.

Lemma leader_procs L (rf : Raft) ps :
  legit L (log rf) -> log rf <> [] -> L (currentTerm rf) = log rf ->
  sendHeartbeats rf = Ret ps -> forall p, p ∈ ps -> ae_ok L p.
Proof.
  intros Hl Hne HL Hps p Hp.
  destruct (sendHeartbeats_procs rf ps Hps p Hp) as (i & ea & -> & _ & Hea).
  destruct (heartbeat_args_from_log L rf i ea Hl Hne Hea) as (Hf & Ht & _).
  cbn. exists (log rf). by rewrite Ht, HL.
Qed.

(** ** Steps that change the ghost: [Start] and a won election *)

Definition updL (L : Z -> entries) (T : Z) (l : entries) : Z -> entries :=
  fun T' => if decide (T' = T) then l else L T'.

Lemma updL_grows L T l : L T `prefix_of` l -> grows L (updL L T l).
Proof. intros H T'. unfold updL. case_decide; [by subst|done]. Qed.

Lemma updL_eq L T l : updL L T l T = l.
Proof. unfold updL. by rewrite decide_True. Qed.

(** The ghost changes at one term, to the log of a peer that leads it now. *)
Definition lchange (L L' : Z -> entries) (c' : cluster) : Prop :=
  L' = L \/ exists i rf', nodes c' !! i = Some rf' /\ state rf' = Leader
    /\ L' = updL L (currentTerm rf') (log rf').

Lemma lchange_at L (ns : list Raft) ps i rf' :
  i < length ns -> state rf' = Leader ->
  lchange L (updL L (currentTerm rf') (log rf')) (mkCluster (<[i := rf']> ns) ps).
Proof.
  intros Hi Hst. right. exists i, rf'. cbn. by rewrite list_lookup_insert_eq by done.
Qed.

(** Peer [i], the only leader of term [T], gets the log [l]. *)
Lemma linv_leader V Ld Ld' L ns ps i rf rf' ps' l :
  einv V Ld (mkCluster ns ps) -> linv Ld L (mkCluster ns ps) ->
  ext Ld Ld' -> ns !! i = Some rf ->
  let T := currentTerm rf' in
  L T `prefix_of` l -> l <> [] -> log rf' = l -> Ld' T = Some i ->
  (Ld T = None \/ Ld T = Some i) ->
  legit (updL L T l) l ->
  (forall p, p ∈ ps' -> p ∈ ps \/ ae_ok (updL L T l) p) ->
  linv Ld' (updL L T l) (mkCluster (<[i := rf']> ns) ps').
Proof.
  intros He [H1 H2 H3 H4] HL Hi T Hpre Hne Hlog HT HLd Hleg Hps. cbn in *.
  pose proof (updL_grows L T l Hpre) as Hg. split; cbn.
  - intros j rfj Hj. apply lookup_update_Some in Hj as [(<- & -> & _)|[Hij Hj]].
    { rewrite Hlog. split; [done|]. split; [done|]. intros _. apply updL_eq. }
    destruct (H1 j rfj Hj) as (? & ? & Hlead). split; [done|].
    split; [by eapply legit_grows|]. intros Hl.
    pose proof (no_leader _ _ _ _ _ _ (e_node _ _ _ He j rfj Hj) Hl) as Hj'.
    unfold updL. rewrite decide_False; [auto|]. intros E. rewrite E in Hj'.
    destruct HLd; naive_solver.
  - intros T'. unfold updL at 2. case_decide; [done|]. by eapply legit_grows.
  - intros T' HT' Hn. unfold updL. case_decide; [subst; congruence|]. apply H3; [done|].
    destruct (Ld T') eqn:E; [|done]. apply HL in E. congruence.
  - intros p Hp. destruct (Hps p Hp); [|done]. eapply ae_ok_grows; [done|auto].
Qed.

Lemma legit_snoc L l T cmd :
  legit L l -> L T = l ->
  legit (updL L T (l ++ [mkEntry T cmd (len l)])) (l ++ [mkEntry T cmd (len l)]).
Proof.
  intros Hl HT. assert (grows L (updL L T (l ++ [mkEntry T cmd (len l)]))) as Hg.
  { apply updL_grows. rewrite HT. by apply prefix_app_r. }
  intros k e Hk. apply lookup_app_Some in Hk as [Hk|[Hge Hk]].
  - destruct (Hl k e Hk) as [? Hp]. split; [done|]. apply lookup_lt_Some in Hk.
    rewrite take_app_le by lia. by etrans.
  - apply list_lookup_singleton_Some in Hk as [Hk <-]. cbn. rewrite updL_eq.
    split; [unfold len; lia|]. apply prefix_take || apply take_prefix.
Qed.

(** ** What the handlers do to the log and which requests they send *)

Lemma vtrans_leader (rf rf' : Raft) :
  vtrans rf rf' -> state rf' = Leader -> state rf = Leader /\ currentTerm rf' = currentTerm rf.
Proof. intros [] HL; [|congruence]. destruct Hstate; split; congruence. Qed.

Lemma applyEntries_log (rf rf' : Raft) : applyEntries rf = Ret rf' -> log rf' = log rf.
Proof. unfold applyEntries. destruct (hasCommittedChan rf); intros H; go_inv; done. Qed.

Lemma tickHeartbeat_procs (rf rf' : Raft) ps :
  tickHeartbeat rf = Ret (rf', ps) ->
  log rf' = log rf /\
  (ps = [] \/ (state rf = Leader /\ sendHeartbeats (set_heartbeatTime false rf) = Ret ps)).
Proof.
  unfold tickHeartbeat, is_leader. intros H. go_inv; split; auto.
  right. split; [by eapply bool_decide_eq_true_1|done].
Qed.

Lemma Start_spec (rf rf' : Raft) cmd ps r :
  Start rf cmd = Ret (rf', ps, r) ->
  (state rf <> Leader /\ rf' = rf /\ ps = [] /\ r = ((-1)%Z, (-1)%Z, false))
  \/ (state rf = Leader /\ exists last, lastLogIndex rf = Ret last
      /\ rf' = set_log (log rf ++ [mkEntry (currentTerm rf) cmd (last + 1)%Z]) (persist rf)
      /\ sendHeartbeats rf' = Ret ps /\ r = ((last + 1)%Z, currentTerm rf, true)).
Proof.
  unfold Start, is_leader. intros H. go_inv; [right|left].
  - split; [by eapply bool_decide_eq_true_1|]. eexists. eauto.
  - split; [by eapply bool_decide_eq_false_1|done].
Qed.

Lemma respAE_procs (rf rf' : Raft) d e args reply ps :
  respAppendEntries rf d e args reply = Ret (rf', ps) ->
  log rf' = log rf /\
  (ps = [] \/ exists ea, state rf = Leader /\ currentTerm rf' = currentTerm rf
    /\ heartbeat_args rf' d = Ret ea /\ ps = [PHandleAE (me rf) d ea.1 ea.2]).
Proof.
  unfold respAppendEntries, is_leader. intros H. go_inv; bprop;
    repeat match goal with H : signal_commit _ = Ret _ |- _ =>
      apply signal_commit_fields in H as [_ ->] end; cbn; split; auto.
  right. eexists. split; [by eapply bool_decide_eq_true_1|]. eauto.
Qed.

Lemma voteReply_procs (rf rf' : Raft) args reply ps :
  voteReply rf args reply = Ret (rf', ps) ->
  ps = [] \/ (state rf = Candidate /\ state rf' = Leader /\ currentTerm rf' = currentTerm rf
    /\ exists rf1, sendHeartbeats rf1 = Ret ps /\ log rf1 = log rf /\ currentTerm rf1 = currentTerm rf).
Proof.
  unfold voteReply, is_candidate. intros H. go_inv; bprop; auto. right.
  split; [by eapply bool_decide_eq_true_1|]. split; [done|]. split; [done|].
  eexists. split; [done|]. done.
Qed.

Lemma candidate_not_winner V Ld (c : cluster) i rf :
  einv V Ld c -> nodes c !! i = Some rf -> state rf = Candidate ->
  Ld (currentTerm rf) <> Some i.
Proof.
  intros He Hi Hc HL. destruct (e_lead _ _ _ He _ _ HL) as (_ & rf0 & Hi0 & Hcase).
  simplify_eq. destruct Hcase as [?|[? ?]]; [lia|done].
Qed.

Lemma elem_of_delete_app_ok L k (ps qs : list proc) :
  (forall p, p ∈ qs -> ae_ok L p) -> forall p, p ∈ delete k ps ++ qs -> p ∈ ps \/ ae_ok L p.
Proof. intros H p Hp. apply elem_of_delete_app in Hp as [?|?]; auto. Qed.

Lemma elem_of_app_ok L (ps qs : list proc) :
  (forall p, p ∈ qs -> ae_ok L p) -> forall p, p ∈ ps ++ qs -> p ∈ ps \/ ae_ok L p.
Proof. intros H p Hp. apply elem_of_app in Hp as [?|?]; auto. Qed.

(** ** Preservation, by kind of step *)

Section Steps.
Context (V : nat -> Z -> option Z) (Ld Ld' : Z -> option nat) (L : Z -> entries).
Context (ns : list Raft) (ps : list proc).
Context (He : einv V Ld (mkCluster ns ps)) (Hl : linv Ld L (mkCluster ns ps)).
Context (HL : ext Ld Ld').

Definition kept (c' : cluster) : Prop :=
  exists L', linv Ld' L' c' /\ grows L L' /\ lchange L L' c'.

Lemma kept_same c' : linv Ld' L c' -> kept c'.
Proof. intros H. exists L. split; [done|]. split; [by intros T|by left]. Qed.

Lemma kept_vtrans i rf rf' ps' :
  ns !! i = Some rf -> vtrans rf rf' -> log rf' = log rf ->
  (forall p, p ∈ ps' -> p ∈ ps \/ ae_ok L p) -> kept (mkCluster (<[i := rf']> ns) ps').
Proof.
  intros Hi Ht Hlog Hps. apply kept_same. eapply linv_keep; eauto. intros Hst.
  destruct (vtrans_leader _ _ Ht Hst) as [Hst0 ->].
  destruct (l_node _ _ _ Hl i rf Hi) as (_ & _ & Hlead). auto.
Qed.

Lemma kept_not_leader i rf rf' ps' :
  ns !! i = Some rf -> state rf' <> Leader -> log rf' = log rf ->
  (forall p, p ∈ ps' -> p ∈ ps \/ ae_ok L p) -> kept (mkCluster (<[i := rf']> ns) ps').
Proof. intros Hi Hst Hlog Hps. apply kept_same. eapply linv_keep; eauto. done. Qed.

Lemma kept_heartbeat i rf rf' qs :
  ns !! i = Some rf -> tickHeartbeat rf = Ret (rf', qs) ->
  kept (mkCluster (<[i := rf']> ns) (ps ++ qs)).
Proof.
  intros Hi H. destruct (l_node _ _ _ Hl i rf Hi) as (Hne & Hleg & Hlead).
  destruct (tickHeartbeat_vtrans _ _ _ H) as [Ht _].
  apply tickHeartbeat_procs in H as [Hlog Hq]. eapply kept_vtrans; eauto.
  apply elem_of_app_ok. intros p Hp. destruct Hq as [->|[Hst Hq]]; [set_solver|].
  eapply (leader_procs L _ qs); [..|exact Hq|exact Hp]; cbn; auto.
Qed.

Lemma kept_election i rf rf' qs :
  ns !! i = Some rf -> tickElection rf = Ret (rf', qs) ->
  kept (mkCluster (<[i := rf']> ns) (ps ++ qs)).
Proof.
  intros Hi H.
  apply tickElection_spec in H as [(Ht & -> & Hlog)|(args & _ & _ & _ & _ & Hst & Hlog & _ & _ & _ & ->)].
  - eapply kept_vtrans; eauto. apply elem_of_app_ok. set_solver.
  - eapply kept_not_leader; eauto; [congruence|]. apply elem_of_app_ok.
    intros p (j & -> & _)%list_elem_of_fmap. done.
Qed.

Lemma kept_start i rf rf' cmd qs r :
  ns !! i = Some rf -> Start rf cmd = Ret (rf', qs, r) ->
  kept (mkCluster (<[i := rf']> ns) (ps ++ qs)).
Proof.
  intros Hi H. destruct (l_node _ _ _ Hl i rf Hi) as (Hne & Hleg & Hlead).
  apply Start_spec in H as [(_ & -> & -> & _)|(Hst & last & Hlast & -> & Hq & _)].
  { eapply kept_vtrans; eauto; [apply vt_stay; auto|apply elem_of_app_ok; set_solver]. }
  rewrite (legit_last L) in Hlast by done. injection Hlast as <-.
  replace (len (log rf) - 1 + 1)%Z with (len (log rf)) in * by lia.
  specialize (Hlead Hst). set (l := log rf ++ _) in *.
  assert (L (currentTerm rf) `prefix_of` l) as Hpre by (rewrite Hlead; by apply prefix_app_r).
  assert (Ld (currentTerm rf) = Some i) as HLi
    by (apply (no_leader _ _ _ _ _ _ (e_node _ _ _ He i rf Hi)); done).
  assert (legit (updL L (currentTerm rf) l) l) as Hll by (by apply legit_snoc).
  assert (l <> []) as Hnl by (unfold l; by destruct (log rf)).
  exists (updL L (currentTerm rf) l). split; [|split; [by apply updL_grows|]].
  2: by apply (lchange_at L ns _ i (set_log l (persist rf))); [eapply lookup_lt_Some|].
  eapply (linv_leader _ _ _ _ _ _ _ rf (set_log l (persist rf))); eauto.
  apply elem_of_app_ok. intros p Hp.
  eapply (leader_procs _ _ qs); [..|exact Hq|exact Hp]; cbn; auto. apply updL_eq.
Qed.

Lemma kept_request_vote i rf rf' args reply k s d :
  ns !! i = Some rf -> RequestVote rf args = Ret (rf', reply) ->
  kept (mkCluster (<[i := rf']> ns) (delete k ps ++ [PVoteReply s d args reply])).
Proof.
  intros Hi H. apply RequestVote_spec in H as (rf1 & Ht & Hlog & _ & _ & Hg).
  assert (log rf' = log rf /\ currentTerm rf' = currentTerm rf1 /\ state rf' = state rf1)
    as (Hlog' & E1 & E2) by (destruct Hg as [[_ ->]|(_ & -> & _)]; auto).
  apply kept_same. eapply linv_keep; eauto.
  - rewrite E1, E2. intros Hst. destruct (vtrans_leader _ _ Ht Hst) as [? ->].
    destruct (l_node _ _ _ Hl i rf Hi) as (_ & _ & Hlead). auto.
  - apply elem_of_delete_app_ok. intros p ->%list_elem_of_singleton. done.
Qed.

(** A won election: the log of the winner becomes the log of the term. *)
Lemma kept_win i rf rf' ps' :
  ns !! i = Some rf -> state rf = Candidate -> state rf' = Leader ->
  currentTerm rf' = currentTerm rf -> log rf' = log rf -> Ld' (currentTerm rf) = Some i -> (1 <= currentTerm rf)%Z ->
  (forall p, p ∈ ps' -> p ∈ ps \/ ae_ok (updL L (currentTerm rf) (log rf)) p) ->
  kept (mkCluster (<[i := rf']> ns) ps').
Proof.
  intros Hi Hc Hst Hct Hlog HLi HT Hps. destruct (l_node _ _ _ Hl i rf Hi) as (Hne & Hleg & _).
  assert (Ld (currentTerm rf) = None) as Hnone.
  { destruct (Ld (currentTerm rf)) as [j|] eqn:E; [|done]. exfalso.
    pose proof (HL _ _ E). simplify_eq. by eapply candidate_not_winner in He. }
  assert (L (currentTerm rf) = []) as HLn by (apply (l_none _ _ _ Hl); [lia|done]).
  assert (L (currentTerm rf) `prefix_of` log rf) as Hpre by (rewrite HLn; apply prefix_nil).
  exists (updL L (currentTerm rf) (log rf)). split; [|split; [by apply updL_grows|]].
  2: rewrite <- Hct, <- Hlog; by apply lchange_at; [eapply lookup_lt_Some|].
  rewrite <- Hct in *. eapply linv_leader; eauto.
  eapply legit_grows; [by apply updL_grows|done].
Qed.

Lemma kept_vote_reply i d rf rf' args reply k qs :
  ns !! i = Some rf -> ps !! k = Some (PVoteReply i d args reply) ->
  voteReply rf args reply = Ret (rf', qs) ->
  (state rf' = Leader -> Ld' (currentTerm rf') = Some i) ->
  kept (mkCluster (<[i := rf']> ns) (delete k ps ++ qs)).
Proof.
  intros Hi Hk H HLd. destruct (voteReply_spec _ _ _ _ _ H) as (_ & Hlog & Hcase).
  pose proof (voteReply_procs _ _ _ _ _ H) as Hq.
  destruct (decide (state rf' = Leader)) as [Hst'|Hst']; cycle 1.
  { eapply kept_not_leader; eauto. destruct Hq as [->|(_ & ? & _)]; [|done].
    apply elem_of_delete_app_ok. set_solver. }
  destruct Hcase as [Ht|(Hst & Hterm & _ & _ & _ & _ & Hct & _)].
  { destruct (vtrans_leader _ _ Ht Hst') as [? _]. eapply kept_vtrans; eauto.
    destruct Hq as [->|(? & _)]; [|congruence]. apply elem_of_delete_app_ok. set_solver. }
  destruct (l_node _ _ _ Hl i rf Hi) as (Hne & Hleg & _).
  destruct (e_proc _ _ _ He _ (list_elem_of_lookup_2 _ _ _ Hk))
    as (_ & (rf0 & Hi0 & [v Hv]) & _). cbn in Hi0. simplify_eq.
  destruct (no_count _ _ _ _ _ _ (e_node _ _ _ He i rf Hi) _ _ Hv) as [HT _].
  rewrite <- Hterm in HT. rewrite Hct in HLd.
  eapply kept_win; eauto; [lia|]. apply elem_of_delete_app_ok. intros p Hp.
  destruct Hq as [->|(_ & _ & _ & rf1 & Hq & Hlog1 & Hct1)]; [set_solver|].
  destruct (sendHeartbeats_procs rf1 qs Hq p Hp) as (j & ea & -> & _ & Hea).
  destruct (heartbeat_args_from_log L rf1 j ea) as (Hf & Hta & _); [by rewrite Hlog1..|done|].
  cbn. exists (log rf). rewrite Hta, Hct1, updL_eq, <- Hlog1. done.
Qed.

Lemma kept_handle i rf rf' d e args k qs :
  ns !! i = Some rf -> ps !! k = Some (PHandleAE i d e args) ->
  handleAppendEntries rf d e args = (rf', qs) ->
  kept (mkCluster (<[i := rf']> ns) (delete k ps ++ qs)).
Proof.
  intros Hi Hk H. destruct (handleAE_vtrans _ _ _ _ _ _ H) as [Ht _].
  pose proof (l_proc _ _ _ Hl _ (list_elem_of_lookup_2 _ _ _ Hk)) as Hp.
  unfold handleAppendEntries in H. destruct (is_leader _ && _); injection H as <- <-;
    (eapply kept_vtrans; eauto); apply elem_of_delete_app_ok;
    [intros p ->%list_elem_of_singleton; done|set_solver].
Qed.

Lemma kept_append i rf rf' s d e args reply k :
  ns !! i = Some rf -> ps !! k = Some (PSentAE s d e args) ->
  AppendEntries rf args = Ret (rf', reply) ->
  kept (mkCluster (<[i := rf']> ns) (delete k ps ++ [PRespAE s d e args reply])).
Proof.
  intros Hi Hk H. destruct (l_node _ _ _ Hl i rf Hi) as (Hne & Hleg & Hlead).
  destruct (l_proc _ _ _ Hl _ (list_elem_of_lookup_2 _ _ _ Hk)) as (S & HSp & HSf).
  pose proof (legit_prefix _ _ _ HSp (l_ghost _ _ _ Hl _)) as HSl.
  pose proof (AppendEntries_log L rf S args Hleg Hne HSl HSf) as Hae. rewrite H in Hae.
  destruct Hae as (Hlog & Hst & _).
  assert (S <> []) as HSne.
  { intros ->. destruct HSf as [_ (x & Hx & _) _]. by rewrite lookup_nil in Hx. }
  apply kept_same. destruct Hl as [H1 H2 H3 H4]. cbn in *. split; cbn; auto.
  - intros j rfj Hj. apply lookup_update_Some in Hj as [(<- & -> & _)|[_ Hj]]; [|by eapply H1].
    split; [destruct Hlog as [?|[? _]]; congruence|]. split; [destruct Hlog as [->|[-> _]]; done|].
    intros HLd. pose proof (Hst HLd) as ->. apply Hlead. exact HLd.
  - intros T HT Hn. apply H3; [done|]. destruct (Ld T) eqn:E; [|done]. apply HL in E. congruence.
  - intros p Hp. apply elem_of_delete_app in Hp as [?| ->%list_elem_of_singleton]; [auto|done].
Qed.

Lemma kept_resp i rf rf' d e args reply k qs :
  ns !! i = Some rf -> respAppendEntries rf d e args reply = Ret (rf', qs) ->
  kept (mkCluster (<[i := rf']> ns) (delete k ps ++ (qs ++ [PPersist i]))).
Proof.
  intros Hi H. destruct (l_node _ _ _ Hl i rf Hi) as (Hne & Hleg & Hlead).
  destruct (respAE_vtrans _ _ _ _ _ _ _ H) as [Ht _].
  apply respAE_procs in H as [Hlog Hq]. eapply kept_vtrans; eauto.
  apply elem_of_delete_app_ok. intros p [Hin| ->%list_elem_of_singleton]%elem_of_app; [|done].
  destruct Hq as [->|(ea & Hst & Hct & Hea & ->)]; [set_solver|].
  apply list_elem_of_singleton in Hin as ->.
  destruct (heartbeat_args_from_log L rf' d ea) as (Hf & Hta & _); [by rewrite Hlog..|done|].
  cbn. exists (log rf'). split; [by rewrite Hta, Hct, Hlead, Hlog|done].
Qed.

Lemma kept_lose k qs :
  (forall q, q ∈ qs -> exists s, q = PPersist s) -> kept (mkCluster ns (delete k ps ++ qs)).
Proof.
  intros Hqs. apply kept_same. destruct Hl as [H1 H2 H3 H4]. cbn in *. split; cbn; auto.
  - intros T HT Hn. apply H3; [done|]. destruct (Ld T) eqn:E; [|done]. apply HL in E. congruence.
  - intros q Hq. apply elem_of_delete_app in Hq as [?|Hq]; [auto|]. by destruct (Hqs q Hq) as [s ->].
Qed.

End Steps.

Lemma linv_step V Ld L (c c' : cluster) :
  einv V Ld c -> linv Ld L c -> cstep c c' ->
  exists V' Ld' L', einv V' Ld' c' /\ linv Ld' L' c' /\ grows L L'
    /\ new_winner Ld Ld' c c' /\ lchange L L' c'.
Proof.
  intros He Hl Hstep. destruct (einv_step _ _ _ _ He Hstep) as (V' & Ld' & _ & Hw & He').
  pose proof (new_winner_ext _ _ _ _ Hw) as HL.
  destruct Hstep as (a & Hcf & Hs%step_shape); [|done]. destruct c as [ns ps].
  exists V', Ld'. enough (kept Ld' L c') as (L' & ? & ? & ?) by eauto 10. clear Hw.
  destruct Hs as [i rf rf' qs Hi -> Hcode|k p i rf rf' qs Hk Hi -> Hcode|k p qs Hk -> Hqs]; cbn in *.
  - destruct Hcode as [H|[H|[(cmd & r & H)|[[H ->]|[-> ->]]]]];
      eauto using kept_heartbeat, kept_election, kept_start.
    + eapply kept_vtrans; eauto using applyEntries_vtrans, applyEntries_log.
      apply elem_of_app_ok. set_solver.
    + eapply kept_vtrans; eauto; [apply vt_stay; auto|apply elem_of_app_ok; set_solver].
  - destruct p as [s d args|s d args reply|s d e args|s d e args|s d e args reply|s].
    + destruct Hcode as (-> & reply & H & ->). eauto using kept_request_vote.
    + destruct Hcode as [-> H]. eapply kept_vote_reply; eauto. intros Hst.
      apply (no_leader _ _ _ _ _ _ (e_node _ _ _ He' s rf' ltac:(cbn;
        by rewrite list_lookup_insert_eq by (by eapply lookup_lt_Some)))). done.
    + destruct Hcode as [-> H]. eauto using kept_handle.
    + destruct Hcode as (-> & reply & H & ->). eauto using kept_append.
    + destruct Hcode as (-> & qs0 & H & ->). eauto using kept_resp.
    + destruct Hcode as (-> & -> & ->).
      eapply kept_vtrans; eauto; [apply vt_stay; auto|apply elem_of_delete_app_ok; set_solver].
  - by apply kept_lose with (Ld := Ld).
Qed.

Definition L0 : Z -> entries := fun T => if decide (T = 0%Z) then [mkEntry 0 None 0] else [].

Lemma linv_init n timeout : linv (fun _ => None) L0 (init n timeout : cluster).
Proof.
  assert (legit L0 [mkEntry 0 None 0]) as H0.
  { intros k e [-> <-]%list_lookup_singleton_Some. done. }
  split.
  - intros i rf [Hm Hi]%init_lookup. unfold Make in Hm. cbn in Hm. injection Hm as <-. cbn.
    split; [done|]. split; [exact H0|]. intros [=].
  - intros T. change (legit L0 (if decide (T = 0%Z) then [mkEntry 0 None 0] else [])).
    case_decide; [done|]. intros k e. by rewrite lookup_nil.
  - intros T HT _. unfold L0. by rewrite decide_False.
  - intros p []%elem_of_nil.
Qed.

(** Both invariants hold in every reachable state, and the ghost only grows. *)
Lemma inv_rtc V Ld L (c c' : cluster) :
  einv V Ld c -> linv Ld L c -> rtc cstep c c' ->
  exists V' Ld' L', einv V' Ld' c' /\ linv Ld' L' c' /\ grows L L'.
Proof.
  intros He Hl H. revert V Ld L He Hl. induction H as [|x y z Hs _ IH]; intros V Ld L He Hl.
  - exists V, Ld, L. split; [done|]. split; [done|]. by intros T.
  - destruct (linv_step _ _ _ _ _ He Hl Hs) as (V1 & Ld1 & L1 & He1 & Hl1 & Hg1 & _).
    destruct (IH _ _ _ He1 Hl1) as (V2 & Ld2 & L2 & He2 & Hl2 & Hg2).
    exists V2, Ld2, L2. split; [done|]. split; [done|]. intros T. etrans; [apply Hg1|apply Hg2].
Qed.

Lemma inv_reachable n timeout (c : cluster) :
  reachable n timeout c -> exists V Ld L, einv V Ld c /\ linv Ld L c.
Proof.
  intros H. destruct (inv_rtc _ _ _ _ _ (einv_init n timeout) (linv_init n timeout) H)
    as (V & Ld & L & ? & ? & _). eauto.
Qed.

End LogMatching.
