(* ===== verification/RaftTheorems.v ===== *)
(** * What holds of every crash-free execution of a Raft cluster *)

From S2P Require Import Prelude Persister Raft RaftCluster RaftElection RaftLogMatching.
From stdpp Require Import prelude gmap relations.

Section Theorems.
Context {C : Type}.
Notation Raft := (Raft C).
Notation cluster := (cluster C).

(** ** Elections *)

(** C3: at most one leader per term. In every crash-free execution of a
    cluster, whatever messages are lost, delayed or reordered, two peers that
    lead the same term, at the same moment or at different ones, are the same
    peer. *)
Theorem election_safety n timeout (c c' : cluster) i j rf rf' :
  reachable n timeout c -> rtc cstep c c' ->
  nodes c !! i = Some rf -> nodes c' !! j = Some rf' ->
  state rf = Leader -> state rf' = Leader -> currentTerm rf = currentTerm rf' ->
  i = j.
Proof.
  intros Hr Hs Hi Hj HL HL' HT.
  destruct (einv_reachable _ _ _ Hr) as (V & Ld & He).
  destruct (einv_rtc _ _ _ _ He Hs) as (V' & Ld' & _ & Hext & He').
  pose proof (no_leader _ _ _ _ _ _ (e_node _ _ _ He i rf Hi) HL) as E.
  pose proof (no_leader _ _ _ _ _ _ (e_node _ _ _ He' j rf' Hj) HL') as E'.
  apply Hext in E. rewrite HT in E. congruence.
Qed.

(** A vote is final. Once a peer has voted in a term, it keeps that vote
    for as long as it stays in the term. *)
Theorem one_vote_per_term n timeout (c c' : cluster) i rf rf' :
  reachable n timeout c -> rtc cstep c c' ->
  nodes c !! i = Some rf -> nodes c' !! i = Some rf' ->
  currentTerm rf = currentTerm rf' -> votedFor rf <> (-1)%Z ->
  votedFor rf' = votedFor rf.
Proof.
  intros Hr Hs Hi Hi' HT Hv.
  destruct (einv_reachable _ _ _ Hr) as (V & Ld & He).
  destruct (einv_rtc _ _ _ _ He Hs) as (V' & Ld' & HV & _ & He').
  pose proof (no_vote _ _ _ _ _ _ (e_node _ _ _ He i rf Hi)) as E.
  pose proof (no_vote _ _ _ _ _ _ (e_node _ _ _ He' i rf' Hi')) as E'.
  unfold vote_of in *. destruct (Z.eqb_spec (votedFor rf) (-1)); [done|].
  apply HV in E. rewrite HT, E' in E. destruct (votedFor rf' =? -1)%Z; [done|]. congruence.
Qed.

(** ** Logs *)

(** C4: log matching. In every crash-free execution, if two logs hold entries of
    the same term at the same position, they are identical up to and including
    that position. (With crashes it fails: [crash_two_leaders] of RaftRuns.v
    gives two leaders of one term.) *)
Theorem log_matching n timeout (c : cluster) i j rf rf' k e e' :
  reachable n timeout c ->
  nodes c !! i = Some rf -> nodes c !! j = Some rf' ->
  log rf !! k = Some e -> log rf' !! k = Some e' -> le_Term e = le_Term e' ->
  take (S k) (log rf) = take (S k) (log rf').
Proof.
  intros Hr Hi Hj Hk Hk' HT. destruct (inv_reachable _ _ _ Hr) as (V & Ld & L & _ & Hl).
  destruct (l_node _ _ _ Hl i rf Hi) as (_ & H1 & _), (l_node _ _ _ Hl j rf' Hj) as (_ & H2 & _).
  eapply legit_agree; eauto.
Qed.

(** C14: a leader never overwrites or deletes entries of its own log. In every
    crash-free execution, as long as a peer leads a term its log only grows. *)
Theorem leader_append_only n timeout (c c' : cluster) i rf rf' :
  reachable n timeout c -> rtc cstep c c' ->
  nodes c !! i = Some rf -> nodes c' !! i = Some rf' ->
  state rf = Leader -> state rf' = Leader -> currentTerm rf = currentTerm rf' ->
  log rf `prefix_of` log rf'.
Proof.
  intros Hr Hs Hi Hi' HL HL' HT. destruct (inv_reachable _ _ _ Hr) as (V & Ld & L & He & Hl).
  destruct (inv_rtc _ _ _ _ _ He Hl Hs) as (V' & Ld' & L' & _ & Hl' & Hg).
  destruct (l_node _ _ _ Hl i rf Hi) as (_ & _ & H1), (l_node _ _ _ Hl' i rf' Hi') as (_ & _ & H2).
  rewrite <- (H1 HL), <- (H2 HL'), <- HT. apply Hg.
Qed.

(** A successful [AppendEntries] replicates. When a follower answers a
    request of a reachable cluster with [Success], its log afterwards starts
    with the whole log the leader had when it built the request: a prefix of
    length [PrevLogIndex] + 1 followed by the request's entries. *)
Theorem append_success_replicates n timeout (c : cluster) s d expected args rf rf' reply :
  reachable n timeout c -> PSentAE s d expected args ∈ procs c ->
  nodes c !! d = Some rf -> AppendEntries rf args = Ret (rf', reply) ->
  aer_Success reply = true ->
  exists prefix, length prefix = Z.to_nat (ae_PrevLogIndex args + 1) /\
    (prefix ++ ae_Entries args) `prefix_of` log rf'.
Proof.
  intros Hr Hp Hd H Hs. destruct (inv_reachable _ _ _ Hr) as (V & Ld & L & _ & Hl).
  destruct (l_node _ _ _ Hl d rf Hd) as (Hne & Hleg & _).
  destruct (l_proc _ _ _ Hl _ Hp) as (S & HSp & HSf).
  pose proof (legit_prefix _ _ _ HSp (l_ghost _ _ _ Hl _)) as HSl.
  pose proof (AppendEntries_log L rf S args Hleg Hne HSl HSf) as Hae. rewrite H in Hae.
  destruct Hae as (_ & _ & Hpre). destruct HSf as [Hprev (e & He & _) ->].
  exists (take (Z.to_nat (ae_PrevLogIndex args) + 1) S). rewrite take_drop.
  split; [|auto]. apply lookup_lt_Some in He. rewrite length_take. lia.
Qed.

(** ** Applying *)

Definition same_applied (rf rf' : Raft) : Prop :=
  applyCh rf' = applyCh rf /\ lastApplied rf' = lastApplied rf.

Lemma signal_commit_applied (rf rf' : Raft) : signal_commit rf = Ret rf' -> same_applied rf rf'.
Proof. intros [_ ->]%signal_commit_fields. done. Qed.

Lemma handlers_same_applied (rf rf' : Raft) :
  (exists ps, tickHeartbeat rf = Ret (rf', ps)) \/ (exists ps, tickElection rf = Ret (rf', ps))
  \/ (exists cmd ps r, Start rf cmd = Ret (rf', ps, r))
  \/ (exists args reply, RequestVote rf args = Ret (rf', reply))
  \/ (exists args reply ps, voteReply rf args reply = Ret (rf', ps))
  \/ (exists d e args ps, handleAppendEntries rf d e args = (rf', ps))
  \/ (exists args reply, AppendEntries rf args = Ret (rf', reply))
  \/ (exists d e args reply ps, respAppendEntries rf d e args reply = Ret (rf', ps))
  \/ rf' = persist rf \/ rf' = Kill rf -> same_applied rf rf'.
Proof.
  intros [[ps H]|[[ps H]|[(cmd & ps & r & H)|[(args & reply & H)|[(args & reply & ps & H)|
    [(d & e & args & ps & H)|[(args & reply & H)|[(d & e & args & reply & ps & H)|[->| ->]]]]]]]]];
    [..|done|done].
  - unfold tickHeartbeat in H. go_inv; done.
  - unfold tickElection in H. go_inv; done.
  - unfold Start in H. go_inv; done.
  - unfold RequestVote in H. destruct (currentTerm rf <? rv_Term args)%Z; go_inv; done.
  - unfold voteReply in H. go_inv; done.
  - unfold handleAppendEntries in H. case_match; simplify_eq; done.
  - unfold AppendEntries in H. destruct (currentTerm rf <? ae_Term args)%Z; go_inv; try done;
      match goal with H : advanceCommit _ _ = _ |- _ =>
        apply advanceCommit_fields in H as (? & ? & ->) end; done.
  - unfold respAppendEntries in H. go_inv; try done;
      match goal with H : signal_commit _ = Ret _ |- _ =>
        apply signal_commit_fields in H as [_ ->] end; done.
Qed.

(** A window of a legit log carries consecutive indices. *)
Lemma legit_window (L : Z -> list (LogEntry C)) (l : list (LogEntry C)) a m :
  legit L l -> (a + m <= length l)%nat ->
  le_Index <$> take m (drop a l) = seqZ (Z.of_nat a) (Z.of_nat m)
  /\ forall e, e ∈ take m (drop a l) -> l !! Z.to_nat (le_Index e) = Some e.
Proof.
  intros Hl Hlen.
  assert (forall k e, take m (drop a l) !! k = Some e ->
    le_Index e = Z.of_nat (a + k) /\ l !! (a + k) = Some e) as Hk.
  { intros k e Hk. apply lookup_take_Some in Hk as [Hk _]. rewrite lookup_drop in Hk.
    split; [|done]. by destruct (Hl _ _ Hk). }
  split.
  - apply list_eq_same_length with (n := m).
    + rewrite length_seqZ. lia.
    + rewrite length_fmap, length_take, length_drop. lia.
    + intros k x y _ Hx Hy. apply list_lookup_fmap_Some in Hx as (e & -> & Hx).
      apply lookup_seqZ in Hy as [-> _]. destruct (Hk _ _ Hx) as [-> _]. lia.
  - intros e [k He]%list_elem_of_lookup. destruct (Hk _ _ He) as [-> ?]. by rewrite Nat2Z.id.
Qed.

(** The messages sent on [applyCh] are those of the entries after
    [lastApplied], up to [commitIndex], in order. *)
Lemma applyEntries_spec L (rf rf' : Raft) :
  legit L (log rf) -> log rf <> [] -> (0 <= lastApplied rf)%Z -> applyEntries rf = Ret rf' ->
  same_applied rf rf' \/
  (lastApplied rf < commitIndex rf /\ lastApplied rf' = commitIndex rf)%Z /\
  exists es, applyCh rf' = applyCh rf ++ (entry_msg <$> es)
    /\ le_Index <$> es = seqZ (lastApplied rf + 1) (commitIndex rf - lastApplied rf)
    /\ forall e, e ∈ es -> log rf !! Z.to_nat (le_Index e) = Some e.
Proof.
  intros Hl Hne H0 H. unfold applyEntries in H. rewrite (legit_base L) in H by done.
  destruct (Z.ltb_spec (lastApplied rf) (commitIndex rf)) as [Hlt|_]; cycle 1.
  { destruct (hasCommittedChan rf); go_inv. by left. }
  cbn in H. rewrite !Z.sub_0_r in H. go_inv; [by left|]. right. split; [done|].
  eexists. split; [done|].
  destruct (legit_window L (log rf) (Z.to_nat (lastApplied rf + 1))
    (Z.to_nat (commitIndex rf + 1 - (lastApplied rf + 1)))) as [-> Hin]; [done|unfold len in *; lia|].
  split; [f_equal; lia|done].
Qed.

Definition applied_ok (rf : Raft) : Prop :=
  (0 <= lastApplied rf)%Z /\ CommandIndex <$> applyCh rf = seqZ 1 (lastApplied rf).

Lemma applied_ok_step L (c c' : cluster) :
  (forall i rf, nodes c !! i = Some rf -> log rf <> [] /\ legit L (log rf)) ->
  (forall i rf, nodes c !! i = Some rf -> applied_ok rf) -> cstep c c' ->
  forall i rf, nodes c' !! i = Some rf -> applied_ok rf.
Proof.
  intros HL Hok (a & Hcf & Hs%step_shape) i rf; [|done].
  assert (forall i0 rf0 rf', nodes c !! i0 = Some rf0 -> same_applied rf0 rf' -> applied_ok rf') as Hsame.
  { intros i0 rf0 rf' Hi0 [E1 E2]. unfold applied_ok. rewrite E1, E2. eapply Hok; eauto. }
  destruct Hs as [i0 rf0 rf' qs Hi -> Hcode|k p i0 rf0 rf' qs Hk Hi -> Hcode|k p qs Hk -> Hqs]; cbn;
    [intros Hj; apply lookup_update_Some in Hj as [(_ & -> & _)|[_ Hj]]; [|by eapply Hok]..|apply Hok].
  - destruct Hcode as [H|[H|[(cmd & r & H)|[[H ->]|[-> ->]]]]];
      try (eapply Hsame; [done|]; apply handlers_same_applied; eauto 10; fail).
    destruct (HL i0 rf0 Hi) as [Hne Hleg]. destruct (Hok i0 rf0 Hi) as [H0 Hseq].
    destruct (applyEntries_spec L rf0 rf' Hleg Hne H0 H) as [?|([? Hla] & es & Hch & Hes & _)]; [by eapply Hsame|].
    split; [lia|]. rewrite Hch, fmap_app, Hseq, Hla, <- list_fmap_compose.
    change (CommandIndex ∘ entry_msg) with (@le_Index C). rewrite Hes.
    rewrite Z.add_comm, <- seqZ_app by lia. f_equal. lia.
  - eapply Hsame; [done|]. apply handlers_same_applied.
    destruct p; [destruct Hcode as (-> & reply' & H & ->)|destruct Hcode as (-> & H)
      |destruct Hcode as (-> & H)|destruct Hcode as (-> & reply' & H & ->)
      |destruct Hcode as (-> & qs0 & H & ->)|destruct Hcode as (-> & -> & ->)]; eauto 15.
Qed.

(** C9: entries are applied in order. In every crash-free execution the indices
    of the messages a peer has sent to [applyCh] are exactly 1, 2, ...,
    [lastApplied]: none is skipped, repeated or out of order. (A peer that
    restarts begins again at 1, on a new channel.) *)
Theorem applied_in_order n timeout (c : cluster) i rf :
  reachable n timeout c -> nodes c !! i = Some rf ->
  CommandIndex <$> applyCh rf = seqZ 1 (lastApplied rf).
Proof.
  intros Hr Hi. enough (applied_ok rf) as [_ ?] by done. revert i rf Hi.
  unfold reachable in Hr. remember (init n timeout) as c0 eqn:E0.
  assert (exists V Ld L, einv V Ld c0 /\ linv Ld L c0) as Hinv
    by (subst; exists (fun _ _ => None), (fun _ => None), L0; auto using einv_init, linv_init).
  assert (forall i rf, nodes c0 !! i = Some rf -> applied_ok rf) as H0.
  { subst. intros i rf [Hm _]%init_lookup. unfold Make in Hm. cbn in Hm. by injection Hm as <-. }
  clear E0. induction Hr as [|x y z Hs _ IH]; [done|].
  destruct Hinv as (V & Ld & L & He & Hl).
  destruct (linv_step _ _ _ _ _ He Hl Hs) as (V1 & Ld1 & L1 & He1 & Hl1 & _). apply IH; [eauto|].
  eapply applied_ok_step; [|done|done]. intros i rf Hi. by destruct (l_node _ _ _ Hl i rf Hi) as (? & ? & _).
Qed.

(** ** Terms never decrease *)

Lemma vtrans_mono (rf rf' : Raft) : vtrans rf rf' -> (currentTerm rf <= currentTerm rf')%Z.
Proof. intros []; lia. Qed.

Lemma cstep_term (c c' : cluster) i rf :
  cstep c c' -> nodes c !! i = Some rf ->
  exists rf', nodes c' !! i = Some rf' /\ (currentTerm rf <= currentTerm rf')%Z.
Proof.
  intros (a & Hcf & Hs%step_shape) Hi; [|done].
  assert (forall i0 rf0 rf', nodes c !! i0 = Some rf0 -> (currentTerm rf0 <= currentTerm rf')%Z ->
    exists rf1, <[i0:=rf']> (nodes c) !! i = Some rf1 /\ (currentTerm rf <= currentTerm rf1)%Z) as Hupd.
  { intros i0 rf0 rf' Hi0 Hle. destruct (decide (i0 = i)) as [->|Hne].
    - exists rf'. rewrite list_lookup_insert_eq by (by eapply lookup_lt_Some). split; [done|congruence].
    - exists rf. by rewrite list_lookup_insert_ne. }
  destruct Hs as [i0 rf0 rf' qs Hi0 -> Hcode|k p i0 rf0 rf' qs Hk Hi0 -> Hcode|k p qs Hk -> Hqs]; cbn;
    [eapply Hupd; [done|]..|exists rf; split; [done|lia]].
  - destruct Hcode as [H|[H|[(cmd & r & H)|[[H ->]|[-> ->]]]]]; [| | | |done].
    + apply tickHeartbeat_vtrans in H as [? _]. by apply vtrans_mono.
    + apply tickElection_spec in H as [(? & _)|(args & _ & _ & -> & _)]; [by apply vtrans_mono|lia].
    + apply Start_vtrans in H as [? _]. by apply vtrans_mono.
    + apply applyEntries_vtrans in H. by apply vtrans_mono.
  - destruct p as [s d args|s d args reply|s d e args|s d e args|s d e args reply|s].
    + destruct Hcode as (-> & reply & H & ->). apply RequestVote_spec in H as (rf1 & Ht & _ & _ & _ & Hg).
      apply vtrans_mono in Ht. by destruct Hg as [[_ ->]|(_ & -> & _)].
    + destruct Hcode as [-> H]. apply voteReply_spec in H as (_ & _ & [Ht|(_ & _ & _ & _ & _ & _ & -> & _)]);
        [by apply vtrans_mono|lia].
    + destruct Hcode as [-> H]. apply handleAE_vtrans in H as [Ht _]. by apply vtrans_mono.
    + destruct Hcode as (-> & reply & H & ->). apply AppendEntries_vtrans in H. by apply vtrans_mono.
    + destruct Hcode as (-> & qs0 & H & ->). apply respAE_vtrans in H as [Ht _]. by apply vtrans_mono.
    + destruct Hcode as (-> & -> & ->). done.
Qed.

(** Terms never decrease. *)
Theorem term_monotonic (c c' : cluster) i rf :
  rtc cstep c c' -> nodes c !! i = Some rf ->
  exists rf', nodes c' !! i = Some rf' /\ (currentTerm rf <= currentTerm rf')%Z.
Proof.
  intros H. revert rf. induction H as [|x y z Hs _ IH]; intros rf Hi; [eauto with lia|].
  destruct (cstep_term _ _ _ _ Hs Hi) as (rf1 & Hi1 & Hle).
  destruct (IH rf1 Hi1) as (rf2 & ? & ?). exists rf2. split; [done|lia].
Qed.

(** ** The commit rule *)

Definition agreed (rf : Raft) (m : Z) (q : nat) : Prop :=
  q = me rf \/ exists mi, matchIndex rf !! q = Some mi /\ (m <= mi)%Z.

Lemma countAgrees_fold (rf : Raft) m l acc k Q :
  go_fold (fun n i =>
    if (i =? me rf)%nat then Ret n
    else let! mi := go_index (matchIndex rf) (Z.of_nat i) in
         Ret (if (m <=? mi)%Z then (n + 1)%Z else n)) acc l = Ret k ->
  NoDup l -> NoDup Q -> Z.of_nat (length Q) = acc -> me rf ∈ Q ->
  (forall q, q ∈ Q -> agreed rf m q /\ (q ∈ l -> q = me rf)) ->
  exists Q', NoDup Q' /\ Z.of_nat (length Q') = k
    /\ forall q, q ∈ Q' -> agreed rf m q /\ (q ∈ Q \/ q ∈ l).
Proof.
  revert acc Q. induction l as [|i l IH]; cbn; intros acc Q H Hl HQ Hlen Hme Hag.
  { injection H as <-. exists Q. split; [done|]. split; [done|]. intros q Hq.
    destruct (Hag q Hq). auto. }
  apply bind_Ret in H as (acc' & Hf & H). apply NoDup_cons in Hl as [Hi Hl].
  assert (acc' = acc \/ (acc' = acc + 1 /\ i <> me rf /\ agreed rf m i)%Z) as [->|(-> & Hne & Hagi)].
  { destruct (Nat.eqb_spec i (me rf)) as [->|Hne]; [simplify_eq; by left|].
    apply bind_Ret in Hf as (mi & Hmi & Hf). apply go_index_Ret in Hmi as [_ Hmi].
    rewrite Nat2Z.id in Hmi. destruct (Z.leb_spec m mi); simplify_eq; [right|by left].
    split; [done|]. split; [done|]. right. eauto. }
  - destruct (IH acc Q H) as (Q' & ? & ? & HQ'); auto.
    { intros q Hq. destruct (Hag q Hq) as [? Hin]. split; [done|]. intros ?. apply Hin. by right. }
    exists Q'. split; [done|]. split; [done|]. intros q Hq. destruct (HQ' q Hq) as [? [?|?]]; split; auto.
    right. by right.
  - assert (i ∉ Q) as HiQ by (intros Hin; destruct (Hag i Hin) as [_ E]; apply Hne, E; left).
    destruct (IH (acc + 1)%Z (i :: Q) H) as (Q' & ? & ? & HQ'); auto.
    { by apply NoDup_cons. }
    { cbn. lia. }
    { by right. }
    { intros q [->|Hq]%elem_of_cons; [by split|]. destruct (Hag q Hq) as [? Hin].
      split; [done|]. intros ?. apply Hin. by right. }
    exists Q'. split; [done|]. split; [done|]. intros q Hq.
    destruct (HQ' q Hq) as [? [[->|?]%elem_of_cons|?]]; split; auto; right; [left|by right].
Qed.

Lemma countAgrees_spec (rf : Raft) m k :
  countAgrees rf m = Ret k -> (me rf < peers rf)%nat ->
  exists Q, NoDup Q /\ Z.of_nat (length Q) = k
    /\ forall q, q ∈ Q -> agreed rf m q /\ (q < peers rf)%nat.
Proof.
  intros H Hme. destruct (countAgrees_fold rf m _ _ _ [me rf] H) as (Q & ? & ? & HQ).
  - apply NoDup_seq.
  - apply NoDup_singleton.
  - done.
  - left.
  - intros q ->%list_elem_of_singleton. split; [by left|done].
  - exists Q. split; [done|]. split; [done|]. intros q Hq.
    destruct (HQ q Hq) as [? [->%list_elem_of_singleton|Hin]]; [done|].
    apply elem_of_seq in Hin. split; [done|lia].
Qed.

(** The quorum behind a changed commit index *)
Lemma commit_quorum (rf rf' : Raft) server expected args reply ps :
  respAppendEntries rf server expected args reply = Ret (rf', ps) ->
  (me rf < peers rf)%nat -> commitIndex rf' <> commitIndex rf ->
  state rf = Leader /\ (commitIndex rf < commitIndex rf')%Z
  /\ (exists base e, log_base (log rf) = Ret base
      /\ go_index (log rf) (commitIndex rf' - base) = Ret e /\ le_Term e = currentTerm rf)
  /\ exists Q, majority (peers rf) Q /\ forall q, q ∈ Q -> agreed rf' (commitIndex rf') q.
Proof.
  unfold respAppendEntries, is_leader. intros H Hme Hci.
  destruct (bool_decide (state rf = Leader)) eqn:HL; [|cbn in H; by simplify_eq].
  apply bool_decide_eq_true in HL. cbn in H.
  destruct (ae_Term args =? currentTerm rf)%Z; [|by simplify_eq].
  destruct (currentTerm rf <? aer_Term reply)%Z; [by simplify_eq|].
  destruct (aer_Success reply); [|go_inv; done].
  apply bind_Ret in H as (ni & _ & H). apply bind_Ret in H as (rf1 & H1 & H).
  assert (me rf1 = me rf /\ peers rf1 = peers rf /\ log rf1 = log rf /\ currentTerm rf1 = currentTerm rf
    /\ commitIndex rf1 = commitIndex rf) as (Em & Ep & El & Et & Ec) by (go_inv; done).
  apply bind_Ret in H as (mi & Hmi & H). apply bind_Ret in H as (num & Hnum & H).
  apply bind_Ret in H as (base & Hb & H). apply bind_Ret in H as (e & He & H).
  destruct (_ && _) eqn:Hcond in H; [|simplify_eq; congruence].
  apply bind_Ret in H as (rf2 & Hs & H). apply signal_commit_fields in Hs as [_ ->]. simplify_eq.
  cbn in *. bprop. rewrite El, Ec, Ep, Et in *.
  assert (Z.max (commitIndex rf) mi = mi) as Hmax by lia. rewrite Hmax in *.
  split; [done|]. split; [lia|]. split; [exists base, e; done|].
  rewrite <- Em, <- Ep in Hme. destruct (countAgrees_spec rf1 mi num Hnum Hme) as (Q & HQ & Hlen & Hag).
  exists Q. split; [split; [done|]|].
  - split; [|intros q Hq; rewrite <- Ep; by apply Hag].
    change 2%Z with (Z.of_nat 2) in *. rewrite <- Nat2Z.inj_div in *. lia.
  - intros q Hq. destruct (Hag q Hq) as [[->|Hm] _]; [by left|by right].
Qed.

(** C10: the leader's commit rule. When the answer to [AppendEntries] makes a
    peer change its commit index, the peer is the leader, the index grows, the
    entry at the new index is of the leader's current term, and a majority of
    the peers (the leader included) has a match index at least that high. *)
Theorem commit_rule (rf rf' : Raft) server expected args reply ps :
  respAppendEntries rf server expected args reply = Ret (rf', ps) ->
  (me rf < peers rf)%nat -> commitIndex rf' <> commitIndex rf ->
  state rf = Leader /\ (commitIndex rf < commitIndex rf')%Z
  /\ (exists base e, log_base (log rf) = Ret base
      /\ go_index (log rf) (commitIndex rf' - base) = Ret e /\ le_Term e = currentTerm rf)
  /\ exists Q, majority (peers rf) Q /\ forall q, q ∈ Q -> agreed rf' (commitIndex rf') q.
Proof. apply commit_quorum. Qed.

(** ** Stable storage *)

(** C16: a restart restores what was persisted. After [persist], a crash and
    [Make], a peer has its term, its vote and its log again, and is a follower
    that has committed and applied nothing. *)
Theorem restart_restores (rf : Raft) n i timeout :
  exists rf', Make n i (crash_persister (GInt 0) (persister (persist rf))) timeout = Ret rf'
    /\ currentTerm rf' = currentTerm rf /\ votedFor rf' = votedFor rf /\ log rf' = log rf
    /\ state rf' = Follower /\ commitIndex rf' = 0%Z /\ lastApplied rf' = 0%Z.
Proof.
  unfold Make. rewrite crash_persister_id. unfold persist. cbn [persister set_persister].
  destruct (save_read (GInt 0) [GInt (currentTerm rf); GInt (votedFor rf); GLog (log rf)] (persister rf))
    as [-> _]. cbn. eauto 10.
Qed.

(** [AppendEntries] leaves nothing unpersisted. *)
Theorem append_entries_persisted (rf rf' : Raft) args reply :
  AppendEntries rf args = Ret (rf', reply) -> persist rf' = rf'.
Proof.
  assert (forall rf0 : Raft, persist (persist rf0) = persist rf0) as Hpp.
  { intros rf0. reflexivity. }
  unfold AppendEntries. intros H. go_inv; apply Hpp.
Qed.

End Theorems.
