(* ===== verification/RaftTypes.v ===== *)
(** * What every peer and every message looks like, crashes included

    The invariants of RaftElection.v and RaftLogMatching.v are about
    executions without a crash. The invariant of this file is weaker and holds
    of all executions, restarts from the persister included: numbers are in
    their ranges, slices have their lengths, the k-th entry of every log, in
    memory, on disk or in a message, carries the index it should have. It is
    enough to show that the handlers of remote calls, elections and restarts
    never panic. *)

From S2P Require Import Prelude Persister Raft RaftCluster.
From stdpp Require Import prelude gmap relations.

Section Types.
Context {C : Type}.
Notation Raft := (Raft C).
Notation cluster := (cluster C).
Notation proc := (proc C).
Notation entries := (list (LogEntry C)).

(** [es] holds the indices [a], [a+1], ... *)
Definition consecutive (a : Z) (es : entries) : Prop :=
  forall k e, es !! k = Some e -> le_Index e = (a + Z.of_nat k)%Z.

Definition log_ok (l : entries) : Prop := consecutive 0 l /\ l <> [].

Definition vote_ok (n : nat) (v : Z) : Prop := (-1 <= v < Z.of_nat n)%Z.

(** What [persist] may have written. *)
Definition disk_ok (n : nat) (data : list (gobval C)) : Prop :=
  data = [] \/ exists ct vf l, data = [GInt ct; GInt vf; GLog l]
    /\ (0 <= ct)%Z /\ vote_ok n vf /\ log_ok l.

Record peer_ok (n i : nat) (rf : Raft) : Prop := {
  p_me : me rf = i;
  p_peers : peers rf = n;
  p_term : (0 <= currentTerm rf)%Z;
  p_vote : vote_ok n (votedFor rf);
  p_log : log_ok (log rf);
  p_next : length (nextIndex rf) = n;
  p_match : length (matchIndex rf) = n;
  p_commit : (0 <= commitIndex rf)%Z;
  p_applied : (0 <= lastApplied rf)%Z;
  p_disk : disk_ok n (raftstate (persister rf))
}.

Record args_ok (n : nat) (a : AppendEntriesArgs C) : Prop := {
  a_term : (0 <= ae_Term a)%Z;
  a_prev : (0 <= ae_PrevLogIndex a)%Z;
  a_entries : consecutive (ae_PrevLogIndex a + 1) (ae_Entries a)
}.

(** The sender of a request is a peer, or the old incarnation of one. *)
Definition sender_ok (n s : nat) : Prop := s <= n.

Definition proc_typed (n : nat) (p : proc) : Prop :=
  match p with
  | PSendRV s d a => sender_ok n s /\ d < n /\ (0 <= rv_Term a)%Z /\ (0 <= rv_CandidateId a < Z.of_nat n)%Z
  | PVoteReply s d a r => sender_ok n s /\ d < n /\ (0 <= rvr_Term r)%Z
  | PHandleAE s d _ a => s < n /\ d < n /\ args_ok n a
  | PSentAE s d _ a => sender_ok n s /\ d < n /\ args_ok n a
  | PRespAE s d _ a r => sender_ok n s /\ d < n /\ args_ok n a /\ (0 <= aer_Term r)%Z
  | PPersist s => sender_ok n s
  end.

Lemma sender_peer n s : s < n -> sender_ok n s.
Proof. unfold sender_ok. lia. Qed.
Hint Resolve sender_peer : core.

Record typed (n : nat) (c : cluster) : Prop := {
  t_length : length (nodes c) = n;
  t_node : forall i rf, nodes c !! i = Some rf -> peer_ok n i rf;
  t_proc : Forall (proc_typed n) (procs c)
}.

(** ** Consecutive indices *)

Lemma consecutive_app a l m : consecutive a l -> consecutive (a + len l) m -> consecutive a (l ++ m).
Proof.
  intros Hl Hm k e [Hk|[Hk Hm']]%lookup_app_Some; [auto|]. rewrite (Hm _ _ Hm'). unfold len. lia.
Qed.

Lemma consecutive_take a k l : consecutive a l -> consecutive a (take k l).
Proof. intros Hl j e [Hj _]%lookup_take_Some. auto. Qed.

Lemma consecutive_drop a k l : consecutive a l -> consecutive (a + Z.of_nat k) (drop k l).
Proof. intros Hl j e Hj. rewrite lookup_drop in Hj. rewrite (Hl _ _ Hj). lia. Qed.

Lemma consecutive_tail a e l : consecutive a (e :: l) -> le_Index e = a /\ consecutive (a + 1) l.
Proof.
  intros H. split; [rewrite (H 0 e eq_refl); lia|]. intros k x Hk. rewrite (H (S k) x Hk). lia.
Qed.

Lemma log_ok_base l : log_ok l -> log_base l = Ret 0%Z.
Proof.
  intros [Hc Hne]. unfold log_base. destruct l as [|e l]; [done|].
  change 0%Z with (Z.of_nat 0). rewrite (go_index_nat (e :: l) 0 e eq_refl). cbn. f_equal.
  apply (Hc 0 e eq_refl).
Qed.

Lemma log_ok_last (rf : Raft) : log_ok (log rf) -> lastLogIndex rf = Ret (len (log rf) - 1)%Z.
Proof.
  intros [Hc Hne]. unfold lastLogIndex.
  destruct (go_index_returns (log rf) (len (log rf) - 1)) as [e He].
  { unfold len. destruct (log rf); [done|cbn; lia]. }
  rewrite He. cbn. apply go_index_Ret in He as [H0 He]. rewrite (Hc _ _ He). f_equal. lia.
Qed.

Lemma log_ok_lastTerm (rf : Raft) : log_ok (log rf) -> returns (lastLogTerm rf).
Proof.
  intros [_ Hne]. unfold lastLogTerm. destruct (_ =? 0)%Z; [by eexists|].
  apply bind_returns; [|intros; by eexists]. apply go_index_returns.
  unfold len. destruct (log rf); [done|cbn; lia].
Qed.

Lemma mergeEntries_ok l es a : log_ok l -> consecutive a es -> (1 <= a <= len l)%Z ->
  exists l', mergeEntries l es = Ret l' /\ log_ok l'.
Proof.
  intros Hl. revert a. induction es as [|e es IH]; intros a Hes Ha; cbn; [by exists l|].
  rewrite (log_ok_base l Hl). cbn. rewrite Z.sub_0_r.
  destruct (consecutive_tail _ _ _ Hes) as [-> Htl].
  assert (Hcut : exists l', (let! kept := go_upto l a in Ret (kept ++ e :: es)) = Ret l' /\ log_ok l').
  { rewrite (proj2 (go_upto_Ret l a (take (Z.to_nat a) l))) by (split; [lia|done]). cbn. eexists. split; [done|].
    split; [|by destruct (take _ _)]. apply consecutive_app; [apply consecutive_take, Hl|].
    unfold len in *. rewrite length_take, Z.add_0_l. by replace (Z.of_nat (Z.to_nat a `min` length l)) with a by lia. }
  destruct (Z.leb_spec (len l) a); cbn; [done|].
  destruct (go_index_returns l a) as [old ->]; [lia|]. cbn.
  destruct (negb _); [done|]. apply (IH (a + 1)%Z); [done|lia].
Qed.

(** ** The handlers keep peers and messages well formed *)

Definition out_ok (n i : nat) (r : Raft * list proc) : Prop := peer_ok n i r.1 /\ Forall (proc_typed n) r.2.

(** A change that touches only fields the invariant does not read. *)
Ltac same_peer := let H := fresh in intros H; destruct H; constructor; cbn in *; auto.

Lemma persist_ok n i rf : peer_ok n i rf -> peer_ok n i (persist rf).
Proof.
  intros []. constructor; cbn -[clone]; auto. rewrite clone_id. right. eauto 10.
Qed.

Lemma heartbeat_args_ok n i rf j ea : peer_ok n i rf -> heartbeat_args rf j = Ret ea -> args_ok n ea.2.
Proof.
  intros H He. unfold heartbeat_args in He. rewrite (log_ok_base _ (p_log _ _ _ H)) in He. cbn in He.
  rewrite bind_Ret in He. destruct He as (ni & _ & He). rewrite !Z.sub_0_r in He.
  apply bind_Ret in He as (prev & [Hp _]%go_index_Ret & He).
  apply bind_Ret in He as (es & [Hn ->]%go_from_Ret & [= <-]). constructor; cbn; [apply H|lia|].
  replace (ni - 1 + 1)%Z with (0 + Z.of_nat (Z.to_nat ni))%Z by lia. apply consecutive_drop, H.
Qed.

Lemma sendHeartbeats_ok n i rf ps : i < n -> peer_ok n i rf -> sendHeartbeats rf = Ret ps ->
  Forall (proc_typed n) ps.
Proof.
  intros Hi H. unfold sendHeartbeats. apply (go_fold_inv (Forall (proc_typed n))); [done|].
  intros qs j qs' Hj Hq Hs. destruct (j =? me rf)%nat; [by injection Hs as <-|].
  apply bind_Ret in Hs as (ea & Hea & [= <-]). apply Forall_app. split; [done|]. apply Forall_singleton.
  cbn. rewrite (p_me _ _ _ H). apply elem_of_seq in Hj. rewrite (p_peers _ _ _ H) in Hj.
  split; [done|]. split; [lia|]. by eapply heartbeat_args_ok.
Qed.

Lemma RequestVote_ok n i rf a : peer_ok n i rf -> (0 <= rv_Term a)%Z -> (0 <= rv_CandidateId a < Z.of_nat n)%Z ->
  exists rf' r, RequestVote rf a = Ret (rf', r) /\ peer_ok n i rf' /\ (0 <= rvr_Term r)%Z.
Proof.
  intros H Ht Hc. unfold RequestVote. set (rf1 := if (_ <? _)%Z then _ else rf).
  assert (H1 : peer_ok n i rf1).
  { unfold rf1. destruct (_ <? _)%Z; [|done]. destruct H. constructor; cbn; auto. unfold vote_ok. lia. }
  assert (exists b, candidateUpToDate rf1 a = Ret b) as [b ->].
  { unfold candidateUpToDate. destruct (log_ok_lastTerm rf1 (p_log _ _ _ H1)) as [t ->]. cbn.
    rewrite (log_ok_last rf1 (p_log _ _ _ H1)). cbn. repeat case_match; eauto. }
  cbn. pose proof (p_term _ _ _ H). destruct (b && _); do 2 eexists; (split; [done|]; split; [|cbn; lia]).
  - destruct H1. constructor; cbn; auto. unfold vote_ok. lia.
  - done.
Qed.

Lemma advanceCommit_ok n i rf lc rf' : peer_ok n i rf -> advanceCommit rf lc = Ret rf' -> peer_ok n i rf'.
Proof.
  intros H Ha. unfold advanceCommit in Ha. destruct (Z.ltb_spec (commitIndex rf) lc); [|by injection Ha as <-].
  rewrite (log_ok_last _ (p_log _ _ _ H)) in Ha. cbn in Ha. unfold signal_commit in Ha.
  destruct (_ <? _)%nat; [|done]. injection Ha as <-. pose proof (p_log _ _ _ H) as [_ Hne].
  assert (0 <= len (log rf) - 1)%Z by (unfold len; destruct (log rf); [done|cbn; lia]).
  destruct H. constructor; cbn; auto. destruct (lc <? _)%Z; lia.
Qed.

Lemma AppendEntries_ok n i rf a : peer_ok n i rf -> args_ok n a ->
  AppendEntries rf a <> Panic
  /\ forall rf' r, AppendEntries rf a = Ret (rf', r) -> peer_ok n i rf' /\ (0 <= aer_Term r)%Z.
Proof.
  intros H Ha. unfold AppendEntries. pose proof (p_term _ _ _ H) as Ht.
  destruct (Z.ltb_spec (ae_Term a) (currentTerm rf)).
  { split; [done|]. intros rf' r [= <- <-]. split; [by apply persist_ok|done]. }
  set (rf1 := set_electionTime true _).
  assert (H1 : peer_ok n i rf1).
  { unfold rf1. pose proof (a_term _ _ Ha). destruct (_ <? _)%Z; destruct H; constructor; cbn; auto.
    unfold vote_ok. lia. }
  clearbody rf1. pose proof (p_log _ _ _ H1) as Hlog. pose proof (a_prev _ _ Ha).
  rewrite (log_ok_base _ Hlog). cbn [mbind go_bind].
  destruct (Z.ltb_spec (ae_PrevLogIndex a) (0 - 1)); [lia|].
  assert (exists b, prevMismatch rf1 a = Ret b /\ (b = false -> (ae_PrevLogIndex a < len (log rf1))%Z)) as (b & -> & Hb).
  { unfold prevMismatch. rewrite (log_ok_last _ Hlog), (log_ok_base _ Hlog). cbn [mbind go_bind].
    destruct (Z.ltb_spec (len (log rf1) - 1) (ae_PrevLogIndex a)); [by exists true|]. rewrite Z.sub_0_r.
    destruct (go_index_returns (log rf1) (ae_PrevLogIndex a)) as [e ->]; [lia|]. eexists. split; [done|lia]. }
  cbn [mbind go_bind]. pose proof (p_term _ _ _ H1). destruct b.
  { split; [done|]. intros rf' r [= <- <-]. split; [by apply persist_ok|done]. }
  destruct (mergeEntries_ok (log rf1) (ae_Entries a) (ae_PrevLogIndex a + 1)) as (l' & -> & Hl');
    [done|apply Ha|specialize (Hb eq_refl); lia|]. cbn [mbind go_bind].
  assert (Hset : peer_ok n i (set_log l' rf1)) by (destruct H1; constructor; cbn; auto).
  destruct (advanceCommit (set_log l' rf1) (ae_LeaderCommit a)) as [rf2| |] eqn:E.
  - split; [done|]. intros rf' r [= <- <-]. apply (advanceCommit_ok n i) in E; [|done].
    split; [by apply persist_ok|apply E].
  - exfalso. unfold advanceCommit, signal_commit in E. rewrite (log_ok_last _ (p_log _ _ _ Hset)) in E. cbn in E.
    repeat case_match; discriminate.
  - split; [done|]. done.
Qed.

Lemma handleAppendEntries_ok n i rf d e a : i < n -> d < n -> args_ok n a -> peer_ok n i rf ->
  out_ok n i (handleAppendEntries rf d e a).
Proof.
  intros Hi Hd Ha H. unfold handleAppendEntries. destruct (_ && _); split; cbn; auto using persist_ok.
  apply Forall_singleton. cbn. rewrite (p_me _ _ _ H). auto.
Qed.

Lemma respAppendEntries_ok n i rf d e a r o : i < n -> d < n -> (0 <= aer_Term r)%Z -> peer_ok n i rf ->
  respAppendEntries rf d e a r = Ret o -> out_ok n i o.
Proof.
  intros Hi Hd Hr H Ho. unfold respAppendEntries in Ho. destruct (_ && _); [|by injection Ho as <-; split].
  destruct (_ <? _)%Z; [|destruct (aer_Success r)].
  - injection Ho as <-. split; [|done]. apply persist_ok in H. destruct H. constructor; cbn in *; auto.
    unfold vote_ok. lia.
  - apply bind_Ret in Ho as (ni & _ & Ho). apply bind_Ret in Ho as (rf1 & H1 & Ho).
    assert (peer_ok n i rf1) as Hrf1.
    { destruct (_ =? _)%Z; [|by injection H1 as <-].
      apply bind_Ret in H1 as (nis & [_ ->]%go_update_Ret & H1). apply bind_Ret in H1 as (mis & [_ ->]%go_update_Ret & [= <-]).
      destruct H. constructor; cbn; rewrite ?length_insert; auto. }
    clear H1. apply bind_Ret in Ho as (mi & _ & Ho). apply bind_Ret in Ho as (num & _ & Ho).
    apply bind_Ret in Ho as (base & _ & Ho). apply bind_Ret in Ho as (en & _ & Ho).
    destruct (_ && _); [|by injection Ho as <-; split]. apply bind_Ret in Ho as (rf2 & Hs & [= <-]).
    split; [|done]. unfold signal_commit in Hs. destruct (_ <? _)%nat; [|done]. injection Hs as <-. cbn.
    destruct Hrf1. constructor; cbn; auto. lia.
  - apply bind_Ret in Ho as (nis & [_ ->]%go_update_Ret & Ho). apply bind_Ret in Ho as (ea & Hea & [= <-]).
    assert (peer_ok n i (set_nextIndex (<[Z.to_nat (Z.of_nat d) := 1%Z]> (nextIndex rf)) rf)) as H1.
    { destruct H. constructor; cbn; auto. by rewrite length_insert. }
    split; [done|]. apply Forall_singleton. cbn. rewrite (p_me _ _ _ H). split; [done|]. split; [done|].
    by eapply heartbeat_args_ok.
Qed.

Lemma voteReply_ok n i rf a r o : i < n -> (0 <= rvr_Term r)%Z -> peer_ok n i rf ->
  voteReply rf a r = Ret o -> out_ok n i o.
Proof.
  intros Hi Hr H Ho. unfold voteReply in Ho. destruct (_ && _); [|by injection Ho as <-; split].
  destruct (_ <? _)%Z; [|destruct (rvr_VoteGranted r); [|by injection Ho as <-; split]].
  - injection Ho as <-. split; [|done]. apply persist_ok in H. destruct H. constructor; cbn in *; auto.
    unfold vote_ok. lia.
  - destruct (_ <? _)%Z; [|injection Ho as <-; split; [|done]; cbn; destruct H; by constructor].
    apply bind_Ret in Ho as (ps & Hps & [= <-]).
    match type of Hps with sendHeartbeats ?x = _ => assert (peer_ok n i x) as H1 end.
    { pose proof (p_commit _ _ _ H). destruct H. constructor; cbn; auto. by rewrite length_replicate. }
    split; [|by eapply sendHeartbeats_ok]. cbn. destruct H1. by constructor.
Qed.

Lemma tickHeartbeat_ok n i rf o : i < n -> peer_ok n i rf -> tickHeartbeat rf = Ret o -> out_ok n i o.
Proof.
  intros Hi H Ho. unfold tickHeartbeat in Ho.
  assert (peer_ok n i (set_heartbeatTime false rf)) as H1 by (destruct H; by constructor).
  destruct (is_leader _); [|by injection Ho as <-; split].
  apply bind_Ret in Ho as (ps & Hps & [= <-]). split; [|by eapply sendHeartbeats_ok].
  cbn. destruct H1. by constructor.
Qed.

Lemma tickElection_ok n i rf : i < n -> peer_ok n i rf -> exists o, tickElection rf = Ret o /\ out_ok n i o.
Proof.
  intros Hi H. unfold tickElection.
  assert (peer_ok n i (set_electionTime false rf)) as H0 by (destruct H; by constructor).
  destruct (negb _); [|by eexists]. apply persist_ok in H0.
  set (rf1 := set_votedFor _ _).
  assert (H1 : peer_ok n i rf1).
  { unfold rf1. pose proof (p_me _ _ _ H). pose proof (p_term _ _ _ H).
    destruct H0. constructor; cbn in *; auto; [lia|unfold vote_ok; lia]. }
  assert (Hv : votedFor rf1 = Z.of_nat i) by (cbn; by rewrite (p_me _ _ _ H)).
  clearbody rf1. rewrite (log_ok_last _ (p_log _ _ _ H1)). cbn [mbind go_bind].
  destruct (log_ok_lastTerm _ (p_log _ _ _ H1)) as [t ->]. cbn [mbind go_bind].
  eexists. split; [done|]. split; cbn; [destruct H1; by constructor|].
  apply Forall_fmap, Forall_forall. intros j [_ Hj]%list_elem_of_filter. apply elem_of_seq in Hj. cbn.
  rewrite (p_peers _ _ _ H1) in Hj. rewrite (p_me _ _ _ H1), Hv. pose proof (p_term _ _ _ H1). split_and!; [auto|lia..].
Qed.

Lemma Start_ok n i rf cmd rf' ps r : i < n -> peer_ok n i rf -> Start rf cmd = Ret (rf', ps, r) ->
  out_ok n i (rf', ps).
Proof.
  intros Hi H Ho. unfold Start in Ho. destruct (is_leader _); [|by injection Ho as <- <- <-; split].
  apply persist_ok in H. rewrite (log_ok_last _ (p_log _ _ _ H)) in Ho. cbn [mbind go_bind] in Ho.
  apply bind_Ret in Ho as (qs & Hq & [= <- <- <-]).
  match type of Hq with sendHeartbeats ?x = _ => assert (peer_ok n i x) as H1 end.
  { pose proof (p_log _ _ _ H) as [Hc Hne]. destruct H. constructor; cbn in *; auto. split; [|by destruct (log rf)].
    apply consecutive_app; [done|]. intros [|k] e He; [|done]. injection He as <-. cbn. lia. }
  split; [done|]. by eapply sendHeartbeats_ok.
Qed.

Lemma applyEntries_ok n i rf rf' : peer_ok n i rf -> applyEntries rf = Ret rf' -> peer_ok n i rf'.
Proof.
  intros H Ho. unfold applyEntries in Ho. destruct (_ <? _)%Z.
  - apply bind_Ret in Ho as (base & _ & Ho). apply bind_Ret in Ho as (es & _ & Ho).
    destruct (_ =? _)%Z; injection Ho as <-; [done|]. destruct H; by constructor.
  - destruct (hasCommittedChan rf); [done|]. injection Ho as <-. destruct H; by constructor.
Qed.

Lemma Make_ok n i (ps : Persister (gobval C)) timeout : disk_ok n (raftstate ps) ->
  exists rf, Make n i ps timeout = Ret rf /\ peer_ok n i rf.
Proof.
  intros Hd. unfold Make, ReadRaftState. rewrite clone_id.
  assert (H0 : peer_ok n i (mkRaft n ps i false 0 (-1) [mkEntry 0 None 0] Follower timeout
              true true [] 0 (replicate n 0%Z) (replicate n 0%Z) 0 0 ∅)).
  { constructor; cbn; rewrite ?length_replicate; try done; try lia; [unfold vote_ok; lia|].
    split; [|done]. intros [|k] e He; [|done]. injection He as <-. done. }
  destruct Hd as [E|(ct & vf & l & E & Hct & Hvf & Hl)]; rewrite E; cbn; eexists; (split; [done|]).
  - done.
  - destruct H0. constructor; cbn; auto.
Qed.

(** ** All executions *)

(** One action of any kind, a crash with a restart included. *)
Definition astep (c c' : cluster) : Prop := exists a, step c a = Some c'.

Lemma run_astep c acts c' : run c acts = Some c' -> rtc astep c c'.
Proof.
  revert c. induction acts as [|a acts IH]; cbn; intros c H; [by injection H as ->; constructor|].
  destruct (step c a) as [c1|] eqn:E; [|done]. eapply rtc_l; [by exists a|auto].
Qed.

Lemma typed_update n c i rf' ps : typed n c -> peer_ok n i rf' -> Forall (proc_typed n) ps ->
  typed n (mkCluster (<[i := rf']> (nodes c)) ps).
Proof.
  intros [Hl Hn _] Hrf Hps. constructor; cbn; [by rewrite length_insert| |done].
  intros j rf [(<- & -> & _)|[_ Hj]]%lookup_update_Some; auto.
Qed.

Lemma typed_lt n c i rf : typed n c -> nodes c !! i = Some rf -> i < n.
Proof. intros [Hl _ _] Hi%lookup_lt_Some. lia. Qed.

Lemma Forall_delete {A} (P : A -> Prop) k (l : list A) : Forall P l -> Forall P (delete k l).
Proof.
  rewrite !Forall_lookup. intros H j x. rewrite list_lookup_delete. case_decide; apply H.
Qed.

Lemma typed_crash_free n c c' : typed n c -> shape c c' -> typed n c'.
Proof.
  intros H Hs. destruct Hs as [i rf rf' ps Hi -> Hcode|k p i rf rf' ps Hk Hi -> Hcode|k p ps Hk -> Hps Hown].
  - pose proof (t_node _ _ H i rf Hi) as Hp. pose proof (typed_lt _ _ _ _ H Hi) as Hlt.
    assert (out_ok n i (rf', ps)) as [Hrf Hout].
    { destruct Hcode as [Hc|[Hc|[(cmd & r & Hc)|[[Hc ->]|[-> ->]]]]].
      - by eapply tickHeartbeat_ok.
      - destruct (tickElection_ok n i rf Hlt Hp) as (o & Ho & ?). rewrite Ho in Hc. by injection Hc as ->.
      - by eapply (Start_ok n i rf cmd rf' ps r).
      - split; [by eapply applyEntries_ok|done].
      - split; [cbn; destruct Hp; by constructor|done]. }
    apply typed_update; [done|done|]. apply Forall_app. split; [apply H|done].
  - pose proof (t_node _ _ H i rf Hi) as Hp. pose proof (typed_lt _ _ _ _ H Hi) as Hlt.
    pose proof (proj1 (Forall_lookup _ _) (t_proc _ _ H) k p Hk) as Hpk.
    assert (out_ok n i (rf', ps)) as [Hrf Hout].
    { destruct p; cbn in Hpk.
      - destruct Hcode as (-> & reply & Hc & ->), Hpk as (? & ? & ? & ?).
        destruct (RequestVote_ok n peer rf args) as (rf1 & r1 & Hr & ? & ?); [done..|].
        rewrite Hr in Hc. injection Hc as -> ->.
        split; [done|]. by apply Forall_singleton.
      - destruct Hcode as (-> & Hc), Hpk as (? & ? & ?). by eapply voteReply_ok.
      - destruct Hcode as (-> & Hc), Hpk as (? & ? & ?). rewrite <- Hc. by apply handleAppendEntries_ok.
      - destruct Hcode as (-> & reply & Hc & ->), Hpk as (? & ? & ?).
        destruct (proj2 (AppendEntries_ok n server rf args Hp ltac:(done)) _ _ Hc) as [? ?].
        split; [done|]. by apply Forall_singleton.
      - destruct Hcode as (-> & ps0 & Hc & ->), Hpk as (? & ? & ? & ?).
        destruct (respAppendEntries_ok n src rf server expected args reply (rf', ps0)) as [? ?]; [done..|].
        split; [done|]. apply Forall_app. split; [done|]. apply Forall_singleton. cbn. auto.
      - destruct Hcode as (-> & -> & ->). split; [by apply persist_ok|done]. }
    apply typed_update; [done|done|]. apply Forall_app. split; [apply Forall_delete, H|done].
  - destruct H as [? ? Hpr]. constructor; cbn; [done..|]. apply Forall_app. split; [by apply Forall_delete|].
    apply Forall_forall. intros q Hq. destruct (Hps q Hq) as [s ->]. rewrite (Hown s Hq). cbn.
    pose proof (proj1 (Forall_lookup _ _) Hpr k p Hk) as Hp. destruct p; cbn in *; destruct_and?; auto.
Qed.

Lemma orphan_typed n i p q : proc_typed n p -> orphan i n p = Some q -> proc_typed n q.
Proof.
  unfold orphan. intros Hp. case_decide; [|by intros [= <-]].
  destruct p; intros [= <-]; destruct Hp as [_ Hp]; (split; [unfold sender_ok; lia|exact Hp]).
Qed.

Lemma typed_restart n c i timeout c' : typed n c -> restart c i timeout = Some c' -> typed n c'.
Proof.
  intros H Hr. unfold restart in Hr. destruct (nodes c !! i) as [rf|] eqn:Hi; [|done].
  pose proof (t_node _ _ H i rf Hi) as Hp. rewrite crash_persister_id in Hr.
  destruct (Make_ok (peers rf) i (persister rf) timeout) as (rf' & Hm & Hok).
  { rewrite (p_peers _ _ _ Hp). apply Hp. }
  rewrite Hm in Hr. injection Hr as <-. rewrite (p_peers _ _ _ Hp) in Hok.
  apply typed_update; [done|done|]. rewrite (t_length _ _ H). apply Forall_forall.
  intros q (p & Hin & Hq)%list_elem_of_omap. eapply orphan_typed; [|exact Hq].
  by apply (proj1 (Forall_forall _ _) (t_proc _ _ H)).
Qed.

Lemma typed_init n timeout : typed n (init n timeout : cluster).
Proof.
  constructor; [apply init_length| |constructor].
  intros i rf [Hm Hi]%init_lookup.
  destruct (Make_ok n i MakePersister (timeout i)) as (rf' & Hm' & ?); [by left|]. by rewrite Hm in Hm'; injection Hm' as <-.
Qed.

Lemma typed_run n timeout c : rtc astep (init n timeout) c -> typed n c.
Proof.
  intros H. assert (Hi : typed n (init n timeout : cluster)) by apply typed_init. revert Hi.
  induction H as [|c1 c2 c3 [a Ha] _ IH]; [done|]. intros H1. apply IH.
  destruct (crash_free a) eqn:Hf; [by eapply typed_crash_free, step_shape|].
  destruct a; try discriminate Hf. by eapply typed_restart.
Qed.

(** C15: Peers, messages and stable storage keep their shape in every execution,
    with any number of crashes and restarts. Terms are not negative, votes are
    peers or none, [nextIndex] and [matchIndex] have one slot per peer, and
    the k-th entry of every log, on disk too, has index k; the entries of an
    [AppendEntries] request in flight follow its [PrevLogIndex]. *)
Theorem cluster_well_typed n timeout (c : cluster) : rtc astep (init n timeout) c ->
  length (nodes c) = n
  /\ (forall i rf, nodes c !! i = Some rf -> peer_ok n i rf)
  /\ Forall (proc_typed n) (procs c).
Proof. by intros [? ? ?]%typed_run. Qed.

(** What a peer that restarts has read back: nothing was ever persisted and it
    starts afresh, or it has the term, the vote and the log on disk. *)
Definition restored (data : list (gobval C)) (rf : Raft) : Prop :=
  (data = [] /\ currentTerm rf = 0%Z /\ votedFor rf = (-1)%Z /\ log rf = [mkEntry 0 None 0])
  \/ data = [GInt (currentTerm rf); GInt (votedFor rf); GLog (log rf)].

Lemma Make_restored n i (ps : Persister (gobval C)) timeout : disk_ok n (raftstate ps) ->
  exists rf, Make n i ps timeout = Ret rf /\ restored (raftstate ps) rf
    /\ state rf = Follower /\ commitIndex rf = 0%Z /\ lastApplied rf = 0%Z.
Proof.
  intros Hd. unfold Make, ReadRaftState. rewrite clone_id.
  destruct Hd as [E|(ct & vf & l & E & _)]; rewrite E; cbn; eexists; (split; [done|]).
  - split; [by left|done].
  - split; [by right|done].
Qed.

(** An election: the next term, a vote for oneself, and one request to every
    other peer with the last entry of the log. *)
Definition campaign (n i : nat) (rf rf' : Raft) (ps : list proc) : Prop :=
  state rf' = Candidate /\ currentTerm rf' = (currentTerm rf + 1)%Z /\ votedFor rf' = Z.of_nat i
  /\ log rf' = log rf /\ electionTime rf' = true
  /\ totalVotes rf' !! currentTerm rf' = Some 1%Z
  /\ exists args, rv_Term args = currentTerm rf' /\ rv_CandidateId args = Z.of_nat i
     /\ lastLogIndex rf = Ret (rv_LastLogIndex args) /\ lastLogTerm rf = Ret (rv_LastLogTerm args)
     /\ ps = (fun j => PSendRV i j args) <$> filter (fun j => j <> i) (seq 0 n).

Lemma tickElection_campaign n i rf : peer_ok n i rf -> state rf <> Leader ->
  exists rf' ps, tickElection rf = Ret (rf', ps) /\ campaign n i rf rf' ps.
Proof.
  intros H Hst. unfold tickElection, is_leader. cbn [state set_electionTime]. rewrite bool_decide_false by done.
  cbn [negb]. set (rf1 := set_votedFor _ _). assert (log rf1 = log rf) as Hlog by done.
  assert (log_ok (log rf1)) as Hok by (rewrite Hlog; apply H).
  assert (lastLogIndex rf1 = lastLogIndex rf /\ lastLogTerm rf1 = lastLogTerm rf) as [E1 E2] by done.
  rewrite (log_ok_last rf1 Hok). cbn [mbind go_bind].
  destruct (log_ok_lastTerm rf1 Hok) as [t Ht]. rewrite Ht. cbn [mbind go_bind].
  do 2 eexists. split; [reflexivity|]. unfold campaign. cbn. rewrite (p_me _ _ _ H), (p_peers _ _ _ H).
  split_and!; [done..|apply lookup_insert_eq|]. eexists (mkRVArgs _ _ _ _). cbn. split_and!; [reflexivity|done| | |done].
  - apply (log_ok_last rf), H.
  - by rewrite <- E2.
Qed.

(** C13: Handlers of remote calls, election timers and restarts never panic,
    crashes included. In every execution [RequestVote] returns for every
    request in flight, and [AppendEntries] returns or waits for room in the
    signal channel. When the election timer of a peer that does not lead
    fires, the peer starts an election: it becomes a candidate of the next
    term with its own vote and asks every other peer, naming its last entry;
    a leader does nothing. A peer that crashes at any moment restarts as a
    follower with the term, the vote and the log it last persisted (or as a
    new peer, if it has persisted nothing). *)
Theorem handlers_never_panic n timeout (c : cluster) i rf : rtc astep (init n timeout) c ->
  nodes c !! i = Some rf ->
  (forall s args, PSendRV s i args ∈ procs c -> returns (RequestVote rf args))
  /\ (forall s expected args, PSentAE s i expected args ∈ procs c -> AppendEntries rf args <> Panic)
  /\ (state rf <> Leader -> exists rf' ps, tickElection rf = Ret (rf', ps) /\ campaign n i rf rf' ps)
  /\ (state rf = Leader -> tickElection rf = Ret (set_electionTime false rf, []))
  /\ (forall timeout', exists c' rf', restart c i timeout' = Some c' /\ nodes c' !! i = Some rf'
        /\ restored (raftstate (persister rf)) rf' /\ state rf' = Follower
        /\ commitIndex rf' = 0%Z /\ lastApplied rf' = 0%Z).
Proof.
  intros H Hi. apply typed_run in H. pose proof (t_node _ _ H i rf Hi) as Hp.
  pose proof (typed_lt _ _ _ _ H Hi) as Hlt. pose proof (proj1 (Forall_forall _ _) (t_proc _ _ H)) as Hpr.
  split_and!.
  - intros s args (? & ? & ? & ?)%Hpr. destruct (RequestVote_ok n i rf args) as (? & ? & ? & _); [done..|]. by eexists.
  - intros s e args (? & ? & ?)%Hpr. by apply (AppendEntries_ok n i).
  - by apply tickElection_campaign.
  - intros HL. unfold tickElection, is_leader. cbn [state set_electionTime]. by rewrite bool_decide_true.
  - intros t'. unfold restart. rewrite Hi, crash_persister_id, (p_peers _ _ _ Hp).
    destruct (Make_restored n i (persister rf) t') as (rf' & -> & Hres); [apply Hp|].
    eexists _, rf'. split; [done|]. split; [|done]. cbn. apply list_lookup_insert_eq. by eapply lookup_lt_Some.
Qed.

End Types.
