(* ===== verification/RaftCommit.v ===== *)
(** * Committed entries: leader completeness

    The history of an execution is kept in four ghosts: [won T], the winner of
    term [T]; [tlog T], the log of that leader (it only grows); [base T], the
    log with which it was elected; and [ack q T], how much of [tlog T] peer
    [q] has acknowledged while it was in term [T]. A prefix is [committed]
    when it ends in an entry of its own term and a majority has acknowledged
    it. The first part shows, from facts about the history alone, that the log
    of every later leader starts with every committed prefix. The second part
    is the invariant that ties the history to the peers and to the messages.

    A new leader of this program keeps the [matchIndex] of its earlier terms,
    and commits on stale acknowledgements; [state_machine_safety_fails] of
    RaftRuns.v is a run. The invariant is therefore about the executions in
    which whoever becomes leader has an all-zero [matchIndex] ([fresh_win]),
    such as those in which no peer wins two elections. *)

From S2P Require Import Prelude Persister Raft RaftCluster RaftElection RaftLogMatching RaftTheorems.
From stdpp Require Import prelude gmap relations.

(** ** Prefixes *)

Section Prefixes.
Context {A : Type}.
Implicit Types l : list A.

Lemma prefix_shorter l1 l2 l :
  l1 `prefix_of` l -> l2 `prefix_of` l -> length l1 <= length l2 -> l1 `prefix_of` l2.
Proof.
  intros H1 H2 Hlen. destruct (prefix_weak_total _ _ _ H1 H2) as [?|H]; [done|].
  destruct H as [k ->]. rewrite length_app in Hlen. destruct k; [by rewrite app_nil_r|cbn in Hlen; lia].
Qed.

Lemma take_of_prefix k l l' : l `prefix_of` l' -> k <= length l -> take k l' = take k l.
Proof. intros [r ->] Hk. by rewrite take_app_le. Qed.

Lemma prefix_takeL k l l' : l `prefix_of` l' -> l `prefix_of` take k l' \/ take k l' `prefix_of` l.
Proof. intros H. eapply prefix_weak_total; [exact H|apply prefix_take]. Qed.

Lemma prefix_elem l l' x : l `prefix_of` l' -> x ∈ l -> x ∈ l'.
Proof. intros [r ->] ?. set_solver. Qed.

Lemma prefix_lookup_l l l' k x : l `prefix_of` l' -> l !! k = Some x -> l' !! k = Some x.
Proof. intros [r ->] ?. by apply lookup_app_l_Some. Qed.

Lemma prefix_lookup_r l l' k x :
  l `prefix_of` l' -> l' !! k = Some x -> k < length l -> l !! k = Some x.
Proof. intros [r ->] Hk Hlt. by rewrite lookup_app_l in Hk. Qed.

End Prefixes.

Section Commit.
Context {C : Type}.
Notation Raft := (Raft C).
Notation proc := (proc C).
Notation cluster := (cluster C).
Notation entries := (list (LogEntry C)).

Definition sentinel : LogEntry C := mkEntry 0 None 0.

(** ** The history *)

Record history : Type := mkHistory {
  won : Z -> option nat;
  tlog : Z -> entries;
  base : Z -> entries;
  ack : nat -> Z -> nat
}.
Implicit Types h : history.

(** The first [k] entries of term [T]'s log are missing from the log with
    which some leader between [T] and [T'] was elected. *)
Definition lost h (T : Z) (k : nat) (T' : Z) : Prop :=
  exists T1 j, (T < T1 < T')%Z /\ won h T1 = Some j /\ ~ take k (tlog h T) `prefix_of` base h T1.

(** [l] has everything [q] acknowledged before term [T'], unless a leader
    before [T'] has replaced it. *)
Definition has_acks h (q : nat) (T' : Z) (l : entries) : Prop :=
  forall T k, (T < T')%Z -> k <= ack h q T -> take k (tlog h T) `prefix_of` l \/ lost h T k T'.

(** The comparison of [RequestVote] *)
Definition last_term (l : entries) : Z := default (-1)%Z (le_Term <$> last l).
Definition newer (l l' : entries) : Prop :=
  (last_term l' < last_term l)%Z \/ (last_term l = last_term l' /\ length l' <= length l).

(** [q] has voted in term [T] for a candidate with log [l]; [G] was its own. *)
Definition endorsed h (ns : list Raft) (q : nat) (T : Z) (l : entries) : Prop :=
  (exists rf, ns !! q = Some rf /\ (T <= currentTerm rf)%Z) /\
  exists G, G <> [] /\ legit (tlog h) G /\ has_acks h q T G /\ newer l G.

Definition committed h (n : nat) (T : Z) (k : nat) : Prop :=
  is_Some (won h T) /\ 0 < k /\ (exists e, tlog h T !! pred k = Some e /\ le_Term e = T) /\
  exists Q, majority n Q /\ forall q, q ∈ Q -> k <= ack h q T.

Record hist_ok h (ns : list Raft) : Prop := {
  h_terms : forall T e, e ∈ tlog h T -> (le_Term e <= T)%Z;
  h_acks : forall q T, ack h q T <= length (tlog h T);
  h_base : forall T i, won h T = Some i -> [sentinel] `prefix_of` base h T
    /\ base h T `prefix_of` tlog h T /\ forall e, e ∈ base h T -> (le_Term e < T)%Z;
  h_quorum : forall T i, won h T = Some i ->
    exists Q, majority (length ns) Q /\ forall q, q ∈ Q -> endorsed h ns q T (base h T)
}.

Lemma legit_last_prefix L (l : entries) e :
  legit L l -> last l = Some e -> l `prefix_of` L (le_Term e).
Proof.
  intros Hl He. rewrite last_lookup in He. destruct (Hl _ _ He) as [_ Hp].
  apply lookup_lt_Some in He. by rewrite take_ge in Hp by lia.
Qed.

Lemma last_is_Some_ne (l : entries) : l <> [] -> exists e, last l = Some e.
Proof. intros H. by apply last_is_Some in H as [e ?]; eauto. Qed.

Section Completeness.
Context (h : history) (ns : list Raft).
Context (Hok : hist_ok h ns).
Context (Hleg : forall T, legit (tlog h) (tlog h T)).
Context (Hnone : forall T, (T <> 0)%Z -> won h T = None -> tlog h T = []).

(** The log of the winner is one that contains the committed prefix, because
    it is at least as new as the log [G] of a voter that does. [IH] is leader
    completeness for the terms in between. *)
Lemma newer_contains T k (W G : entries) T' :
  (0 <= T)%Z ->
  (exists e, tlog h T !! pred k = Some e /\ le_Term e = T) -> 0 < k -> k <= length (tlog h T) ->
  (forall T1 j, (T < T1 < T')%Z -> won h T1 = Some j -> take k (tlog h T) `prefix_of` base h T1) ->
  legit (tlog h) W -> W <> [] -> (forall e, e ∈ W -> (le_Term e < T')%Z) ->
  legit (tlog h) G -> G <> [] -> take k (tlog h T) `prefix_of` G -> newer W G ->
  take k (tlog h T) `prefix_of` W.
Proof.
  intros HT0 (e & He & HeT) Hk Hlen IH HW HWne HWt HG HGne Hin Hnew.
  destruct (last_is_Some_ne W HWne) as [w Hw], (last_is_Some_ne G HGne) as [g Hg].
  pose proof (legit_last_prefix _ _ _ HW Hw) as HWL.
  pose proof (legit_last_prefix _ _ _ HG Hg) as HGL.
  unfold newer, last_term in Hnew. rewrite Hw, Hg in Hnew. cbn in Hnew.
  set (P := take k (tlog h T)) in *.
  assert (length P = k) as HP by (unfold P; rewrite length_take; lia).
  assert (P !! pred k = Some e) as HPe by (unfold P; rewrite lookup_take_lt by lia; done).
  assert (T <= le_Term g)%Z as Hge.
  { rewrite <- HeT. apply (h_terms _ _ Hok). eapply prefix_elem; [exact HGL|].
    eapply list_elem_of_lookup_2, prefix_lookup_l; [exact Hin|exact HPe]. }
  assert (k <= length G) as HkG by (rewrite <- HP; by apply prefix_length).
  destruct (Z.eq_dec (le_Term w) T) as [Hwt|Hwt].
  - assert (le_Term g = T) as Hgt by lia. rewrite Hwt in HWL. rewrite Hgt in HGL.
    apply (prefix_shorter _ _ (tlog h T)); [apply prefix_take|done|lia].
  - assert (won h (le_Term w) <> None) as Hwon.
    { intros E. apply Hnone in E; [|lia]. rewrite E in HWL. by apply prefix_nil_inv in HWL. }
    destruct (won h (le_Term w)) as [j|] eqn:Ej; [|done]. clear Hwon.
    assert (P `prefix_of` tlog h (le_Term w)) as HPL.
    { etrans; [apply (IH _ _) with (2 := Ej)|by eapply (h_base _ _ Hok)].
      split; [lia|]. apply HWt. by apply last_Some_elem_of. }
    apply (prefix_shorter _ _ (tlog h (le_Term w))); [done|done|]. rewrite HP.
    destruct (Nat.le_gt_cases k (length W)) as [?|Hshort]; [done|exfalso].
    rewrite last_lookup in Hw. pose proof (prefix_lookup_l _ _ _ _ HWL Hw) as Hw'.
    apply (prefix_lookup_r _ _ _ _ HPL) in Hw'; [|rewrite HP; lia].
    enough (le_Term w <= T)%Z by lia. apply (h_terms _ _ Hok).
    eapply prefix_elem; [apply prefix_take|by eapply list_elem_of_lookup_2].
Qed.

Lemma base_contains_committed T k T' j :
  (0 <= T)%Z -> committed h (length ns) T k -> (T < T')%Z -> won h T' = Some j ->
  take k (tlog h T) `prefix_of` base h T'.
Proof.
  intros HT0 (Hw & Hk & He & Q & HQ & Hack).
  revert j. induction (Z.lt_wf T T') as [T' _ IH]. intros j HTT' Hj.
  destruct (h_quorum _ _ Hok _ _ Hj) as (Q' & HQ' & Hend).
  destruct (majority_intersect _ _ _ HQ HQ') as (q & Hq & Hq').
  destruct (Hend q Hq') as (_ & G & HGne & HG & Hacks & Hnew).
  destruct (h_base _ _ Hok _ _ Hj) as (Hs & HB & HBt).
  assert (forall T1 j, (T < T1 < T')%Z -> won h T1 = Some j -> take k (tlog h T) `prefix_of` base h T1) as IH'.
  { intros T1 j1 HT1 Hj1. eapply IH; [lia|lia|done]. }
  eapply newer_contains; [done|done|done| |done| | |done|done|done| |done].
  - etrans; [by apply Hack|by apply (h_acks _ _ Hok)].
  - by eapply legit_prefix.
  - intros E. rewrite E in Hs. by apply prefix_nil_inv in Hs.
  - destruct (Hacks T k HTT') as [?|(T1 & j1 & HT1 & Hj1 & Hn)]; [by apply Hack|done|].
    exfalso. apply Hn. by eapply IH'.
Qed.

End Completeness.

(** A committed prefix, known in term [T] *)
Definition com h (n : nat) (T : Z) (P : entries) : Prop :=
  P `prefix_of` [sentinel] \/
  exists T1 k, (0 <= T1 <= T)%Z /\ committed h n T1 k /\ P `prefix_of` take k (tlog h T1).

Lemma com_prefix h n T P P' : P' `prefix_of` P -> com h n T P -> com h n T P'.
Proof.
  intros HP [?|(T1 & k & ? & ? & ?)]; [left; by etrans|right; exists T1, k].
  split; [done|]. split; [done|by etrans].
Qed.

Lemma com_later h n T T' P : (T <= T')%Z -> com h n T P -> com h n T' P.
Proof. intros HT [?|(T1 & k & ? & ? & ?)]; [by left|right; exists T1, k]. split; [lia|done]. Qed.

(** The facts that the two invariants of logs and of committed entries give
    about a history. *)
Record hist_full h (ns : list Raft) : Prop := {
  hf_ok : hist_ok h ns;
  hf_legit : forall T, legit (tlog h) (tlog h T);
  hf_none : forall T, (T <> 0)%Z -> won h T = None -> tlog h T = []
}.

Lemma com_in_leader h ns T P T' j :
  hist_full h ns -> com h (length ns) T P -> (T <= T')%Z -> won h T' = Some j -> P `prefix_of` tlog h T'.
Proof.
  intros [Hok Hleg Hnone] HP HT Hj. destruct (h_base _ _ Hok _ _ Hj) as (Hs & HB & _).
  destruct HP as [HP|(T1 & k & HT1 & Hcom & HP)]; [by do 2 (etrans; [done|])|].
  etrans; [exact HP|]. destruct (Z.eq_dec T1 T') as [->|Hne]; [apply prefix_take|].
  etrans; [|exact HB]. eapply base_contains_committed; eauto; lia.
Qed.

(** Two committed prefixes never conflict. *)
Lemma com_total h ns T T' P P' :
  hist_full h ns -> com h (length ns) T P -> com h (length ns) T' P' ->
  P `prefix_of` P' \/ P' `prefix_of` P.
Proof.
  intros Hf. assert (forall T P T1 k, com h (length ns) T P -> (T <= T1)%Z -> committed h (length ns) T1 k ->
    P `prefix_of` tlog h T1) as Hin.
  { intros T2 P2 T1 k HP2 HT ([j Hj] & _). by eapply com_in_leader. }
  assert (forall T1 k (P1 : entries), committed h (length ns) T1 k -> P1 `prefix_of` take k (tlog h T1) ->
    [sentinel] `prefix_of` P1 \/ P1 `prefix_of` [sentinel]) as Hsent.
  { intros T1 k P1 ([j Hj] & _) HP1. destruct (h_base _ _ (hf_ok _ _ Hf) _ _ Hj) as (Hs & HB & _).
    eapply (prefix_weak_total _ _ (tlog h T1)); [by etrans|]. etrans; [exact HP1|apply prefix_take]. }
  intros [HP|(T1 & k1 & HT1 & Hc1 & HP)] [HP'|(T2 & k2 & HT2 & Hc2 & HP')].
  - by eapply prefix_weak_total.
  - destruct (Hsent _ _ _ Hc2 HP'); [left; by etrans|]. by eapply prefix_weak_total.
  - destruct (Hsent _ _ _ Hc1 HP); [right; by etrans|]. by eapply prefix_weak_total.
  - pose proof (prefix_take (tlog h T1) k1). pose proof (prefix_take (tlog h T2) k2).
    destruct (Z.le_ge_cases T1 T2) as [Hle|Hle].
    + eapply (prefix_weak_total _ _ (tlog h T2)); [|by etrans].
      eapply Hin; [|exact Hle|done]. right. exists T1, k1. split; [lia|done].
    + eapply (prefix_weak_total _ _ (tlog h T1)); [by etrans|].
      eapply Hin; [|exact Hle|done]. right. exists T2, k2. split; [lia|done].
Qed.

(** ** The invariant *)

Record cnode h (ns : list Raft) (ps : list proc) (i : nat) (rf : Raft) : Prop := {
  cn_sentinel : [sentinel] `prefix_of` log rf;
  cn_terms : forall e, e ∈ log rf -> (le_Term e <= currentTerm rf)%Z;
  cn_acks : has_acks h i (currentTerm rf + 1) (log rf);
  cn_future : forall T, (currentTerm rf < T)%Z -> ack h i T = 0;
  cn_commit : (0 <= commitIndex rf < len (log rf))%Z
    /\ com h (length ns) (currentTerm rf) (take (Z.to_nat (commitIndex rf + 1)) (log rf));
  cn_applied : (0 <= lastApplied rf <= commitIndex rf)%Z
    /\ applyCh rf = entry_msg <$> take (Z.to_nat (lastApplied rf)) (drop 1 (log rf));
  cn_leader : state rf = Leader -> ack h i (currentTerm rf) = length (log rf)
    /\ forall q m, matchIndex rf !! q = Some m ->
         m = 0%Z \/ (0 < m /\ m < Z.of_nat (ack h q (currentTerm rf)))%Z;
  cn_count : state rf = Candidate -> won h (currentTerm rf) = None ->
    forall k, totalVotes rf !! currentTerm rf = Some k ->
    exists Q, NoDup Q /\ Z.of_nat (length Q) = k /\ forall q, q ∈ Q ->
      q < length ns /\ endorsed h ns q (currentTerm rf) (log rf)
      /\ (i, q, currentTerm rf) ∉ omap vote_key ps
}.

(** Peer [s] is a candidate of term [T] with log [l]. *)
Definition candidate (ns : list Raft) (s : nat) (T : Z) (l : entries) : Prop :=
  exists rf, ns !! s = Some rf /\ state rf = Candidate /\ currentTerm rf = T /\ log rf = l.

Definition cproc h (ns : list Raft) (p : proc) : Prop :=
  match p with
  | PSendRV s d a => forall l, candidate ns s (rv_Term a) l ->
      rv_LastLogIndex a = (len l - 1)%Z /\ rv_LastLogTerm a = last_term l
  | PVoteReply s d a r => forall l, candidate ns s (rv_Term a) l -> won h (rv_Term a) = None ->
      rvr_VoteGranted r = true -> (rvr_Term r <= rv_Term a)%Z -> endorsed h ns d (rv_Term a) l
  | PHandleAE _ _ x a | PSentAE _ _ x a =>
      is_Some (won h (ae_Term a)) /\ (0 <= ae_Term a)%Z /\
      exists S, S `prefix_of` tlog h (ae_Term a) /\ from_log S a /\ x = len S
        /\ (0 <= ae_LeaderCommit a < len S)%Z
        /\ com h (length ns) (ae_Term a) (take (Z.to_nat (ae_LeaderCommit a + 1)) S)
  | PRespAE _ d x a r => aer_Success r = true -> (0 < x <= Z.of_nat (ack h d (ae_Term a)))%Z
  | PPersist _ => True
  end.

Record cinv h (c : cluster) : Prop := {
  c_hist : hist_ok h (nodes c);
  c_node : forall i rf, nodes c !! i = Some rf -> cnode h (nodes c) (procs c) i rf;
  c_proc : forall p, p ∈ procs c -> cproc h (nodes c) p
}.

(** ** Growing histories

    A step of peer [i], which is in term [T0] afterwards, changes the history
    at that term only. *)

Record hgrow (i : nat) (T0 : Z) h h' : Prop := {
  g_won : ext (won h) (won h');
  g_log : grows (tlog h) (tlog h');
  g_else : forall T, T <> T0 -> won h' T = won h T /\ tlog h' T = tlog h T;
  g_base : forall T j, won h T = Some j -> base h' T = base h T;
  g_ack : forall q T, q <> i \/ T <> T0 -> ack h' q T = ack h q T;
  g_ack_le : ack h i T0 <= ack h' i T0
}.

Record nstep (i : nat) (T0 : Z) (ns ns' : list Raft) : Prop := {
  ns_length : length ns' = length ns;
  ns_else : forall j, j <> i -> ns' !! j = ns !! j;
  ns_term : forall rf, ns !! i = Some rf -> exists rf', ns' !! i = Some rf'
    /\ (currentTerm rf <= currentTerm rf')%Z /\ currentTerm rf' = T0
}.

Lemma nstep_insert i (ns : list Raft) rf rf' :
  ns !! i = Some rf -> (currentTerm rf <= currentTerm rf')%Z ->
  nstep i (currentTerm rf') ns (<[i := rf']> ns).
Proof.
  intros Hi Hle. split.
  - by rewrite length_insert.
  - intros j Hj. by rewrite list_lookup_insert_ne.
  - intros rf0 Hi0. simplify_eq. exists rf'.
    rewrite list_lookup_insert_eq by (by eapply lookup_lt_Some). done.
Qed.

Lemma nstep_refl (ns : list Raft) T0 : nstep (length ns) T0 ns ns.
Proof. split; [done|done|]. intros rf Hi%lookup_lt_Some. lia. Qed.

Section Grow.
Context (i : nat) (T0 : Z) (h h' : history) (ns ns' : list Raft).
Context (Hok : hist_ok h ns) (Hg : hgrow i T0 h h') (Hn : nstep i T0 ns ns').

Lemma ack_le q T : ack h q T <= ack h' q T.
Proof.
  destruct (decide (q = i)) as [->|]; [destruct (decide (T = T0)) as [->|]|];
    [apply (g_ack_le _ _ _ _ Hg)|rewrite (g_ack _ _ _ _ Hg) by auto; lia..].
Qed.

Lemma take_tlog k T : k <= length (tlog h T) -> take k (tlog h' T) = take k (tlog h T).
Proof. apply take_of_prefix, (g_log _ _ _ _ Hg). Qed.

Lemma take_ack q k T : k <= ack h q T -> take k (tlog h' T) = take k (tlog h T).
Proof. intros Hk. apply take_tlog. etrans; [exact Hk|apply (h_acks _ _ Hok)]. Qed.

Lemma lost_mono T k T' : k <= length (tlog h T) -> lost h T k T' -> lost h' T k T'.
Proof.
  intros Hk (T1 & j & HT1 & Hj & Hnot). exists T1, j. split; [done|].
  split; [by apply (g_won _ _ _ _ Hg)|].
  by rewrite take_tlog, (g_base _ _ _ _ Hg _ _ Hj).
Qed.

Lemma has_acks_mono q T' l :
  (forall T, (T < T')%Z -> ack h' q T = ack h q T) -> has_acks h q T' l -> has_acks h' q T' l.
Proof.
  intros Hack Hl T k HT Hk. rewrite Hack in Hk by done. rewrite (take_ack q) by done.
  destruct (Hl T k HT Hk) as [?|Hlost]; [by left|right]. apply lost_mono; [|done].
  etrans; [exact Hk|apply (h_acks _ _ Hok)].
Qed.

Lemma endorsed_mono q T l : endorsed h ns q T l -> endorsed h' ns' q T l.
Proof.
  intros ((rf & Hq & HT) & G & Hne & HG & Hacks & Hnew). split.
  - destruct (decide (q = i)) as [->|Hqi].
    + destruct (ns_term _ _ _ _ Hn rf Hq) as (rf' & Hq' & ? & _). exists rf'. split; [done|lia].
    + exists rf. by rewrite (ns_else _ _ _ _ Hn).
  - exists G. split; [done|]. split; [eapply legit_grows; [apply (g_log _ _ _ _ Hg)|done]|].
    split; [|done]. apply has_acks_mono; [|done]. intros T1 HT1. apply (g_ack _ _ _ _ Hg).
    destruct (decide (q = i)) as [->|]; [right|by left].
    destruct (ns_term _ _ _ _ Hn rf Hq) as (rf' & _ & ? & <-). lia.
Qed.

Lemma committed_mono n T k : committed h n T k -> committed h' n T k.
Proof.
  intros ([j Hj] & Hk & (e & He & HeT) & Q & HQ & Hack).
  split; [exists j; by apply (g_won _ _ _ _ Hg)|]. split; [done|]. split.
  - exists e. split; [|done]. eapply prefix_lookup_l; [apply (g_log _ _ _ _ Hg)|done].
  - exists Q. split; [done|]. intros q Hq. etrans; [by apply Hack|apply ack_le].
Qed.

Lemma com_mono n T P : com h n T P -> com h' n T P.
Proof.
  intros [?|(T1 & k & HT1 & Hc & HP)]; [by left|right; exists T1, k]. split; [done|].
  split; [by apply committed_mono|]. rewrite take_tlog; [done|].
  destruct Hc as (_ & Hk & (e & He & _) & _). apply lookup_lt_Some in He. lia.
Qed.

Lemma cnode_mono ps ps' j rf :
  j <> i -> (forall q T, (j, q, T) ∈ omap vote_key ps' -> (j, q, T) ∈ omap vote_key ps) ->
  cnode h ns ps j rf -> cnode h' ns' ps' j rf.
Proof.
  intros Hj Hkeys [H1 H2 H3 H4 [H5 H5'] H6 H7 H8].
  assert (forall T, ack h' j T = ack h j T) as Hack by (intros; apply (g_ack _ _ _ _ Hg); auto).
  split; auto.
  - by apply has_acks_mono.
  - intros T HT. rewrite Hack. auto.
  - rewrite (ns_length _ _ _ _ Hn). split; [done|by apply com_mono].
  - intros Hst. rewrite Hack. destruct (H7 Hst) as [? Hm]. split; [done|].
    intros q m Hq. destruct (Hm q m Hq) as [?|[? ?]]; [by left|right].
    pose proof (ack_le q (currentTerm rf)). lia.
  - intros Hst Hw k Hk. assert (won h (currentTerm rf) = None) as Hw0.
    { destruct (won h _) eqn:E; [|done]. apply (g_won _ _ _ _ Hg) in E. congruence. }
    destruct (H8 Hst Hw0 k Hk) as (Q & ? & ? & HQ). exists Q. split; [done|]. split; [done|].
    intros q Hq. destruct (HQ q Hq) as (? & ? & ?). rewrite (ns_length _ _ _ _ Hn).
    split; [done|]. split; [by apply endorsed_mono|]. auto.
Qed.

Lemma cproc_mono p :
  (forall d T l, vote_key p = Some (i, d, T) -> candidate ns' i T l -> candidate ns i T l) ->
  cproc h ns p -> cproc h' ns' p.
Proof.
  intros Hc. assert (forall s d T, vote_key p = Some (s, d, T) -> forall l,
      candidate ns' s T l -> candidate ns s T l) as Hcand.
  { intros s d T Hp l Hl. destruct (decide (s = i)) as [->|Hs].
    - by apply (Hc d).
    - destruct Hl as (rf & Hrf & ?). exists rf. by rewrite <- (ns_else _ _ _ _ Hn) by done. }
  destruct p as [s d a|s d a r|s d x a|s d x a|s d x a r|s]; cbn in *; [| | | | |done].
  - intros Hp l Hl. apply Hp. by eapply Hcand.
  - intros Hp l Hl Hw Hgr Hle. apply endorsed_mono. apply Hp; [by eapply Hcand| |done|done].
    destruct (won h _) eqn:E; [|done]. apply (g_won _ _ _ _ Hg) in E. congruence.
  - intros ([j Hj] & HT & S & HS & ? & ? & ? & Hcom). split; [exists j; by apply (g_won _ _ _ _ Hg)|].
    split; [done|]. exists S. rewrite (ns_length _ _ _ _ Hn).
    split; [etrans; [done|apply (g_log _ _ _ _ Hg)]|]. eauto using com_mono.
  - intros ([j Hj] & HT & S & HS & ? & ? & ? & Hcom). split; [exists j; by apply (g_won _ _ _ _ Hg)|].
    split; [done|]. exists S. rewrite (ns_length _ _ _ _ Hn).
    split; [etrans; [done|apply (g_log _ _ _ _ Hg)]|]. eauto using com_mono.
  - intros Hp Hs. specialize (Hp Hs). pose proof (ack_le d (ae_Term a)). lia.
Qed.

(** What is left to show of a history that has grown: the term [T0]. *)
Lemma hist_ok_grow :
  (forall e, e ∈ tlog h' T0 -> (le_Term e <= T0)%Z) ->
  ack h' i T0 <= length (tlog h' T0) ->
  (forall j, won h' T0 = Some j -> won h T0 = Some j \/
     ([sentinel] `prefix_of` base h' T0 /\ base h' T0 `prefix_of` tlog h' T0
      /\ (forall e, e ∈ base h' T0 -> (le_Term e < T0)%Z)
      /\ exists Q, majority (length ns) Q /\ forall q, q ∈ Q -> endorsed h' ns' q T0 (base h' T0))) ->
  hist_ok h' ns'.
Proof.
  intros Hterm Hack Hwon.
  assert (forall T j, won h' T = Some j -> won h T = Some j \/ T = T0) as Hold.
  { intros T j Hj. destruct (decide (T = T0)); [by right|left].
    by rewrite <- (proj1 (g_else _ _ _ _ Hg T n)). }
  split.
  - intros T e. destruct (decide (T = T0)) as [->|Hne]; [auto|].
    rewrite (proj2 (g_else _ _ _ _ Hg T Hne)). apply (h_terms _ _ Hok).
  - intros q T. destruct (decide (q = i /\ T = T0)) as [[-> ->]|Hne]; [done|].
    rewrite (g_ack _ _ _ _ Hg); [|destruct (decide (q = i)); naive_solver].
    etrans; [apply (h_acks _ _ Hok)|]. apply prefix_length, (g_log _ _ _ _ Hg).
  - intros T j Hj. assert (won h T = Some j \/ T = T0) as Hcase by auto.
    destruct Hcase as [Hj0| ->].
    + rewrite (g_base _ _ _ _ Hg _ _ Hj0). destruct (h_base _ _ Hok _ _ Hj0) as (? & ? & ?).
      split; [done|]. split; [|done]. etrans; [done|apply (g_log _ _ _ _ Hg)].
    + destruct (Hwon j Hj) as [Hj0|(? & ? & ? & _)]; [|done].
      rewrite (g_base _ _ _ _ Hg _ _ Hj0). destruct (h_base _ _ Hok _ _ Hj0) as (? & ? & ?).
      split; [done|]. split; [|done]. etrans; [done|apply (g_log _ _ _ _ Hg)].
  - intros T j Hj. rewrite (ns_length _ _ _ _ Hn).
    assert (won h T = Some j -> exists Q, majority (length ns) Q /\
      forall q, q ∈ Q -> endorsed h' ns' q T (base h' T)) as Hkeep.
    { intros Hj0. destruct (h_quorum _ _ Hok _ _ Hj0) as (Q & ? & HQ). exists Q. split; [done|].
      intros q Hq. rewrite (g_base _ _ _ _ Hg _ _ Hj0). by apply endorsed_mono, HQ. }
    destruct (Hold T j Hj) as [?| ->]; [auto|]. destruct (Hwon j Hj) as [?|(_ & _ & _ & ?)]; auto.
Qed.

End Grow.

Lemma has_acks_later h q T T' (l : entries) :
  (T <= T')%Z -> (forall T1, (T <= T1)%Z -> ack h q T1 = 0) -> has_acks h q T l -> has_acks h q T' l.
Proof.
  intros HT H0 Hh T1 k HT1 Hk. destruct (Z_lt_le_dec T1 T) as [Hlt|Hge].
  - destruct (Hh T1 k Hlt Hk) as [?|(T2 & j & ? & ?)]; [by left|right]. exists T2, j. split; [lia|done].
  - left. rewrite H0 in Hk by done. replace k with 0 by lia. apply prefix_nil.
Qed.

Lemma cinv_update i T0 h h' (ns ns' : list Raft) ps ps' :
  cinv h (mkCluster ns ps) -> hgrow i T0 h h' -> nstep i T0 ns ns' -> hist_ok h' ns' ->
  (forall rf', ns' !! i = Some rf' -> cnode h' ns' ps' i rf') ->
  (forall j q T, j <> i -> (j, q, T) ∈ omap vote_key ps' -> (j, q, T) ∈ omap vote_key ps) ->
  (forall p d T l, p ∈ ps -> vote_key p = Some (i, d, T) -> candidate ns' i T l -> candidate ns i T l) ->
  (forall p, p ∈ ps' -> p ∈ ps \/ cproc h' ns' p) ->
  cinv h' (mkCluster ns' ps').
Proof.
  intros [Hok Hnodes Hprocs] Hg Hn Hok' Hi Hkeys Hcand Hps. cbn in *. split; cbn; [done| |].
  - intros j rf Hj. destruct (decide (j = i)) as [->|Hne]; [auto|].
    eapply cnode_mono; [exact Hok|exact Hg|exact Hn|done|auto|].
    apply Hnodes. by rewrite <- (ns_else _ _ _ _ Hn).
  - intros p Hp. destruct (Hps p Hp) as [Hin|?]; [|done].
    eapply cproc_mono; [exact Hok|exact Hg|exact Hn|eauto|auto].
Qed.

(** Prefixes of legit logs can be compared: only the last terms matter. *)
Lemma legit_prefix_dec L (l1 l2 : entries) k :
  legit L l1 -> legit L l2 -> k <= length l1 ->
  take k l1 `prefix_of` l2 \/ ~ take k l1 `prefix_of` l2.
Proof.
  intros H1 H2 Hk. destruct k as [|k]; [left; apply prefix_nil|].
  destruct (lookup_lt_is_Some_2 l1 k) as [e1 He1]; [lia|].
  assert (take (S k) l1 !! k = Some e1) as Ht by (rewrite lookup_take_lt by lia; done).
  destruct (l2 !! k) as [e2|] eqn:He2.
  - destruct (Z.eq_dec (le_Term e1) (le_Term e2)) as [E|E].
    + left. rewrite (legit_agree L l1 l2 k e1 e2); auto. apply prefix_take.
    + right. intros Hp. apply (prefix_lookup_l _ _ _ _ Hp) in Ht. congruence.
  - right. intros Hp. apply (prefix_lookup_l _ _ _ _ Hp) in Ht. congruence.
Qed.

(** What survives when a log is replaced by a prefix [S] of a leader's log. *)
Lemma merge_keeps (l l' S L P : entries) :
  l' = l \/ (l' = S /\ ~ S `prefix_of` l) -> S `prefix_of` L -> P `prefix_of` L ->
  P `prefix_of` l -> P `prefix_of` l'.
Proof.
  intros [->|[-> Hn]] HS HP Hl; [done|]. destruct (prefix_weak_total _ _ _ HP HS) as [?|H]; [done|].
  exfalso. apply Hn. by etrans.
Qed.

End Commit.
Arguments history C : clear implicits.
