(* ===== verification/RaftCommitSteps.v ===== *)
(** * Committed entries: preservation of the invariant of RaftCommit.v

    One section for the steps of one peer: what the ghosts become, then one
    lemma per kind of step (quiet steps, elections, votes, replication,
    commits). *)

From S2P Require Import Prelude Persister Raft RaftCluster RaftElection RaftLogMatching RaftTheorems RaftCommit.
From stdpp Require Import prelude gmap relations.

Section Steps.
Context {C : Type}.
Notation Raft := (Raft C).
Notation proc := (proc C).
Notation cluster := (cluster C).
Notation entries := (list (LogEntry C)).

(** A step that makes a peer leader finds its [matchIndex] all zero. *)
Definition fresh_peer (rf rf' : Raft) : bool :=
  is_leader (state rf) || negb (is_leader (state rf')) || forallb (Z.eqb 0) (matchIndex rf').

Definition fresh_win (c c' : cluster) : bool :=
  forallb (fun p => fresh_peer p.1 p.2) (zip (nodes c) (nodes c')).

Definition fstep (c c' : cluster) : Prop := cstep c c' /\ fresh_win c c' = true.

Lemma fresh_win_at (ns : list Raft) ps ps' i rf rf' :
  fresh_win (mkCluster ns ps) (mkCluster (<[i := rf']> ns) ps') = true -> ns !! i = Some rf ->
  state rf <> Leader -> state rf' = Leader ->
  forall q m, matchIndex rf' !! q = Some m -> m = 0%Z.
Proof.
  intros Hf Hi Hst Hst' q m Hq. unfold fresh_win in Hf. cbn in Hf. rewrite forallb_forall in Hf.
  assert (zip ns (<[i:=rf']> ns) !! i = Some (rf, rf')) as Hz.
  { apply lookup_zip_Some. split; [done|]. apply list_lookup_insert_eq. by eapply lookup_lt_Some. }
  specialize (Hf _ (proj1 (list_elem_of_In _ _) (list_elem_of_lookup_2 _ _ _ Hz))).
  unfold fresh_peer, is_leader in Hf. cbn in Hf.
  rewrite bool_decide_false, bool_decide_true in Hf by done. cbn in Hf.
  rewrite forallb_forall in Hf. symmetry. apply Z.eqb_eq, Hf.
  apply list_elem_of_In. by eapply list_elem_of_lookup_2.
Qed.

(** ** Quiet handlers: the log, the commit index and the votes stay *)

Record ctrans (rf rf' : Raft) : Prop := {
  ct_term : (currentTerm rf' = currentTerm rf /\ (state rf' = state rf \/ state rf' = Follower))
    \/ (currentTerm rf < currentTerm rf' /\ state rf' = Follower)%Z;
  ct_log : log rf' = log rf;
  ct_commit : commitIndex rf' = commitIndex rf;
  ct_match : state rf' = Leader -> matchIndex rf' = matchIndex rf;
  ct_votes : totalVotes rf' = totalVotes rf
}.

Definition applied_right (rf : Raft) : Prop :=
  (0 <= lastApplied rf <= commitIndex rf)%Z
  /\ applyCh rf = entry_msg <$> take (Z.to_nat (lastApplied rf)) (drop 1 (log rf)).

Lemma applied_right_same (rf rf' : Raft) :
  ctrans rf rf' -> same_applied rf rf' -> applied_right rf -> applied_right rf'.
Proof. intros [_ E1 E2 _ _] [E3 E4]. unfold applied_right. by rewrite E1, E2, E3, E4. Qed.

Ltac quiet := split; cbn; solve [auto | lia | (intros; congruence)].

Lemma tickHeartbeat_quiet (rf rf' : Raft) qs : tickHeartbeat rf = Ret (rf', qs) -> ctrans rf rf'.
Proof. unfold tickHeartbeat. intros H. go_inv; quiet. Qed.

Lemma applyEntries_quiet (rf rf' : Raft) : applyEntries rf = Ret rf' -> ctrans rf rf'.
Proof. unfold applyEntries. intros H. destruct (hasCommittedChan rf); go_inv; quiet. Qed.

Lemma handleAE_quiet (rf rf' : Raft) d x a qs : handleAppendEntries rf d x a = (rf', qs) -> ctrans rf rf'.
Proof. unfold handleAppendEntries. case_match; intros [= <- <-]; quiet. Qed.

Lemma RequestVote_quiet (rf rf' : Raft) a r : RequestVote rf a = Ret (rf', r) -> ctrans rf rf'.
Proof.
  unfold RequestVote. intros H. destruct (Z.ltb_spec (currentTerm rf) (rv_Term a)); go_inv; quiet.
Qed.

Definition updA (A : nat -> Z -> nat) (i : nat) (T : Z) (k : nat) : nat -> Z -> nat :=
  fun q T' => if decide (q = i /\ T' = T) then k else A q T'.

Lemma updA_eq A i T k : updA A i T k i T = k.
Proof. unfold updA. by rewrite decide_True. Qed.

Lemma updA_ne A i T k q T' : q <> i \/ T' <> T -> updA A i T k q T' = A q T'.
Proof. intros H. unfold updA. rewrite decide_False; [done|]. naive_solver. Qed.

(** The applied entries survive a change of the log behind the commit index. *)
Lemma applied_prefix (l l' : entries) n m :
  take m l `prefix_of` l' -> n < m -> m <= length l -> take n (drop 1 l) = take n (drop 1 l').
Proof.
  intros [r ->] Hn Hm. rewrite <- (take_drop m l) at 1. rewrite !drop_app_le by (rewrite length_take; lia).
  by rewrite !take_app_le by (rewrite length_drop, length_take; lia).
Qed.

(** The requests [qs] are those of a leader [rf']. *)
Definition sends (rf' : Raft) (qs : list proc) : Prop :=
  state rf' = Leader /\ exists r, sendHeartbeats r = Ret qs /\ log r = log rf'
    /\ currentTerm r = currentTerm rf' /\ commitIndex r = commitIndex rf'.

Lemma tickHeartbeat_sends (rf rf' : Raft) qs :
  tickHeartbeat rf = Ret (rf', qs) -> qs = [] \/ sends rf' qs.
Proof.
  unfold tickHeartbeat, is_leader. intros H. go_inv; [right|by left].
  split; [by eapply bool_decide_eq_true_1|]. eauto 10.
Qed.

(** The answer to a request for a vote is quiet, counts a vote, or wins. *)
Inductive vote_outcome (a : RequestVoteArgs) (rf rf' : Raft) (qs : list proc) : Prop :=
| vo_quiet (Hq : ctrans rf rf') (Hqs : qs = [])
| vo_count
    (Hst : state rf = Candidate) (Hterm : currentTerm rf = rv_Term a)
    (Hct : currentTerm rf' = currentTerm rf) (Hlog : log rf' = log rf)
    (Hci : commitIndex rf' = commitIndex rf)
    (Htv : totalVotes rf' = <[rv_Term a := (default 0 (totalVotes rf !! rv_Term a) + 1)%Z]> (totalVotes rf))
    (Hres : (state rf' = Candidate /\ qs = []) \/
       (state rf' = Leader
        /\ (Z.of_nat (peers rf) / 2 < default 0 (totalVotes rf !! rv_Term a) + 1)%Z
        /\ sends rf' qs)).

Lemma voteReply_outcome (rf rf' : Raft) a r qs :
  voteReply rf a r = Ret (rf', qs) -> vote_outcome a rf rf' qs
  /\ (ctrans rf rf' \/ (rvr_VoteGranted r = true /\ (rvr_Term r <= rv_Term a)%Z)).
Proof.
  unfold voteReply, is_candidate. intros H. go_inv; bprop;
    repeat match goal with H : bool_decide _ = true |- _ => apply bool_decide_eq_true in H end.
  - split; [apply vo_quiet; [quiet|done]|left; quiet].
  - split; [|right; split; [done|lia]]. eapply vo_count; cbn; auto. right.
    split; [done|]. split; [done|]. split; [done|]. eauto 10.
  - split; [|right; split; [done|lia]]. apply vo_count; cbn; auto.
  - split; [apply vo_quiet; [quiet|done]|left; quiet].
  - split; [apply vo_quiet; [quiet|done]|left; quiet].
Qed.

(** A granted vote means that the candidate's log is at least as new. *)
Lemma legit_last_term L (rf : Raft) :
  legit L (log rf) -> log rf <> [] -> lastLogTerm rf = Ret (last_term (log rf)).
Proof.
  intros Hl Hne. unfold lastLogTerm, last_term, len. destruct (last_is_Some_ne _ Hne) as [e He].
  destruct (Z.eqb_spec (Z.of_nat (length (log rf))) 0) as [E|E]; [by destruct (log rf)|].
  rewrite He. rewrite last_lookup in He.
  replace (Z.of_nat (length (log rf)) - 1)%Z with (Z.of_nat (pred (length (log rf)))) by lia.
  by rewrite (go_index_nat _ _ _ He).
Qed.

Lemma upToDate_newer L (rf : Raft) a l :
  legit L (log rf) -> log rf <> [] -> candidateUpToDate rf a = Ret true ->
  rv_LastLogIndex a = (len l - 1)%Z -> rv_LastLogTerm a = last_term l -> newer l (log rf).
Proof.
  intros Hl Hne H Ei Et. unfold candidateUpToDate in H.
  rewrite (legit_last_term L), Et in H by done. cbn in H. unfold newer.
  destruct (Z.ltb_spec (last_term (log rf)) (last_term l)); [by left|].
  destruct (Z.eqb_spec (last_term l) (last_term (log rf))) as [E|]; [|done].
  rewrite (legit_last L), Ei in H by done. cbn in H. injection H as H. apply Z.leb_le in H.
  right. split; [done|]. unfold len in *. lia.
Qed.

Lemma RequestVote_uptodate (rf rf' : Raft) a r :
  RequestVote rf a = Ret (rf', r) -> rvr_VoteGranted r = true ->
  exists rf1, log rf1 = log rf /\ candidateUpToDate rf1 a = Ret true.
Proof.
  unfold RequestVote. intros H Hg.
  set (rf1 := if (currentTerm rf <? rv_Term a)%Z then _ else rf) in H. exists rf1.
  split; [unfold rf1; by destruct (_ <? _)%Z|].
  apply bind_Ret in H as (b & Hb & H). destruct b; [done|]. cbn in H. go_inv.
Qed.

Lemma tickElection_cases (rf rf' : Raft) qs :
  tickElection rf = Ret (rf', qs) ->
  (ctrans rf rf' /\ qs = [])
  \/ exists a, currentTerm rf' = (currentTerm rf + 1)%Z /\ state rf' = Candidate /\ log rf' = log rf
     /\ commitIndex rf' = commitIndex rf /\ totalVotes rf' = <[currentTerm rf' := 1%Z]> (totalVotes rf)
     /\ rv_Term a = currentTerm rf' /\ lastLogIndex rf' = Ret (rv_LastLogIndex a)
     /\ lastLogTerm rf' = Ret (rv_LastLogTerm a)
     /\ qs = (fun j => PSendRV (me rf) j a) <$> filter (fun j => j <> me rf) (seq 0 (peers rf)).
Proof.
  unfold tickElection. intros H. destruct (negb _); go_inv; [right|left; split; [quiet|done]].
  eexists (mkRVArgs _ _ _ _). cbn. split_and!; try reflexivity; eassumption.
Qed.

Lemma advanceCommit_index (rf rf' : Raft) lc :
  advanceCommit rf lc = Ret rf' ->
  commitIndex rf' = commitIndex rf \/
  exists last, lastLogIndex rf = Ret last /\ (commitIndex rf < lc)%Z /\ commitIndex rf' = Z.min lc last.
Proof.
  unfold advanceCommit. intros H. destruct (Z.ltb_spec (commitIndex rf) lc); [right|go_inv; by left].
  apply bind_Ret in H as (last & Hlast & H). exists last. split; [done|]. split; [done|].
  apply signal_commit_fields in H as [_ ->]. cbn. destruct (Z.ltb_spec lc last); lia.
Qed.

(** A request is rejected quietly, or it is merged. *)
Lemma AppendEntries_cases (rf rf' : Raft) a r :
  AppendEntries rf a = Ret (rf', r) ->
  (aer_Success r = false /\ ctrans rf rf')
  \/ (aer_Success r = true /\ (currentTerm rf <= ae_Term a)%Z /\ currentTerm rf' = ae_Term a
      /\ state rf' = Follower
      /\ (commitIndex rf' = commitIndex rf \/ exists last, lastLogIndex rf' = Ret last
          /\ (commitIndex rf < ae_LeaderCommit a)%Z /\ commitIndex rf' = Z.min (ae_LeaderCommit a) last)).
Proof.
  unfold AppendEntries. intros H. destruct (Z.ltb_spec (ae_Term a) (currentTerm rf)).
  { injection H as <- <-. left. split; [done|quiet]. }
  destruct (Z.ltb_spec (currentTerm rf) (ae_Term a)); go_inv; bprop;
    try (left; split; [done|quiet]); right;
    match goal with H : advanceCommit _ _ = Ret _ |- _ =>
      pose proof (advanceCommit_index _ _ _ H) as Hci;
      apply advanceCommit_fields in H as (? & ? & ->) end;
    cbn in *; split_and!; auto; lia.
Qed.

(** An answer is quiet (and may lead to one more request), or it is a success
    that a leader counts. *)
Lemma respAE_cases (rf rf' : Raft) d x a r qs :
  respAppendEntries rf d x a r = Ret (rf', qs) ->
  (ctrans rf rf' /\ (qs = [] \/ (state rf' = Leader
     /\ exists ea, heartbeat_args rf' d = Ret ea /\ qs = [PHandleAE (me rf) d ea.1 ea.2])))
  \/ (qs = [] /\ aer_Success r = true /\ ae_Term a = currentTerm rf
      /\ state rf = Leader /\ state rf' = Leader /\ currentTerm rf' = currentTerm rf /\ log rf' = log rf
      /\ (matchIndex rf' = matchIndex rf \/ matchIndex rf' = <[d := (x - 1)%Z]> (matchIndex rf))).
Proof.
  unfold respAppendEntries, is_leader. intros H. go_inv; bprop;
    repeat match goal with
    | H : signal_commit _ = Ret _ |- _ => apply signal_commit_fields in H as [_ ->]
    | H : bool_decide _ = true |- _ => apply bool_decide_eq_true in H end; cbn;
    try (left; split; [quiet|]; eauto 10; fail).
  all: right; rewrite ?Nat2Z.id; split_and!; auto.
Qed.

Lemma heartbeat_commit (rf : Raft) j ea :
  heartbeat_args rf j = Ret ea -> ae_LeaderCommit ea.2 = commitIndex rf.
Proof. unfold heartbeat_args. intros H. go_inv. done. Qed.

(** The requests of a leader are right. *)
Lemma heartbeat_cproc (h : history C) (ns : list Raft) (rf : Raft) s j ea :
  legit (tlog h) (log rf) -> log rf <> [] -> tlog h (currentTerm rf) = log rf ->
  is_Some (won h (currentTerm rf)) -> (0 <= currentTerm rf)%Z ->
  (0 <= commitIndex rf < len (log rf))%Z ->
  com h (length ns) (currentTerm rf) (take (Z.to_nat (commitIndex rf + 1)) (log rf)) ->
  heartbeat_args rf j = Ret ea -> cproc h ns (PHandleAE s j ea.1 ea.2).
Proof.
  intros Hleg Hne HL Hw HT Hci Hcom Hea.
  destruct (heartbeat_args_from_log _ _ _ _ Hleg Hne Hea) as (Hf & Ht & Hx). cbn.
  rewrite Ht, (heartbeat_commit _ _ _ Hea). split; [done|]. split; [done|].
  exists (log rf). rewrite HL. split; [done|]. split; [done|]. split; [|done].
  rewrite Hx. destruct Hf as [Hp (e & He & _) ->]. apply lookup_lt_Some in He.
  unfold len in *. rewrite length_drop. lia.
Qed.

(** ** A step of peer [i] *)

Section Peer.
Context (V V' : nat -> Z -> option Z) (Ld Ld' : Z -> option nat) (L L' W : Z -> entries) (A : nat -> Z -> nat).
Context (ns : list Raft) (ps ps' : list proc) (i : nat) (rf rf' : Raft).
Context (He : einv V Ld (mkCluster ns ps)) (Hl : linv Ld L (mkCluster ns ps)).
Context (He' : einv V' Ld' (mkCluster (<[i := rf']> ns) ps')).
Context (Hl' : linv Ld' L' (mkCluster (<[i := rf']> ns) ps')).
Context (Hgr : grows L L').
Context (Hw : new_winner Ld Ld' (mkCluster ns ps) (mkCluster (<[i := rf']> ns) ps')).
Context (Hlc : lchange L L' (mkCluster (<[i := rf']> ns) ps')).
Context (Hi : ns !! i = Some rf).
Context (Hc : cinv (mkHistory Ld L W A) (mkCluster ns ps)).
Notation T0 := (currentTerm rf').
Notation ns' := (<[i := rf']> ns).
Notation h := (mkHistory Ld L W A).

Lemma here : ns' !! i = Some rf'.
Proof. apply list_lookup_insert_eq. by eapply lookup_lt_Some. Qed.

Lemma node_before : cnode h ns ps i rf.
Proof. apply (c_node _ _ Hc i rf Hi). Qed.

Lemma hist_before : hist_full h ns.
Proof. split; [apply (c_hist _ _ Hc)|apply (l_ghost _ _ _ Hl)|apply (l_none _ _ _ Hl)]. Qed.

Lemma old_leader : state rf = Leader -> Ld (currentTerm rf) = Some i /\ L (currentTerm rf) = log rf.
Proof.
  intros Hst. split; [by apply (no_leader _ _ _ _ _ _ (e_node _ _ _ He i rf Hi))|].
  destruct (l_node _ _ _ Hl i rf Hi) as (_ & _ & H). auto.
Qed.

Lemma ghost_lead : state rf' = Leader -> Ld' T0 = Some i /\ L' T0 = log rf'.
Proof.
  intros Hst. split; [by apply (no_leader _ _ _ _ _ _ (e_node _ _ _ He' i rf' here))|].
  destruct (l_node _ _ _ Hl' i rf' here) as (_ & _ & H). auto.
Qed.

(** A winner or a changed log of a term is that of peer [i]. *)
Lemma ghost_winner : (forall T, Ld' T = Ld T) \/
  (state rf' = Leader /\ Ld T0 = None /\ forall T, T <> T0 -> Ld' T = Ld T).
Proof.
  destruct Hw as [->|(T & s & rfs & -> & HT & Hs & Hst & Hct)]; [by left|]. cbn in Hs.
  apply lookup_update_Some in Hs as [(<- & -> & _)|[Hne Hs]].
  - right. rewrite Hct. split; [done|]. split; [done|]. intros T1 HT1. unfold upd1. by rewrite decide_False.
  - pose proof (no_leader _ _ _ _ _ _ (e_node _ _ _ He s rfs Hs) Hst). congruence.
Qed.

Lemma ghost_logs : (forall T, L' T = L T) \/ (state rf' = Leader /\ forall T, T <> T0 -> L' T = L T).
Proof.
  destruct Hlc as [->|(s & rfs & Hs & Hst & ->)]; [by left|]. cbn in Hs.
  apply lookup_update_Some in Hs as [(<- & -> & _)|[Hne Hs]].
  - right. split; [done|]. intros T1 HT1. unfold updL. by rewrite decide_False.
  - left. intros T. unfold updL. case_decide; [subst|done].
    destruct (l_node _ _ _ Hl s rfs Hs) as (_ & _ & H). symmetry. auto.
Qed.

Lemma ghost_else T : T <> T0 -> Ld' T = Ld T /\ L' T = L T.
Proof.
  intros HT. destruct ghost_winner as [E|(_ & _ & E)], ghost_logs as [E1|[_ E1]]; auto.
Qed.

(** A peer that does not become leader wins nothing ... *)
Lemma ghost_won_same :
  (state rf' = Leader -> state rf = Leader /\ T0 = currentTerm rf) -> forall T, Ld' T = Ld T.
Proof.
  intros Hst. destruct ghost_winner as [?|(HL & Hnone & _)]; [done|].
  destruct (Hst HL) as [HL0 E]. destruct (old_leader HL0) as [HLd _]. congruence.
Qed.

(** ... and changes no log of a term, if it keeps its own. *)
Lemma ghost_log_same :
  (state rf' = Leader -> state rf = Leader /\ T0 = currentTerm rf) -> log rf' = log rf ->
  forall T, L' T = L T.
Proof.
  intros Hst Hlog. destruct ghost_logs as [?|[HL E]]; [done|]. intros T.
  destruct (decide (T = T0)) as [->|]; [|auto]. destruct (Hst HL) as [HL0 E0].
  rewrite (proj2 (ghost_lead HL)), E0, (proj2 (old_leader HL0)). done.
Qed.

Lemma ghost_grow W' A' :
  (forall T j, Ld T = Some j -> W' T = W T) ->
  (forall q T, q <> i \/ T <> T0 -> A' q T = A q T) -> A i T0 <= A' i T0 ->
  hgrow i T0 h (mkHistory Ld' L' W' A').
Proof.
  intros HW HA HA0. split; cbn; auto.
  - by eapply new_winner_ext.
  - apply ghost_else.
Qed.

(** ** Quiet steps *)

(** The history stays good while no term gets a winner or an entry. *)
Lemma hist_same :
  (forall T, Ld' T = Ld T) -> (forall T, L' T = L T) -> nstep i T0 ns ns' ->
  hist_ok (mkHistory Ld' L' W A) ns'.
Proof.
  intros ELd EL Hn. pose proof (hf_ok _ _ hist_before) as Hok.
  eapply hist_ok_grow; [exact Hok|by apply ghost_grow|exact Hn|..]; cbn.
  - rewrite EL. apply (h_terms _ _ Hok).
  - rewrite EL. apply (h_acks _ _ Hok).
  - intros j. rewrite ELd. auto.
Qed.

(** What a step of peer [i] has to show. *)
Lemma cinv_peer h' :
  hgrow i T0 h h' -> (currentTerm rf <= T0)%Z -> hist_ok h' ns' -> cnode h' ns' ps' i rf' ->
  (forall j q T, j <> i -> (j, q, T) ∈ omap vote_key ps' -> (j, q, T) ∈ omap vote_key ps) ->
  (forall p d, p ∈ ps -> vote_key p = Some (i, d, T0) -> state rf' = Candidate ->
     state rf = Candidate /\ currentTerm rf = T0 /\ log rf = log rf') ->
  (forall p, p ∈ ps' -> p ∈ ps \/ cproc h' ns' p) ->
  cinv h' (mkCluster ns' ps').
Proof.
  intros Hg Hle Hok Hno Hkeys Hcand Hps.
  eapply cinv_update; [exact Hc|exact Hg|by apply (nstep_insert i ns rf)|exact Hok| |exact Hkeys| |exact Hps].
  - intros r Hr. rewrite here in Hr. by injection Hr as <-.
  - intros p d T l Hp Hk (r & Hr & HC & HT & Hl0). rewrite here in Hr. injection Hr as <-.
    rewrite <- HT in *. destruct (Hcand p d Hp Hk HC) as (? & ? & ?). exists rf. by rewrite <- Hl0.
Qed.

Lemma cinv_quiet :
  ctrans rf rf' -> applied_right rf' ->
  (forall x, x ∈ omap vote_key ps' -> x ∈ omap vote_key ps) ->
  (forall p, p ∈ ps' -> p ∈ ps \/ cproc (mkHistory Ld' L' W A) ns' p) ->
  cinv (mkHistory Ld' L' W A) (mkCluster ns' ps').
Proof.
  intros [Hterm Hlog Hcom Hmatch Htv] Happ Hkeys Hps. pose proof node_before as [N1 N2 N3 N4 [N5 N5'] N6 N7 N8].
  assert (currentTerm rf <= T0)%Z as Hle by lia.
  assert (state rf' = Leader -> state rf = Leader /\ T0 = currentTerm rf) as Hst.
  { intros HL. destruct Hterm as [[? [E|E]]|[_ E]]; [split; congruence|congruence..]. }
  pose proof (ghost_won_same Hst) as ELd. pose proof (ghost_log_same Hst Hlog) as EL.
  pose proof (nstep_insert i ns rf rf' Hi Hle) as Hn.
  assert (hgrow i T0 h (mkHistory Ld' L' W A)) as Hg by (apply ghost_grow; auto).
  pose proof (hf_ok _ _ hist_before) as Hok.
  apply cinv_peer; [exact Hg|exact Hle| | | | |exact Hps].
  - by apply hist_same.
  - split; cbn; rewrite ?Hlog, ?Hcom; auto.
    + intros e Hin. apply N2 in Hin. lia.
    + apply (has_acks_later _ i (currentTerm rf + 1)); [lia|intros T1 HT1; apply N4; lia|].
      eapply has_acks_mono; [exact Hok|exact Hg|done|done].
    + intros T HT. apply N4. lia.
    + split; [done|]. rewrite length_insert. eapply com_later; [|by eapply com_mono]. lia.
    + rewrite <- Hlog, <- Hcom. exact Happ.
    + intros HL. destruct (Hst HL) as [HL0 ->]. rewrite Hmatch by done. auto.
    + intros HC HN k. rewrite Htv. assert (state rf = Candidate /\ T0 = currentTerm rf) as [HC0 ET].
      { destruct Hterm as [[? [E|E]]|[_ E]]; [split; congruence|congruence..]. }
      rewrite ET in *. rewrite ELd in HN. intros Hk.
      destruct (N8 HC0 HN k Hk) as (Q & ? & ? & HQ). exists Q. split; [done|]. split; [done|].
      intros q Hq. destruct (HQ q Hq) as (? & ? & ?). rewrite length_insert. split; [done|].
      split; [by eapply endorsed_mono|auto].
  - intros j q T _. apply Hkeys.
  - intros p d _ _ HC. destruct Hterm as [[? [E|E]]|[_ E]]; [|congruence..]. split_and!; congruence.
Qed.

Lemma applied_before : applied_right rf.
Proof. apply (cn_applied _ _ _ _ _ node_before). Qed.

Lemma leader_cprocs (h' : history C) qs :
  tlog h' = L' -> won h' = Ld' -> sends rf' qs ->
  (0 <= commitIndex rf' < len (log rf'))%Z ->
  com h' (length ns') T0 (take (Z.to_nat (commitIndex rf' + 1)) (log rf')) ->
  forall p, p ∈ qs -> cproc h' ns' p.
Proof.
  intros EL Ew (Hst & r & Hqs & E1 & E2 & E3) Hci Hcom p Hp.
  destruct (sendHeartbeats_procs r qs Hqs p Hp) as (j & ea & -> & _ & Hea).
  destruct (l_node _ _ _ Hl' i rf' here) as (Hne & Hleg & _). destruct (ghost_lead Hst) as [Hwon HLT].
  apply (heartbeat_cproc h' ns' r); rewrite ?E1, ?E2, ?E3, ?EL, ?Ew; auto.
  - apply (no_term _ _ _ _ _ _ (e_node _ _ _ He' i rf' here)).
Qed.

(** After a quiet step, the commit index is right in the new history. *)
Lemma commit_after W' A' :
  hgrow i T0 h (mkHistory Ld' L' W' A') -> log rf `prefix_of` log rf' ->
  commitIndex rf' = commitIndex rf -> (currentTerm rf <= T0)%Z ->
  (0 <= commitIndex rf' < len (log rf'))%Z
  /\ com (mkHistory Ld' L' W' A') (length ns') T0 (take (Z.to_nat (commitIndex rf' + 1)) (log rf')).
Proof.
  intros Hg Hlog Hci Hle. destruct (cn_commit _ _ _ _ _ node_before) as [H0 H1].
  pose proof (prefix_length _ _ Hlog) as Hlen. unfold len in *. rewrite Hci. split; [lia|].
  rewrite (take_of_prefix _ _ _ Hlog) by lia. rewrite length_insert.
  eapply com_later; [exact Hle|]. by eapply com_mono.
Qed.

Lemma keys_app qs : omap vote_key qs = [] -> forall x, x ∈ omap vote_key (ps ++ qs) -> x ∈ omap vote_key ps.
Proof. intros Hq x. by rewrite omap_app, Hq, app_nil_r. Qed.

Lemma keys_delete k qs :
  omap vote_key qs = [] -> forall x, x ∈ omap vote_key (delete k ps ++ qs) -> x ∈ omap vote_key ps.
Proof. intros Hq x Hx. eapply elem_of_sublist; [exact Hx|]. by apply sublist_delete_app. Qed.

Lemma quiet_grow : hgrow i T0 h (mkHistory Ld' L' W A).
Proof. by apply ghost_grow. Qed.

Lemma cinv_heartbeat qs :
  tickHeartbeat rf = Ret (rf', qs) -> ps' = ps ++ qs -> cinv (mkHistory Ld' L' W A) (mkCluster ns' ps').
Proof.
  intros H Eps. pose proof (tickHeartbeat_quiet _ _ _ H) as Hq. rewrite Eps.
  destruct (tickHeartbeat_vtrans _ _ _ H) as [Ht Hkeys]. pose proof (vtrans_mono _ _ Ht) as Hle.
  rewrite <- Eps. apply cinv_quiet; [done| |rewrite Eps; by apply keys_app|].
  - eapply applied_right_same; [done| |apply applied_before]. apply handlers_same_applied. eauto.
  - rewrite Eps. intros p [?|Hp]%elem_of_app; [by left|right].
    destruct (commit_after W A quiet_grow) as [H1 H2]; [by rewrite (ct_log _ _ Hq)|apply Hq|done|].
    destruct (tickHeartbeat_sends _ _ _ H) as [->|Hs]; [by apply elem_of_nil in Hp|].
    by eapply leader_cprocs.
Qed.

Lemma key_bound p d T : p ∈ ps -> vote_key p = Some (i, d, T) -> (1 <= T <= currentTerm rf)%Z.
Proof.
  intros Hp Hk. pose proof (e_proc _ _ _ He p Hp) as Hpo.
  pose proof (e_node _ _ _ He i rf Hi) as Hno. destruct p; cbn in *; simplify_eq.
  - destruct Hpo as (_ & r & Hr & [k Hk]). simplify_eq. by apply (no_count _ _ _ _ _ _ Hno _ _ Hk).
  - destruct Hpo as (_ & (r & Hr & [k Hk]) & _). simplify_eq. by apply (no_count _ _ _ _ _ _ Hno _ _ Hk).
Qed.

Lemma step_le : ctrans rf rf' -> (currentTerm rf <= T0)%Z.
Proof. intros [[[-> _]|[? _]] _ _ _ _]; lia. Qed.

(** The vote [r] of peer [i] *)
Lemma vote_endorses s a r k :
  ps !! k = Some (PSendRV s i a) -> RequestVote rf a = Ret (rf', r) ->
  cproc (mkHistory Ld' L' W A) ns' (PVoteReply s i a r).
Proof.
  intros Hk H. cbn. intros l Hl0 Hnone Hgt Hle. pose proof (RequestVote_quiet _ _ _ _ H) as Hq.
  pose proof node_before as Hno. destruct (l_node _ _ _ Hl i rf Hi) as (Hne & Hleg & _).
  assert (T0 = rv_Term a) as HT.
  { destruct (RequestVote_spec _ _ _ _ H) as (rf1 & _ & _ & Hrt & Hct & [[? _]|(_ & E & _)]); [congruence|].
    rewrite E. cbn. lia. }
  assert (candidate ns s (rv_Term a) l) as Hcand.
  { destruct Hl0 as (r0 & Hr0 & HC & HT' & Hlog). apply lookup_update_Some in Hr0 as [(<- & -> & _)|[_ ?]].
    - destruct Hq as [[[? [E|E]]|[_ E]] ? _ _ _]; [|congruence..].
      exists rf. split; [done|]. split; [congruence|]. split; congruence.
    - by exists r0. }
  destruct (c_proc _ _ Hc _ (list_elem_of_lookup_2 _ _ _ Hk) l Hcand) as [Ei Et].
  destruct (RequestVote_uptodate _ _ _ _ H Hgt) as (rf1 & Elog & Hup).
  split; [exists rf'; split; [apply here|lia]|]. exists (log rf). split; [done|].
  split; [by eapply legit_grows|]. split; [|by rewrite <- Elog in *; eapply upToDate_newer].
  intros T k0 HTlt Hk0. rewrite <- HT in *.
  assert (has_acks (mkHistory Ld' L' W A) i (T0 + 1) (log rf)) as Ha.
  { apply (has_acks_later _ i (currentTerm rf + 1)); [pose proof (step_le Hq); lia| |].
    - intros T1 HT1. apply (cn_future _ _ _ _ _ Hno). lia.
    - eapply has_acks_mono; [apply hist_before|apply quiet_grow|done|apply Hno]. }
  destruct (Ha T k0) as [?|(T1 & j & HT1 & Hj & Hn)]; [lia|done|by left|right].
  exists T1, j. split; [|done]. cbn in Hj. destruct (decide (T1 = T0)) as [->|]; [congruence|lia].
Qed.

Lemma cinv_request_vote s a r k :
  ps !! k = Some (PSendRV s i a) -> RequestVote rf a = Ret (rf', r) ->
  ps' = delete k ps ++ [PVoteReply s i a r] -> cinv (mkHistory Ld' L' W A) (mkCluster ns' ps').
Proof.
  intros Hk H Eps. pose proof (RequestVote_quiet _ _ _ _ H) as Hq.
  apply cinv_quiet; [done| | |].
  - eapply applied_right_same; [done| |apply applied_before]. apply handlers_same_applied. eauto 10.
  - intros x. rewrite Eps, omap_app. cbn. intros [Hx| ->%list_elem_of_singleton]%elem_of_app.
    + eapply elem_of_sublist; [exact Hx|apply omap_delete_sublist].
    + apply list_elem_of_omap. exists (PSendRV s i a). split; [by eapply list_elem_of_lookup_2|done].
  - rewrite Eps. intros p Hp. apply elem_of_delete_app in Hp as [?| ->%list_elem_of_singleton]; [by left|right].
    by eapply vote_endorses.
Qed.

(** A goroutine or a timer whose code is quiet and which starts requests that
    were already there, or none. *)
Lemma cinv_quiet_proc k qs :
  ctrans rf rf' -> applied_right rf' -> ps' = delete k ps ++ qs -> omap vote_key qs = [] ->
  (forall p, p ∈ qs -> cproc (mkHistory Ld' L' W A) ns' p) ->
  cinv (mkHistory Ld' L' W A) (mkCluster ns' ps').
Proof.
  intros Hq Ha Eps Hkeys Hqs. apply cinv_quiet; [done|done|rewrite Eps; by apply keys_delete|].
  rewrite Eps. intros p Hp. apply elem_of_delete_app in Hp as [?|?]; auto.
Qed.

Lemma cinv_quiet_local :
  ctrans rf rf' -> applied_right rf' -> ps' = ps ++ [] -> cinv (mkHistory Ld' L' W A) (mkCluster ns' ps').
Proof.
  intros Hq Ha Eps. rewrite app_nil_r in Eps. apply cinv_quiet; [done|done|by rewrite Eps|].
  rewrite Eps. auto.
Qed.

Lemma cinv_handle k d x a qs :
  ps !! k = Some (PHandleAE i d x a) -> handleAppendEntries rf d x a = (rf', qs) -> ps' = delete k ps ++ qs ->
  cinv (mkHistory Ld' L' W A) (mkCluster ns' ps').
Proof.
  intros Hk H Eps. pose proof (handleAE_quiet _ _ _ _ _ _ H) as Hq.
  destruct (handleAE_vtrans _ _ _ _ _ _ H) as [_ Hkeys]. eapply cinv_quiet_proc; [done| |done|done|].
  - eapply applied_right_same; [done| |apply applied_before]. apply handlers_same_applied. eauto 15.
  - pose proof (c_proc _ _ Hc _ (list_elem_of_lookup_2 _ _ _ Hk)) as Hp.
    unfold handleAppendEntries in H. destruct (is_leader _ && _); injection H as _ <-; [|set_solver].
    intros p ->%list_elem_of_singleton.
    eapply (cproc_mono i T0 h _ ns); [apply hist_before|apply quiet_grow| |done|exact Hp].
    apply (nstep_insert i ns rf rf'); [done|by apply step_le].
Qed.

(** The messages go out in order, behind those of the earlier iterations. *)
Lemma apply_right : applyEntries rf = Ret rf' -> applied_right rf'.
Proof.
  intros H. destruct (l_node _ _ _ Hl i rf Hi) as (Hne & Hleg & _).
  pose proof (applyEntries_quiet _ _ H) as Hq. destruct applied_before as [H0 Hch].
  destruct (applyEntries_spec L rf rf' Hleg Hne ltac:(lia) H) as [?|([Hlt Hla] & es & Hes & Hidx & Hin)];
    [by eapply applied_right_same|].
  destruct (cn_commit _ _ _ _ _ node_before) as [Hci _]. unfold applied_right.
  rewrite Hla, (ct_commit _ _ Hq), (ct_log _ _ Hq), Hes, Hch, <- fmap_app. split; [lia|]. f_equal.
  assert (es = take (Z.to_nat (commitIndex rf) - Z.to_nat (lastApplied rf))
      (drop (Z.to_nat (lastApplied rf)) (drop 1 (log rf)))) as ->.
  { rewrite drop_drop. apply list_eq_same_length with (n := Z.to_nat (commitIndex rf) - Z.to_nat (lastApplied rf)).
    - rewrite length_take, length_drop. unfold len in *. lia.
    - apply (f_equal length) in Hidx. rewrite length_fmap, length_seqZ in Hidx. lia.
    - intros k y x Hk Hy Hx. rewrite lookup_take_lt, lookup_drop in Hx by done.
      assert (le_Index <$> es !! k = seqZ (lastApplied rf + 1) (commitIndex rf - lastApplied rf) !! k) as E
        by (by rewrite <- list_lookup_fmap, Hidx).
      rewrite Hy in E. cbn in E. symmetry in E. apply lookup_seqZ in E as [E _].
      apply list_elem_of_lookup_2, Hin in Hy. rewrite E in Hy.
      replace (Z.to_nat (lastApplied rf + 1 + Z.of_nat k)) with (1 + Z.to_nat (lastApplied rf) + k) in Hy by lia.
      congruence. }
  replace (Z.to_nat (commitIndex rf))
    with (Z.to_nat (lastApplied rf) + (Z.to_nat (commitIndex rf) - Z.to_nat (lastApplied rf))) at 2 by lia.
  by rewrite take_take_drop.
Qed.

(** ** Elections *)

(** The part of a node's invariant that a peer with the same log keeps when
    its term grows; what is left is its role. *)
Lemma cnode_keep_log W' A' ps0 :
  hgrow i T0 h (mkHistory Ld' L' W' A') -> (currentTerm rf <= T0)%Z -> log rf' = log rf ->
  (0 <= commitIndex rf' < len (log rf'))%Z
    /\ com (mkHistory Ld' L' W' A') (length ns') T0 (take (Z.to_nat (commitIndex rf' + 1)) (log rf')) ->
  applied_right rf' ->
  (forall T k, T = T0 -> k <= A' i T -> take k (L' T) `prefix_of` log rf \/ k <= A i T) ->
  (state rf' = Leader -> A' i T0 = length (log rf')
    /\ forall q m, matchIndex rf' !! q = Some m -> m = 0%Z \/ (0 < m < Z.of_nat (A' q T0))%Z) ->
  (state rf' = Candidate -> Ld' T0 = None -> forall k, totalVotes rf' !! T0 = Some k ->
    exists Q, NoDup Q /\ Z.of_nat (length Q) = k /\ forall q, q ∈ Q ->
      q < length ns' /\ endorsed (mkHistory Ld' L' W' A') ns' q T0 (log rf')
      /\ (i, q, T0) ∉ omap vote_key ps0) ->
  cnode (mkHistory Ld' L' W' A') ns' ps0 i rf'.
Proof.
  intros Hg Hle Hlog Hcom Happ Hacks Hlead Hcount. pose proof node_before as Hno.
  split; auto; cbn.
  - rewrite Hlog. apply Hno.
  - rewrite Hlog. intros e Hin. apply (cn_terms _ _ _ _ _ Hno) in Hin. lia.
  - rewrite Hlog. intros T k HT Hk. cbn in Hk.
    assert (take k (L' T) `prefix_of` log rf \/ k <= A i T) as [?|Hk0]; [|by left|].
    { destruct (decide (T = T0)) as [->|Hne]; [by eapply Hacks|right].
      pose proof (g_ack _ _ _ _ Hg i T (or_intror Hne)) as E. cbn in E. by rewrite <- E. }
    assert ((T < currentTerm rf + 1)%Z \/ k = 0) as [HT'| ->]; [|..|left; apply prefix_nil].
    { destruct (Z_lt_le_dec T (currentTerm rf + 1)); [by left|right].
      pose proof (cn_future _ _ _ _ _ Hno T) as Hz. cbn in Hz. rewrite Hz in Hk0 by lia. lia. }
    cbn. rewrite (take_ack i T0 h (mkHistory Ld' L' W' A') ns (hf_ok _ _ hist_before) Hg i) by done.
    destruct (cn_acks _ _ _ _ _ Hno T k HT' Hk0) as [?|Hlost]; [by left|right].
    apply (lost_mono i T0 h _ Hg) in Hlost as (T1 & j & ? & ?).
    + exists T1, j. split; [lia|done].
    + etrans; [exact Hk0|apply (h_acks _ _ (hf_ok _ _ hist_before))].
  - intros T HT. pose proof (g_ack _ _ _ _ Hg i T ltac:(right; lia)) as E. cbn in E. rewrite E.
    apply (cn_future _ _ _ _ _ Hno). lia.
Qed.

Lemma newer_refl (l : entries) : newer l l.
Proof. right. done. Qed.

Lemma cinv_elect qs :
  tickElection rf = Ret (rf', qs) -> ps' = ps ++ qs -> cinv (mkHistory Ld' L' W A) (mkCluster ns' ps').
Proof.
  intros H Eps.
  assert (same_applied rf rf') as Hsame by (apply handlers_same_applied; eauto).
  destruct (tickElection_cases _ _ _ H) as [[Hq ->]|(a & Hct & Hst & Hlog & Hci & Htv & Ha & Hli & Hlt & Eqs)].
  { apply cinv_quiet_local; [done| |done]. by eapply applied_right_same; [..|apply applied_before]. }
  pose proof (hf_ok _ _ hist_before) as Hok. pose proof node_before as Hno.
  destruct (l_node _ _ _ Hl' i rf' here) as (Hne' & Hleg' & _).
  pose proof (e_node _ _ _ He i rf Hi) as Hen. rewrite (no_me _ _ _ _ _ _ Hen) in Eqs.
  assert (state rf' = Leader -> state rf = Leader /\ T0 = currentTerm rf) as HL by congruence.
  pose proof (ghost_won_same HL) as ELd. pose proof (ghost_log_same HL Hlog) as EL.
  assert (currentTerm rf <= T0)%Z as Hle by lia.
  pose proof (nstep_insert i ns rf rf' Hi Hle) as Hn. pose proof quiet_grow as Hg.
  assert (forall j q T, (j, q, T) ∈ omap vote_key ps' -> (j, q, T) ∈ omap vote_key ps \/ (j = i /\ q <> i /\ T = T0)) as Hk.
  { intros j q T. rewrite Eps, omap_app, elem_of_app.
    intros [?|(p & Hp & E)%list_elem_of_omap]; [by left|right]. rewrite Eqs in Hp.
    apply list_elem_of_fmap in Hp as (d & -> & Hd). apply list_elem_of_filter in Hd as [? _].
    cbn in E. injection E as <- <- <-. auto. }
  apply cinv_peer; [exact Hg|lia| | | | |].
  - by apply hist_same.
  - apply cnode_keep_log; auto.
    + apply commit_after; auto. by rewrite Hlog.
    + destruct applied_before as [H0 H1], Hsame as [E1 E2]. unfold applied_right. by rewrite E1, E2, Hci, Hlog.
    + congruence.
    + intros _ _ k. rewrite Htv, lookup_insert_eq. intros [= <-]. exists [i].
      split; [apply NoDup_singleton|]. split; [done|]. intros q ->%list_elem_of_singleton.
      rewrite length_insert. split; [by eapply lookup_lt_Some|]. split.
      * split; [exists rf'; split; [apply here|done]|]. exists (log rf').
        split; [done|]. split; [done|]. split; [|apply newer_refl].
        rewrite Hlog, Hct. eapply has_acks_mono; [exact Hok|exact Hg|done|apply Hno].
      * intros [(p & Hp & Ep)%list_elem_of_omap|?]%Hk; [|naive_solver].
        pose proof (key_bound p i T0 Hp Ep). lia.
  - intros j q T Hj [?|[? _]]%Hk; [done|congruence].
  - intros p d Hp Ep _. pose proof (key_bound p d T0 Hp Ep). lia.
  - rewrite Eps. intros p [?|Hp]%elem_of_app; [by left|right]. rewrite Eqs in Hp.
    apply list_elem_of_fmap in Hp as (d & -> & _). cbn. intros l (r & Hr & _ & _ & <-).
    rewrite here in Hr. injection Hr as <-. rewrite (legit_last L') in Hli by done.
    rewrite (legit_last_term L') in Hlt by done. split; congruence.
Qed.

(** The voters counted so far, with the one whose reply has just arrived. *)
Lemma counted_votes k d a r qs :
  ps !! k = Some (PVoteReply i d a r) -> omap vote_key qs = [] ->
  rvr_VoteGranted r = true -> (rvr_Term r <= rv_Term a)%Z ->
  state rf = Candidate -> currentTerm rf = rv_Term a -> Ld (rv_Term a) = None ->
  exists v Q, totalVotes rf !! rv_Term a = Some v /\ NoDup Q /\ Z.of_nat (length Q) = (v + 1)%Z
    /\ forall q, q ∈ Q -> q < length ns /\ endorsed h ns q (rv_Term a) (log rf)
         /\ (i, q, rv_Term a) ∉ omap vote_key (delete k ps ++ qs).
Proof.
  intros Hk Hqs Hgt Hle Hst Hct Hnone. pose proof (list_elem_of_lookup_2 _ _ _ Hk) as Hin.
  destruct (e_proc _ _ _ He _ Hin) as (Hd & (r0 & Hr0 & [v Hv]) & _). cbn in Hd, Hr0. simplify_eq.
  assert (candidate ns i (rv_Term a) (log rf)) as Hcand by (by exists rf).
  pose proof (c_proc _ _ Hc _ Hin _ Hcand Hnone Hgt Hle) as Hend.
  pose proof (cn_count _ _ _ _ _ node_before Hst) as Hcount. cbn in Hcount. rewrite Hct in Hcount.
  destruct (Hcount Hnone v Hv) as (Q & HQ & Hlen & HQok).
  assert (omap vote_key ps ≡ₚ (i, d, rv_Term a) :: omap vote_key (delete k ps)) as Hperm
    by (by rewrite (lookup_delete_perm _ _ _ Hk) at 1).
  assert (forall x, x ∈ omap vote_key (delete k ps ++ qs) -> x ∈ omap vote_key (delete k ps)) as Hkeys.
  { intros x. by rewrite omap_app, Hqs, app_nil_r. }
  exists v, (d :: Q). split; [done|]. split; [|split; [cbn; lia|]].
  - apply NoDup_cons. split; [|done]. intros HdQ. destruct (HQok d HdQ) as (_ & _ & Hnot).
    apply Hnot. rewrite Hperm. left.
  - intros q [->|Hq]%elem_of_cons.
    + split; [done|]. split; [done|]. intros Hx%Hkeys.
      pose proof (e_keys _ _ _ He) as Hnd. cbn in Hnd. rewrite Hperm in Hnd. by apply NoDup_cons in Hnd as [? _].
    + destruct (HQok q Hq) as (? & ? & Hnot). split; [done|]. split; [done|].
      intros Hx%Hkeys. apply Hnot. rewrite Hperm. by right.
Qed.

Lemma cinv_count k d a r :
  ps !! k = Some (PVoteReply i d a r) -> voteReply rf a r = Ret (rf', []) -> ps' = delete k ps ++ [] ->
  rvr_VoteGranted r = true -> (rvr_Term r <= rv_Term a)%Z ->
  state rf = Candidate -> currentTerm rf = rv_Term a -> T0 = currentTerm rf -> log rf' = log rf ->
  commitIndex rf' = commitIndex rf -> state rf' = Candidate ->
  totalVotes rf' = <[rv_Term a := (default 0 (totalVotes rf !! rv_Term a) + 1)%Z]> (totalVotes rf) ->
  cinv (mkHistory Ld' L' W A) (mkCluster ns' ps').
Proof.
  intros Hk H Eps Hgt Hle Hst Hct HT Hlog Hci Hst' Htv.
  pose proof (hf_ok _ _ hist_before) as Hok.
  assert (state rf' = Leader -> state rf = Leader /\ T0 = currentTerm rf) as HL by congruence.
  pose proof (ghost_won_same HL) as ELd. pose proof (ghost_log_same HL Hlog) as EL.
  assert (currentTerm rf <= T0)%Z as Hterm by lia.
  pose proof (nstep_insert i ns rf rf' Hi Hterm) as Hn. pose proof quiet_grow as Hg.
  assert (forall x, x ∈ omap vote_key ps' -> x ∈ omap vote_key ps) as Hkeys
    by (rewrite Eps; by apply keys_delete).
  apply cinv_peer; [exact Hg|lia| | | | |].
  - by apply hist_same.
  - apply cnode_keep_log; auto.
    + apply commit_after; auto. by rewrite Hlog.
    + destruct applied_before as [H0 H1].
      destruct (handlers_same_applied rf rf') as [E1 E2]; [eauto 10|].
      unfold applied_right. by rewrite E1, E2, Hci, Hlog.
    + congruence.
    + intros _ Hnone v. rewrite HT, Hct in *. rewrite ELd in Hnone.
      destruct (counted_votes k d a r [] Hk eq_refl Hgt Hle Hst Hct Hnone) as (v0 & Q & Hv0 & HQ & Hlen & HQok).
      rewrite Htv, lookup_insert_eq, Hv0. cbn. intros [= <-]. exists Q. split; [done|]. split; [done|].
      intros q Hq. destruct (HQok q Hq) as (? & ? & ?). rewrite length_insert, Hlog, Eps.
      split; [done|]. split; [by eapply endorsed_mono|done].
  - auto.
  - auto.
  - rewrite Eps, app_nil_r. intros p Hp. left. by eapply elem_of_sublist; [|apply sublist_delete].
Qed.

(** A term without a winner has no entries in any log. *)
Lemma no_entries T e : (T <> 0)%Z -> Ld T = None -> e ∈ log rf -> le_Term e <> T.
Proof.
  intros HT Hnone [k Hk]%list_elem_of_lookup E. destruct (l_node _ _ _ Hl i rf Hi) as (_ & Hleg & _).
  destruct (Hleg _ _ Hk) as [_ Hp]. rewrite E, (l_none _ _ _ Hl T HT Hnone) in Hp.
  apply prefix_nil_inv in Hp.
  assert (length (take (S k) (log rf)) = 0) as Hz by (by rewrite Hp).
  apply lookup_lt_Some in Hk. rewrite length_take in Hz. lia.
Qed.

(** A majority has voted for the winner. *)
Lemma winner_quorum k d a r (qs : list proc) :
  ps !! k = Some (PVoteReply i d a r) -> omap vote_key qs = [] ->
  rvr_VoteGranted r = true -> (rvr_Term r <= rv_Term a)%Z ->
  state rf = Candidate -> currentTerm rf = rv_Term a -> Ld (rv_Term a) = None ->
  (Z.of_nat (peers rf) / 2 < default 0 (totalVotes rf !! rv_Term a) + 1)%Z ->
  exists Q, majority (length ns) Q /\ forall q, q ∈ Q -> endorsed h ns q (rv_Term a) (log rf).
Proof.
  intros Hk Hqs Hgt Hle Hst Hct Hnone Hmaj.
  destruct (counted_votes k d a r qs Hk Hqs Hgt Hle Hst Hct Hnone) as (v & Q & Hv & HQ & Hlen & HQok).
  exists Q. split; [split; [done|split]|].
  - rewrite Hv, (no_peers _ _ _ _ _ _ (e_node _ _ _ He i rf Hi)) in Hmaj. cbn in Hmaj.
    rewrite <- Hlen in Hmaj. change 2%Z with (Z.of_nat 2) in Hmaj. rewrite <- Nat2Z.inj_div in Hmaj. lia.
  - intros q Hq. by apply HQok.
  - intros q Hq. by apply HQok.
Qed.

Lemma cinv_win k d a r qs :
  ps !! k = Some (PVoteReply i d a r) -> voteReply rf a r = Ret (rf', qs) -> ps' = delete k ps ++ qs ->
  rvr_VoteGranted r = true -> (rvr_Term r <= rv_Term a)%Z ->
  state rf = Candidate -> currentTerm rf = rv_Term a -> T0 = currentTerm rf -> log rf' = log rf ->
  commitIndex rf' = commitIndex rf -> sends rf' qs ->
  (Z.of_nat (peers rf) / 2 < default 0 (totalVotes rf !! rv_Term a) + 1)%Z ->
  (forall q m, matchIndex rf' !! q = Some m -> m = 0%Z) ->
  let h' := mkHistory Ld' L' (updL W T0 (log rf)) (updA A i T0 (length (log rf))) in
  hgrow i T0 h h' /\ cinv h' (mkCluster ns' ps').
Proof.
  intros Hk H Eps Hgt Hle Hst Hct HT Hlog Hci Hsend Hmaj Hfresh.
  pose proof (hf_ok _ _ hist_before) as Hok. pose proof (proj1 Hsend) as Hst'.
  destruct (ghost_lead Hst') as [HLd HLT]. pose proof node_before as Hno.
  destruct (voteReply_spec _ _ _ _ _ H) as (Hqs & _).
  assert (Ld T0 = None) as Hnone.
  { destruct (Ld T0) as [j|] eqn:E; [|done]. exfalso. pose proof (new_winner_ext _ _ _ _ Hw _ _ E) as E'.
    rewrite HLd in E'. injection E' as <-. rewrite HT in E. by eapply candidate_not_winner in E. }
  assert (1 <= T0)%Z as HT1.
  { rewrite HT, Hct. by apply (key_bound (PVoteReply i d a r) d); [eapply list_elem_of_lookup_2|]. }
  assert (A i T0 = 0) as HA0.
  { pose proof (h_acks _ _ Hok i T0) as Ha. cbn in Ha. rewrite (l_none _ _ _ Hl) in Ha by (done || lia).
    cbn in Ha. lia. }
  assert (currentTerm rf <= T0)%Z as Hterm by lia.
  pose proof (nstep_insert i ns rf rf' Hi Hterm) as Hn.
  intros h'. assert (hgrow i T0 h h') as Hg.
  { apply ghost_grow; [|by apply updA_ne|rewrite HA0; lia].
    intros T j Hj. unfold updL. rewrite decide_False; [done|]. intros ->. congruence. }
  split; [done|]. apply cinv_peer; [exact Hg|lia| | | | |].
  - eapply hist_ok_grow; [exact Hok|exact Hg|exact Hn|..]; cbn; rewrite ?HLT, ?updA_eq, ?updL_eq, ?Hlog; auto.
    + intros e Hin. apply (cn_terms _ _ _ _ _ Hno) in Hin. lia.
    + intros j _. right. split; [apply Hno|]. split; [done|]. split.
      * intros e Hin. pose proof (cn_terms _ _ _ _ _ Hno e Hin).
        pose proof (no_entries T0 e ltac:(lia) Hnone Hin). lia.
      * rewrite HT, Hct in *. destruct (winner_quorum k d a r qs) as (Q & HQ & Hend); auto.
        exists Q. split; [done|]. intros q Hq. eapply endorsed_mono; [exact Hok|exact Hg|exact Hn|auto].
  - apply cnode_keep_log; auto.
    + apply commit_after; auto. by rewrite Hlog.
    + destruct applied_before as [H0 H1]. destruct (handlers_same_applied rf rf') as [E1 E2]; [eauto 10|].
      unfold applied_right. by rewrite E1, E2, Hci, Hlog.
    + intros T k0 -> _. left. rewrite HLT, Hlog. apply prefix_take.
    + intros _. rewrite updA_eq, Hlog. split; [done|]. intros q m Hq. left. by eapply Hfresh.
    + congruence.
  - intros j q T _. rewrite Eps. by apply keys_delete.
  - congruence.
  - rewrite Eps. intros p Hp. apply elem_of_delete_app in Hp as [?|Hp]; [by left|right].
    destruct (commit_after _ _ Hg) as [H1 H2]; [by rewrite Hlog|done|done|].
    by eapply leader_cprocs.
Qed.

(** ** Replication *)

(** What peer [i] acknowledged before is in the new log, or a leader has
    replaced it; [S] is the log of the leader of term [T0]. *)
Lemma append_acks A' S j :
  Ld T0 = Some j -> (forall T, Ld' T = Ld T) -> (forall T, L' T = L T) ->
  (forall q T, q <> i \/ T <> T0 -> A' q T = A q T) -> A' i T0 <= Nat.max (A i T0) (length S) ->
  (currentTerm rf <= T0)%Z ->
  (log rf' = log rf \/ (log rf' = S /\ ~ S `prefix_of` log rf)) ->
  S `prefix_of` L T0 -> S `prefix_of` log rf' ->
  has_acks (mkHistory Ld' L' W A') i (T0 + 1) (log rf').
Proof.
  intros Hj ELd EL HA HA0 Hle Hlog HSL HSlog T k HT Hk. cbn in Hk. cbn [tlog]. rewrite EL.
  pose proof node_before as Hno. pose proof (hf_ok _ _ hist_before) as Hok.
  destruct (h_base _ _ Hok T0 j Hj) as (_ & HB & _). cbn in HB.
  assert (T = T0 /\ k <= length S \/ k <= A i T) as [[-> HkS]|Hk0].
  { destruct (decide (T = T0)) as [->|]; [lia|]. rewrite HA in Hk by auto. auto. }
  { left. rewrite (take_of_prefix _ _ _ HSL HkS). etrans; [apply prefix_take|done]. }
  assert (k <= length (L T)) as HkL by (etrans; [exact Hk0|apply (h_acks _ _ Hok)]).
  assert (take k (L T) `prefix_of` log rf \/ lost h T k (currentTerm rf + 1)) as [Hp|(T1 & j1 & ? & ? & Hn)].
  { destruct (Z_lt_le_dec T (currentTerm rf + 1)); [by apply (cn_acks _ _ _ _ _ Hno)|left].
    pose proof (cn_future _ _ _ _ _ Hno T ltac:(lia)) as Hz. cbn in Hz.
    replace k with 0 by lia. apply prefix_nil. }
  - destruct (decide (T = T0)) as [->|Hne].
    { left. eapply merge_keeps; [exact Hlog|exact HSL|apply prefix_take|done]. }
    pose proof (l_ghost _ _ _ Hl) as Hlegs.
    destruct (legit_prefix_dec L (L T) (W T0) k) as [HW|HW]; [done|by eapply legit_prefix|done| |].
    + left. eapply merge_keeps; [exact Hlog|exact HSL| |done]. by etrans.
    + right. exists T0, j. cbn. rewrite ELd, EL. split; [lia|done].
  - right. exists T1, j1. cbn in *. rewrite ELd, EL. split; [lia|done].
Qed.

(** The commit index of a follower after a merged request *)
Lemma append_commit h' S lc j :
  hgrow i T0 h h' -> Ld T0 = Some j -> (currentTerm rf <= T0)%Z ->
  (log rf' = log rf \/ (log rf' = S /\ ~ S `prefix_of` log rf)) ->
  S `prefix_of` L T0 -> S `prefix_of` log rf' -> (0 <= lc < len S)%Z ->
  com h (length ns) T0 (take (Z.to_nat (lc + 1)) S) ->
  (commitIndex rf' = commitIndex rf \/ exists last, lastLogIndex rf' = Ret last
      /\ (commitIndex rf < lc)%Z /\ commitIndex rf' = Z.min lc last) ->
  take (Z.to_nat (commitIndex rf + 1)) (log rf) `prefix_of` log rf'
  /\ (commitIndex rf <= commitIndex rf')%Z /\ (0 <= commitIndex rf' < len (log rf'))%Z
  /\ com h' (length ns') T0 (take (Z.to_nat (commitIndex rf' + 1)) (log rf')).
Proof.
  intros Hg Hj Hle Hlog HSL HSlog Hbnd Hcom Hci.
  destruct (cn_commit _ _ _ _ _ node_before) as [H0 H1]. cbn in H1.
  destruct (l_node _ _ _ Hl' i rf' here) as (Hne & Hleg & _).
  assert (take (Z.to_nat (commitIndex rf + 1)) (log rf) `prefix_of` log rf') as Hkeep.
  { eapply merge_keeps; [exact Hlog|exact HSL| |apply prefix_take].
    by eapply (com_in_leader h ns); [apply hist_before|exact H1|exact Hle|]. }
  split; [done|]. rewrite length_insert. unfold len in *.
  destruct Hci as [->|(last & Hlast & Hlt & ->)].
  - pose proof (prefix_length _ _ Hkeep) as Hlen. rewrite length_take in Hlen.
    split; [lia|]. split; [lia|].
    assert (take (Z.to_nat (commitIndex rf + 1)) (log rf') = take (Z.to_nat (commitIndex rf + 1)) (log rf)) as ->.
    { rewrite (take_of_prefix _ _ _ Hkeep) by (rewrite length_take; lia). rewrite take_take. f_equal. lia. }
    eapply com_later; [exact Hle|]. by eapply com_mono.
  - rewrite (legit_last L') in Hlast by done. injection Hlast as <-. unfold len.
    pose proof (prefix_length _ _ HSlog) as Hlen. rewrite Z.min_l by lia. split; [lia|]. split; [lia|].
    rewrite (take_of_prefix _ _ _ HSlog) by lia. by eapply com_mono.
Qed.

(** The peer after a merged request *)
Lemma append_cnode A' S j ps0 :
  Ld T0 = Some j -> (forall T, Ld' T = Ld T) -> (forall T, L' T = L T) ->
  (forall q T, q <> i \/ T <> T0 -> A' q T = A q T) -> A' i T0 <= Nat.max (A i T0) (length S) ->
  (currentTerm rf <= T0)%Z -> state rf' = Follower -> same_applied rf rf' ->
  (log rf' = log rf \/ (log rf' = S /\ ~ S `prefix_of` log rf)) ->
  S `prefix_of` L T0 -> S `prefix_of` log rf' ->
  take (Z.to_nat (commitIndex rf + 1)) (log rf) `prefix_of` log rf' ->
  (commitIndex rf <= commitIndex rf')%Z -> (0 <= commitIndex rf' < len (log rf'))%Z ->
  com (mkHistory Ld' L' W A') (length ns') T0 (take (Z.to_nat (commitIndex rf' + 1)) (log rf')) ->
  cnode (mkHistory Ld' L' W A') ns' ps0 i rf'.
Proof.
  intros Hj ELd EL HA HA0 Hle Hst [E1 E2] Hlog HSL HSlog Hkeep Hci Hci1 Hci2.
  pose proof node_before as Hno. pose proof (hf_ok _ _ hist_before) as Hok.
  split; auto; [| | | | |congruence..].
  - eapply merge_keeps; [exact Hlog|exact HSL| |apply Hno].
    destruct (h_base _ _ Hok T0 j Hj) as (? & ? & _). by etrans.
  - intros e. destruct Hlog as [->|[-> _]]; intros He0.
    + apply (cn_terms _ _ _ _ _ Hno) in He0. lia.
    + apply (h_terms _ _ Hok). by eapply prefix_elem.
  - eapply append_acks; eauto.
  - intros T HT. cbn. rewrite HA by (right; lia). apply (cn_future _ _ _ _ _ Hno). lia.
  - destruct applied_before as [Hla Hch]. rewrite E1, E2, Hch. split; [lia|].
    f_equal. apply (applied_prefix _ _ _ (Z.to_nat (commitIndex rf + 1))); [done|lia|].
    pose proof (proj1 (cn_commit _ _ _ _ _ Hno)). unfold len in *. lia.
Qed.

Lemma cinv_append k s x a r :
  ps !! k = Some (PSentAE s i x a) -> AppendEntries rf a = Ret (rf', r) ->
  ps' = delete k ps ++ [PRespAE s i x a r] ->
  exists A', hgrow i T0 h (mkHistory Ld' L' W A') /\ cinv (mkHistory Ld' L' W A') (mkCluster ns' ps').
Proof.
  intros Hk H Eps. pose proof (list_elem_of_lookup_2 _ _ _ Hk) as Hin.
  destruct (c_proc _ _ Hc _ Hin) as ([j Hj] & HT0 & S & HSL & HSf & Hx & Hbnd & Hcom). cbn in Hj, HSL, Hcom.
  assert (same_applied rf rf') as Hsame by (apply handlers_same_applied; eauto 10).
  destruct (AppendEntries_cases _ _ _ _ H) as [[Hf Hq]|(Hs & Hle & Hct & Hst & Hci)].
  { exists A. split; [apply quiet_grow|]. eapply cinv_quiet_proc; [done| |exact Eps|done|].
    - by eapply applied_right_same; [..|apply applied_before].
    - intros p ->%list_elem_of_singleton. cbn. congruence. }
  destruct (l_node _ _ _ Hl i rf Hi) as (Hne & Hleg & _). pose proof (hf_ok _ _ hist_before) as Hok.
  pose proof (legit_prefix _ _ _ HSL (l_ghost _ _ _ Hl _)) as HSleg.
  pose proof (AppendEntries_log L rf S a Hleg Hne HSleg HSf) as Hae. rewrite H in Hae.
  destruct Hae as (Hlog & _ & HSlog). specialize (HSlog Hs). rewrite <- Hct in Hj, HSL, Hcom, Hle.
  assert (forall T, Ld' T = Ld T) as ELd by (apply ghost_won_same; congruence).
  assert (forall T, L' T = L T) as EL by (destruct ghost_logs as [?|[? _]]; [done|congruence]).
  exists (updA A i T0 (Nat.max (A i T0) (length S))).
  set (A' := updA A i T0 (Nat.max (A i T0) (length S))).
  pose proof (nstep_insert i ns rf rf' Hi Hle) as Hn.
  assert (A' i T0 = Nat.max (A i T0) (length S)) as HA0 by apply updA_eq.
  assert (hgrow i T0 h (mkHistory Ld' L' W A')) as Hg by (apply ghost_grow; [done|by apply updA_ne|lia]).
  destruct (append_commit _ S (ae_LeaderCommit a) j Hg) as (Hkeep & Hci1 & Hci2 & Hci3); auto.
  split; [done|].
  apply cinv_peer; [exact Hg|lia| | | | |].
  - eapply hist_ok_grow; [exact Hok|exact Hg|exact Hn|..]; cbn.
    + rewrite EL. apply (h_terms _ _ Hok).
    + rewrite EL, HA0. pose proof (h_acks _ _ Hok i T0). pose proof (prefix_length _ _ HSL). cbn in *. lia.
    + intros j0. rewrite ELd. auto.
  - eapply append_cnode; eauto; [by apply updA_ne|lia].
  - intros j0 q T _. rewrite Eps. by apply keys_delete.
  - congruence.
  - rewrite Eps. intros p Hp. apply elem_of_delete_app in Hp as [?| ->%list_elem_of_singleton]; [by left|right].
    cbn. intros _. rewrite <- Hct, HA0, Hx. unfold len in *. lia.
Qed.

(** The commit index a leader moves to is committed. *)
Lemma resp_commit d x a r qs :
  respAppendEntries rf d x a r = Ret (rf', qs) -> hgrow i T0 h (mkHistory Ld' L' W A) ->
  state rf' = Leader -> T0 = currentTerm rf -> log rf' = log rf -> A i T0 = length (log rf') ->
  (forall q m, matchIndex rf' !! q = Some m -> m = 0%Z \/ (0 < m < Z.of_nat (A q T0))%Z) ->
  (commitIndex rf <= commitIndex rf' < len (log rf'))%Z
  /\ com (mkHistory Ld' L' W A) (length ns') T0 (take (Z.to_nat (commitIndex rf' + 1)) (log rf')).
Proof.
  intros H Hg Hst HT Hlog HA Hm. destruct (Z.eq_dec (commitIndex rf') (commitIndex rf)) as [Hci|Hci].
  { destruct (commit_after W A Hg) as [? ?]; [by rewrite Hlog|done|lia|]. split; [lia|done]. }
  pose proof (e_node _ _ _ He i rf Hi) as Hen. pose proof (no_me _ _ _ _ _ _ Hen) as Hme.
  pose proof (no_peers _ _ _ _ _ _ Hen) as Hpeers. cbn in Hpeers. pose proof (lookup_lt_Some _ _ _ Hi) as Hin.
  destruct (l_node _ _ _ Hl i rf Hi) as (Hne & Hleg & _). destruct (ghost_lead Hst) as [HLd HLT].
  destruct (cn_commit _ _ _ _ _ node_before) as [H0 _].
  destruct (commit_quorum _ _ _ _ _ _ _ H) as (_ & Hlt & (b & e & Hb & He0 & Het) & Q & HQ & Hag);
    [rewrite Hme, Hpeers; done|done|].
  rewrite (legit_base L) in Hb by done. injection Hb as <-. rewrite Z.sub_0_r in He0.
  apply go_index_Ret in He0 as [Hpos He0]. pose proof (lookup_lt_Some _ _ _ He0) as Hlen.
  rewrite <- Hlog in He0, Hlen. unfold len. split; [lia|]. right.
  exists T0, (Z.to_nat (commitIndex rf' + 1)). cbn. rewrite HLT, length_insert.
  split; [split; [apply (no_term _ _ _ _ _ _ (e_node _ _ _ He' i rf' here))|done]|]. split; [|done].
  split; [by exists i|]. split; [lia|]. split.
  - exists e. cbn. rewrite HLT. split; [|congruence]. rewrite <- He0. f_equal. lia.
  - exists Q. rewrite <- Hpeers. split; [done|]. intros q Hq. cbn.
    destruct (Hag q Hq) as [->|(mi & Hmi & Hle)].
    + rewrite (no_me _ _ _ _ _ _ (e_node _ _ _ He' i rf' here)), HA. lia.
    + destruct (Hm q mi Hmi) as [->|[? ?]]; lia.
Qed.

Lemma cinv_resp k d x a r qs :
  ps !! k = Some (PRespAE i d x a r) -> respAppendEntries rf d x a r = Ret (rf', qs) ->
  ps' = delete k ps ++ (qs ++ [PPersist i]) -> cinv (mkHistory Ld' L' W A) (mkCluster ns' ps').
Proof.
  intros Hk H Eps. pose proof (c_proc _ _ Hc _ (list_elem_of_lookup_2 _ _ _ Hk)) as Hp. cbn in Hp.
  assert (same_applied rf rf') as Hsame by (apply handlers_same_applied; eauto 15).
  destruct (respAE_vtrans _ _ _ _ _ _ _ H) as [_ Hkeys0].
  assert (omap vote_key (qs ++ [PPersist i]) = []) as Hkeys by (by rewrite omap_app, Hkeys0).
  destruct (respAE_cases _ _ _ _ _ _ _ H)
    as [[Hq Hqs]|(-> & Hs & Hae & Hst & Hst' & HT & Hlog & Hmi)].
  { eapply cinv_quiet_proc; [done| |exact Eps|done|].
    - by eapply applied_right_same; [..|apply applied_before].
    - intros p [Hin| ->%list_elem_of_singleton]%elem_of_app; [|done].
      destruct Hqs as [->|(HL & ea & Hea & ->)]; [by apply elem_of_nil in Hin|].
      apply list_elem_of_singleton in Hin as ->.
      destruct (commit_after W A quiet_grow) as [H1 H2]; [by rewrite (ct_log _ _ Hq)|apply Hq|by apply step_le|].
      destruct (l_node _ _ _ Hl' i rf' here) as (Hne & Hleg & _). destruct (ghost_lead HL) as [HLd HLT].
      eapply heartbeat_cproc; eauto.
      apply (no_term _ _ _ _ _ _ (e_node _ _ _ He' i rf' here)). }
  pose proof node_before as Hno. destruct (cn_leader _ _ _ _ _ Hno Hst) as [HA Hm]. cbn in HA, Hm.
  pose proof (hf_ok _ _ hist_before) as Hok. pose proof quiet_grow as Hg.
  assert (state rf' = Leader -> state rf = Leader /\ T0 = currentTerm rf) as HL by done.
  pose proof (ghost_won_same HL) as ELd. pose proof (ghost_log_same HL Hlog) as EL.
  assert (currentTerm rf <= T0)%Z as Hle by lia.
  assert (forall q m, matchIndex rf' !! q = Some m -> m = 0%Z \/ (0 < m < Z.of_nat (A q T0))%Z) as Hm'.
  { rewrite HT. destruct Hmi as [->| ->]; [done|]. intros q m Hq.
    apply list_lookup_insert_Some in Hq as [(<- & <- & _)|[_ Hq]]; [|auto].
    specialize (Hp Hs). rewrite Hae in Hp. lia. }
  destruct (resp_commit _ _ _ _ _ H Hg Hst' HT Hlog) as [Hci Hcom]; [by rewrite HT, Hlog|done|].
  pose proof (nstep_insert i ns rf rf' Hi Hle) as Hn.
  apply cinv_peer; [exact Hg|lia| | | | |].
  - by apply hist_same.
  - destruct applied_before as [H0 H1], Hsame as [E1 E2]. apply cnode_keep_log; auto; [..|congruence].
    + split; [lia|done].
    + unfold applied_right. rewrite E1, E2, Hlog. split; [lia|done].
    + intros _. rewrite HT, Hlog. rewrite HT in Hm'. auto.
  - intros j q T _. rewrite Eps. by apply keys_delete.
  - congruence.
  - rewrite Eps. intros p Hin. apply elem_of_delete_app in Hin as [?| ->%list_elem_of_singleton]; [by left|by right].
Qed.

(** A leader whose log has grown has acknowledged all of it. *)
Lemma start_acks A' :
  hgrow i T0 h (mkHistory Ld' L' W A') -> state rf' = Leader -> T0 = currentTerm rf ->
  log rf `prefix_of` log rf' -> (forall q T, q <> i \/ T <> T0 -> A' q T = A q T) ->
  has_acks (mkHistory Ld' L' W A') i (T0 + 1) (log rf').
Proof.
  intros Hg Hst HT Hpre HA T k HTk Hk. cbn in Hk. cbn [tlog].
  destruct (decide (T = T0)) as [->|Hne].
  { left. rewrite (proj2 (ghost_lead Hst)). apply prefix_take. }
  rewrite HA in Hk by auto. rewrite (proj2 (ghost_else T Hne)).
  destruct (cn_acks _ _ _ _ _ node_before T k) as [?|Hlost]; [lia|done|left; by etrans|right].
  rewrite HT. eapply lost_mono; [exact Hg| |done].
  etrans; [exact Hk|apply (h_acks _ _ (hf_ok _ _ hist_before))].
Qed.

(** A new entry of a leader, which has it at once *)
Lemma cinv_start cmd qs res :
  Start rf cmd = Ret (rf', qs, res) -> ps' = ps ++ qs ->
  exists A', hgrow i T0 h (mkHistory Ld' L' W A') /\ cinv (mkHistory Ld' L' W A') (mkCluster ns' ps').
Proof.
  intros H Eps. destruct (Start_vtrans _ _ _ _ _ H) as [_ Hkeys].
  assert (same_applied rf rf') as Hsame by (apply handlers_same_applied; eauto 10).
  apply Start_spec in H as [(_ & Erf & -> & _)|(Hst & last & _ & Erf & Hqs & _)].
  { exists A. split; [apply quiet_grow|]. apply cinv_quiet_local; [rewrite Erf; quiet|rewrite Erf; apply applied_before|done]. }
  set (e := mkEntry (currentTerm rf) cmd (last + 1)) in Erf.
  assert (state rf' = Leader /\ T0 = currentTerm rf /\ log rf' = log rf ++ [e]
    /\ commitIndex rf' = commitIndex rf /\ matchIndex rf' = matchIndex rf) as (Hst' & HT & Hlog & Hci & Hmi)
    by (rewrite Erf; done).
  clear Erf. pose proof node_before as Hno. destruct (cn_leader _ _ _ _ _ Hno Hst) as [HA Hm]. cbn in HA, Hm.
  pose proof (hf_ok _ _ hist_before) as Hok. destruct (ghost_lead Hst') as [HLd HLT].
  assert (forall T, Ld' T = Ld T) as ELd by (by apply ghost_won_same).
  assert (log rf `prefix_of` log rf') as Hpre by (rewrite Hlog; by apply prefix_app_r).
  assert (currentTerm rf <= T0)%Z as Hle by lia. pose proof (nstep_insert i ns rf rf' Hi Hle) as Hn.
  exists (updA A i T0 (length (log rf'))). set (A' := updA A i T0 (length (log rf'))).
  assert (hgrow i T0 h (mkHistory Ld' L' W A')) as Hg.
  { apply ghost_grow; [done|by apply updA_ne|]. unfold A'. rewrite updA_eq, HT, HA. by apply prefix_length. }
  destruct (commit_after W A' Hg Hpre Hci Hle) as [Hci1 Hci2].
  assert (forall x, x ∈ log rf' -> (le_Term x <= T0)%Z) as Hterms.
  { rewrite Hlog, HT. intros x [Hx| ->%list_elem_of_singleton]%elem_of_app; [|done].
    by apply (cn_terms _ _ _ _ _ Hno). }
  split; [done|]. apply cinv_peer; [exact Hg|lia| | | | |].
  - eapply hist_ok_grow; [exact Hok|exact Hg|exact Hn|..]; cbn; rewrite ?HLT; [done| |].
    + unfold A'. by rewrite updA_eq.
    + intros j. rewrite ELd. auto.
  - split; auto; [| | | | |congruence].
    + etrans; [apply Hno|done].
    + apply start_acks; auto. by apply updA_ne.
    + intros T HTk. cbn. unfold A'. rewrite updA_ne by (right; lia). apply (cn_future _ _ _ _ _ Hno). lia.
    + destruct Hsame as [E1 E2], applied_before as [Hla Hch]. rewrite E1, E2, Hch, Hci. split; [done|].
      f_equal. destruct (cn_commit _ _ _ _ _ Hno) as [Hb _]. unfold len in Hb.
      apply (applied_prefix _ _ _ (Z.to_nat (commitIndex rf + 1))); [etrans; [apply prefix_take|done]|lia|lia].
    + intros _. cbn. unfold A'. rewrite updA_eq, Hmi. split; [done|]. intros q m Hq.
      destruct (Hm q m Hq) as [?|[? Hlt]]; [by left|right]. split; [done|].
      pose proof (ack_le _ _ _ _ Hg q T0) as Hack. cbn in Hack. rewrite <- HT in Hlt. unfold A' in Hack. lia.
  - intros j q T _. rewrite Eps. by apply keys_app.
  - congruence.
  - rewrite Eps. intros p [?|Hp]%elem_of_app; [by left|right]. eapply leader_cprocs; eauto.
    split; [done|]. by exists rf'.
Qed.

(** The answer to a request for a vote *)
Lemma cinv_vote_reply k d a r qs :
  ps !! k = Some (PVoteReply i d a r) -> voteReply rf a r = Ret (rf', qs) -> ps' = delete k ps ++ qs ->
  (state rf <> Leader -> state rf' = Leader -> forall q m, matchIndex rf' !! q = Some m -> m = 0%Z) ->
  exists W' A', hgrow i T0 h (mkHistory Ld' L' W' A') /\ cinv (mkHistory Ld' L' W' A') (mkCluster ns' ps').
Proof.
  intros Hk H Eps Hfresh. assert (same_applied rf rf') as Hsame by (apply handlers_same_applied; eauto 10).
  destruct (voteReply_spec _ _ _ _ _ H) as (Hkeys & _). destruct (voteReply_outcome _ _ _ _ _ H) as [Ho Hg].
  assert (ctrans rf rf' -> qs = [] -> exists W' A', hgrow i T0 h (mkHistory Ld' L' W' A')
    /\ cinv (mkHistory Ld' L' W' A') (mkCluster ns' ps')) as Hquiet.
  { intros Hq ->. exists W, A. split; [apply quiet_grow|]. eapply cinv_quiet_proc; [done| |exact Eps|done|set_solver].
    by eapply applied_right_same; [..|apply applied_before]. }
  destruct Ho as [Hq Hqs|Hst Hterm Hct Hlog Hci Htv Hres]; [auto|].
  destruct Hg as [Hq|[Hgt Hle]].
  { destruct Hres as [[_ Hqs]|[Hst' _]]; [auto|]. destruct Hq as [[[_ [E|E]]|[_ E]] _ _ _ _]; congruence. }
  destruct Hres as [[Hst' ->]|(Hst' & Hmaj & Hsend)].
  - exists W, A. split; [apply quiet_grow|]. by eapply cinv_count.
  - eexists _, _. eapply cinv_win; eauto. apply Hfresh; congruence.
Qed.

End Peer.

(** A lost message *)
Lemma cinv_lose V Ld Ld' (L L' W : Z -> entries) A (ns : list Raft) ps k qs :
  einv V Ld (mkCluster ns ps) -> linv Ld L (mkCluster ns ps) -> cinv (mkHistory Ld L W A) (mkCluster ns ps) ->
  grows L L' -> new_winner Ld Ld' (mkCluster ns ps) (mkCluster ns (delete k ps ++ qs)) ->
  lchange L L' (mkCluster ns (delete k ps ++ qs)) ->
  (forall q, q ∈ qs -> exists s, q = PPersist s) ->
  hgrow (length ns) 0 (mkHistory Ld L W A) (mkHistory Ld' L' W A)
  /\ cinv (mkHistory Ld' L' W A) (mkCluster ns (delete k ps ++ qs)).
Proof.
  intros He Hl Hc Hgr Hw Hlc Hqs. pose proof (c_hist _ _ Hc) as Hok. cbn in Hok.
  assert (Ld' = Ld) as ->.
  { destruct Hw as [->|(T & s & rfs & -> & HT & Hs & Hst & Hct)]; [done|].
    pose proof (no_leader _ _ _ _ _ _ (e_node _ _ _ He s rfs Hs) Hst). congruence. }
  assert (forall T, L' T = L T) as EL.
  { intros T. destruct Hlc as [->|(s & rfs & Hs & Hst & ->)]; [done|]. unfold updL. case_decide; [subst|done].
    destruct (l_node _ _ _ Hl s rfs Hs) as (_ & _ & H). symmetry. auto. }
  assert (hgrow (length ns) 0 (mkHistory Ld L W A) (mkHistory Ld L' W A)) as Hg.
  { split; cbn; auto. by intros ??. }
  pose proof (nstep_refl ns 0) as Hn. split; [done|].
  assert (omap vote_key qs = []) as Hkeys.
  { clear -Hqs. induction qs as [|q qs IH]; [done|].
    destruct (Hqs q) as [s ->]; [left|]. cbn. apply IH. set_solver. }
  eapply cinv_update; [exact Hc|exact Hg|exact Hn| | | | |].
  - eapply hist_ok_grow; [exact Hok|exact Hg|exact Hn|..]; cbn; rewrite ?EL;
      [apply (h_terms _ _ Hok)|apply (h_acks _ _ Hok)|auto].
  - intros rf Hrf%lookup_lt_Some. lia.
  - intros j q T _ Hx. eapply elem_of_sublist; [exact Hx|]. by apply sublist_delete_app.
  - auto.
  - intros p Hp. apply elem_of_delete_app in Hp as [?|Hp]; [by left|right]. by destruct (Hqs p Hp) as [s ->].
Qed.

End Steps.
