(* ===== verification/RaftSafety.v ===== *)
(** * State machine safety of a Raft cluster

    The theorems hold of every crash-free execution in which whoever becomes
    leader finds its [matchIndex] all zero; the executions in which no peer
    wins two elections are among them ([once_fresh]). RaftRuns.v shows that
    without this condition they fail for the program as it is. *)

From S2P Require Import Prelude Persister Raft RaftCluster RaftElection RaftLogMatching RaftTheorems RaftCommit RaftCommitSteps.
From stdpp Require Import prelude gmap relations.

Section Safety.
Context {C : Type}.
Notation Raft := (Raft C).
Notation proc := (proc C).
Notation cluster := (cluster C).
Notation entries := (list (LogEntry C)).

(** ** Every execution keeps the invariant *)

(** The three invariants of an execution *)
Definition all_inv (h : history C) (c : cluster) : Prop :=
  exists V, einv V (won h) c /\ linv (won h) (tlog h) c /\ cinv h c.

Definition com_grows (h h' : history C) : Prop := forall n T P, com h n T P -> com h' n T P.

Lemma hgrow_com i T0 h h' : hgrow i T0 h h' -> com_grows h h'.
Proof. intros Hg n T P. by eapply com_mono. Qed.

Lemma all_inv_full h c : all_inv h c -> hist_full h (nodes c).
Proof. intros (V & _ & Hl & Hc). split; [apply Hc|apply (l_ghost _ _ _ Hl)|apply (l_none _ _ _ Hl)]. Qed.

Lemma persist_quiet (rf : Raft) : ctrans rf (persist rf).
Proof. split; cbn; auto. Qed.

Lemma kill_quiet (rf : Raft) : ctrans rf (Kill rf).
Proof. split; cbn; auto. Qed.

Lemma all_inv_step h (c c' : cluster) :
  all_inv h c -> fstep c c' -> exists h', all_inv h' c' /\ com_grows h h'.
Proof.
  intros (V & He & Hl & Hc) [Hstep Hfr].
  destruct (linv_step _ _ _ _ _ He Hl Hstep) as (V' & Ld' & L' & He' & Hl' & Hgr & Hw & Hlc).
  destruct Hstep as (a & Hcf & Hs%step_shape); [|done]. destruct c as [ns ps], h as [Ld L W A]. cbn in *.
  enough (exists i T0 W' A', hgrow i T0 (mkHistory Ld L W A) (mkHistory Ld' L' W' A')
    /\ cinv (mkHistory Ld' L' W' A') c') as (i & T0 & W' & A' & Hg & Hc').
  { exists (mkHistory Ld' L' W' A'). split; [exists V'; auto|by eapply hgrow_com]. }
  destruct Hs as [i rf rf' qs Hi -> Hcode|k p i rf rf' qs Hk Hi -> Hcode|k p qs Hk -> Hqs]; cbn in *.
  - assert (hgrow i (currentTerm rf') (mkHistory Ld L W A) (mkHistory Ld' L' W A)) as Hqg
      by (eapply quiet_grow; eauto).
    assert (applied_right rf) as Happ by (by eapply applied_before).
    destruct Hcode as [H|[H|[(cmd & r & H)|[[H ->]|[-> ->]]]]].
    + exists i, (currentTerm rf'), W, A. split; [done|]. eapply cinv_heartbeat; eauto.
    + exists i, (currentTerm rf'), W, A. split; [done|]. eapply cinv_elect; eauto.
    + exists i, (currentTerm rf'), W. eapply cinv_start; eauto.
    + exists i, (currentTerm rf'), W, A. split; [done|].
      eapply cinv_quiet_local; eauto; [by apply applyEntries_quiet|by apply (apply_right _ _ _ _ _ _ _ _ _ Hl Hi Hc)].
    + exists i, (currentTerm (Kill rf)), W, A. split; [done|].
      eapply cinv_quiet_local; eauto. apply kill_quiet.
  - assert (hgrow i (currentTerm rf') (mkHistory Ld L W A) (mkHistory Ld' L' W A)) as Hqg
      by (eapply quiet_grow; eauto).
    assert (applied_right rf) as Happ by (by eapply applied_before).
    destruct p as [s d args|s d args reply|s d e args|s d e args|s d e args reply|s].
    + destruct Hcode as (-> & reply & H & ->). exists d, (currentTerm rf'), W, A. split; [done|].
      eapply cinv_request_vote; eauto.
    + destruct Hcode as [-> H]. exists s, (currentTerm rf'). eapply cinv_vote_reply; eauto.
      by eapply (fresh_win_at ns ps ps).
    + destruct Hcode as [-> H]. exists s, (currentTerm rf'), W, A. split; [done|].
      eapply cinv_handle; eauto.
    + destruct Hcode as (-> & reply & H & ->). exists d, (currentTerm rf'), W. eapply cinv_append; eauto.
    + destruct Hcode as (-> & qs0 & H & ->). exists s, (currentTerm rf'), W, A. split; [done|].
      eapply cinv_resp; eauto.
    + destruct Hcode as (-> & -> & ->). exists s, (currentTerm (persist rf)), W, A. split; [done|].
      eapply cinv_quiet_proc; eauto; [apply persist_quiet|set_solver].
  - exists (length ns), 0%Z, W, A. by eapply cinv_lose.
Qed.

Definition h0 : history C := mkHistory (fun _ => None) L0 (fun _ => []) (fun _ _ => 0).

Lemma all_inv_init n timeout : all_inv h0 (init n timeout).
Proof.
  exists (fun _ _ => None). split; [apply einv_init|]. split; [apply linv_init|].
  split; [split; cbn; try done|..].
  - intros T e. unfold L0. case_decide; [subst|set_solver].
    intros ->%list_elem_of_singleton. done.
  - intros q T. lia.
  - intros i rf [Hm _]%init_lookup. unfold Make in Hm. cbn in Hm. injection Hm as <-.
    split; cbn; try done.
    + intros e ->%list_elem_of_singleton. done.
    + intros T k _ Hk. cbn in Hk. left. replace k with 0 by lia. apply prefix_nil.
    + split; [done|]. left. done.
  - intros p []%elem_of_nil.
Qed.

Definition freachable (n : nat) (timeout : nat -> Z) (c : cluster) : Prop := rtc fstep (init n timeout) c.

Lemma all_inv_rtc h (c c' : cluster) :
  all_inv h c -> rtc fstep c c' -> exists h', all_inv h' c' /\ com_grows h h'.
Proof.
  intros Hh H. revert h Hh. induction H as [|x y z Hs _ IH]; intros h Hh.
  - exists h. split; [done|]. by intros n T P.
  - destruct (all_inv_step _ _ _ Hh Hs) as (h1 & Hh1 & Hg1).
    destruct (IH h1 Hh1) as (h2 & Hh2 & Hg2). exists h2. split; [done|].
    intros n T P HP. by apply Hg2, Hg1.
Qed.

Lemma all_inv_reachable n timeout c : freachable n timeout c -> exists h, all_inv h c.
Proof. intros H. destruct (all_inv_rtc _ _ _ (all_inv_init n timeout) H) as (h & ? & _). eauto. Qed.

Lemma rtc_nodes (c c' : cluster) : rtc fstep c c' -> length (nodes c') = length (nodes c).
Proof.
  induction 1 as [|x y z [(a & Hcf & Hs%step_shape) _] _ IH]; [done| |done]. rewrite IH.
  destruct Hs as [i rf rf' qs Hi -> _|k p i rf rf' qs Hk Hi -> _|k p qs Hk -> _]; cbn;
    by rewrite ?length_insert.
Qed.

(** ** The theorems *)

(** A peer's messages are those of a committed prefix. *)
Lemma applied_committed h (c : cluster) i rf :
  all_inv h c -> nodes c !! i = Some rf ->
  exists P, com h (length (nodes c)) (currentTerm rf) P /\ applyCh rf = entry_msg <$> drop 1 P.
Proof.
  intros (V & _ & _ & Hc) Hi. destruct (c_node _ _ Hc i rf Hi) as [_ _ _ _ [Hci Hcom] [Hla Hch] _ _].
  exists (take (Z.to_nat (lastApplied rf + 1)) (log rf)). split.
  - eapply com_prefix; [|exact Hcom]. unfold len in Hci.
    replace (Z.to_nat (lastApplied rf + 1))
      with (Z.to_nat (lastApplied rf + 1) `min` Z.to_nat (commitIndex rf + 1)) by lia.
    rewrite <- take_take. apply prefix_take.
  - rewrite Hch. f_equal. replace (Z.to_nat (lastApplied rf + 1)) with (S (Z.to_nat (lastApplied rf))) by lia.
    by destruct (log rf) as [|e l]; cbn; [rewrite take_nil|rewrite ?drop_0].
Qed.

(** C1: state machine safety. In every crash-free execution in which new
    leaders start with a zero [matchIndex], whatever messages are lost,
    delayed or reordered, what one peer has sent to [applyCh] at one moment
    and what another peer (or the same one) has sent at a later moment agree:
    one is a prefix of the other. No two peers ever apply different commands
    at the same index. *)
Theorem state_machine_safety n timeout (c c' : cluster) i j rf rf' :
  freachable n timeout c -> rtc fstep c c' ->
  nodes c !! i = Some rf -> nodes c' !! j = Some rf' ->
  applyCh rf `prefix_of` applyCh rf' \/ applyCh rf' `prefix_of` applyCh rf.
Proof.
  intros Hr Hs Hi Hj. destruct (all_inv_reachable _ _ _ Hr) as [h Hh].
  destruct (all_inv_rtc _ _ _ Hh Hs) as (h' & Hh' & Hg).
  destruct (applied_committed _ _ _ _ Hh Hi) as (P & HP & ->).
  destruct (applied_committed _ _ _ _ Hh' Hj) as (P' & HP' & ->).
  apply Hg in HP. rewrite <- (rtc_nodes _ _ Hs) in HP.
  destruct (com_total _ _ _ _ _ _ (all_inv_full _ _ Hh') HP HP') as [[r ->]|[r ->]].
  - left. destruct P as [|e P]; [apply prefix_nil|]. cbn. rewrite !drop_0, fmap_app. by apply prefix_app_r.
  - right. destruct P' as [|e P']; [apply prefix_nil|]. cbn. rewrite !drop_0, fmap_app. by apply prefix_app_r.
Qed.

(** C2: leader completeness. Under the same condition, the log of every
    leader starts with every entry that any peer has committed, at that moment
    or earlier, in a term that is not later than the leader's. *)
Theorem leader_completeness n timeout (c c' : cluster) i j rf rf' :
  freachable n timeout c -> rtc fstep c c' ->
  nodes c !! i = Some rf -> nodes c' !! j = Some rf' ->
  state rf' = Leader -> (currentTerm rf <= currentTerm rf')%Z ->
  take (Z.to_nat (commitIndex rf + 1)) (log rf) `prefix_of` log rf'.
Proof.
  intros Hr Hs Hi Hj Hst HT. destruct (all_inv_reachable _ _ _ Hr) as [h Hh].
  destruct (all_inv_rtc _ _ _ Hh Hs) as (h' & Hh' & Hg).
  pose proof (all_inv_full _ _ Hh') as Hf. destruct Hh as (V & _ & _ & Hc), Hh' as (V' & He' & Hl' & _).
  destruct (cn_commit _ _ _ _ _ (c_node _ _ Hc i rf Hi)) as [_ Hcom]. apply Hg in Hcom.
  rewrite <- (rtc_nodes _ _ Hs) in Hcom.
  destruct (l_node _ _ _ Hl' j rf' Hj) as (_ & _ & Hlead). rewrite <- (Hlead Hst).
  eapply com_in_leader; [exact Hf|exact Hcom|exact HT|].
  by apply (no_leader _ _ _ _ _ _ (e_node _ _ _ He' j rf' Hj)).
Qed.

(** Under the same condition [applyEntries] finds every entry it sends. *)
Theorem apply_never_panics n timeout (c : cluster) i rf :
  freachable n timeout c -> nodes c !! i = Some rf -> applyEntries rf <> Panic.
Proof.
  intros Hr Hi. destruct (all_inv_reachable _ _ _ Hr) as [h (V & _ & Hl & Hc)].
  destruct (c_node _ _ Hc i rf Hi) as [_ _ _ _ [Hci _] [Hla _] _ _].
  destruct (l_node _ _ _ Hl i rf Hi) as (Hne & Hleg & _). unfold applyEntries.
  destruct (Z.ltb_spec (lastApplied rf) (commitIndex rf)); [|by destruct (hasCommittedChan rf)].
  rewrite (legit_base _ _ Hleg Hne). cbn. rewrite !Z.sub_0_r.
  set (es := take (Z.to_nat (commitIndex rf + 1 - (lastApplied rf + 1))) (drop (Z.to_nat (lastApplied rf + 1)) (log rf))).
  rewrite (proj2 (go_range_Ret (log rf) _ _ es)); [|split; [lia|split; [lia|done]]].
  cbn. by destruct (len es =? 0)%Z.
Qed.

(** ** Executions in which no peer wins twice *)

(** Peer [i] becomes leader in this step. *)
Definition becomes_leader (c c' : cluster) (i : nat) : bool :=
  match nodes c !! i, nodes c' !! i with
  | Some rf, Some rf' => negb (is_leader (state rf)) && is_leader (state rf')
  | _, _ => false
  end.

(** [S] are the peers that have won an election so far. *)
Inductive once (n : nat) (timeout : nat -> Z) : gset nat -> cluster -> Prop :=
| once_init : once n timeout ∅ (init n timeout)
| once_step S c c' :
    once n timeout S c -> cstep c c' ->
    (forall i, becomes_leader c c' i = true -> i ∉ S) ->
    once n timeout
      (S ∪ list_to_set (filter (fun i => becomes_leader c c' i = true) (seq 0 (length (nodes c))))) c'.

(** Only a leader changes its [matchIndex]. *)
Lemma handlers_match (rf rf' : Raft) :
  (exists ps, tickHeartbeat rf = Ret (rf', ps)) \/ (exists ps, tickElection rf = Ret (rf', ps))
  \/ (exists cmd ps r, Start rf cmd = Ret (rf', ps, r))
  \/ (exists args reply, RequestVote rf args = Ret (rf', reply))
  \/ (exists args reply ps, voteReply rf args reply = Ret (rf', ps))
  \/ (exists d e args ps, handleAppendEntries rf d e args = (rf', ps))
  \/ (exists args reply, AppendEntries rf args = Ret (rf', reply))
  \/ (exists d e args reply ps, respAppendEntries rf d e args reply = Ret (rf', ps))
  \/ applyEntries rf = Ret rf' \/ rf' = persist rf \/ rf' = Kill rf ->
  state rf <> Leader -> matchIndex rf' = matchIndex rf.
Proof.
  intros [[ps H]|[[ps H]|[(cmd & ps & r & H)|[(args & reply & H)|[(args & reply & ps & H)|
    [(d & e & args & ps & H)|[(args & reply & H)|[(d & e & args & reply & ps & H)|[H|[->| ->]]]]]]]]]] Hst;
    [..|done|done].
  - unfold tickHeartbeat in H. go_inv; done.
  - unfold tickElection in H. go_inv; done.
  - unfold Start in H. go_inv; done.
  - unfold RequestVote in H. destruct (currentTerm rf <? rv_Term args)%Z; go_inv; done.
  - unfold voteReply in H. go_inv; done.
  - unfold handleAppendEntries in H. case_match; simplify_eq; done.
  - unfold AppendEntries in H. destruct (currentTerm rf <? ae_Term args)%Z; go_inv; try done;
      match goal with H : advanceCommit _ _ = _ |- _ =>
        apply advanceCommit_fields in H as (? & ? & ->) end; done.
  - unfold respAppendEntries, is_leader in H. rewrite bool_decide_false in H by done. by injection H as <- _.
  - unfold applyEntries in H. destruct (hasCommittedChan rf); go_inv; done.
Qed.

Lemma cstep_match (c c' : cluster) i rf rf' :
  cstep c c' -> nodes c !! i = Some rf -> nodes c' !! i = Some rf' ->
  state rf <> Leader -> matchIndex rf' = matchIndex rf.
Proof.
  intros (a & Hcf & Hs%step_shape) Hi; [|done].
  destruct Hs as [i0 rf0 rf1 qs Hi0 -> Hcode|k p i0 rf0 rf1 qs Hk Hi0 -> Hcode|k p qs Hk -> Hqs]; cbn;
    [intros Hj; apply lookup_update_Some in Hj as [(-> & -> & _)|[_ Hj]]; [|congruence]..|congruence];
    simplify_eq; apply handlers_match.
  - destruct Hcode as [H|[H|[(cmd & r & H)|[[H ->]|[-> ->]]]]]; eauto 15.
  - destruct p; [destruct Hcode as (-> & reply' & H & ->)|destruct Hcode as (-> & H)
      |destruct Hcode as (-> & H)|destruct Hcode as (-> & reply' & H & ->)
      |destruct Hcode as (-> & qs0 & H & ->)|destruct Hcode as (-> & -> & ->)]; eauto 20.
Qed.

Lemma becomes_leader_spec (c c' : cluster) i rf rf' :
  nodes c !! i = Some rf -> nodes c' !! i = Some rf' ->
  state rf <> Leader -> state rf' = Leader -> becomes_leader c c' i = true.
Proof.
  intros Hi Hi' Hst Hst'. unfold becomes_leader, is_leader.
  by rewrite Hi, Hi', bool_decide_false, bool_decide_true.
Qed.

Lemma fresh_win_intro (c c' : cluster) :
  (forall i rf rf', nodes c !! i = Some rf -> nodes c' !! i = Some rf' -> state rf <> Leader ->
     state rf' = Leader -> forall q m, matchIndex rf' !! q = Some m -> m = 0%Z) ->
  fresh_win c c' = true.
Proof.
  intros H. apply forallb_forall. intros [rf rf'] Hin%list_elem_of_In.
  apply list_elem_of_lookup in Hin as [i [Hi Hi']%lookup_zip_Some].
  unfold fresh_peer, is_leader. cbn. destruct (bool_decide_reflect (state rf = Leader)) as [?|Hst]; [done|].
  destruct (bool_decide_reflect (state rf' = Leader)) as [Hst'|]; [cbn|done].
  apply forallb_forall. intros m Hm%list_elem_of_In.
  apply list_elem_of_lookup in Hm as [q Hq]. apply Z.eqb_eq. symmetry. by eapply H.
Qed.

(** When no peer wins two elections, every new leader has a zero
    [matchIndex], so that the theorems above apply. *)
Theorem once_fresh n timeout S (c : cluster) : once n timeout S c -> freachable n timeout c.
Proof.
  intros H. enough (freachable n timeout c /\ forall i rf, nodes c !! i = Some rf -> i ∉ S ->
    state rf <> Leader /\ forall q m, matchIndex rf !! q = Some m -> m = 0%Z) as [? _] by done.
  induction H as [|S c c' _ [Hr IH] Hs Hnew].
  { split; [apply rtc_refl|]. intros i rf [Hm _]%init_lookup _. unfold Make in Hm. cbn in Hm.
    injection Hm as <-. split; [done|]. cbn. by intros q m [-> _]%lookup_replicate. }
  assert (forall i rf rf', nodes c !! i = Some rf -> nodes c' !! i = Some rf' -> i ∉ S ->
    forall q m, matchIndex rf' !! q = Some m -> m = 0%Z) as Hzero.
  { intros i rf rf' Hi Hi' HiS q m. destruct (IH i rf Hi HiS) as [Hst Hm].
    rewrite (cstep_match _ _ _ _ _ Hs Hi Hi' Hst). apply Hm. }
  assert (fstep c c') as Hf.
  { split; [done|]. apply fresh_win_intro. intros i rf rf' Hi Hi' Hst Hst'. eapply Hzero; eauto.
    by apply Hnew, (becomes_leader_spec _ _ _ rf rf'). }
  split; [eapply rtc_r; eauto|]. intros i rf' Hi' [HiS Hw]%not_elem_of_union.
  assert (is_Some (nodes c !! i)) as [rf Hi].
  { apply lookup_lt_is_Some. rewrite <- (rtc_nodes c c') by (by apply rtc_once). by eapply lookup_lt_Some. }
  split; [|eauto]. intros Hst'. apply Hw, elem_of_list_to_set, list_elem_of_filter.
  split; [by apply (becomes_leader_spec _ _ _ rf rf'); [| |apply (IH i rf)|]|].
  apply elem_of_seq. split; [lia|]. by eapply lookup_lt_Some.
Qed.

(** ** Running a script *)

Fixpoint frun (c : cluster) (acts : list (action C)) : option cluster :=
  match acts with
  | [] => Some c
  | a :: acts' => match step c a with
                  | Some c' => if crash_free a && fresh_win c c' then frun c' acts' else None
                  | None => None
                  end
  end.

Lemma frun_rtc c acts c' : frun c acts = Some c' -> rtc fstep c c'.
Proof.
  revert c. induction acts as [|a acts IH]; cbn; intros c H; [naive_solver|].
  destruct (step c a) as [c1|] eqn:E; [|done]. destruct (_ && _) eqn:Hb; [|done].
  apply andb_true_iff in Hb as [Hcf Hfr]. eapply rtc_l; [|by apply IH]. split; [by exists a|done].
Qed.

End Safety.
