(* ===== verification/RaftRuns.v ===== *)
(** * Concrete executions of a Raft cluster

    Runs of the executable model on small clusters, in which every hypothesis
    of the theorems about reachable clusters holds, and the runs that show
    where the code departs from the Raft protocol:
    - a vote is not persisted, so a peer that crashes votes again in the same
      term and two leaders share a term;
    - [matchIndex] is not reset when a leader is elected, so a leader commits
      on acknowledgements of an earlier term, and two peers apply different
      commands at the same index, without any crash, or a peer panics when it
      applies an entry that is no longer in its log;
    - a deposed leader whose election timer fired while it led is a follower
      without an armed election timer. *)

From S2P Require Import Prelude Persister Raft RaftCluster RaftElection RaftLogMatching RaftTheorems RaftTypes RaftCommit RaftCommitSteps RaftSafety.
From stdpp Require Import prelude gmap relations.

(** ** Running a script *)

Definition t0 (_ : nat) : Z := 150.

Definition final (n : nat) (acts : list (action nat)) : cluster nat :=
  default (init n t0) (run (init n t0) acts).

Definition peer (c : cluster nat) (i : nat) : Raft nat :=
  default (mkRaft 0 MakePersister 0 false 0 0 [] Follower 0 false false [] 0 [] [] 0 0 ∅) (nodes c !! i).

Ltac reach acts := apply (run_rtc _ acts); vm_compute; reflexivity.

(** Peer 0 is elected with the vote of peer 1, replicates command 7 on peer 1,
    commits and applies it. *)
Definition elect : list (action nat) := [ATickElection 0; ARun 0; ARun 1].
Definition replicate7 : list (action nat) :=
  elect ++ [AStart 0 (Some 7); ARun 3; ARun 4; ARun 4; AApply 0].
(** Then command 8, on both followers; peer 2 applies both commands. *)
Definition more8 : list (action nat) :=
  [AStart 0 (Some 8); ARun 6; ARun 6; ARun 6; ARun 5; ARun 6; ARun 6; AApply 2].
Definition replicate78 : list (action nat) := replicate7 ++ more8.

Example replicate7_result :
  (fun rf => (state rf, currentTerm rf, le_Command <$> log rf, commitIndex rf, am_Command <$> applyCh rf))
    <$> nodes (final 3 replicate7)
  = [(Leader, 1%Z, [None; Some 7], 1%Z, [Some 7]);
     (Follower, 1%Z, [None; Some 7], 0%Z, []);
     (Follower, 0%Z, [None], 0%Z, [])].
Proof. vm_compute. reflexivity. Qed.

Example replicate78_result :
  (fun rf => (state rf, currentTerm rf, le_Command <$> log rf, commitIndex rf, am_Command <$> applyCh rf))
    <$> nodes (final 3 replicate78)
  = [(Leader, 1%Z, [None; Some 7; Some 8], 2%Z, [Some 7]);
     (Follower, 1%Z, [None; Some 7; Some 8], 1%Z, []);
     (Follower, 1%Z, [None; Some 7; Some 8], 1%Z, [Some 7])].
Proof. vm_compute. reflexivity. Qed.

(** ** The theorems at these runs *)

(** Evaluate an equation; leave any other goal alone. *)
Ltac run_tac :=
  lazymatch goal with
  | |- _ /\ _ => split; run_tac
  | |- _ = _ => vm_compute; reflexivity
  | |- _ => idtac
  end.

Lemma election_safety_witness :
  state (peer (final 3 elect) 0) = Leader /\ state (peer (final 3 replicate78) 0) = Leader /\ 0 = 0.
Proof.
  split; [run_tac|]. split; [run_tac|].
  apply (election_safety 3 t0 (final 3 elect) (final 3 replicate78) 0 0
    (peer (final 3 elect) 0) (peer (final 3 replicate78) 0)); run_tac.
  - reach elect.
  - reach (drop 3 replicate78).
Defined.

Lemma one_vote_per_term_witness :
  votedFor (peer (final 3 replicate78) 1) = votedFor (peer (final 3 elect) 1).
Proof.
  apply (one_vote_per_term 3 t0 (final 3 elect) (final 3 replicate78) 1); run_tac.
  - reach elect.
  - reach (drop 3 replicate78).
  - vm_compute. discriminate.
Defined.

Lemma log_matching_witness :
  take 3 (log (peer (final 3 replicate78) 0)) = take 3 (log (peer (final 3 replicate78) 2)).
Proof.
  apply (log_matching 3 t0 (final 3 replicate78) 0 2 _ _ 2 (mkEntry 1 (Some 8) 2) (mkEntry 1 (Some 8) 2));
    run_tac.
  reach replicate78.
Defined.

Lemma leader_append_only_witness :
  log (peer (final 3 replicate7) 0) `prefix_of` log (peer (final 3 replicate78) 0).
Proof.
  apply (leader_append_only 3 t0 (final 3 replicate7) (final 3 replicate78) 0); run_tac.
  - reach replicate7.
  - reach more8.
Defined.

Definition sent7 : list (action nat) := elect ++ [AStart 0 (Some 7); ARun 3].
Definition args7 : AppendEntriesArgs nat := mkAEArgs 1 0 0 0 [mkEntry 1 (Some 7) 1] 0.

Lemma sent7_proc : PSentAE 0 1 2%Z args7 ∈ procs (final 3 sent7).
Proof. apply (list_elem_of_lookup_2 _ 4). vm_compute. reflexivity. Qed.

Lemma append_success_replicates_witness :
  exists prefix, length prefix = 1
    /\ (prefix ++ ae_Entries args7) `prefix_of` log (peer (final 3 replicate7) 1).
Proof.
  apply (append_success_replicates 3 t0 (final 3 sent7) 0 1 2%Z args7 (peer (final 3 sent7) 1)
    (peer (final 3 replicate7) 1) (mkAEReply 1 true)).
  - reach sent7.
  - exact sent7_proc.
  - run_tac.
  - run_tac.
  - run_tac.
Defined.

Lemma applied_in_order_witness :
  CommandIndex <$> applyCh (peer (final 3 replicate78) 2)
  = seqZ 1 (lastApplied (peer (final 3 replicate78) 2)).
Proof.
  apply (applied_in_order 3 t0 (final 3 replicate78) 2).
  - reach replicate78.
  - run_tac.
Defined.

Lemma term_monotonic_witness :
  exists rf', nodes (final 3 replicate78) !! 2 = Some rf' /\ (0 <= currentTerm rf')%Z.
Proof.
  apply (term_monotonic (final 3 replicate7) (final 3 replicate78) 2 (peer (final 3 replicate7) 2)).
  - reach more8.
  - run_tac.
Defined.

(** The reply of peer 1 makes the leader commit. *)
Definition replied7 : list (action nat) := sent7 ++ [ARun 4].
Definition rf_before : Raft nat := peer (final 3 replied7) 0.
Definition rf_after : Raft nat := peer (final 3 (replied7 ++ [ARun 4])) 0.

Lemma commit_rule_witness :
  commitIndex rf_after = 1%Z
  /\ exists Q, majority (peers rf_before) Q
    /\ forall q, q ∈ Q -> agreed rf_after (commitIndex rf_after) q.
Proof.
  split; [run_tac|].
  refine (proj2 (proj2 (proj2 (commit_rule rf_before rf_after 1 2 args7 (mkAEReply 1 true) [] _ _ _)))).
  - run_tac.
  - apply Nat.ltb_lt. run_tac.
  - vm_compute. discriminate.
Defined.

Lemma append_entries_persisted_witness :
  persist (peer (final 3 replicate7) 1) = peer (final 3 replicate7) 1.
Proof.
  apply (append_entries_persisted (peer (final 3 sent7) 1) (peer (final 3 replicate7) 1) args7
    (mkAEReply 1 true)).
  run_tac.
Defined.

(** Peer 1 takes over while peer 0 still believes to lead: it is elected with
    the vote of peer 2, replicates command 8 behind command 7, commits and
    applies both; then the others follow. Each of the two leaders wins for the
    first time. *)
Definition takeover : list (action nat) :=
  [ATickElection 1; ARun 6; ARun 6; AStart 1 (Some 8); ARun 9; ARun 9; ARun 9; AApply 1].
Definition catch_up : list (action nat) :=
  [ATickHeartbeat 1; ARun 11; ARun 11; AApply 2; ARun 10; ARun 11; AApply 0].
Definition failover : list (action nat) := replicate7 ++ takeover ++ catch_up.

Example failover_result :
  (fun rf => (state rf, currentTerm rf, le_Command <$> log rf, commitIndex rf, am_Command <$> applyCh rf))
    <$> nodes (final 3 failover)
  = [(Follower, 2%Z, [None; Some 7; Some 8], 2%Z, [Some 7; Some 8]);
     (Leader, 2%Z, [None; Some 7; Some 8], 2%Z, [Some 7; Some 8]);
     (Follower, 2%Z, [None; Some 7; Some 8], 2%Z, [Some 7; Some 8])].
Proof. vm_compute. reflexivity. Qed.

Ltac freach acts := apply (frun_rtc _ acts); vm_compute; reflexivity.

Lemma state_machine_safety_witness :
  applyCh (peer (final 3 replicate7) 0) `prefix_of` applyCh (peer (final 3 failover) 2)
  \/ applyCh (peer (final 3 failover) 2) `prefix_of` applyCh (peer (final 3 replicate7) 0).
Proof.
  apply (state_machine_safety 3 t0 (final 3 replicate7) (final 3 failover) 0 2); run_tac.
  - freach replicate7.
  - freach (takeover ++ catch_up).
Defined.

Lemma leader_completeness_witness :
  take 2 (log (peer (final 3 replicate7) 0)) `prefix_of` log (peer (final 3 (replicate7 ++ takeover)) 1).
Proof.
  apply (leader_completeness 3 t0 (final 3 replicate7) (final 3 (replicate7 ++ takeover)) 0 1
    (peer (final 3 replicate7) 0)); run_tac.
  - freach replicate7.
  - freach takeover.
  - apply Z.leb_le. vm_compute. reflexivity.
Defined.

(** ** Where the code departs from the protocol *)

(** Peer 1 votes for 0, crashes before anything has been persisted, comes
    back and votes for 2 in the same term. *)
Definition double_vote : list (action nat) :=
  [ATickElection 0; ARun 0; ARestart 1 150; ATickElection 2; ARun 3; ARun 1; ARun 2].

Ltac areach acts := apply (run_astep _ acts); vm_compute; reflexivity.

Lemma cluster_well_typed_witness : peer_ok 3 1 (peer (final 3 double_vote) 1).
Proof.
  apply (proj1 (proj2 (cluster_well_typed 3 t0 (final 3 double_vote) ltac:(areach double_vote)))). run_tac.
Defined.

(** After one crash, with [RequestVote] requests in flight: peer 1 restarts
    once more. *)
Lemma handlers_never_panic_witness :
  exists c' rf', restart (final 3 double_vote) 1 200 = Some c' /\ nodes c' !! 1 = Some rf'
    /\ restored (raftstate (persister (peer (final 3 double_vote) 1))) rf' /\ state rf' = Follower.
Proof.
  destruct (handlers_never_panic 3 t0 (final 3 double_vote) 1 (peer (final 3 double_vote) 1))
    as (_ & _ & _ & _ & Hr); [areach double_vote|run_tac|].
  destruct (Hr 200%Z) as (c' & rf' & H1 & H2 & H3 & H4 & _). exists c', rf'. split_and!; assumption.
Defined.

(** C18: A vote does not survive a crash: [RequestVote] never calls [persist].
    Peer 1 votes for 0, restarts, and votes for 2 in the same term; both
    become leader of that term. *)
Theorem crash_two_leaders :
  exists c (rf0 rf2 : Raft nat), run (init 3 t0) double_vote = Some c
    /\ nodes c !! 0 = Some rf0 /\ nodes c !! 2 = Some rf2
    /\ state rf0 = Leader /\ state rf2 = Leader /\ currentTerm rf0 = currentTerm rf2.
Proof.
  exists (final 3 double_vote), (peer (final 3 double_vote) 0), (peer (final 3 double_vote) 2).
  run_tac.
Qed.

(** Peer 1 acknowledges two entries of leader 0's term 1; both are replaced
    by an entry of leader 2 on peer 0. When 0 leads again in term 4, it
    counts that stale acknowledgement. *)
Definition stale_match : list (action nat) :=
  [ATickElection 0; ARun 0; ARun 3; ARun 0; ARun 2; AStart 0 (Some 101); AStart 0 (Some 102);
   ARun 10; ARun 13; ARun 13;
   ATickElection 2; ATickElection 2; ARun 20; ARun 21; ARun 20; ARun 20; AStart 2 (Some 201);
   ARun 24; ARun 27; ARun 27; ARun 25; ARun 27; ARun 27;
   ATickElection 0; ARun 30; ARun 31; ARun 29; ARun 30; AStart 0 (Some 301);
   ARun 36; ARun 37; ARun 37; AApply 0;
   ATickElection 2; ARun 39; ARun 41; ARun 40; ARun 40; AStart 2 (Some 401);
   ARun 45; ARun 47; ARun 47; ARun 47; ARun 48; ARun 48;
   ARun 46; ARun 48; ARun 48; ARun 48; ARun 49; ARun 49; AApply 2].

(** C17: State machine safety does not hold, even without a crash: in a cluster
    of five, peers 0 and 2 apply different commands at index 2, because a new
    leader keeps the [matchIndex] of its earlier terms and commits an entry
    that only a minority stores. *)
Theorem state_machine_safety_fails :
  exists (c : cluster nat) rf0 rf2 (m0 m2 : ApplyMsg nat), reachable 5 t0 c
    /\ nodes c !! 0 = Some rf0 /\ nodes c !! 2 = Some rf2
    /\ applyCh rf0 !! 1 = Some m0 /\ applyCh rf2 !! 1 = Some m2
    /\ CommandIndex m0 = CommandIndex m2 /\ am_Command m0 <> am_Command m2.
Proof.
  exists (final 5 stale_match), (peer (final 5 stale_match) 0), (peer (final 5 stale_match) 2),
    (mkApplyMsg true (Some 301) 2 4), (mkApplyMsg true (Some 401) 2 5).
  split; [reach stale_match|]. run_tac. discriminate.
Qed.

(** In that run peer 0 wins a second time, with the [matchIndex] of its first
    term: this is the step that [fstep] excludes. *)
Example stale_match_not_fresh : frun (init 5 t0) stale_match = None.
Proof. vm_compute. reflexivity. Qed.

(** As in [stale_match], with three entries acknowledged in term 1: in term 4
    leader 0 commits index 3, and then leader 2 replaces its log by one that
    ends at index 2. *)
Definition stale_commit : list (action nat) :=
  [ATickElection 0; ARun 0; ARun 1; ARun 2; ARun 2;
   AStart 0 (Some 101); AStart 0 (Some 102); AStart 0 (Some 103); ARun 14; ARun 17; ARun 17;
   ATickElection 2; ATickElection 2; ARun 24; ARun 24; ARun 24; ARun 24; AStart 2 (Some 201);
   ARun 28; ARun 31; ARun 31; ARun 29; ARun 31; ARun 31;
   ATickElection 0; ATickElection 0; ARun 37; ARun 37; ARun 37; ARun 38; ARun 38;
   AStart 0 (Some 301); AStart 0 (Some 302); ARun 48; ARun 49; ARun 49;
   ATickElection 2; ARun 53; ARun 51; ARun 52; ARun 52; AStart 2 (Some 401); ARun 56; ARun 59].

(** The same defect can stop a peer: without any crash its commit index ends
    up behind the end of its log, and [applyEntries] panics. *)
Theorem apply_can_panic :
  exists (c : cluster nat) rf, reachable 5 t0 c /\ nodes c !! 0 = Some rf
    /\ killed rf = false /\ commitIndex rf = len (log rf) /\ applyEntries rf = Panic.
Proof.
  exists (final 5 stale_commit), (peer (final 5 stale_commit) 0).
  split; [reach stale_commit|]. run_tac.
Qed.

(** Leader 0's election timer fires while it leads; then peer 2, whose log is
    shorter, asks for its vote in a later term. *)
Definition deposed : list (action nat) :=
  elect ++ [AStart 0 (Some 7); ATickElection 0; ATickElection 2; ATickElection 2; ARun 7].

(** A leader deposed by [RequestVote] can be left as a follower that will
    never start an election: its election timer fired while it led and
    [RequestVote] re-arms the timer only when it grants the vote. *)
Theorem deposed_leader_unarmed :
  exists (c : cluster nat) rf, reachable 3 t0 c /\ nodes c !! 0 = Some rf
    /\ state rf = Follower /\ killed rf = false /\ electionTime rf = false
    /\ step c (ATickElection 0) = None.
Proof.
  exists (final 3 deposed), (peer (final 3 deposed) 0).
  split; [reach deposed|]. run_tac.
Qed.
