(* ===== verification/Fnv.v ===== *)
(** * hash/fnv and the integer conversions the services use

    Go's [fnv.New32] and [fnv.New64] are FNV-1: multiply by the prime, then
    xor the byte, at 32 or 64 bits. A Go string is its bytes. *)

From S2P Require Import Prelude.
From Stdlib Require Import Ascii String.
From stdpp Require Import prelude strings.
Local Open Scope Z_scope.

Definition bytes_of (s : string) : list Z :=
  (fun a => Z.of_N (N_of_ascii a)) <$> list_ascii_of_string s.

Definition fnv_step (w prime : Z) (h b : Z) : Z :=
  Z.lxor ((h * prime) mod 2 ^ w) b.

Definition fnv32 (s : string) : Z :=
  foldl (fnv_step 32 16777619) 2166136261%Z (bytes_of s).
Definition fnv64 (s : string) : Z :=
  foldl (fnv_step 64 1099511628211) 14695981039346656037%Z (bytes_of s).

(** Conversions to a signed or unsigned width. *)
Definition uint_w (w z : Z) : Z := z mod 2 ^ w.
Definition int_w (w z : Z) : Z :=
  let u := z mod 2 ^ w in if (u <? 2 ^ (w - 1))%Z then u else (u - 2 ^ w)%Z.
Definition int32 : Z -> Z := int_w 32.

(** Values below a power of two are closed under xor. *)
Lemma lxor_bound w a b :
  (0 <= w)%Z -> (0 <= a < 2 ^ w)%Z -> (0 <= b < 2 ^ w)%Z -> (0 <= Z.lxor a b < 2 ^ w)%Z.
Proof.
  intros Hw [Ha0 Ha] [Hb0 Hb]. assert (0 <= Z.lxor a b) as H0 by (apply Z.lxor_nonneg; tauto).
  split; [done|]. destruct (Z.eq_dec (Z.lxor a b) 0) as [->|Hne]; [by apply Z.pow_pos_nonneg|].
  destruct (Z.eq_dec w 0) as [->|].
  { exfalso. apply Hne. assert (a = 0 /\ b = 0) as [-> ->] by lia. done. }
  assert (forall x, 0 <= x < 2 ^ w -> Z.log2 x < w) as Hlog.
  { intros x [??]. destruct (Z.eq_dec x 0) as [->|]; [cbn; lia|]. apply Z.log2_lt_pow2; lia. }
  apply Z.log2_lt_pow2; [lia|]. eapply Z.le_lt_trans; [by apply Z.log2_lxor|].
  apply Z.max_lub_lt; auto.
Qed.

Lemma bytes_of_bound s b : b ∈ bytes_of s -> (0 <= b < 256)%Z.
Proof.
  intros (a & -> & _)%list_elem_of_fmap. pose proof (N_ascii_bounded a). lia.
Qed.

Lemma fnv_fold_bound w prime h bs :
  (8 <= w)%Z -> (0 <= h < 2 ^ w)%Z -> (forall b, b ∈ bs -> (0 <= b < 256)%Z) ->
  (0 <= foldl (fnv_step w prime) h bs < 2 ^ w)%Z.
Proof.
  intros Hw. revert h. induction bs as [|b bs IH]; cbn; intros h Hh Hbs; [done|].
  apply IH; [|intros; apply Hbs; by right]. unfold fnv_step. apply lxor_bound; [lia| |].
  - apply Z.mod_pos_bound. lia.
  - assert (0 <= b < 256)%Z by (apply Hbs; left).
    assert (2 ^ 8 <= 2 ^ w)%Z by (apply Z.pow_le_mono_r; lia). lia.
Qed.

Lemma fnv32_bound s : (0 <= fnv32 s < 2 ^ 32)%Z.
Proof. apply fnv_fold_bound; [lia|lia|apply bytes_of_bound]. Qed.

Lemma fnv64_bound s : (0 <= fnv64 s < 2 ^ 64)%Z.
Proof. apply fnv_fold_bound; [lia|lia|apply bytes_of_bound]. Qed.

Lemma int_w_id w z : (1 <= w)%Z -> (- 2 ^ (w - 1) <= z < 2 ^ (w - 1))%Z -> int_w w z = z.
Proof.
  intros Hw Hz. unfold int_w.
  assert (2 ^ w = 2 * 2 ^ (w - 1))%Z as E by (rewrite <- Z.pow_succ_r by lia; f_equal; lia).
  destruct (Z.le_gt_cases 0 z).
  - rewrite Z.mod_small by lia. destruct (Z.ltb_spec z (2 ^ (w - 1))); lia.
  - replace (z mod 2 ^ w)%Z with (z + 2 ^ w)%Z.
    + destruct (Z.ltb_spec (z + 2 ^ w) (2 ^ (w - 1))); lia.
    + rewrite <- (Z.mod_small (z + 2 ^ w) (2 ^ w)) by lia.
      rewrite <- Zplus_mod_idemp_r, Z_mod_same_full. f_equal. lia.
Qed.

Lemma int32_id z : (0 <= z < 2 ^ 31)%Z -> int32 z = z.
Proof. intros. apply int_w_id; lia. Qed.

Example fnv32_hello : fnv32 "hello" = 3069866343%Z.
Proof. vm_compute. reflexivity. Qed.
Example fnv64_a : fnv64 "a" = 12638153115695167422%Z.
Proof. vm_compute. reflexivity. Qed.
