(* ===== verification/LabRpc.v ===== *)
(** * lab3/labrpc/labrpc.go: the simulated network under Raft

    A call goes through the network's single receive loop into [processReq],
    which looks up the connection, may drop the request, starts the handler
    in a goroutine of its own and waits for it or for the server to be
    deleted; then it may drop the reply. Calls interleave with each other and
    with changes of the network. Each action below is the code between two
    points where the network's lock is taken or a goroutine waits; delays are
    the freedom to take an action later. A [*Server] is known by its
    identity, because [processReq] compares pointers. The [bool] of an action
    is the outcome of the random test for a drop. *)

From Stdlib Require Import String Ascii.
From stdpp Require Import prelude gmap strings relations.
From S2P Require Import Prelude Fnv.

(** ** Names of methods *)

(** [strings.LastIndex(svcMeth, ".")] and the two slices around it; without a
    dot the slice [:-1] panics. *)
Fixpoint last_dot (l : list ascii) (i : nat) (found : option nat) : option nat :=
  match l with
  | [] => found
  | c :: l' => last_dot l' (S i) (if Ascii.eqb c "." then Some i else found)
  end.

Definition split_method (svcMeth : string) : go (string * string) :=
  let l := list_ascii_of_string svcMeth in
  match last_dot l 0 None with
  | None => Panic
  | Some dot => Ret (string_of_list_ascii (take dot l), string_of_list_ascii (drop (S dot) l))
  end.

Lemma last_dot_app l1 l2 i found :
  last_dot (l1 ++ l2) i found = last_dot l2 (i + length l1) (last_dot l1 i found).
Proof.
  revert i found. induction l1 as [|c l1 IH]; intros i found; cbn; [f_equal; lia|]. rewrite IH. f_equal. lia.
Qed.

Lemma last_dot_none l i found : "."%char ∉ l -> last_dot l i found = found.
Proof.
  revert i found. induction l as [|c l IH]; intros i found Hn; [done|]. cbn.
  apply not_elem_of_cons in Hn as [Hc Hn]. rewrite IH by done.
  destruct (Ascii.eqb_spec c "."); [congruence|done].
Qed.

(** A method name is split at its last dot: for a service name (with or
    without dots) and a method name without a dot, [Service.Method] is taken
    apart into the two. *)
Theorem split_method_roundtrip (svc meth : string) :
  "."%char ∉ list_ascii_of_string meth ->
  split_method (svc +:+ "." +:+ meth) = Ret (svc, meth).
Proof.
  intros Hn. unfold split_method.
  assert (list_ascii_of_string (svc +:+ "." +:+ meth)
    = list_ascii_of_string svc ++ "."%char :: list_ascii_of_string meth) as ->.
  { induction svc as [|c svc IH]; [done|]. change (String c svc +:+ "." +:+ meth) with (String c (svc +:+ "." +:+ meth)).
    cbn [list_ascii_of_string]. rewrite IH. done. }
  rewrite last_dot_app. cbn. rewrite last_dot_none by done.
  rewrite take_app_length, <- Nat.add_1_r, <- drop_drop, drop_app_length. cbn [drop].
  by rewrite drop_0, !string_of_list_ascii_of_string.
Qed.

Lemma split_method_roundtrip_witness : split_method "Raft.AppendEntries" = Ret ("Raft"%string, "AppendEntries"%string).
Proof.
  apply (split_method_roundtrip "Raft" "AppendEntries"). apply (bool_decide_unpack _). vm_compute. exact I.
Defined.

(** ** The network *)

Section LabRpc.
Context {E N A R : Type} `{Countable E, Countable N} (size_args : A -> Z) (size_reply : R -> Z).

Record Server : Type := mkServer {
  services : gmap string (gset string);   (* the handler methods of each service *)
  sv_count : Z
}.

Record Network : Type := mkNetwork {
  reliable : bool;
  longDelays : bool;
  longReordering : bool;
  ends : gset E;
  enabled : gmap E bool;
  servers : gmap N (option nat);
  connections : gmap E (option N);
  done : bool;
  nw_count : Z;
  nw_bytes : Z;
  objects : gmap nat Server               (* the Server objects *)
}.

Definition MakeNetwork : Network := mkNetwork true false false ∅ ∅ ∅ ∅ false 0 0 ∅.

Definition set_flags (rel ld lr : bool) (n : Network) : Network :=
  mkNetwork rel ld lr (ends n) (enabled n) (servers n) (connections n) (done n) (nw_count n) (nw_bytes n) (objects n).
Definition Reliable (n : Network) (yes : bool) : Network := set_flags yes (longDelays n) (longReordering n) n.
Definition LongReordering (n : Network) (yes : bool) : Network := set_flags (reliable n) (longDelays n) yes n.
Definition LongDelays (n : Network) (yes : bool) : Network := set_flags (reliable n) yes (longReordering n) n.

Definition Cleanup (n : Network) : Network :=
  mkNetwork (reliable n) (longDelays n) (longReordering n) (ends n) (enabled n) (servers n) (connections n)
    true (nw_count n) (nw_bytes n) (objects n).

(** A second end of the same name is fatal. *)
Definition MakeEnd (n : Network) (e : E) : go Network :=
  if decide (e ∈ ends n) then Panic
  else Ret (mkNetwork (reliable n) (longDelays n) (longReordering n) ({[e]} ∪ ends n)
              (<[e := false]> (enabled n)) (servers n) (<[e := None]> (connections n))
              (done n) (nw_count n) (nw_bytes n) (objects n)).

Definition set_servers (m : gmap N (option nat)) (n : Network) : Network :=
  mkNetwork (reliable n) (longDelays n) (longReordering n) (ends n) (enabled n) m (connections n)
    (done n) (nw_count n) (nw_bytes n) (objects n).
Definition AddServer (n : Network) (name : N) (rs : nat) : Network := set_servers (<[name := Some rs]> (servers n)) n.
Definition DeleteServer (n : Network) (name : N) : Network := set_servers (<[name := None]> (servers n)) n.

Definition Connect (n : Network) (e : E) (name : N) : Network :=
  mkNetwork (reliable n) (longDelays n) (longReordering n) (ends n) (enabled n) (servers n)
    (<[e := Some name]> (connections n)) (done n) (nw_count n) (nw_bytes n) (objects n).
Definition Enable (n : Network) (e : E) (yes : bool) : Network :=
  mkNetwork (reliable n) (longDelays n) (longReordering n) (ends n) (<[e := yes]> (enabled n)) (servers n)
    (connections n) (done n) (nw_count n) (nw_bytes n) (objects n).

Definition count_request (b : Z) (n : Network) : Network :=
  mkNetwork (reliable n) (longDelays n) (longReordering n) (ends n) (enabled n) (servers n) (connections n)
    (done n) (nw_count n + 1) (nw_bytes n + b) (objects n).
Definition count_bytes (b : Z) (n : Network) : Network :=
  mkNetwork (reliable n) (longDelays n) (longReordering n) (ends n) (enabled n) (servers n) (connections n)
    (done n) (nw_count n) (nw_bytes n + b) (objects n).

Definition set_object (k : nat) (rs : Server) (n : Network) : Network :=
  mkNetwork (reliable n) (longDelays n) (longReordering n) (ends n) (enabled n) (servers n) (connections n)
    (done n) (nw_count n) (nw_bytes n) (<[k := rs]> (objects n)).

(** [servers[servername]], nil when there is no entry *)
Definition server_at (n : Network) (name : N) : option nat := mjoin (servers n !! name).

Definition readEndnameInfo (n : Network) (e : E) : bool * option N * option nat * bool * bool :=
  let servername := mjoin (connections n !! e) in
  (default false (enabled n !! e), servername, servername ≫= server_at n, reliable n, longReordering n).

Definition isServerDead (n : Network) (e : E) (name : N) (server : nat) : bool :=
  negb (default false (enabled n !! e)) || bool_decide (server_at n name <> Some server).

(** [Server.dispatch] and [Service.dispatch] up to the call of the method:
    an unknown service or method is fatal. *)
Definition dispatch (rs : Server) (svcMeth : string) : go Server :=
  let! '(serviceName, methodName) := split_method svcMeth in
  match services rs !! serviceName with
  | None => Panic
  | Some methods => if decide (methodName ∈ methods) then Ret (mkServer (services rs) (sv_count rs + 1)) else Panic
  end.

Definition AddService (rs : Server) (name : string) (methods : gset string) : Server :=
  mkServer (<[name := methods]> (services rs)) (sv_count rs).

(** The counters; a server that was deleted is a nil dereference. The totals
    are kept as plain numbers and read at the width the code stores them. *)
Definition GetCount (n : Network) (name : N) : go Z :=
  match server_at n name ≫= fun k => objects n !! k with
  | None => Panic
  | Some rs => Ret (sv_count rs)
  end.
Definition GetTotalCount (n : Network) : Z := int_w 32 (nw_count n).
Definition GetTotalBytes (n : Network) : Z := int_w 64 (nw_bytes n).

(** ** Calls *)

(** Where a call is: in the send of [Call]; received by the network; handler
    started, with what [processReq] read before; returned. The handler's
    goroutine is independent of [processReq]: its state is beside it. *)
Inductive phase : Type :=
| Sending
| Received
| Waiting (name : N) (server : nat) (rel longre : bool)
| Returned (reply : option R).

Inductive handler : Type := NotStarted | Running (server : nat) | Finished (server : nat) (reply : R).

Record call : Type := mkCall {
  c_end : E; c_meth : string; c_args : A; c_phase : phase; c_handler : handler
}.

Record world : Type := mkWorld {
  net : Network;
  rpcs : list call;
  executed : list (nat * nat * R)     (* call, server, reply: handlers that ran *)
}.

Definition set_call (w : world) (k : nat) (c : call) : world :=
  mkWorld (net w) (<[k := c]> (rpcs w)) (executed w).
Definition goto (c : call) (p : phase) (h : handler) : call := mkCall (c_end c) (c_meth c) (c_args c) p h.

Inductive action : Type :=
| ACall (e : E) (meth : string) (args : A)
| ASend (k : nat)
| AProcess (k : nat) (drop : bool)
| AHandle (k : nat) (reply : R)
| AGiveUp (k : nat)
| AReply (k : nat) (drop : bool)
| ANet (f : Network -> Network).

Definition step (w : world) (a : action) : option world :=
  match a with
  | ACall e meth args =>
      Some (mkWorld (net w) (rpcs w ++ [mkCall e meth args Sending NotStarted]) (executed w))
  | ASend k =>
      c ← rpcs w !! k;
      match c_phase c with
      | Sending =>
          if done (net w) then Some (set_call w k (goto c (Returned None) (c_handler c)))
          else Some (mkWorld (count_request (size_args (c_args c)) (net w))
                       (<[k := goto c Received (c_handler c)]> (rpcs w)) (executed w))
      | _ => None
      end
  | AProcess k drop =>
      c ← rpcs w !! k;
      match c_phase c with
      | Received =>
          match readEndnameInfo (net w) (c_end c) with
          | (true, Some name, Some server, rel, longre) =>
              if negb rel && drop then Some (set_call w k (goto c (Returned None) NotStarted))
              else Some (set_call w k (goto c (Waiting name server rel longre) (Running server)))
          | _ => Some (set_call w k (goto c (Returned None) NotStarted))
          end
      | _ => None
      end
  | AHandle k reply =>
      c ← rpcs w !! k;
      match c_handler c with
      | Running server =>
          rs ← objects (net w) !! server;
          match dispatch rs (c_meth c) with
          | Ret rs' => Some (mkWorld (set_object server rs' (net w))
                               (<[k := goto c (c_phase c) (Finished server reply)]> (rpcs w))
                               (executed w ++ [(k, server, reply)]))
          | _ => None
          end
      | _ => None
      end
  | AGiveUp k =>
      c ← rpcs w !! k;
      match c_phase c with
      | Waiting name server _ _ =>
          if isServerDead (net w) (c_end c) name server
          then Some (set_call w k (goto c (Returned None) (c_handler c))) else None
      | _ => None
      end
  | AReply k drop =>
      c ← rpcs w !! k;
      match c_phase c, c_handler c with
      | Waiting name server rel longre, Finished _ reply =>
          if isServerDead (net w) (c_end c) name server || (negb rel && drop)
          then Some (set_call w k (goto c (Returned None) (c_handler c)))
          else Some (mkWorld (count_bytes (size_reply reply) (net w))
                       (<[k := goto c (Returned (Some reply)) (c_handler c)]> (rpcs w)) (executed w))
      | _, _ => None
      end
  | ANet f => Some (mkWorld (f (net w)) (rpcs w) (executed w))
  end.

Definition wstep (w w' : world) : Prop := exists a, step w a = Some w'.
Definition start (n : Network) : world := mkWorld n [] [].

(** ** At most once *)

(** What is true of a call, given the handlers that ran for it. *)
Definition call_ok (c : call) (runs : list (nat * R)) : Prop :=
  match c_handler c with
  | Finished server reply => runs = [(server, reply)]
  | _ => runs = []
  end
  /\ match c_phase c with
     | Sending | Received => c_handler c = NotStarted
     | Waiting _ server _ _ => c_handler c = Running server \/ exists reply, c_handler c = Finished server reply
     | Returned (Some reply) => exists server, c_handler c = Finished server reply
     | Returned None => True
     end.

Definition runs_of (k : nat) (ex : list (nat * nat * R)) : list (nat * R) :=
  omap (fun x : nat * nat * R => if decide (x.1.1 = k) then Some (x.1.2, x.2) else None) ex.

#[local] Arguments runs_of : simpl never.

Definition world_ok (w : world) : Prop :=
  (forall k c, rpcs w !! k = Some c -> call_ok c (runs_of k (executed w)))
  /\ forall x, x ∈ executed w -> (x.1.1 < length (rpcs w))%nat.

Lemma world_ok_set w k c c' n :
  world_ok w -> rpcs w !! k = Some c -> call_ok c' (runs_of k (executed w)) ->
  world_ok (mkWorld n (<[k := c']> (rpcs w)) (executed w)).
Proof.
  intros [Hc Hx] Hk Hok. split; cbn.
  - intros j d Hj. apply list_lookup_insert_Some in Hj as [(-> & -> & _)|[_ Hj]]; [done|by apply Hc].
  - intros x ?. rewrite length_insert. by apply Hx.
Qed.

Lemma runs_of_app k ex y : runs_of k (ex ++ [y]) = runs_of k ex ++ if decide (y.1.1 = k) then [(y.1.2, y.2)] else [].
Proof. unfold runs_of. rewrite omap_app. cbn. by case_decide. Qed.

Lemma world_ok_handle w k c server reply rs' :
  world_ok w -> rpcs w !! k = Some c -> c_handler c = Running server ->
  world_ok (mkWorld (set_object server rs' (net w)) (<[k := goto c (c_phase c) (Finished server reply)]> (rpcs w))
              (executed w ++ [(k, server, reply)])).
Proof.
  intros [Hc Hx] Hk Hh. pose proof (lookup_lt_Some _ _ _ Hk) as Hlt. split; cbn.
  - intros j d Hj. rewrite runs_of_app. cbn.
    apply list_lookup_insert_Some in Hj as [(<- & <- & _)|[Hne Hj]]; cycle 1.
    { rewrite decide_False, app_nil_r by done. by apply Hc. }
    rewrite decide_True by done. destruct (Hc k c Hk) as [Hr Hp]. rewrite Hh in Hr, Hp.
    unfold call_ok. cbn. rewrite Hr. split; [done|].
    destruct (c_phase c) as [| |name s rel longre|[r|]]; [done|done| |by destruct Hp|done].
    right. destruct Hp as [[= ->]|[? ?]]; [by eexists|done].
  - intros x [?| ->%list_elem_of_singleton]%elem_of_app; rewrite length_insert; [by apply Hx|done].
Qed.

Lemma runs_of_fresh k (w : world) : world_ok w -> (length (rpcs w) <= k)%nat -> runs_of k (executed w) = [].
Proof.
  intros [_ Hx] Hk. unfold runs_of. induction (executed w) as [|x ex IH]; [done|]. cbn.
  assert (x.1.1 < length (rpcs w))%nat by (apply Hx; left). rewrite decide_False by lia.
  apply IH. intros y Hy. apply Hx. by right.
Qed.

(** Ending the wait changes nothing that ran. *)
Lemma call_ok_returned c runs : call_ok c runs -> call_ok (goto c (Returned None) (c_handler c)) runs.
Proof. intros [Hr _]. by split. Qed.

Lemma world_ok_step w w' : world_ok w -> wstep w w' -> world_ok w'.
Proof.
  intros Hw [a H1]. destruct a as [e m args|k|k drop|k reply|k|k drop|f]; cbn in H1;
    try (apply bind_Some in H1 as (c & Hk & H1); pose proof (proj1 Hw k c Hk) as Hc).
  - injection H1 as <-. split; cbn.
    + intros k c Hk. apply lookup_app_Some in Hk as [Hk|[Hle Hk]]; [by apply (proj1 Hw)|].
      apply list_lookup_singleton_Some in Hk as [_ <-]. by rewrite runs_of_fresh.
    + intros x Hx. rewrite length_app. apply (proj2 Hw) in Hx. lia.
  - destruct (c_phase c) eqn:Ep; [|done..]. destruct (done (net w)); injection H1 as <-.
    + by eapply world_ok_set, call_ok_returned.
    + eapply world_ok_set; [done|done|]. destruct Hc as [Hr Hp]. rewrite Ep in Hp. by split.
  - destruct (c_phase c) eqn:Ep; [done| |done..].
    destruct Hc as [Hr Hp]. rewrite Ep in Hp. rewrite Hp in Hr.
    assert (forall p h, (h = NotStarted /\ p = Returned None \/ exists n s r l, h = Running s /\ p = Waiting n s r l) ->
      world_ok (set_call w k (goto c p h))) as Hset.
    { intros p h Hph. eapply world_ok_set; [done|done|]. unfold call_ok. cbn.
      destruct Hph as [[-> ->]|(n & s & r & l & -> & ->)]; eauto. }
    repeat case_match; injection H1 as <-; apply Hset; eauto 10.
  - destruct (c_handler c) as [|server|] eqn:Eh; [done| |done].
    apply bind_Some in H1 as (rs & _ & H1). destruct (dispatch rs (c_meth c)) as [rs'| |]; [|done|done].
    injection H1 as <-. by eapply world_ok_handle.
  - destruct (c_phase c) eqn:Ep; [done|done| |done]. destruct (isServerDead _ _ _ _); [|done]. injection H1 as <-.
    by eapply world_ok_set, call_ok_returned.
  - destruct (c_phase c) eqn:Ep; [done|done| |done]. destruct (c_handler c) eqn:Eh; [done|done|].
    destruct (_ || _); injection H1 as <-.
    + rewrite <- Eh. by eapply world_ok_set, call_ok_returned.
    + eapply world_ok_set; [done|done|]. destruct Hc as [Hr _]. rewrite Eh in Hr. split; [done|]. by eexists.
  - injection H1 as <-. exact Hw.
Qed.

Lemma world_ok_reachable n w : rtc wstep (start n) w -> world_ok w.
Proof.
  intros Hr. assert (world_ok (start n)) as H1.
  { split; [intros k c Hk; cbn in Hk; by rewrite lookup_nil in Hk|]. intros x Hx. by apply elem_of_nil in Hx. }
  revert H1. induction Hr; eauto using world_ok_step.
Qed.

(** ** Which server *)

(** The end is enabled and connected to the name, which is [server]. *)
Definition routed (nw : Network) (e : E) (name : N) (server : nat) : Prop :=
  enabled nw !! e = Some true /\ connections nw !! e = Some (Some name) /\ servers nw !! name = Some (Some server).

Section History.
Context (n : Network).

(** At some moment of the execution that led to [w] *)
Definition once (w : world) (P : Network -> Prop) : Prop :=
  exists w0, rtc wstep (start n) w0 /\ rtc wstep w0 w /\ P (net w0).

(** At some moment, and [Q] at the same or a later one *)
Definition then_ (w : world) (P Q : Network -> Prop) : Prop :=
  exists w0, rtc wstep w0 w /\ once w0 P /\ Q (net w0).

Lemma once_step w w' P : once w P -> wstep w w' -> once w' P.
Proof. intros (w0 & H1 & H2 & H3) Hs. exists w0. split; [done|]. split; [by eapply rtc_r|done]. Qed.

Lemma then_step w w' P Q : then_ w P Q -> wstep w w' -> then_ w' P Q.
Proof. intros (w0 & H1 & H2) Hs. exists w0. split; [by eapply rtc_r|done]. Qed.

(** Where the call has been, given how far it is *)
Definition placed (w : world) (e : E) (p : phase) (h : handler) : Prop :=
  match h with
  | NotStarted => True
  | Running server | Finished server _ => exists name, once w (fun nw => routed nw e name server)
  end
  /\ match p with
     | Waiting name server _ _ => once w (fun nw => routed nw e name server)
     | Returned (Some reply) => exists name server, h = Finished server reply
         /\ then_ w (fun nw => routed nw e name server) (fun nw => isServerDead nw e name server = false)
     | _ => True
     end.

Lemma placed_step_rpc w w' e p h : placed w e p h -> wstep w w' -> placed w' e p h.
Proof.
  intros [Hh Hp] Hs. split.
  - destruct h; [done|..]; destruct Hh as [name Hh]; exists name; by eapply once_step.
  - destruct p as [| | |[r|]]; [done|done|by eapply once_step| |done].
    destruct Hp as (name & server & ? & ?). exists name, server. split; [done|]. by eapply then_step.
Qed.

Lemma readEndnameInfo_routed nw e name server rel longre :
  readEndnameInfo nw e = (true, Some name, Some server, rel, longre) -> routed nw e name server.
Proof.
  unfold readEndnameInfo, routed, server_at. intros [= He Hc Hs _ _].
  destruct (enabled nw !! e) as [[]|]; try done. destruct (connections nw !! e) as [[nm|]|]; try done.
  cbn in *. injection Hc as ->. cbn in Hs. by destruct (servers nw !! name) as [[?|]|]; simplify_eq/=.
Qed.

Lemma process_cases w k drop w' c :
  step w (AProcess k drop) = Some w' -> rpcs w !! k = Some c ->
  w' = set_call w k (goto c (Returned None) NotStarted)
  \/ exists name server rel longre, routed (net w) (c_end c) name server
       /\ w' = set_call w k (goto c (Waiting name server rel longre) (Running server)).
Proof.
  intros H1 Hk. cbn -[readEndnameInfo] in H1. rewrite Hk in H1. cbn -[readEndnameInfo] in H1.
  destruct (c_phase c); try done.
  destruct (readEndnameInfo (net w) (c_end c)) as [[[[b o] s] rel] longre] eqn:Er.
  destruct b, o as [name|], s as [server|]; try (left; by injection H1).
  destruct (negb rel && drop); injection H1 as <-; [by left|right].
  eauto 10 using readEndnameInfo_routed.
Qed.

Definition well_placed (w : world) : Prop :=
  rtc wstep (start n) w /\ world_ok w
  /\ forall k c, rpcs w !! k = Some c -> placed w (c_end c) (c_phase c) (c_handler c).

Lemma placed_set w nw k c p h ex :
  well_placed w -> rpcs w !! k = Some c -> let w' := mkWorld nw (<[k := goto c p h]> (rpcs w)) ex in
  wstep w w' -> placed w' (c_end c) p h -> well_placed w'.
Proof.
  intros (Hr & Hok & Hp) Hk w' Hs Hpl. split; [by eapply rtc_r|]. split; [by eapply world_ok_step|].
  intros j d Hj. cbn in Hj. apply list_lookup_insert_Some in Hj as [(<- & <- & _)|[_ Hj]]; [done|].
  eapply placed_step_rpc; [by eapply Hp|done].
Qed.

Lemma well_placed_step w w' : well_placed w -> wstep w w' -> well_placed w'.
Proof.
  intros Hw Hs. pose proof Hs as [a H1]. pose proof H1 as Hst. pose proof Hw as (Hr & Hok & Hp).
  destruct a as [e m args|k|k drop|k reply|k|k drop|f]; cbn in H1;
    try (apply bind_Some in H1 as (c & Hk & H1);
         pose proof (proj1 Hok k c Hk) as [_ Hc]; pose proof (Hp k c Hk) as [Hph Hpp]).
  - injection H1 as <-. split; [by eapply rtc_r|]. split; [by eapply world_ok_step|].
    intros k c Hk. cbn in Hk. apply lookup_app_Some in Hk as [Hk|[_ Hk]]; [by eapply placed_step_rpc; [apply (Hp k)|]|].
    by apply list_lookup_singleton_Some in Hk as [_ <-].
  - destruct (c_phase c) eqn:Ep; [|done..].
    destruct (done (net w)); injection H1 as <-; (eapply placed_set; [exact Hw|exact Hk|exact Hs|]);
      (eapply placed_step_rpc; [|exact Hs]); by split.
  - destruct (c_phase c) eqn:Ep; [done| |done..].
    destruct (process_cases w k drop w' c Hst Hk) as [->|(name & server & rel & longre & Hro & ->)];
      (eapply placed_set; [exact Hw|exact Hk|exact Hs|]); (eapply placed_step_rpc; [|exact Hs]); [done|].
    assert (once w (fun nw => routed nw (c_end c) name server)) by (exists w; split; [done|split; [apply rtc_refl|done]]).
    split; [by exists name|done].
  - destruct (c_handler c) as [|server|] eqn:Eh; [done| |done].
    apply bind_Some in H1 as (rs & _ & H1). destruct (dispatch rs (c_meth c)) as [rs'| |]; [|done|done].
    injection H1 as <-. eapply placed_set; [exact Hw|exact Hk|exact Hs|]. eapply placed_step_rpc; [|exact Hs].
    split; [done|]. destruct (c_phase c) as [| | |[r|]]; try done. by destruct Hc as [? ?].
  - destruct (c_phase c) eqn:Ep; [done|done| |done]. destruct (isServerDead _ _ _ _); [|done]. injection H1 as <-.
    eapply placed_set; [exact Hw|exact Hk|exact Hs|]. eapply placed_step_rpc; [|exact Hs]. by split.
  - destruct (c_phase c) as [| |name server rel longre|] eqn:Ep; [done|done| |done].
    destruct (c_handler c) as [| |server' r] eqn:Eh; [done|done|].
    destruct (isServerDead (net w) (c_end c) name server) eqn:Ed; [|destruct (negb rel && drop)]; cbn in H1; injection H1 as <-;
      (eapply placed_set; [exact Hw|exact Hk|exact Hs|]); (eapply placed_step_rpc; [|exact Hs]); (split; [done|]); [done|done|].
    destruct Hc as [[=]|[reply [= -> ->]]]. exists name, server. split; [done|]. exists w. split; [apply rtc_refl|done].
  - injection H1 as <-. split; [by eapply rtc_r|]. split; [by eapply world_ok_step|].
    intros k c Hk. eapply placed_step_rpc; [by apply (Hp k)|done].
Qed.

Lemma well_placed_reachable w : rtc wstep (start n) w -> well_placed w.
Proof.
  intros Hr. assert (well_placed (start n)) as H1.
  { split; [apply rtc_refl|]. split; [by apply (world_ok_reachable n)|]. intros k c Hk. cbn in Hk. by rewrite lookup_nil in Hk. }
  revert H1. induction Hr; eauto using well_placed_step.
Qed.

End History.


End LabRpc.

(** One server with one service, one connected end, one call. *)
Definition demo_server : Server := AddService (mkServer ∅ 0) "Raft" {[ "RequestVote"%string ]}.
Definition demo_net : Network (E := nat) (N := nat) :=
  set_object 7 demo_server
    (Enable (Connect (AddServer (match MakeEnd MakeNetwork 0 with Ret n => n | _ => MakeNetwork end) 1 7) 0 1) 0 true).
Definition demo_acts : list (action (E := nat) (N := nat) (A := nat) (R := nat)) :=
  [ACall 0 "Raft.RequestVote" 5; ASend 0; AProcess 0 true; AHandle 0 9; AReply 0 true].
Definition demo_run : option (world (E := nat) (N := nat) (A := nat) (R := nat)) :=
  foldl (fun o a => w ← o; step (fun _ => 1%Z) (fun _ => 1%Z) w a) (Some (start demo_net)) demo_acts.

