(* ===== verification/Labgob.v ===== *)
(** * lab3/labgob/labgob.go: warnings around encoding/gob

    Before it encodes or decodes, the wrapper looks at the type of the value
    by reflection and complains about field names that do not begin with a
    capital letter, once per type; before it decodes, it also looks at the
    value and complains about what is not zero, to a depth of three.

    A [reflect.Type] is an element of a type [T] with decidable equality,
    [Kind] what reflection tells about it; types may be recursive. The package's
    variables are the record [labgob]; its lock makes the test and the update
    of [checked] one step. What is printed is kept as [printed].
    [encoding/gob] and [unicode.IsUpper] outside ASCII are parameters. *)

From Stdlib Require Import String Ascii.
From stdpp Require Import prelude gmap strings.
From S2P Require Import Prelude.
Local Open Scope Z_scope.

Record field (T : Type) : Type := mkField { f_Name : string; f_Type : T }.
Arguments mkField {T}. Arguments f_Name {T}. Arguments f_Type {T}.

Inductive rkind (T : Type) : Type :=
| Struct (fields : list (field T))
| Slice (elem : T)
| Array (elem : T)
| Ptr (elem : T)
| Map (key elem : T)
| OtherKind.
Arguments Struct {T}. Arguments Slice {T}. Arguments Array {T}. Arguments Ptr {T}.
Arguments Map {T}. Arguments OtherKind {T}.

Inductive message (T : Type) : Type :=
| LowerCaseField (name : string) (t : T)
| NonDefault (what : string).
Arguments LowerCaseField {T}. Arguments NonDefault {T}.

Record labgob (T : Type) `{Countable T} : Type := mkLabgob {
  errorCount : Z;
  checked : gset T;
  printed : list (message T)
}.
Arguments mkLabgob {T _ _}. Arguments errorCount {T _ _}. Arguments checked {T _ _}. Arguments printed {T _ _}.

(** ** Values, as far as [checkDefault] looks at them *)

(** A value of a basic kind has the name of its type and whether it equals
    the zero value; a pointer is a location in the heap, so values may be
    cyclic. [vf_embedded] and [vf_exported] are what decides whether
    reflection gives the field's value out. *)
Inductive value : Type :=
| VStruct (fields : list vfield)
| VPtr (target : option positive)
| VBasic (tname : string) (zero : bool)
| VOther
with vfield : Type :=
| mkVField (vf_Name : string) (vf_exported vf_embedded : bool) (vf_value : value).

(** How a [reflect.Value] was reached: through an unexported field, which
    sticks, or as an unexported embedded field, which does not go on to its
    own fields. *)
Record rflag : Type := mkFlag { stickyRO : bool; embedRO : bool }.

Section Labgob.
Context {T : Type} `{Countable T}.
Context (Kind : T -> rkind T) (IsUpperWide : string -> bool).

(** [unicode.IsUpper] of the first rune: a byte below 128 is its own rune,
    and the empty string decodes to an invalid one. *)
Definition first_upper (name : string) : bool :=
  match name with
  | EmptyString => false
  | String c _ =>
      let b := Z.of_nat (nat_of_ascii c) in
      if b <? 128 then (65 <=? b) && (b <=? 90) else IsUpperWide name
  end.

(** The body of the loop over the fields, up to the recursive call. *)
Definition complain (t : T) (f : field T) (st : labgob T) : labgob T :=
  if first_upper (f_Name f) then st
  else mkLabgob (errorCount st + 1) (checked st) (printed st ++ [LowerCaseField (f_Name f) t]).

Definition mark (t : T) (st : labgob T) : labgob T :=
  mkLabgob (errorCount st) ({[t]} ∪ checked st) (printed st).

(** [Block] is the end of the fuel. *)
Fixpoint checkType (fuel : nat) (t : T) (st : labgob T) : go (labgob T) :=
  match fuel with
  | O => Block
  | S fuel' =>
      if decide (t ∈ checked st) then Ret st
      else
        let st := mark t st in
        match Kind t with
        | Struct fields => go_fold (fun st f => checkType fuel' (f_Type f) (complain t f st)) st fields
        | Slice elem | Array elem | Ptr elem => checkType fuel' elem st
        | Map key elem =>
            let! st := checkType fuel' elem st in
            checkType fuel' key st
        | OtherKind => Ret st
        end
  end.

(** [reflect.TypeOf(nil)] is nil, and its [Kind] is a nil dereference. *)
Definition checkValue (fuel : nat) (typ : option T) (st : labgob T) : go (labgob T) :=
  match typ with None => Panic | Some t => checkType fuel t st end.

(** [value.Field(i)] *)
Definition field_flag (fl : rflag) (exported embedded : bool) : rflag :=
  mkFlag (stickyRO fl || (negb exported && negb embedded)) (negb exported && embedded).

Definition join_name (name field : string) : string :=
  if decide (name = ""%string) then field else (name +:+ "." +:+ field)%string.

Definition warn_default (tname name : string) (st : labgob T) : labgob T :=
  mkLabgob (errorCount st + 1) (checked st)
    (if errorCount st <? 1
     then printed st ++ [NonDefault (if decide (name = ""%string) then tname else name)]
     else printed st).

(** [value.Interface()] panics on a value reached through an unexported
    field. [left] is one more than the levels that are left. *)
Fixpoint checkDefault1 (heap : positive -> value) (left : nat) (v : value) (fl : rflag) (depth : Z)
    (name : string) (st : labgob T) : go (labgob T) :=
  match left with
  | O => Block
  | S left' =>
      if 3 <? depth then Ret st
      else match v with
      | VStruct fields =>
          go_fold (fun st '(mkVField fname exported embedded vv) =>
            checkDefault1 heap left' vv (field_flag fl exported embedded) (depth + 1) (join_name name fname) st)
            st fields
      | VPtr None => Ret st
      | VPtr (Some p) => checkDefault1 heap left' (heap p) fl (depth + 1) name st
      | VBasic tname zero =>
          if stickyRO fl || embedRO fl then Panic
          else if zero then Ret st else Ret (warn_default tname name st)
      | VOther => Ret st
      end
  end.

(** An interface value: its dynamic type and value, [None] for nil. *)
Notation iface := (option (T * value)).

Definition checkDefault (heap : positive -> value) (v : iface) (st : labgob T) : go (labgob T) :=
  match v with
  | None => Ret st
  | Some (_, v) => checkDefault1 heap 4 v (mkFlag false false) 1 "" st
  end.

(** ** The wrappers *)

Section Gob.
Context {Enc Dec Reg Err : Type}.
Context (gob_Encode : Enc -> T * value -> Enc * option Err)
        (gob_Decode : Dec -> T * value -> Dec * option Err)
        (gob_Register : Reg -> option string -> T * value -> Reg).

Definition Encode (fuel : nat) (enc : Enc) (e : iface) (st : labgob T) : go (labgob T * Enc * option Err) :=
  let! st := checkValue fuel (fst <$> e) st in
  match e with
  | None => Panic
  | Some e => let '(enc, err) := gob_Encode enc e in Ret (st, enc, err)
  end.

(** [EncodeValue] gets the [reflect.Value] itself. *)
Definition EncodeValue (fuel : nat) (enc : Enc) (v : T * value) (st : labgob T) : go (labgob T * Enc * option Err) :=
  let! st := checkValue fuel (Some v.1) st in
  let '(enc, err) := gob_Encode enc v in Ret (st, enc, err).

Definition Decode (fuel : nat) (heap : positive -> value) (dec : Dec) (e : iface) (st : labgob T)
    : go (labgob T * Dec * option Err) :=
  let! st := checkValue fuel (fst <$> e) st in
  let! st := checkDefault heap e st in
  match e with
  | None => Panic
  | Some e => let '(dec, err) := gob_Decode dec e in Ret (st, dec, err)
  end.

Definition register (fuel : nat) (reg : Reg) (name : option string) (v : iface) (st : labgob T)
    : go (labgob T * Reg) :=
  let! st := checkValue fuel (fst <$> v) st in
  match v with
  | None => Panic
  | Some v => Ret (st, gob_Register reg name v)
  end.

Definition Register (fuel : nat) (reg : Reg) (v : iface) (st : labgob T) : go (labgob T * Reg) :=
  register fuel reg None v st.

Definition RegisterName (fuel : nat) (reg : Reg) (name : string) (v : iface) (st : labgob T)
    : go (labgob T * Reg) :=
  register fuel reg (Some name) v st.
End Gob.

(** ** Types are checked once *)

(** The types a type is made of, and those it leads to. *)
Definition parts (t : T) : list T :=
  match Kind t with
  | Struct fields => f_Type <$> fields
  | Slice elem | Array elem | Ptr elem => [elem]
  | Map key elem => [elem; key]
  | OtherKind => []
  end.

Inductive reach : T -> T -> Prop :=
| reach_refl t : reach t t
| reach_step t u v : u ∈ parts t -> reach u v -> reach t v.

(** What there is to complain about in a type. *)
Definition lower_fields (t : T) (fields : list (field T)) : list (message T) :=
  (fun f => LowerCaseField (f_Name f) t) <$> filter (fun f => first_upper (f_Name f) = false) fields.

Definition complaints (t : T) : list (message T) :=
  match Kind t with Struct fields => lower_fields t fields | _ => [] end.

Definition report (X : gset T) : list (message T) := elements X ≫= complaints.

Definition closed_set (X : gset T) : Prop := forall t u, t ∈ X -> u ∈ parts t -> u ∈ X.

(** From [st] to [st'] the types of [checked st' ∖ checked st] were checked,
    all of them reachable from a root, and [extra] and their complaints were
    printed. *)
Record checked_more (roots : list T) (extra : list (message T)) (st st' : labgob T) : Prop := {
  more_grow : checked st ⊆ checked st';
  more_roots : forall r, r ∈ roots -> r ∈ checked st';
  more_reach : forall u, u ∈ checked st' -> u ∉ checked st -> exists r, r ∈ roots /\ reach r u;
  more_parts : forall u v, u ∈ checked st' -> u ∉ checked st -> v ∈ parts u -> v ∈ checked st';
  more_printed : printed st' ≡ₚ printed st ++ extra ++ report (checked st' ∖ checked st);
  more_count : errorCount st' - errorCount st = len (printed st') - len (printed st)
}.

Lemma report_union (X Y : gset T) : X ## Y -> report (X ∪ Y) ≡ₚ report X ++ report Y.
Proof. intros HX. unfold report. by rewrite elements_disj_union, bind_app. Qed.

Lemma report_empty : report ∅ = [].
Proof. unfold report. by rewrite elements_empty. Qed.

Lemma report_singleton t : report {[t]} = complaints t.
Proof. unfold report. rewrite elements_singleton. cbn. by rewrite app_nil_r. Qed.

Lemma checked_more_refl st : checked_more [] [] st st.
Proof.
  split; try set_solver.
  - rewrite difference_diag_L, report_empty. by rewrite !app_nil_r.
  - lia.
Qed.

Lemma checked_more_trans r1 r2 e1 e2 st1 st2 st3 :
  checked_more r1 e1 st1 st2 -> checked_more r2 e2 st2 st3 -> checked_more (r1 ++ r2) (e1 ++ e2) st1 st3.
Proof.
  intros [G1 R1 C1 P1 M1 N1] [G2 R2 C2 P2 M2 N2]. split.
  - set_solver.
  - intros r [Hr|Hr]%elem_of_app; [by apply G2, R1|by apply R2].
  - intros u Hu Hn. destruct (decide (u ∈ checked st2)) as [Hd|Hd].
    + destruct (C1 u Hd Hn) as (r & Hr & ?). exists r. split; [|done]. apply elem_of_app. by left.
    + destruct (C2 u Hu Hd) as (r & Hr & ?). exists r. split; [|done]. apply elem_of_app. by right.
  - intros u v Hu Hn Hv. destruct (decide (u ∈ checked st2)) as [Hd|Hd]; [apply G2|]; eauto.
  - assert (checked st3 ∖ checked st1 = (checked st2 ∖ checked st1) ∪ (checked st3 ∖ checked st2)) as ->.
    { apply set_eq. intros x. destruct (decide (x ∈ checked st2)); set_solver. }
    rewrite report_union by set_solver. rewrite M2, M1. solve_Permutation.
  - lia.
Qed.

Lemma complain_more t f roots extra st st' :
  checked_more roots extra (complain t f st) st' ->
  checked_more roots (lower_fields t [f] ++ extra) st st'.
Proof.
  unfold complain, lower_fields. rewrite filter_cons, filter_nil.
  destruct (first_upper (f_Name f)); [by rewrite decide_False by done|].
  rewrite decide_True by done. intros [G R C P M N]. cbn in *. split; try done.
  - rewrite M. solve_Permutation.
  - unfold len in *. rewrite length_app in N. cbn in N. lia.
Qed.

Lemma mark_more t st st' :
  t ∉ checked st -> checked_more (parts t) (complaints t) (mark t st) st' -> checked_more [t] [] st st'.
Proof.
  intros Ht [G R C P M N]. cbn in *. split.
  - set_solver.
  - intros r ->%list_elem_of_singleton. set_solver.
  - intros u Hu Hn. exists t. split; [left|]. destruct (decide (u = t)) as [->|Hne]; [constructor|].
    destruct (C u) as (r & Hr & Hreach); [done|set_solver|]. by eapply reach_step.
  - intros u v Hu Hn Hv. destruct (decide (u = t)) as [->|Hne]; [by apply R|]. eapply P; [done|set_solver|done].
  - assert (checked st' ∖ checked st = {[t]} ∪ checked st' ∖ ({[t]} ∪ checked st)) as ->.
    { apply set_eq. intros x. destruct (decide (x = t)); set_solver. }
    rewrite report_union by set_solver. rewrite report_singleton, M. solve_Permutation.
  - done.
Qed.

Lemma checked_more_weaken r1 r2 e1 e2 st st' :
  (forall r, r ∈ r1 <-> r ∈ r2) -> e1 ≡ₚ e2 -> checked_more r1 e1 st st' -> checked_more r2 e2 st st'.
Proof.
  intros Hr He [G R C P M N]. split; try done.
  - intros r ?%Hr. by apply R.
  - intros u Hu Hn. destruct (C u Hu Hn) as (r & ?%Hr & ?). eauto.
  - by rewrite <- He.
Qed.

(** The finitely many types of a program. *)
Section Universe.
Context (U : gset T) (HU : closed_set U).

Definition unchecked (st : labgob T) : nat := size (U ∖ checked st).

Lemma unchecked_more roots extra st st' : checked_more roots extra st st' -> (unchecked st' <= unchecked st)%nat.
Proof. intros Hm. unfold unchecked. apply subseteq_size. pose proof (more_grow _ _ _ _ Hm). set_solver. Qed.

Lemma unchecked_mark t st : t ∈ U -> t ∉ checked st -> (unchecked (mark t st) < unchecked st)%nat.
Proof. intros Hin Hn. unfold unchecked. apply subset_size. cbn. set_solver. Qed.

Lemma check_fields fuel t fields st :
  (forall f, f ∈ fields -> f_Type f ∈ U) -> (unchecked st < fuel)%nat ->
  (forall u st, u ∈ U -> (unchecked st < fuel)%nat ->
     exists st', checkType fuel u st = Ret st' /\ checked_more [u] [] st st') ->
  exists st', go_fold (fun st f => checkType fuel (f_Type f) (complain t f st)) st fields = Ret st'
    /\ checked_more (f_Type <$> fields) (lower_fields t fields) st st'.
Proof.
  intros Hin Hf Hrec. revert st Hf. induction fields as [|f fields IH]; intros st Hf; cbn [go_fold].
  { exists st. split; [done|]. apply checked_more_refl. }
  assert (unchecked (complain t f st) = unchecked st) as Eu by (unfold complain; by case_match).
  destruct (Hrec (f_Type f) (complain t f st)) as (st1 & -> & H1); [apply Hin; left|lia|]. cbn [mbind go_bind].
  apply complain_more in H1. pose proof (unchecked_more _ _ _ _ H1).
  destruct IH with st1 as (st2 & -> & H2); [intros g ?; apply Hin; by right|lia|].
  exists st2. split; [done|]. eapply checked_more_weaken; [..|eapply checked_more_trans; [exact H1|exact H2]].
  - intros r. by rewrite fmap_cons.
  - rewrite app_nil_r. unfold lower_fields. rewrite <- fmap_app, <- filter_app. done.
Qed.

Lemma checkType_ok fuel t st :
  t ∈ U -> (unchecked st < fuel)%nat ->
  exists st', checkType fuel t st = Ret st' /\ checked_more [t] [] st st'.
Proof using HU.
  revert t st. induction fuel as [|fuel IH]; intros t st Hin Hf; [lia|]. cbn [checkType].
  case_decide as Hc.
  { exists st. split; [done|]. destruct (checked_more_refl st) as [G R C P M N]. split; try done.
    by intros r ->%list_elem_of_singleton. }
  pose proof (unchecked_mark t st Hin Hc) as Hlt. pose proof (HU t) as Hparts. unfold parts in Hparts.
  assert (forall st', checked_more (parts t) (complaints t) (mark t st) st' -> checked_more [t] [] st st') as Hm
    by (intros st'; by apply mark_more).
  unfold parts, complaints in Hm. destruct (Kind t) as [fields|elem|elem|elem|key elem|].
  - destruct (check_fields fuel t fields (mark t st)) as (st' & E & Hst'); [|lia|done|].
    { intros f Hfi. apply Hparts; [done|]. by apply list_elem_of_fmap_2. }
    exists st'. auto.
  - destruct (IH elem (mark t st)) as (st' & E & Hst'); [apply Hparts; [done|left]|lia|]. exists st'. auto.
  - destruct (IH elem (mark t st)) as (st' & E & Hst'); [apply Hparts; [done|left]|lia|]. exists st'. auto.
  - destruct (IH elem (mark t st)) as (st' & E & Hst'); [apply Hparts; [done|left]|lia|]. exists st'. auto.
  - destruct (IH elem (mark t st)) as (st1 & -> & H1); [apply Hparts; [done|left]|lia|]. cbn [mbind go_bind].
    pose proof (unchecked_more _ _ _ _ H1).
    destruct (IH key st1) as (st2 & -> & H2); [apply Hparts; [done|right; left]|lia|].
    exists st2. split; [done|]. apply Hm. exact (checked_more_trans _ _ _ _ _ _ _ H1 H2).
  - exists (mark t st). split; [done|]. apply Hm, checked_more_refl.
Qed.
End Universe.

(** ** What a check means *)

Lemma reach_closed X t u : closed_set X -> t ∈ X -> reach t u -> u ∈ X.
Proof. intros HX Ht Hr. induction Hr as [|t u v Hu _ IH]; [done|]. apply IH. by eapply HX. Qed.

(** Between calls: the checked types are closed under parts, and for each of
    them every lower-case field has been printed, once. *)
Definition settled (st : labgob T) : Prop :=
  closed_set (checked st)
  /\ filter (fun m => match m with LowerCaseField _ _ => true | _ => false end = true) (printed st)
     ≡ₚ report (checked st).

Lemma report_lower X :
  filter (fun m => match m with LowerCaseField _ _ => true | _ => false end = true) (report X) = report X.
Proof.
  assert (Forall (fun m : message T => match m with LowerCaseField _ _ => true | _ => false end = true) (report X)) as HF.
  { apply Forall_forall. intros m (u & Hm & _)%list_elem_of_bind. unfold complaints in Hm.
    destruct (Kind u); try by apply elem_of_nil in Hm. by apply list_elem_of_fmap in Hm as (f & -> & _). }
  induction HF as [|m l Hm _ IH]; [done|]. by rewrite filter_cons, decide_True, IH.
Qed.

(** C31: The check of a type terminates, on recursive types too, and it is
    complete: over the finitely many types of a program, starting from the
    state other calls have left, [checkType] returns, and afterwards the
    checked types are the old ones and all those reachable from [t]; every
    lower-case field of a checked type has been complained about exactly
    once; and checking [t] again changes nothing. *)
Theorem checkType_complete U t st :
  closed_set U -> t ∈ U -> settled st ->
  exists st', checkType (S (size U)) t st = Ret st'
    /\ settled st'
    /\ (forall u, u ∈ checked st' <-> u ∈ checked st \/ reach t u)
    /\ errorCount st' - errorCount st = len (report (checked st' ∖ checked st))
    /\ checkType (S (size U)) t st' = Ret st'.
Proof.
  intros HU Hin [Hcl Hpr].
  destruct (checkType_ok U HU (S (size U)) t st Hin) as (st' & E & [G R C P M N]).
  { unfold unchecked. apply Nat.lt_succ_r, subseteq_size. set_solver. }
  exists st'. split; [done|].
  assert (closed_set (checked st')) as Hcl'.
  { intros u v Hu Hv. destruct (decide (u ∈ checked st)) as [Hd|Hd]; [apply G; by eapply Hcl|by eapply P]. }
  assert (t ∈ checked st') as Ht by (apply R; left).
  cbn [app] in M. split; [split; [done|]|split; [|split]].
  - rewrite M, filter_app, Hpr, report_lower, <- report_union by set_solver.
    by rewrite <- union_difference_L.
  - intros u. split.
    + intros Hu. destruct (decide (u ∈ checked st)) as [|Hn]; [by left|right].
      by destruct (C u Hu Hn) as (r & ->%list_elem_of_singleton & Hr).
    + intros [?|Hr]; [by apply G|]. by eapply reach_closed.
  - rewrite N. apply Permutation_length in M. rewrite length_app in M. unfold len. lia.
  - cbn [checkType]. by rewrite decide_True.
Qed.

(** ** Values are checked to a depth of three *)

(** The reference: the values of basic kinds within [d] levels, in order,
    each with whether reflection refuses to give it out, the name to print
    and whether it is zero. *)
Fixpoint leaves (heap : positive -> value) (d : nat) (v : value) (fl : rflag) (name : string)
    : list (bool * string * string * bool) :=
  match d with
  | O => []
  | S d' =>
      match v with
      | VStruct fields =>
          fields ≫= fun '(mkVField fname exported embedded vv) =>
            leaves heap d' vv (field_flag fl exported embedded) (join_name name fname)
      | VPtr (Some p) => leaves heap d' (heap p) fl name
      | VPtr None | VOther => []
      | VBasic tname zero => [(stickyRO fl || embedRO fl, tname, name, zero)]
      end
  end.

Definition visit (st : labgob T) (leaf : bool * string * string * bool) : go (labgob T) :=
  let '(hidden, tname, name, zero) := leaf in
  if hidden then Panic else if zero then Ret st else Ret (warn_default tname name st).

Lemma go_fold_bind {A} (f : labgob T -> A -> go (labgob T)) (g : A -> list (bool * string * string * bool)) l st :
  (forall x st, f st x = go_fold visit st (g x)) -> go_fold f st l = go_fold visit st (l ≫= g).
Proof.
  intros Hf. revert st. induction l as [|x l IH]; intros st; [done|].
  cbn [go_fold]. rewrite bind_cons, go_fold_app, Hf. destruct (go_fold visit st (g x)); [apply IH|done|done].
Qed.

(** The bound on the depth is also the fuel. *)
Lemma checkDefault1_leaves heap d v fl name st :
  (d <= 3)%nat ->
  checkDefault1 heap (S d) v fl (4 - Z.of_nat d) name st = go_fold visit st (leaves heap d v fl name).
Proof.
  revert v fl name st. induction d as [|d IH]; intros v fl name st Hd; [done|].
  cbn [checkDefault1 leaves]. destruct (Z.ltb_spec 3 (4 - Z.of_nat (S d))); [lia|].
  replace (4 - Z.of_nat (S d) + 1) with (4 - Z.of_nat d) by lia.
  destruct v as [fields|[p|]|tname zero|]; try done.
  - apply go_fold_bind. intros [fname ex em vv] st'. apply IH. lia.
  - apply IH. lia.
  - cbn. destruct (_ || _); [done|]. by destruct zero.
Qed.

Lemma visit_all ls st :
  Forall (fun l => l.1.1.1 = false) ls ->
  exists st', go_fold visit st ls = Ret st' /\ checked st' = checked st
    /\ errorCount st' = errorCount st + len (filter (fun l => l.2 = false) ls)
    /\ (1 <= errorCount st -> printed st' = printed st).
Proof.
  intros Hls. revert st. induction Hls as [|[[[hid tn] nm] zero] ls Hh _ IH]; intros st.
  { exists st. cbn. unfold len. cbn. split; [done|]. split; [done|]. split; [lia|done]. }
  cbn in Hh. subst hid. cbn [go_fold visit]. rewrite filter_cons. destruct zero; cbn [mbind go_bind].
  - destruct (IH st) as (st' & E & Hst'). exists st'. done.
  - destruct (IH (warn_default tn nm st)) as (st' & E & Hc & He & Hp). exists st'.
    split; [done|]. split; [done|]. cbn in He. rewrite decide_True by done. unfold len in *. cbn [length].
    split; [lia|]. intros H1. rewrite Hp by (cbn; lia). cbn. destruct (Z.ltb_spec (errorCount st) 1); [lia|done].
Qed.

Lemma visit_hidden ls st : Exists (fun l => l.1.1.1 = true) ls -> go_fold visit st ls = Panic.
Proof.
  intros Hls. revert st. induction Hls as [[[[hid tn] nm] zero] ls Hh|[[[hid tn] nm] zero] ls _ IH]; intros st; cbn.
  - cbn in Hh. by subst hid.
  - destruct hid; [done|]. destruct zero; cbn; apply IH.
Qed.

(** [checkDefault] looks at the values of basic kinds down to the third
    level and at nothing else, so it returns on cyclic values too: it counts
    one error for each that is not zero, prints at most the very first
    warning, and leaves the checked types alone. But when one of them is in
    an unexported field, zero or not, it panics instead of warning. *)
Theorem checkDefault_spec heap t v (st : labgob T) :
  let ls := leaves heap 3 v (mkFlag false false) "" in
  (Forall (fun l => l.1.1.1 = false) ls ->
     exists st', checkDefault heap (Some (t, v)) st = Ret st' /\ checked st' = checked st
       /\ errorCount st' = errorCount st + len (filter (fun l => l.2 = false) ls)
       /\ (1 <= errorCount st -> printed st' = printed st))
  /\ (Exists (fun l => l.1.1.1 = true) ls -> checkDefault heap (Some (t, v)) st = Panic).
Proof.
  intros ls. unfold checkDefault.
  pose proof (checkDefault1_leaves heap 3 v (mkFlag false false) "" st ltac:(lia)) as E.
  change (4 - Z.of_nat 3) with 1 in E. rewrite E. split; [apply visit_all|apply visit_hidden].
Qed.
End Labgob.

(** ** The types and values of the package's tests *)

Module Tests.
(** [T4 struct { Yes int; no int }], a list type that contains itself, and the
    types of [TestCapital]. *)
Definition Kind (t : nat) : rkind nat :=
  match t with
  | 1%nat => Struct [mkField "Yes" 0%nat; mkField "no" 0%nat]       (* T4 *)
  | 2%nat => Slice 3%nat | 3%nat => Map 4%nat 0%nat | 4%nat => Ptr 1%nat   (* []map[*T4]int *)
  | 5%nat => Struct [mkField "Next" 6%nat; mkField "val" 0%nat] | 6%nat => Ptr 5%nat
  | _ => OtherKind
  end.
Definition wide (_ : string) : bool := false.
Definition universe : gset nat := list_to_set (seq 0 7).
Definition fresh : labgob nat := mkLabgob 0 ∅ [].

Lemma universe_closed : closed_set Kind universe.
Proof.
  assert (Forall (fun t => Forall (fun u => u ∈ universe) (parts Kind t)) (elements universe)) as HF.
  { apply (bool_decide_unpack _). vm_compute. exact I. }
  intros t u Ht Hu. rewrite Forall_forall in HF. specialize (HF t). rewrite Forall_forall in HF.
  apply HF; [by apply elem_of_elements|done].
Qed.

Lemma fresh_settled : settled Kind wide fresh.
Proof. split; [intros t u Ht; cbn in Ht; set_solver|]. cbn. unfold report. by rewrite elements_empty. Qed.

(** [TestCapital] *)
Example capital : exists st, checkType Kind wide 8 2%nat fresh = Ret st /\ errorCount st = 1.
Proof. eexists. split; [vm_compute; reflexivity|reflexivity]. Qed.

(** [TestDefault]: a struct reached through a pointer, with one exported field. *)
Definition heap (_ : positive) : value := VStruct [mkVField "X" true false (VBasic "int" false)].
Example default : exists st, checkDefault heap (Some (0%nat, VPtr (Some 1%positive))) fresh = Ret st /\ errorCount st = 1.
Proof. eexists. split; [vm_compute; reflexivity|reflexivity]. Qed.

Lemma checkType_complete_witness :
  exists st', checkType Kind wide 8 6%nat fresh = Ret st'
    /\ (forall u, u ∈ checked st' <-> u ∈ checked fresh \/ reach Kind 6%nat u).
Proof.
  destruct (checkType_complete Kind wide universe 6%nat fresh) as (st' & E & _ & Hr & _).
  - exact universe_closed.
  - vm_compute. reflexivity.
  - exact fresh_settled.
  - exists st'. split; [exact E|exact Hr].
Defined.

Definition hidden : value := VStruct [mkVField "no" false false (VBasic "int" true)].
Lemma checkDefault_spec_witness :
  checkDefault (fun _ => hidden) (Some (1%nat, VPtr (Some 1%positive))) fresh = Panic.
Proof.
  apply (proj2 (checkDefault_spec (fun _ => hidden) 1%nat (VPtr (Some 1%positive)) fresh)).
  apply Exists_cons_hd. reflexivity.
Defined.
End Tests.
