(* ===== verification/LabRpcService.v ===== *)
(** * lab3/labrpc/labrpc.go: services, and a call from end to end

    [MakeService] collects the methods of an object that look like handlers;
    [Service.dispatch] decodes the argument, calls the handler and encodes the
    reply; [ClientEnd.Call] does the inverse on the other side. LabRpc.v
    models what the network does in between and knows of a server only the
    names of its handlers; here is the rest, and the two are connected.

    Values, types and the wire format belong to [reflect] and [encoding/gob],
    which labgob.go wraps (Labgob.v models its warnings): the class [Gob] has
    what the code relies on. Objects are a state [S]; a handler changes the
    state and fills in the reply. *)

From Stdlib Require Import String Ascii.
From stdpp Require Import prelude gmap strings.
From S2P Require Import Prelude Fnv LabRpc.
Local Open Scope Z_scope.

(** What gob is used for: a value of a type is encoded, and decoded into a
    variable. Gob sends exported fields only, and no channels or functions;
    [transmitted v] is [v] with everything else zero. It also leaves out zero
    fields and does not overwrite what it does not find, so only decoding into
    a zero variable gives the transmitted part back. *)
Class Gob (T V Bytes : Type) : Type := {
  type_of : V -> T;
  zero_of : T -> V;
  gob_encode : V -> option Bytes;
  gob_decode : Bytes -> V -> option V;
  transmitted : V -> V;
  zero_typed t : type_of (zero_of t) = t;
  gob_roundtrip v b : gob_encode v = Some b -> gob_decode b (zero_of (type_of v)) = Some (transmitted v)
}.

Section Service.
Context {S T V Bytes : Type} `{Gob T V Bytes}.

(** [reflect.Method]: [m_In2_ptr] is the type a pointer as third parameter
    points to, [None] when it is no pointer; the receiver is the first. *)
Record Method : Type := mkMethod {
  m_Name : string;
  PkgPath : string;
  NumIn : Z;
  m_In2_ptr : option T;
  NumOut : Z;
  m_Func : S -> V -> V -> go (S * V)
}.

Record Service : Type := mkService {
  svc_name : string;
  methods : gmap string Method
}.

(** The test on the number of parameters comes before the one on the third,
    which would panic without it. *)
Definition suitable (m : Method) : bool :=
  bool_decide (PkgPath m = ""%string) && (NumIn m =? 3) && bool_decide (is_Some (m_In2_ptr m)) && (NumOut m =? 0).

Definition collect (ms : gmap string Method) (method : Method) : gmap string Method :=
  if suitable method then <[m_Name method := method]> ms else ms.

Definition MakeService (name : string) (typ : list Method) : Service :=
  mkService name (foldl collect ∅ typ).

Record reqMsg : Type := mkReq { svcMeth : string; argsType : T; args : Bytes }.
Record replyMsg : Type := mkReply { ok : bool; reply : Bytes }.

(** The errors of [Decode] and [EncodeValue] are ignored: the argument is then
    the zero value, the reply what was written so far, [no_bytes]. *)
Definition Service_dispatch (no_bytes : Bytes) (svc : Service) (s : S) (methname : string) (req : reqMsg)
    : go (S * replyMsg) :=
  match methods svc !! methname with
  | None => Panic
  | Some m =>
      let args := default (zero_of (argsType req)) (gob_decode (args req) (zero_of (argsType req))) in
      match m_In2_ptr m with
      | None => Panic
      | Some replyType =>
          let! '(s, replyv) := m_Func m s args (zero_of replyType) in
          Ret (s, mkReply true (default no_bytes (gob_encode replyv)))
      end
  end.

(** A server with its services; the count is that of LabRpc.v. *)
Record FullServer : Type := mkFull {
  full_services : gmap string Service;
  full_count : Z
}.

Definition MakeServer : FullServer := mkFull ∅ 0.
Definition Server_AddService (rs : FullServer) (svc : Service) : FullServer :=
  mkFull (<[svc_name svc := svc]> (full_services rs)) (full_count rs).

Definition Server_dispatch (no_bytes : Bytes) (rs : FullServer) (s : S) (req : reqMsg)
    : go (FullServer * S * replyMsg) :=
  let rs := mkFull (full_services rs) (full_count rs + 1) in
  let! '(serviceName, methodName) := split_method (svcMeth req) in
  match full_services rs !! serviceName with
  | None => Panic
  | Some service =>
      let! '(s, rep) := Service_dispatch no_bytes service s methodName req in
      Ret (rs, s, rep)
  end.

(** [ClientEnd.Call] before and after the network: an argument that cannot be
    encoded panics, a reply that cannot be decoded is fatal. *)
Definition Call_request (meth : string) (a : V) : go reqMsg :=
  match gob_encode a with
  | None => Panic
  | Some b => Ret (mkReq meth (type_of a) b)
  end.

Definition Call_reply (rep : option replyMsg) (target : V) : go (bool * V) :=
  match rep with
  | Some rep =>
      if ok rep then
        match gob_decode (reply rep) target with
        | None => Panic
        | Some v => Ret (true, v)
        end
      else Ret (false, target)
  | None => Ret (false, target)
  end.

(** A call that the network delivers and whose reply it returns. *)
Definition Call_delivered (no_bytes : Bytes) (rs : FullServer) (s : S) (meth : string) (a target : V)
    : go (FullServer * S * (bool * V)) :=
  let! req := Call_request meth a in
  let! '(rs, s, rep) := Server_dispatch no_bytes rs s req in
  let! r := Call_reply (Some rep) target in
  Ret (rs, s, r).

(** ** The handlers of a service *)

Lemma suitable_spec m :
  suitable m = true <-> PkgPath m = ""%string /\ NumIn m = 3 /\ is_Some (m_In2_ptr m) /\ NumOut m = 0.
Proof. unfold suitable. rewrite !andb_true_iff, !bool_decide_eq_true, !Z.eqb_eq. tauto. Qed.

Lemma collect_lookup (typ : list Method) (ms : gmap string Method) name m :
  NoDup (m_Name <$> typ) -> (forall x, x ∈ typ -> ms !! m_Name x = None) ->
  foldl collect ms typ !! name = Some m
  <-> ms !! name = Some m \/ (m ∈ typ /\ m_Name m = name /\ suitable m = true).
Proof.
  revert ms. induction typ as [|x typ IH]; intros ms Hnd Hfresh; cbn [foldl].
  { split; [by left|]. intros [?|[Hin _]]; [done|by apply elem_of_nil in Hin]. }
  rewrite fmap_cons, NoDup_cons in Hnd. destruct Hnd as [Hx Hnd].
  assert (forall y, y ∈ typ -> m_Name y <> m_Name x) as Hne.
  { intros y Hy E. apply Hx. rewrite <- E. by apply list_elem_of_fmap_2. }
  rewrite IH; [|done|]; unfold collect; cycle 1.
  { intros y Hy. destruct (suitable x); [rewrite lookup_insert_ne by (by apply not_eq_sym, Hne)|];
      apply Hfresh; by right. }
  setoid_rewrite elem_of_cons. destruct (suitable x) eqn:Es.
  - rewrite lookup_insert_Some. split.
    + intros [[[<- <-]|[_ ?]]|(? & ? & ?)]; [right|left|right]; auto.
    + intros [Hm|([->|Hin] & <- & Hs)]; [|by left; left|by right].
      left. right. split; [|done]. intros <-. rewrite Hfresh in Hm; [done|left].
  - split; [intros [?|(? & ? & ?)]; [by left|right; auto]|].
    intros [?|([->|Hin] & ? & Hs)]; [by left|congruence|by right].
Qed.

(** A service offers exactly the methods that look like handlers: those
    that are exported, take an argument and a pointer to a reply next to the
    receiver, and return nothing. *)
Theorem MakeService_spec name typ mname m :
  NoDup (m_Name <$> typ) ->
  methods (MakeService name typ) !! mname = Some m <->
  m ∈ typ /\ m_Name m = mname
  /\ PkgPath m = ""%string /\ NumIn m = 3 /\ is_Some (m_In2_ptr m) /\ NumOut m = 0.
Proof.
  intros Hnd. cbn. rewrite collect_lookup by (try done; intros; apply lookup_empty).
  rewrite lookup_empty, suitable_spec. split; [intros [?|?]; [done|tauto]|intros; right; tauto].
Qed.

(** ** The server of LabRpc.v *)

Definition abs_server (rs : FullServer) : Server :=
  mkServer ((fun svc => dom (methods svc)) <$> full_services rs) (full_count rs).

(** Every handler has a reply type: what [MakeService] guarantees. *)
Definition handlers_ok (rs : FullServer) : Prop :=
  forall name svc mname m, full_services rs !! name = Some svc -> methods svc !! mname = Some m ->
    is_Some (m_In2_ptr m).

Lemma collect_handlers typ (ms : gmap string Method) name m :
  (forall k x, ms !! k = Some x -> is_Some (m_In2_ptr x)) ->
  foldl collect ms typ !! name = Some m ->
  is_Some (m_In2_ptr m).
Proof.
  revert ms. induction typ as [|x typ IH]; intros ms Hms; [apply Hms|]. cbn [foldl].
  apply IH. intros k y. unfold collect. destruct (suitable x) eqn:Es; [|apply Hms].
  intros [[_ <-]|[_ ?]]%lookup_insert_Some; [by apply suitable_spec in Es as (_ & _ & ? & _)|eauto].
Qed.

Lemma AddService_handlers_ok rs name typ :
  handlers_ok rs -> handlers_ok (Server_AddService rs (MakeService name typ)).
Proof.
  intros Hrs n svc mname m Hn Hm. cbn in Hn. apply lookup_insert_Some in Hn as [[_ <-]|[_ Hn]]; [|eauto].
  eapply collect_handlers; [|exact Hm]. intros k x Hk. by rewrite lookup_empty in Hk.
Qed.

(** The server that dispatches for real is the one the network model
    knows. Where that one is fatal so is this one; where that one finds a
    handler, this one counts the same call, runs that handler on the decoded
    argument and a zero reply, and answers with the encoded reply. *)
Theorem dispatch_refines no_bytes rs s req :
  handlers_ok rs ->
  match dispatch (abs_server rs) (svcMeth req) with
  | Ret a => exists m replyType rs', m_In2_ptr m = Some replyType /\ abs_server rs' = a
      /\ Server_dispatch no_bytes rs s req
         = let! '(s', v) := m_Func m s (default (zero_of (argsType req))
                              (gob_decode (args req) (zero_of (argsType req)))) (zero_of replyType) in
           Ret (rs', s', mkReply true (default no_bytes (gob_encode v)))
  | _ => Server_dispatch no_bytes rs s req = Panic
  end.
Proof.
  intros Hrs. unfold dispatch, Server_dispatch.
  destruct (split_method (svcMeth req)) as [[sn mn]| |] eqn:Es; cbn; [|done|].
  - rewrite lookup_fmap. destruct (full_services rs !! sn) as [svc|] eqn:Esvc; cbn; [|done].
    unfold Service_dispatch. case_decide as Hm; cycle 1.
    { apply not_elem_of_dom in Hm. by rewrite Hm. }
    apply elem_of_dom in Hm as [m Hm]. rewrite Hm.
    destruct (Hrs sn svc mn m Esvc Hm) as [rt Hrt]. rewrite Hrt.
    exists m, rt, (mkFull (full_services rs) (full_count rs + 1)). split; [done|]. split; [done|].
    by destruct (m_Func m s _ _) as [[s' v]| |].
  - exfalso. revert Es. unfold split_method. by destruct (last_dot _ _ _).
Qed.

End Service.

(** ** A service with one handler *)

(** Structs of two types with an exported and an unexported number: only the
    first is sent, unless it is zero. *)
Module Demo.
Record V : Type := mkV { vt : bool; exported : Z; unexported : Z }.
#[local] Program Instance number_gob : Gob bool V (option Z) := {
  type_of := vt;
  zero_of t := mkV t 0 0;
  gob_encode v := Some (if exported v =? 0 then None else Some (exported v));
  gob_decode b v := Some (mkV (vt v) (default (exported v) b) (unexported v));
  transmitted v := mkV (vt v) (exported v) 0
}.
Next Obligation. done. Qed.
Next Obligation. intros [t z u] b [= <-]. cbn. by destruct (Z.eqb_spec z 0) as [->|]. Qed.

(** [func (c *Counter) Add(x int, reply *int)], a helper that is no handler,
    and one with a result. *)
Definition Add : Method (S := Z) (T := bool) (V := V) :=
  mkMethod "Add" "" 3 (Some true) 0 (fun s a _ =>
    let sum := s + exported a + unexported a in Ret (sum, mkV true sum sum)).
Definition Value_ : Method (S := Z) (T := bool) (V := V) :=
  mkMethod "Value" "" 1 None 1 (fun s a r => Ret (s, r)).
Definition counter : FullServer := Server_AddService MakeServer (MakeService "Counter" [Add; Value_]).

Lemma MakeService_spec_witness :
  methods (MakeService "Counter" [Add; Value_]) !! "Add"%string = Some Add <->
  Add ∈ [Add; Value_] /\ m_Name Add = "Add"%string
  /\ PkgPath Add = ""%string /\ NumIn Add = 3 /\ is_Some (m_In2_ptr Add) /\ NumOut Add = 0.
Proof.
  apply (MakeService_spec "Counter" [Add; Value_] "Add" Add).
  apply (bool_decide_unpack _). vm_compute. exact I.
Defined.

Lemma counter_handlers_ok : handlers_ok counter.
Proof. apply AddService_handlers_ok. intros n svc k m Hn. cbn in Hn. by rewrite lookup_empty in Hn. Qed.

Lemma dispatch_refines_witness :
  exists m replyType rs', m_In2_ptr m = Some replyType
    /\ abs_server rs' = mkServer {[ "Counter"%string := {[ "Add"%string ]} ]} 1
    /\ Server_dispatch None counter 5 (mkReq "Counter.Add" false (Some 2))
       = let! '(s', v) := m_Func m 5 (mkV false 2 0) (zero_of replyType) in
         Ret (rs', s', mkReply true (default None (gob_encode v))).
Proof. exact (dispatch_refines None counter 5 (mkReq "Counter.Add" false (Some 2)) counter_handlers_ok). Defined.


(** The same call with a reply variable that is not zero, of a reply that is:
    gob does not overwrite it, and the caller reads the old value. *)
Example stale_reply :
  Call_delivered None counter (-2) "Counter.Add" (mkV false 2 0) (mkV true 9 0)
  = Ret (mkFull (full_services counter) 1, 0, (true, mkV true 9 0)).
Proof. vm_compute. reflexivity. Qed.
End Demo.
