(* ===== verification/RaftConfig.v ===== *)
(** * lab3/raft/config.go: the harness that drives a Raft cluster

    [Harness.config] holds what the harness itself keeps: the simulated network, the
    partition ([connected]), the names of the client ends of every server and
    the committed entries it has seen. The Raft instances and their persisters
    are the [cluster] of RaftCluster.v, where [restart] is the part of
    [crash1] and [start1] that concerns them. *)

From Stdlib Require Import String.
From stdpp Require Import prelude gmap relations.
From S2P Require Import Prelude Raft LabRpc RaftCluster RaftElection RaftRuns.

Module Harness.
Section Harness.
Context {E : Type} `{Countable E} {C : Type} `{EqDecision C}.
Notation Network := (LabRpc.Network (E := E) (N := nat)).

Record config : Type := mkConfig {
  net : Network;
  n : nat;
  connected : list bool;
  endnames : list (list E);               (* [] for nil *)
  logs : list (gmap Z (option C));
  maxIndex : Z
}.

Definition set_net (w : Network) (cfg : config) : config :=
  mkConfig w (n cfg) (connected cfg) (endnames cfg) (logs cfg) (maxIndex cfg).

(** ** Partitions *)

(** [cfg.endnames[i][j]] *)
Definition endname (cfg : config) (i j : nat) : go E :=
  let! row := go_index (endnames cfg) (Z.of_nat i) in go_index row (Z.of_nat j).

(** One of the four loops that switch client ends on or off:
    [for j := 0; j < cfg.n; j++ { if cond { cfg.net.Enable(name, yes) } }] *)
Definition toggle1 (cond : nat -> go bool) (name : nat -> go E) (yes : bool) (w : Network) (j : nat) : go Network :=
  let! b := cond j in
  if (b : bool) then let! e := name j in Ret (Enable w e yes) else Ret w.
Definition toggle (cfg : config) (cond : nat -> go bool) (name : nat -> go E) (yes : bool) : go config :=
  let! w := go_fold (toggle1 cond name yes) (net cfg) (seq 0 (n cfg)) in
  Ret (set_net w cfg).

Definition set_connected (cfg : config) (i : nat) (yes : bool) : go config :=
  let! l := go_update (connected cfg) (Z.of_nat i) yes in
  Ret (mkConfig (net cfg) (n cfg) l (endnames cfg) (logs cfg) (maxIndex cfg)).

Definition connect (cfg : config) (i : nat) : go config :=
  let! cfg := set_connected cfg i true in
  let is_connected j := go_index (connected cfg) (Z.of_nat j) in
  let! cfg := toggle cfg is_connected (fun j => endname cfg i j) true in
  toggle cfg is_connected (fun j => endname cfg j i) true.

(** [cfg.endnames[k] != nil] *)
Definition has_ends (cfg : config) (k : nat) : go bool :=
  let! row := go_index (endnames cfg) (Z.of_nat k) in Ret (negb (Nat.eqb (length row) 0)).

Definition disconnect (cfg : config) (i : nat) : go config :=
  let! cfg := set_connected cfg i false in
  let! cfg := toggle cfg (fun _ => has_ends cfg i) (fun j => endname cfg i j) false in
  toggle cfg (fun j => has_ends cfg j) (fun j => endname cfg j i) false.

(** The network's part of [crash1]. *)
Definition crash1_net (cfg : config) (i : nat) : go config :=
  let! cfg := disconnect cfg i in Ret (set_net (DeleteServer (net cfg) i) cfg).

(** [ends[j] = MakeEnd(names[j]); Connect(names[j], j)] *)
Definition make_end (w : Network) (je : nat * E) : go Network :=
  let! w := MakeEnd w je.2 in Ret (Connect w je.2 je.1).

(** The network's part of [start1]: [names] are the [cfg.n] random strings,
    [srv] is the new server object. *)
Definition start1_net (cfg : config) (i : nat) (names : list E) (srv : nat) : go config :=
  let! cfg := crash1_net cfg i in
  let! l := go_update (endnames cfg) (Z.of_nat i) names in
  let! w := go_fold make_end (net cfg) (zip (seq 0 (n cfg)) names) in
  Ret (mkConfig (AddServer w i srv) (n cfg) (connected cfg) l (logs cfg) (maxIndex cfg)).

(** [make_config]: [names i] are the end names drawn for server [i]. *)
Definition empty_config (k : nat) (unreliable : bool) : config :=
  mkConfig (LongDelays (Reliable MakeNetwork (negb unreliable)) true) k
    (replicate k false) (replicate k []) (replicate k ∅) 0.
Definition make_config (k : nat) (unreliable : bool) (names : nat -> list E) : go config :=
  let! cfg := go_fold (fun cfg i => start1_net cfg i (names i) i) (empty_config k unreliable) (seq 0 k) in
  go_fold connect cfg (seq 0 k).

(** ** Committed entries *)

(** Server [j] holds another command at the index. *)
Definition differs (l : list (gmap Z (option C))) (index : Z) (v : option C) (j : nat) : bool :=
  match l !! j ≫= (fun m => m !! index) with Some old => bool_decide (old <> v) | None => false end.

(** The last such server, the one the error message names. *)
Definition conflict (l : list (gmap Z (option C))) (index : Z) (v : option C) : option nat :=
  last (filter (fun j => differs l index v j = true) (seq 0 (length l))).

Definition checkLogs (cfg : config) (i : nat) (m : ApplyMsg C) : go (config * (option nat * bool)) :=
  let err := conflict (logs cfg) (CommandIndex m) (am_Command m) in
  let! log_i := go_index (logs cfg) (Z.of_nat i) in
  let prevok := bool_decide (is_Some (log_i !! (CommandIndex m - 1)%Z)) in
  let! l := go_update (logs cfg) (Z.of_nat i) (<[CommandIndex m := am_Command m]> log_i) in
  Ret (mkConfig (net cfg) (n cfg) (connected cfg) (endnames cfg) l
         (if (maxIndex cfg <? CommandIndex m)%Z then CommandIndex m else maxIndex cfg), (err, prevok)).

(** One message of the loop of [applier]; [log.Fatalf] ends the program. *)
Definition applier (cfg : config) (i : nat) (m : ApplyMsg C) : go config :=
  if negb (CommandValid m) then Ret cfg
  else
    let! '(cfg', (err, prevok)) := checkLogs cfg i m in
    if ((1 <? CommandIndex m)%Z && negb prevok) || bool_decide (is_Some err) then Panic else Ret cfg'.

(** [nCommitted] (the [applyErr] it tests is never set: [log.Fatalf] comes
    first); a mismatch is fatal. *)
Definition nCommitted (cfg : config) (index : Z) : go (Z * option C) :=
  go_fold (fun '(count, cmd) l =>
    match l !! index with
    | Some cmd1 => if ((0 <? count)%Z && bool_decide (cmd <> cmd1)) then Panic else Ret ((count + 1)%Z, cmd1)
    | None => Ret (count, cmd)
    end) (0%Z, None) (logs cfg).

(** ** Leaders *)

(** The servers of each term that say they are leaders: [leaders] of
    [checkOneLeader]; a server that is not connected is not asked. *)
Definition add_leader (conn : list bool) (acc : gmap Z (list nat)) (ir : nat * Raft C) : gmap Z (list nat) :=
  let '(i, rf) := ir in
  if default false (conn !! i) && (GetState rf).2
  then <[(GetState rf).1 := default [] (acc !! (GetState rf).1) ++ [i]]> acc else acc.

Definition leaders_of (conn : list bool) (rafts : list (Raft C)) : gmap Z (list nat) :=
  foldl (add_leader conn) ∅ (zip (seq 0 (length rafts)) rafts).

(** One of the ten iterations of [checkOneLeader]: fatal when a term has two
    leaders, otherwise the leader of the latest term, if there is any. *)
Definition checkOneLeader (conn : list bool) (rafts : list (Raft C)) : go (option nat) :=
  let leaders := leaders_of conn rafts in
  if existsb (fun tl => Nat.ltb 1 (length tl.2)) (map_to_list leaders) then Panic
  else
    let lastTermWithLeader := foldl (fun t tl => Z.max t tl.1) (-1)%Z (map_to_list leaders) in
    if Nat.eqb (size leaders) 0 then Ret None
    else match leaders !! lastTermWithLeader with Some (i :: _) => Ret (Some i) | _ => Panic end.

(** ** The partition is what [connected] says *)

(** The name of the end from [i] to [j], while [i] has one. *)
Definition name_at (cfg : config) (i j : nat) : option E := endnames cfg !! i ≫= (fun row => row !! j).

Lemma endname_name cfg i j e : endname cfg i j = Ret e <-> name_at cfg i j = Some e.
Proof.
  unfold endname, name_at. rewrite bind_Ret. setoid_rewrite go_index_Ret. rewrite !Nat2Z.id.
  destruct (endnames cfg !! i) as [row|]; cbn; split; naive_solver lia.
Qed.

Definition is_conn (cfg : config) (i : nat) : Prop := connected cfg !! i = Some true.

(** An end is switched on exactly when it is a current end between two
    connected servers, and current ends are distinct and lead where they
    should. *)
Record net_inv (cfg : config) : Prop := {
  v_conn : length (connected cfg) = n cfg;
  v_rows : length (endnames cfg) = n cfg;
  v_row : forall i row, endnames cfg !! i = Some row -> row = [] \/ length row = n cfg;
  v_live : forall i, is_conn cfg i -> endnames cfg !! i <> Some [];
  v_ends : forall i j e, name_at cfg i j = Some e -> e ∈ ends (net cfg);
  v_inj : forall i j i' j' e, name_at cfg i j = Some e -> name_at cfg i' j' = Some e -> i = i' /\ j = j';
  v_to : forall i j e, name_at cfg i j = Some e -> connections (net cfg) !! e = Some (Some j);
  v_on : forall e, enabled (net cfg) !! e = Some true <->
    exists i j, name_at cfg i j = Some e /\ is_conn cfg i /\ is_conn cfg j
}.

(** Everything but the switches. *)
Definition same_net (w w' : Network) : Prop := ends w = ends w' /\ connections w = connections w'.

(** The loop switches the ends [hit] and no others. *)
Definition hit (cond : nat -> go bool) (name : nat -> go E) (l : list nat) (e : E) : Prop :=
  exists j, j ∈ l /\ cond j = Ret true /\ name j = Ret e.

Lemma hit_dec cond name l e : hit cond name l e \/ ~ hit cond name l e.
Proof.
  induction l as [|j l [(j' & ? & ?)|IH]]; [right; unfold hit; set_solver|left; exists j'; set_solver|].
  assert ((cond j = Ret true /\ name j = Ret e) \/ ~ (cond j = Ret true /\ name j = Ret e)) as [?|Hn].
  { destruct (cond j) as [[]| |], (name j) as [e'| |]; [destruct (decide (e' = e))|..]; naive_solver. }
  - left. exists j. set_solver.
  - right. intros (j' & [->|Hj]%elem_of_cons & ?); [done|]. apply IH. by exists j'.
Qed.

Lemma toggle_loop cond name yes l w w' : go_fold (toggle1 cond name yes) w l = Ret w' ->
  same_net w w'
  /\ (forall e, hit cond name l e \/ enabled w !! e = Some yes -> enabled w' !! e = Some yes)
  /\ (forall e, ~ hit cond name l e -> enabled w' !! e = enabled w !! e)
  /\ (forall j, j ∈ l -> cond j = Ret true -> returns (name j)).
Proof.
  revert w. induction l as [|j l IH]; cbn; intros w Hf.
  { injection Hf as ->. split_and!; [done|unfold hit; set_solver|done|set_solver]. }
  apply bind_Ret in Hf as (w1 & Hj & Hf). apply IH in Hf as (IH1 & IH2 & IH3 & IH4).
  unfold toggle1 in Hj. apply bind_Ret in Hj as ([] & Hc & Hj).
  - apply bind_Ret in Hj as (e0 & Hn & [= <-]). split_and!; [by destruct IH1; split|..].
    + intros e He. apply IH2. cbn. destruct (decide (e0 = e)) as [->|Ne]; [right; by rewrite lookup_insert_eq|].
      rewrite lookup_insert_ne by done. destruct He as [(j' & [->|?]%elem_of_cons & ? & ?)|He]; [congruence| |by right].
      left. by exists j'.
    + intros e He. rewrite IH3 by (intros (k & ? & ?); apply He; exists k; set_solver). cbn.
      rewrite lookup_insert_ne; [done|]. intros ->. apply He. exists j. set_solver.
    + intros j' [->|?]%elem_of_cons Hj'; [by exists e0|auto].
  - injection Hj as <-. split_and!; [done|..].
    + intros e [(j' & [->|?]%elem_of_cons & ? & ?)|He]; apply IH2; [congruence|left; by exists j'|by right].
    + intros e He. apply IH3. intros (k & ? & ?). apply He. exists k. set_solver.
    + intros j' [->|?]%elem_of_cons Hj'; [congruence|auto].
Qed.

Lemma toggle_spec cfg cond name yes cfg' : toggle cfg cond name yes = Ret cfg' ->
  cfg' = set_net (net cfg') cfg /\ same_net (net cfg) (net cfg')
  /\ (forall e, hit cond name (seq 0 (n cfg)) e \/ enabled (net cfg) !! e = Some yes ->
        enabled (net cfg') !! e = Some yes)
  /\ (forall e, hit cond name (seq 0 (n cfg)) e \/ enabled (net cfg') !! e = enabled (net cfg) !! e)
  /\ (forall j, (j < n cfg)%nat -> cond j = Ret true -> returns (name j)).
Proof.
  unfold toggle. intros (w & Hw & [= <-])%bind_Ret. apply toggle_loop in Hw as (? & ? & H3 & H4).
  split_and!; try done; [intros e; destruct (hit_dec cond name (seq 0 (n cfg)) e); auto|]. intros j Hj. apply H4. apply elem_of_seq. lia.
Qed.

Lemma set_connected_spec cfg i yes cfg' : set_connected cfg i yes = Ret cfg' ->
  (i < length (connected cfg))%nat /\
  cfg' = mkConfig (net cfg) (n cfg) (<[i := yes]> (connected cfg)) (endnames cfg) (logs cfg) (maxIndex cfg).
Proof.
  unfold set_connected, go_update. rewrite Nat2Z.id.
  destruct ((Z.of_nat i <? 0)%Z || _) eqn:B; cbn; [done|]. bprop. intros [= <-]. split; [lia|done].
Qed.


Lemma index_Ret {A} (l : list A) i x : go_index l (Z.of_nat i) = Ret x <-> l !! i = Some x.
Proof. rewrite go_index_Ret, Nat2Z.id. split; [tauto|split; [lia|done]]. Qed.

Lemma update_nat {A} (l : list A) i x y : l !! i = Some y -> go_update l (Z.of_nat i) x = Ret (<[i := x]> l).
Proof.
  intros Hi%lookup_lt_Some. apply go_update_Ret. rewrite Nat2Z.id. unfold len. split; [lia|done].
Qed.

Lemma has_ends_Ret cfg k : has_ends cfg k = Ret true <-> exists row, endnames cfg !! k = Some row /\ row <> [].
Proof.
  unfold has_ends. rewrite bind_Ret. setoid_rewrite index_Ret. split.
  - intros (row & ? & E0). exists row. split; [done|]. by intros ->.
  - intros (row & ? & ?). exists row. split; [done|]. by destruct row.
Qed.

Lemma is_conn_insert cfg i a yes :
  (i < length (connected cfg))%nat ->
  <[i := yes]> (connected cfg) !! a = Some true <-> (a = i /\ yes = true) \/ (a <> i /\ is_conn cfg a).
Proof.
  intros Hi. unfold is_conn. rewrite list_lookup_insert. case_decide; naive_solver.
Qed.

Lemma connect_inv cfg i cfg' : net_inv cfg -> connect cfg i = Ret cfg' -> net_inv cfg'.
Proof.
  intros I (c1 & [Hi ->]%set_connected_spec & Hc)%bind_Ret. apply bind_Ret in Hc as (c2 & H1 & H2).
  apply toggle_spec in H1 as (E1 & [S1 S1'] & T1 & F1 & R1).
  apply toggle_spec in H2 as (E2 & [S2 S2'] & T2 & F2 & _). rewrite E1 in E2, T2, F2.
  rewrite E2. cbn [net n connected endnames logs maxIndex set_net] in *.
  set (c := <[i := true]> (connected cfg)) in *.
  assert (Hc : forall a, c !! a = Some true <-> a = i \/ is_conn cfg a).
  { intros a. unfold c. rewrite (is_conn_insert _ _ _ true Hi). destruct (decide (a = i)); naive_solver. }
  assert (Hlt : forall a, c !! a = Some true -> a ∈ seq 0 (n cfg)).
  { intros a Ha%lookup_lt_Some. unfold c in Ha. rewrite length_insert, (v_conn _ I) in Ha. apply elem_of_seq. lia. }
  destruct I. constructor; unfold is_conn, name_at in *; cbn [net n connected endnames set_net] in *;
    rewrite <- ?S2, <- ?S1, <- ?S2', <- ?S1'; try done.
  - unfold c. by rewrite length_insert.
  - intros a [->|Ha]%Hc; [|by apply v_live0]. intros E0.
    destruct (R1 i) as [e He]; [lia|by apply index_Ret, Hc; left|].
    apply endname_name in He. unfold name_at in He. cbn in He. by rewrite E0 in He.
  - intros e. split.
    + intros He. destruct (F2 e) as [(j & _ & Hj & Hn)|E3]; [|destruct (F1 e) as [(j & _ & Hj & Hn)|E4]].
      * apply index_Ret in Hj. apply endname_name in Hn. exists j, i. by rewrite (Hc i); auto.
      * apply index_Ret in Hj. apply endname_name in Hn. exists i, j. by rewrite (Hc i); auto.
      * rewrite E3, E4 in He. apply v_on0 in He as (a & b & ? & ? & ?). exists a, b. rewrite !Hc. auto.
    + intros (a & b & Hn & Ha & Hb). apply T2.
      destruct (decide (b = i)) as [->|Nb].
      { left. exists a. split; [auto|]. split; [by apply index_Ret|by apply endname_name]. }
      right. apply T1. destruct (decide (a = i)) as [->|Na].
      { left. exists b. split; [auto|]. split; [by apply index_Ret|by apply endname_name]. }
      right. apply v_on0. exists a, b. rewrite !Hc in Ha, Hb. naive_solver.
Qed.

Lemma disconnect_inv cfg i cfg' : net_inv cfg -> disconnect cfg i = Ret cfg' ->
  net_inv cfg' /\ connected cfg' !! i = Some false /\ endnames cfg' = endnames cfg /\ n cfg' = n cfg.
Proof.
  intros I (c1 & [Hi ->]%set_connected_spec & Hc)%bind_Ret. apply bind_Ret in Hc as (c2 & H1 & H2).
  apply toggle_spec in H1 as (E1 & [S1 S1'] & T1 & F1 & _).
  apply toggle_spec in H2 as (E2 & [S2 S2'] & T2 & F2 & _). rewrite E1 in E2, T2, F2.
  rewrite E2. cbn [net n connected endnames logs maxIndex set_net] in *.
  set (c := <[i := false]> (connected cfg)) in *.
  split; [|by split_and!; [apply list_lookup_insert_eq|..]].
  assert (Hc : forall a, c !! a = Some true <-> a <> i /\ is_conn cfg a).
  { intros a. unfold c. rewrite (is_conn_insert _ _ _ false Hi). naive_solver. }
  assert (Hrow : forall a b e, name_at cfg a b = Some e -> a ∈ seq 0 (n cfg) /\ b ∈ seq 0 (n cfg)
    /\ exists row, endnames cfg !! a = Some row /\ row <> []).
  { intros a b e Hn. unfold name_at in Hn. destruct (endnames cfg !! a) as [row|] eqn:Er; [|done]. cbn in Hn.
    pose proof (lookup_lt_Some _ _ _ Hn). pose proof (lookup_lt_Some _ _ _ Er).
    rewrite (v_rows _ I) in *. destruct (v_row _ I a row Er); [by subst|].
    rewrite !elem_of_seq. split_and!; [lia..|]. exists row. split; [done|]. by intros ->. }
  destruct I. constructor; unfold is_conn in *; cbn [net n connected endnames set_net] in *;
    rewrite <- ?S2, <- ?S1, <- ?S2', <- ?S1'; try done.
  - unfold c. by rewrite length_insert.
  - intros a [_ Ha]%Hc. by apply v_live0.
  - intros e. split.
    + intros He. destruct (F2 e) as [Hh|E3]; [rewrite (T2 e (or_introl Hh)) in He; done|].
      destruct (F1 e) as [Hh|E4]; [rewrite E3, (T1 e (or_introl Hh)) in He; done|].
      rewrite E3, E4 in He. pose proof (proj1 (v_on0 e) He) as (a & b & Hn & Ha & Hb).
      exists a, b. split; [done|]. rewrite !Hc. destruct (Hrow a b e Hn) as (? & ? & ?).
      split_and!; try done; intros ->.
      * rewrite <- E4, (T1 e) in He; [done|]. left. exists b. by rewrite has_ends_Ret, endname_name.
      * rewrite <- E4, <- E3, (T2 e) in He; [done|]. left. exists a. by rewrite has_ends_Ret, endname_name.
    + intros (a & b & Hn & [Na Ha]%Hc & [Nb Hb]%Hc).
      destruct (F2 e) as [(j & _ & _ & Hj%endname_name)|E3]; [by destruct (v_inj0 a b j i e Hn Hj)|].
      destruct (F1 e) as [(j & _ & _ & Hj%endname_name)|E4]; [by destruct (v_inj0 a b i j e Hn Hj)|].
      rewrite E3, E4. apply v_on0. by exists a, b.
Qed.

Lemma set_servers_inv cfg m : net_inv cfg -> net_inv (set_net (set_servers m (net cfg)) cfg).
Proof. by intros []; constructor. Qed.

Lemma make_ends_spec (L : list (nat * E)) (w w' : Network) : go_fold make_end w L = Ret w' ->
  (forall e, e ∈ ends w' <-> e ∈ ends w \/ e ∈ L.*2) /\ NoDup L.*2 /\ (forall e, e ∈ L.*2 -> e ∉ ends w)
  /\ (forall e, e ∈ L.*2 -> enabled w' !! e = Some false)
  /\ (forall e, e ∉ L.*2 -> enabled w' !! e = enabled w !! e /\ connections w' !! e = connections w !! e)
  /\ (forall j e, (j, e) ∈ L -> connections w' !! e = Some (Some j)).
Proof.
  revert w. induction L as [|[j0 e0] L IH]; cbn; intros w Hf.
  { injection Hf as ->. split_and!; try set_solver. apply NoDup_nil_2. }
  apply bind_Ret in Hf as (w1 & Hj & Hf). unfold make_end, MakeEnd in Hj. cbn in Hj.
  case_decide as De; [done|]. injection Hj as <-.
  apply IH in Hf as (I1 & I2 & I3 & I4 & I5 & I6). clear IH. cbn [ends enabled connections Connect] in *.
  assert (He0 : e0 ∉ L.*2) by (intros Hin; apply (I3 e0 Hin); set_solver).
  split_and!.
  - intros e. rewrite I1, elem_of_union, elem_of_singleton, elem_of_cons. naive_solver.
  - by apply NoDup_cons.
  - intros e [->|He]%elem_of_cons; [done|]. specialize (I3 e He). set_solver.
  - intros e [->|He]%elem_of_cons; [|auto]. destruct (I5 e0 He0) as [-> _]. by rewrite lookup_insert_eq.
  - intros e [Hne He]%not_elem_of_cons. destruct (I5 e He) as [-> ->]. by rewrite !lookup_insert_ne.
  - intros j e [[= -> ->]|Hin]%elem_of_cons; [|auto]. destruct (I5 e0 He0) as [_ ->]. by rewrite lookup_insert_eq.
Qed.

Lemma zip_seq_elem {A} (l : list A) k x : (k, x) ∈ zip (seq 0 (length l)) l <-> l !! k = Some x.
Proof.
  split.
  - intros [j Hj]%list_elem_of_lookup_1. apply lookup_zip_Some in Hj as [Hj ?].
    apply lookup_seq in Hj as [-> _]. done.
  - intros Hk. apply (list_elem_of_lookup_2 _ k), lookup_zip_Some. split; [|done].
    apply lookup_seq. apply lookup_lt_Some in Hk. lia.
Qed.

Lemma zip_seq_snd (names : list E) : (zip (seq 0 (length names)) names).*2 = names.
Proof. apply snd_zip. by rewrite length_seq. Qed.

Lemma crash1_inv cfg i cfg' : net_inv cfg -> crash1_net cfg i = Ret cfg' ->
  net_inv cfg' /\ connected cfg' !! i = Some false /\ n cfg' = n cfg.
Proof.
  intros I (c & (Ic & ? & _ & ?)%disconnect_inv & [= <-])%bind_Ret; [|done].
  by split; [apply set_servers_inv|].
Qed.

(** New ends for server [i] while it is off the network. *)
Lemma new_ends_inv cfg i names srv w : net_inv cfg -> length names = n cfg ->
  connected cfg !! i = Some false -> (i < length (endnames cfg))%nat ->
  go_fold make_end (net cfg) (zip (seq 0 (n cfg)) names) = Ret w ->
  net_inv (mkConfig (AddServer w i srv) (n cfg) (connected cfg) (<[i := names]> (endnames cfg)) (logs cfg) (maxIndex cfg)).
Proof.
  intros I Hlen Hci Hi Hw. rewrite <- Hlen in Hw. pose proof (make_ends_spec _ _ _ Hw) as (M1 & M2 & M3 & M4 & M5 & M6).
  rewrite zip_seq_snd in *. setoid_rewrite zip_seq_elem in M6.
  assert (Hat : forall a b, <[i := names]> (endnames cfg) !! a ≫= (fun row => row !! b)
    = if decide (a = i) then names !! b else name_at cfg a b).
  { intros a b. unfold name_at. rewrite list_lookup_insert. repeat case_decide; naive_solver. }
  assert (Hold : forall a b e, name_at cfg a b = Some e -> e ∉ names).
  { intros a b e Hn He. by apply (M3 e He), (v_ends _ I a b). }
  destruct I. constructor; unfold is_conn in *; cbn [net n connected endnames AddServer set_servers ends enabled connections];
    unfold name_at; cbn [endnames]; try done.
  - by rewrite length_insert.
  - intros a row. rewrite list_lookup_insert. case_decide; [intros [= <-]; by right|apply v_row0].
  - intros a Ha. rewrite list_lookup_insert. case_decide as D; [destruct D; congruence|by apply v_live0].
  - intros a b e. rewrite Hat, M1. case_decide; [|eauto]. intros He%list_elem_of_lookup_2. by right.
  - intros a b a' b' e. rewrite !Hat. repeat case_decide; subst.
    + intros. split; [done|]. by eapply NoDup_lookup.
    + intros He%list_elem_of_lookup_2 Hn. by destruct (Hold _ _ _ Hn).
    + intros Hn He%list_elem_of_lookup_2. by destruct (Hold _ _ _ Hn).
    + eauto.
  - intros a b e. rewrite Hat. case_decide; [by apply M6|]. intros Hn.
    destruct (M5 e (Hold _ _ _ Hn)) as [_ ->]. eauto.
  - intros e. setoid_rewrite Hat. split.
    + intros He. assert (Hn : e ∉ names) by (intros Hin; rewrite M4 in He; done).
      destruct (M5 e Hn) as [E1 _]. rewrite E1 in He. apply v_on0 in He as (a & b & ? & ? & ?).
      exists a, b. by rewrite decide_False by congruence.
    + intros (a & b & Hn & Ha & Hb). rewrite decide_False in Hn by congruence.
      destruct (M5 e (Hold _ _ _ Hn)) as [-> _]. apply v_on0. by exists a, b.
Qed.

Lemma start1_inv cfg i names srv cfg' : net_inv cfg -> length names = n cfg ->
  start1_net cfg i names srv = Ret cfg' -> net_inv cfg'.
Proof.
  intros I Hlen (c1 & Hc & H1)%bind_Ret. apply crash1_inv in Hc as (Ic & Hci & Hn); [|done].
  apply bind_Ret in H1 as (l & [Hi ->]%go_update_Ret & H1). apply bind_Ret in H1 as (w & Hw & [= <-]).
  rewrite Nat2Z.id. unfold len in Hi. apply new_ends_inv; try done; [congruence|lia].
Qed.

(** What a test does to the network. *)
Inductive hop : Type := HConnect (i : nat) | HDisconnect (i : nat) | HCrash (i : nat)
  | HStart (i : nat) (names : list E) (srv : nat).

Definition hop_step (cfg : config) (o : hop) : go config :=
  match o with
  | HConnect i => connect cfg i
  | HDisconnect i => disconnect cfg i
  | HCrash i => crash1_net cfg i
  | HStart i names srv => if Nat.eqb (length names) (n cfg) then start1_net cfg i names srv else Panic
  end.

Lemma hop_inv cfg o cfg' : net_inv cfg -> hop_step cfg o = Ret cfg' -> net_inv cfg'.
Proof.
  intros I. destruct o; cbn.
  - by apply connect_inv.
  - by intros (? & _)%disconnect_inv.
  - by intros (? & _)%crash1_inv.
  - destruct (Nat.eqb_spec (length names) (n cfg)); [by apply start1_inv|done].
Qed.

Lemma start1_n cfg i names srv cfg' : net_inv cfg -> start1_net cfg i names srv = Ret cfg' -> n cfg' = n cfg.
Proof.
  intros I (c1 & Hc & H1)%bind_Ret. apply crash1_inv in Hc as (_ & _ & Hn); [|done].
  apply bind_Ret in H1 as (l & _ & H1). by apply bind_Ret in H1 as (w & _ & [= <-]).
Qed.

Lemma make_config_inv k unreliable names cfg :
  (forall i, (i < k)%nat -> length (names i) = k) -> make_config k unreliable names = Ret cfg -> net_inv cfg.
Proof.
  intros Hl (c & H1 & H2)%bind_Ret. eapply (go_fold_inv net_inv); [|intros; by eapply connect_inv|exact H2].
  eapply (go_fold_inv (fun c => net_inv c /\ n c = k)); [..|exact H1].
  - split; [|done]. constructor; unfold is_conn, name_at; cbn; rewrite ?length_replicate; try done.
    + intros i row [-> _]%lookup_replicate. by left.
    + intros i [? _]%lookup_replicate. done.
    + intros i j e. rewrite bind_Some. intros (row & [-> _]%lookup_replicate & ?). done.
    + intros i j i' j' e. rewrite bind_Some. intros (row & [-> _]%lookup_replicate & ?). done.
    + intros i j e. rewrite bind_Some. intros (row & [-> _]%lookup_replicate & ?). done.
    + intros e. split; [done|]. intros (i & j & Hn & _). rewrite bind_Some in Hn.
      destruct Hn as (row & [-> _]%lookup_replicate & ?). done.
  - intros c1 i c2 Hi [I <-] Hs. apply elem_of_seq in Hi. split; [|by eapply start1_n].
    eapply start1_inv; [done| |done]. apply Hl. lia.
Qed.

(** C21: the harness's partitions are exact. After [make_config] and any
    sequence of connects, disconnects, crashes and restarts, a client end is
    switched on if and only if it is the current end from a connected server
    to a connected server, and the end from [i] to [j] leads to [j]: no end of
    an earlier incarnation of a server can still send. *)
Theorem partition_exact k unreliable names cfg0 ops cfg :
  (forall i, (i < k)%nat -> length (names i) = k) ->
  make_config k unreliable names = Ret cfg0 -> go_fold hop_step cfg0 ops = Ret cfg ->
  (forall e, default false (enabled (net cfg) !! e) = true <->
     exists i j, name_at cfg i j = Some e /\ is_conn cfg i /\ is_conn cfg j)
  /\ (forall i j, is_conn cfg i -> is_conn cfg j ->
     exists e, name_at cfg i j = Some e /\ connections (net cfg) !! e = Some (Some j)).
Proof.
  intros Hl Hm Hf. apply make_config_inv in Hm; [|done].
  apply (go_fold_inv net_inv) in Hf; [|done|intros; by eapply hop_inv]. clear Hm. split.
  - intros e. rewrite <- (v_on _ Hf). destruct (enabled (net cfg) !! e) as [[]|]; naive_solver.
  - intros i j Hi Hj. assert (exists e, name_at cfg i j = Some e) as [e He].
    { apply lookup_lt_Some in Hj. rewrite (v_conn _ Hf) in Hj. pose proof (v_live _ Hf i Hi) as Hr.
      apply lookup_lt_Some in Hi. rewrite (v_conn _ Hf), <- (v_rows _ Hf) in Hi.
      apply lookup_lt_is_Some in Hi as [row Hrow]. unfold name_at. rewrite Hrow. cbn.
      destruct (v_row _ Hf i row Hrow) as [->|Hn]; [done|]. apply lookup_lt_is_Some. lia. }
    exists e. split; [done|]. by apply (v_to _ Hf i).
Qed.

(** ** The check of committed entries *)

(** The entry server [i] has committed at an index. *)
Definition entry (cfg : config) (i : nat) (index : Z) : option (option C) :=
  logs cfg !! i ≫= (fun m => m !! index).

Definition agree (cfg : config) : Prop :=
  forall i j index v w, entry cfg i index = Some v -> entry cfg j index = Some w -> v = w.
Definition gap_free (cfg : config) : Prop :=
  forall i index, (1 < index)%Z -> is_Some (entry cfg i index) -> is_Some (entry cfg i (index - 1)).

Lemma conflict_spec l index v :
  is_Some (conflict l index v) <-> exists j old, l !! j ≫= (fun m => m !! index) = Some old /\ old <> v.
Proof.
  unfold conflict. rewrite last_is_Some.
  assert (Hd : forall j, differs l index v j = true <-> exists old, l !! j ≫= (fun m => m !! index) = Some old /\ old <> v).
  { intros j. unfold differs. case_match; [rewrite bool_decide_eq_true|]; naive_solver. }
  split.
  - intros Hne. destruct (filter _ _) as [|j r] eqn:Ef; [done|].
    assert (Hj : j ∈ filter (fun j => differs l index v j = true) (seq 0 (length l))) by (rewrite Ef; set_solver).
    apply list_elem_of_filter in Hj as [(old & ? & ?)%Hd _]. by exists j, old.
  - intros (j & old & Hj & Hv) E0. apply (not_elem_of_nil j). rewrite <- E0. apply list_elem_of_filter.
    split; [apply Hd; eauto|]. apply bind_Some in Hj as (m & Hj & _). apply lookup_lt_Some in Hj.
    apply elem_of_seq. lia.
Qed.

(** The step on a valid message of an existing server, in one equation. *)
Lemma applier_valid cfg i m l : CommandValid m = true -> logs cfg !! i = Some l ->
  applier cfg i m =
    if decide ((1 < CommandIndex m)%Z /\ l !! (CommandIndex m - 1)%Z = None
               \/ is_Some (conflict (logs cfg) (CommandIndex m) (am_Command m))) then Panic
    else Ret (mkConfig (net cfg) (n cfg) (connected cfg) (endnames cfg)
           (<[i := <[CommandIndex m := am_Command m]> l]> (logs cfg))
           (if (maxIndex cfg <? CommandIndex m)%Z then CommandIndex m else maxIndex cfg)).
Proof.
  intros Hv Hi. unfold applier, checkLogs. rewrite Hv. cbn [negb].
  rewrite (go_index_nat _ _ _ Hi). cbn [mbind go_bind].
  rewrite (update_nat _ _ _ _ Hi). cbn [mbind go_bind].
  destruct (Z.ltb_spec 1 (CommandIndex m)), (l !! (CommandIndex m - 1)%Z);
    destruct (conflict (logs cfg) (CommandIndex m) (am_Command m)); cbn;
    case_decide as D; try done; exfalso;
    solve [destruct D as [[? ?]|[? ?]]; first [done|lia]
          |apply D; first [by left; split; [lia|]|by right; eexists]].
Qed.


Lemma applier_inv cfg i m cfg' : agree cfg -> gap_free cfg -> applier cfg i m = Ret cfg' ->
  agree cfg' /\ gap_free cfg'.
Proof.
  intros HA HG Hs. destruct (CommandValid m) eqn:Hv.
  2:{ unfold applier in Hs. rewrite Hv in Hs. cbn in Hs. by injection Hs as <-. }
  destruct (logs cfg !! i) as [l|] eqn:Hi.
  2:{ unfold applier, checkLogs in Hs. rewrite Hv in Hs. go_inv. rewrite Nat2Z.id in *. congruence. }
  rewrite (applier_valid _ _ _ _ Hv Hi) in Hs. case_decide as D; [done|]. apply Decidable.not_or in D as [D1 D2].
  rewrite conflict_spec in D2. injection Hs as <-.
  set (k := CommandIndex m) in *. set (v := am_Command m) in *.
  match goal with |- agree ?c /\ _ => set (cfg' := c) end.
  assert (He : forall j index, entry cfg' j index =
    if decide (j = i /\ index = k) then Some v else entry cfg j index).
  { intros j index. unfold entry, cfg'. cbn [logs]. rewrite list_lookup_insert.
    pose proof (lookup_lt_Some _ _ _ Hi). repeat case_decide; try done; try naive_solver; cbn.
    - destruct_and!; subst. by rewrite lookup_insert_eq.
    - destruct_and!; subst. rewrite Hi. cbn. rewrite lookup_insert_ne; [done|naive_solver]. }
  assert (Hv' : forall j old, entry cfg j k = Some old -> old = v).
  { intros j old Hj. destruct (decide (old = v)); [done|]. exfalso. apply D2. by exists j, old. }
  split.
  - intros a b index x y. rewrite !He. repeat case_decide; destruct_and?; subst; intros; simplify_eq; eauto.
    symmetry. eauto.
  - intros a index Hlt. rewrite !He. repeat case_decide; destruct_and?; subst; intros Hx; eauto; try lia.
    + unfold entry. rewrite Hi. cbn. destruct (l !! (k - 1)%Z) eqn:El; [done|]. exfalso. apply D1. split; [lia|done].
Qed.

Lemma nCommitted_spec cfg index : agree cfg -> exists cmd,
  nCommitted cfg index = Ret (Z.of_nat (length (filter (fun l => is_Some (l !! index)) (logs cfg))), cmd)
  /\ forall i v, entry cfg i index = Some v -> v = cmd.
Proof.
  intros HA. unfold agree, entry, nCommitted in *. generalize dependent (logs cfg). intros L.
  induction L as [|l L IH] using rev_ind; intros HA; [by exists None|].
  assert (HA' : forall i j k v w, L !! i ≫= (fun m => m !! k) = Some v -> L !! j ≫= (fun m => m !! k) = Some w -> v = w).
  { intros i j k v w (x & Hx & ?)%bind_Some (y & Hy & ?)%bind_Some.
    eapply (HA i j k); [rewrite (lookup_app_l_Some _ _ _ _ Hx)|rewrite (lookup_app_l_Some _ _ _ _ Hy)]; done. }
  destruct (IH HA') as (cmd & Hf & Hc). rewrite go_fold_app, Hf, filter_app, length_app. cbn [mbind go_bind go_fold].
  assert (Hl : (L ++ [l]) !! length L = Some l) by (by apply list_lookup_middle).
  destruct (l !! index) as [v|] eqn:El.
  - assert (Hall : forall i w, (L ++ [l]) !! i ≫= (fun m => m !! index) = Some w -> w = v).
    { intros i w Hw. apply (HA i (length L) index); [done|]. by rewrite Hl. }
    exists v. rewrite filter_cons_True, filter_nil by done. split; [|done]. cbn [length].
    destruct ((0 <? _)%Z && bool_decide (cmd <> v)) eqn:B; [exfalso|cbn; do 2 f_equal; lia].
    bprop. apply bool_decide_eq_true in H1. apply H1.
    destruct (filter (fun l => is_Some (l !! index)) L) as [|x r] eqn:Ef; [cbn in H0; lia|].
    assert (Hx : x ∈ filter (fun l => is_Some (l !! index)) L) by (rewrite Ef; set_solver).
    apply list_elem_of_filter in Hx as [[w Hw] [j Hj]%list_elem_of_lookup_1].
    rewrite <- (Hc j w) by (by rewrite Hj). apply (Hall j). by rewrite (lookup_app_l_Some _ _ _ _ Hj).
  - exists cmd. rewrite filter_cons_False, filter_nil by (rewrite El; by intros []). split; [cbn; do 2 f_equal; lia|].
    intros i v (x & Hx & Hv)%bind_Some. apply lookup_app_Some in Hx as [Hx|[_ Hx]].
    + apply (Hc i). by rewrite Hx.
    + apply list_lookup_singleton_Some in Hx as [_ <-]. congruence.
Qed.

(** C22: the harness detects every violation of state machine safety and only
    those. It stops at a delivered entry exactly when some server has already
    committed another command at that index or the previous index is missing;
    as long as it has not stopped, all servers agree on every index, no
    committed log has a gap, and [nCommitted] returns the number of servers
    that committed an index together with the command they all have. *)
Theorem applier_checks k unreliable (msgs : list (nat * ApplyMsg C)) cfg :
  go_fold (fun c im => applier c im.1 im.2) (empty_config k unreliable) msgs = Ret cfg ->
  agree cfg /\ gap_free cfg
  /\ (forall index, exists cmd,
        nCommitted cfg index = Ret (Z.of_nat (length (filter (fun l => is_Some (l !! index)) (logs cfg))), cmd)
        /\ forall i v, entry cfg i index = Some v -> v = cmd)
  /\ (forall i m l, CommandValid m = true -> logs cfg !! i = Some l ->
        applier cfg i m = Panic <->
          ((1 < CommandIndex m)%Z /\ entry cfg i (CommandIndex m - 1) = None)
          \/ exists j old, entry cfg j (CommandIndex m) = Some old /\ old <> am_Command m).
Proof.
  intros Hf. apply (go_fold_inv (fun c => agree c /\ gap_free c)) in Hf as [HA HG].
  - split_and!; [done|done|intros; by apply nCommitted_spec|].
    intros i m l Hv Hi. rewrite (applier_valid _ _ _ _ Hv Hi). unfold entry. rewrite Hi. cbn.
    rewrite <- conflict_spec. case_decide; naive_solver.
  - assert (He : forall i index, entry (empty_config k unreliable) i index = None).
    { intros i index. unfold entry. cbn. destruct (_ !! i) eqn:E0; [|done].
      apply lookup_replicate in E0 as [-> _]. done. }
    split; [intros i j index v w|intros i index _ [v Hv]]; rewrite He in *; done.
  - intros c [i m] c' _ [? ?]. by apply applier_inv.
Qed.

(** ** The check of leaders *)

(** Server [i] is asked and says it leads term [t]. *)
Definition says (conn : list bool) (t : Z) (ir : nat * Raft C) : Prop :=
  conn !! ir.1 = Some true /\ state ir.2 = Leader /\ currentTerm ir.2 = t.

#[local] Instance says_dec conn t ir : Decision (says conn t ir).
Proof. unfold says. apply _. Defined.

Lemma add_leader_lookup conn L t : foldl (add_leader conn) ∅ L !! t =
  match filter (says conn t) L with [] => None | l => Some l.*1 end.
Proof.
  induction L as [|[i rf] L IH] using rev_ind; [done|]. rewrite foldl_snoc, filter_app. cbn [add_leader].
  destruct (default false (conn !! i) && (GetState rf).2) eqn:B.
  - unfold GetState, is_leader in *. cbn [fst snd] in *. bprop. apply bool_decide_eq_true in H1.
    assert (Hc : conn !! i = Some true) by (by destruct (conn !! i) as [[]|]).
    destruct (decide (currentTerm rf = t)) as [<-|Ne].
    + rewrite lookup_insert_eq, IH, filter_cons_True, filter_nil by done.
      destruct (filter _ L) as [|x r]; [done|]. cbn. by rewrite fmap_app.
    + rewrite lookup_insert_ne, IH, filter_cons_False, filter_nil, app_nil_r by (done || by intros (_ & _ & ?)). done.
  - rewrite IH, filter_cons_False, filter_nil, app_nil_r; [done|]. intros (Hc & Hs & _). cbn in *.
    rewrite Hc in B. unfold is_leader in B. rewrite bool_decide_true in B by done. done.
Qed.

Lemma leaders_lookup conn rafts t : leaders_of conn rafts !! t =
  match filter (says conn t) (zip (seq 0 (length rafts)) rafts) with [] => None | l => Some l.*1 end.
Proof. apply add_leader_lookup. Qed.

Lemma leaders_elem conn rafts t l i : leaders_of conn rafts !! t = Some l -> i ∈ l ->
  exists rf, rafts !! i = Some rf /\ says conn t (i, rf).
Proof.
  rewrite leaders_lookup. destruct (filter _ _) as [|x r] eqn:Ef; [done|]. intros [= <-] Hi.
  rewrite <- fmap_cons, <- Ef in Hi. apply list_elem_of_fmap in Hi as ([j rf] & -> & Hx).
  apply list_elem_of_filter in Hx as [? ?%zip_seq_elem]. by exists rf.
Qed.

Lemma leaders_nodup conn rafts t l : leaders_of conn rafts !! t = Some l -> NoDup l /\ l <> [].
Proof.
  rewrite leaders_lookup. destruct (filter _ _) as [|x r] eqn:Ef; [done|]. intros [= <-]. split; [|done].
  rewrite <- fmap_cons, <- Ef. eapply sublist_NoDup; [|apply fmap_sublist, sublist_filter].
  rewrite fst_zip by (by rewrite length_seq). apply NoDup_seq.
Qed.

Lemma foldl_max {A} (L : list (Z * A)) b :
  (b <= foldl (fun t tl => Z.max t tl.1) b L)%Z
  /\ (forall x, x ∈ L -> (x.1 <= foldl (fun t tl => Z.max t tl.1) b L)%Z)
  /\ (foldl (fun t tl => Z.max t tl.1) b L = b \/ exists x, x ∈ L /\ foldl (fun t tl => Z.max t tl.1) b L = x.1).
Proof.
  revert b. induction L as [|y L IH]; intros b; cbn; [split_and!; [lia|set_solver|by left]|].
  destruct (IH (Z.max b y.1)) as (H1 & H2 & H3). split_and!; [lia|intros x [->|?]%elem_of_cons; [lia|auto]|].
  destruct H3 as [H3|(x & ? & ?)]; [|right; exists x; set_solver].
  destruct (Z.max_spec b y.1) as [[? E0]|[? E0]]; rewrite E0 in H3 |- *; [right; exists y; set_solver|by left].
Qed.

Lemma leader_of_last V Ld (c : cluster C) conn : einv V Ld c -> size (leaders_of conn (nodes c)) <> 0%nat ->
  let ls := leaders_of conn (nodes c) in
  let t := foldl (fun t tl => Z.max t tl.1) (-1)%Z (map_to_list ls) in
  exists i rest rf, ls !! t = Some (i :: rest) /\ nodes c !! i = Some rf /\ says conn t (i, rf)
    /\ forall t' l, ls !! t' = Some l -> (t' <= t)%Z.
Proof.
  intros He Hsz ls t. destruct (foldl_max (map_to_list ls) (-1)%Z) as (_ & H2 & H3). fold t in H2, H3.
  assert (Hex : exists l, ls !! t = Some l).
  { destruct H3 as [H3|([t' l] & Hl & ->)]; [|exists l; by apply elem_of_map_to_list].
    apply map_size_ne_0_lookup in Hsz as (t' & l & Hl). exfalso.
    destruct (leaders_nodup _ _ _ _ Hl) as [_ Hne]. destruct l as [|i l]; [done|].
    destruct (leaders_elem _ _ _ _ i Hl) as (rf & Hrf & _ & _ & Ht); [set_solver|].
    pose proof (no_term _ _ _ _ _ _ (e_node _ _ _ He i rf Hrf)).
    apply elem_of_map_to_list in Hl. specialize (H2 _ Hl). cbn in *. lia. }
  destruct Hex as [l Hl]. destruct (leaders_nodup _ _ _ _ Hl) as [_ Hne]. destruct l as [|i rest]; [done|].
  destruct (leaders_elem _ _ _ _ i Hl) as (rf & Hrf & Hs); [set_solver|].
  exists i, rest, rf. split_and!; try done. intros t' l' Hl'%elem_of_map_to_list. apply (H2 _ Hl').
Qed.

(** The check of leaders never fails on a crash-free run. Whatever the
    partition, an iteration of [checkOneLeader] on a reachable cluster does
    not report two leaders of one term; it names a connected leader of the
    latest term that has one, and nobody only if no connected server leads. *)
Theorem one_leader_check k timeout (c : cluster C) conn : reachable k timeout c ->
  exists r, checkOneLeader conn (nodes c) = Ret r /\
  match r with
  | Some i => exists rf, nodes c !! i = Some rf /\ says conn (currentTerm rf) (i, rf)
      /\ forall j rf', nodes c !! j = Some rf' -> says conn (currentTerm rf') (j, rf') ->
           (currentTerm rf' <= currentTerm rf)%Z
  | None => forall j rf', nodes c !! j = Some rf' -> ~ says conn (currentTerm rf') (j, rf')
  end.
Proof.
  intros (V & Ld & He)%einv_reachable. unfold checkOneLeader. set (ls := leaders_of conn (nodes c)).
  assert (Hin : forall j rf', nodes c !! j = Some rf' -> says conn (currentTerm rf') (j, rf') ->
    exists l, ls !! currentTerm rf' = Some l).
  { intros j rf' Hj Hs. unfold ls. rewrite leaders_lookup.
    destruct (filter _ _) eqn:Ef; [exfalso|eauto]. apply (not_elem_of_nil (j, rf')).
    rewrite <- Ef. apply list_elem_of_filter. by rewrite zip_seq_elem. }
  assert (Hone : existsb (fun tl => Nat.ltb 1 (length tl.2)) (map_to_list ls) = false).
  { apply not_true_is_false. intros ([t l] & Hl & Hlt)%existsb_exists. apply Nat.ltb_lt in Hlt. cbn [snd] in Hlt.
    apply list_elem_of_In, elem_of_map_to_list in Hl. destruct (leaders_nodup _ _ _ _ Hl) as [Hnd _].
    assert (Hall : forall i, i ∈ l -> Ld t = Some i).
    { intros i Hi. destruct (leaders_elem _ _ _ _ _ Hl Hi) as (rf & Hrf & _ & HL & <-).
      by apply (no_leader _ _ _ _ _ _ (e_node _ _ _ He i rf Hrf)). }
    destruct l as [|x [|y l]]; [cbn in Hlt; lia..|]. assert (x = y) as ->.
    { pose proof (Hall x ltac:(set_solver)). pose proof (Hall y ltac:(set_solver)). congruence. }
    apply NoDup_cons in Hnd as [Hnd _]. set_solver. }
  rewrite Hone. destruct (Nat.eqb_spec (size ls) 0) as [E0|E0].
  { apply map_size_empty_inv in E0. exists None. split; [done|]. intros j rf' Hj Hs.
    destruct (Hin j rf' Hj Hs) as [l Hl]. rewrite E0 in Hl. done. }
  destruct (leader_of_last _ _ _ _ He E0) as (i & rest & rf & El & Hi & Hs & Hmax). fold ls in El, Hs, Hmax.
  rewrite El. exists (Some i). split; [done|].
  exists rf. split_and!; [done| |].
  - by destruct Hs as (? & ? & ?).
  - intros j rf' Hj Hs'. destruct (Hin j rf' Hj Hs') as [l Hl].
    destruct Hs as (_ & _ & Et). cbn in Et. rewrite Et. eapply Hmax, Hl.
Qed.

End Harness.
End Harness.

(** ** Witnesses *)

Import Harness.

Definition demo_names (i : nat) : list nat := [2 * i; 2 * i + 1]%nat.
Definition demo_cfg0 : config (E := nat) (C := nat) :=
  match make_config 2 false demo_names with Ret c => c | _ => empty_config 2 false end.
Definition demo_ops : list (hop (E := nat)) := [HDisconnect 0; HStart 0 [10; 11] 5; HConnect 0].
Definition demo_cfg : config (E := nat) (C := nat) :=
  match go_fold hop_step demo_cfg0 demo_ops with Ret c => c | _ => demo_cfg0 end.

(** Server 0, restarted and reconnected, reaches server 1 through its new end,
    and its old one is off. *)
Lemma partition_exact_witness :
  (exists e, name_at demo_cfg 0 1 = Some e /\ connections (net demo_cfg) !! e = Some (Some 1))
  /\ default false (enabled (net demo_cfg) !! 1) = false.
Proof.
  assert (Hl : forall i, i < 2 -> length (demo_names i) = 2) by reflexivity.
  assert (H0 : make_config 2 false demo_names = Ret demo_cfg0) by (vm_compute; reflexivity).
  assert (H1 : go_fold hop_step demo_cfg0 demo_ops = Ret demo_cfg) by (vm_compute; reflexivity).
  split; [|vm_compute; reflexivity].
  apply (proj2 (partition_exact 2 false demo_names demo_cfg0 demo_ops demo_cfg Hl H0 H1)); vm_compute; reflexivity.
Defined.

Definition demo_msgs : list (nat * ApplyMsg nat) :=
  [(0, mkApplyMsg true (Some 7) 1 1); (1, mkApplyMsg true (Some 7) 1 1); (0, mkApplyMsg true (Some 8) 2 1)].
Definition demo_applied : config (E := nat) (C := nat) :=
  match go_fold (fun c im => applier c im.1 im.2) (empty_config 2 false) demo_msgs with
  | Ret c => c | _ => demo_cfg0 end.

Lemma applier_checks_witness :
  agree demo_applied
  /\ applier demo_applied 1 (mkApplyMsg true (Some 9) 2 1) = Panic
  /\ nCommitted demo_applied 1 = Ret (2%Z, Some 7).
Proof.
  assert (H1 : go_fold (fun c im => applier c im.1 im.2) (empty_config 2 false) demo_msgs = Ret demo_applied)
    by (vm_compute; reflexivity).
  destruct (applier_checks 2 false demo_msgs demo_applied H1) as (HA & _).
  split; [exact HA|split; vm_compute; reflexivity].
Defined.

Lemma one_leader_check_witness :
  exists r, checkOneLeader [true; true; false] (nodes (final 3 elect)) = Ret r /\ r = Some 0.
Proof.
  destruct (one_leader_check 3 t0 (final 3 elect) [true; true; false]) as (r & Hr & _).
  - reach elect.
  - exists r. split; [exact Hr|]. vm_compute in Hr. congruence.
Defined.
