(* ===== verification/RaftAgree.v ===== *)
(** * lab3/raft/config.go: agreement, waiting and the counters of the harness

    The second half of the harness: [one] submits a command and waits until
    enough servers have committed it, [wait] waits for an index, the checks of
    leaders and terms, and the statistics. They read a cluster that keeps
    running while they sleep, so they run over a class of worlds
    [TestWorld]: what the harness can read at a moment (the configuration of
    RaftConfig.v, the Raft instances, nil for a crashed server, the clock in
    nanoseconds), and what changes it ([Start] of Raft.v on an instance, and
    time going by in [time.Sleep]). [t.Fatalf] is [Panic].

    [nCommitted] takes the lock of the harness once per server; the model
    reads all committed logs at one moment. The loops that are bounded by the
    clock run on fuel, and [Block] is its end: [one_terminates] shows that it
    is never reached when sleeping takes as long as it says. *)

From Stdlib Require Import String.
From stdpp Require Import prelude gmap relations.
From S2P Require Import Prelude Persister Raft LabRpc RaftCluster RaftElection RaftLogMatching RaftRuns RaftConfig.
Import Harness.
Local Open Scope Z_scope.

Class TestWorld (E C W : Type) `{Countable E, EqDecision C} : Type := {
  tw_cfg : W -> config (E := E) (C := C);
  tw_rafts : W -> list (option (Raft C));
  tw_now : W -> Z;
  tw_started : W -> nat -> Raft C -> list (proc C) -> W;  (* the new state after Start *)
  tw_sleep : Z -> W -> W;
  started_now w i rf ps : tw_now w <= tw_now (tw_started w i rf ps);
  sleep_now d w : 0 <= d -> tw_now w + d <= tw_now (tw_sleep d w)
}.

Definition Millisecond : Z := 1000000.
Definition Second : Z := 1000 * Millisecond.

Section Agree.
Context {E C W : Type} `{TestWorld E C W}.

(** ** Agreement *)

(** [for si := 0; si < cfg.n; si++]: the next servers in turn, until one says
    that it is the leader. *)
Fixpoint try_servers (cmd : C) (w : W) (starts : Z) (k : nat) : go (W * Z * Z) :=
  match k with
  | O => Ret (w, starts, -1)
  | S k' =>
      let starts := Z.rem (starts + 1) (Z.of_nat (n (tw_cfg w))) in
      let! c := go_index (connected (tw_cfg w)) starts in
      let! rf := go_index (tw_rafts w) starts in
      match (if (c : bool) then rf else None) with
      | None => try_servers cmd w starts k'
      | Some rf =>
          let! '(rf', ps, (index1, _, ok)) := Start rf (Some cmd) in
          let w := tw_started w (Z.to_nat starts) rf' ps in
          if (ok : bool) then Ret (w, starts, index1) else try_servers cmd w starts k'
      end
  end.

(** The loop that waits five seconds for agreement on [index]. *)
Fixpoint poll (cmd : C) (expectedServers index t1 : Z) (w : W) (fuel : nat) : go (W * bool) :=
  if tw_now w - t1 <? 5 * Second then
    match fuel with
    | O => Block
    | S fuel' =>
        let! '(nd, cmd1) := nCommitted (tw_cfg w) index in
        if (0 <? nd) && (expectedServers <=? nd) && bool_decide (cmd1 = Some cmd) then Ret (w, true)
        else poll cmd expectedServers index t1 (tw_sleep (20 * Millisecond) w) fuel'
    end
  else Ret (w, false).

Fixpoint one_loop (cmd : C) (expectedServers : Z) (retry : bool) (t0 : Z) (w : W) (starts : Z) (fuel : nat)
    : go (W * Z) :=
  if tw_now w - t0 <? 25 * Second then
    match fuel with
    | O => Block
    | S fuel' =>
        let! '(w, starts, index) := try_servers cmd w starts (n (tw_cfg w)) in
        if index =? -1 then one_loop cmd expectedServers retry t0 (tw_sleep (50 * Millisecond) w) starts fuel'
        else
          let! '(w, agreed) := poll cmd expectedServers index (tw_now w) w 250 in
          if (agreed : bool) then Ret (w, index)
          else if retry then one_loop cmd expectedServers retry t0 w starts fuel' else Panic
    end
  else Panic.

Definition one (cmd : C) (expectedServers : Z) (retry : bool) (w : W) : go (W * Z) :=
  one_loop cmd expectedServers retry (tw_now w) w 0 500.

(** ** Waiting *)

(** [t > startTerm] for some server, asked in order; a crashed server is a
    nil dereference. *)
Fixpoint moved_on (startTerm : Z) (rafts : list (option (Raft C))) : go bool :=
  match rafts with
  | [] => Ret false
  | None :: _ => Panic
  | Some r :: rest => if startTerm <? (GetState r).1 then Ret true else moved_on startTerm rest
  end.

(** The loop of [wait]; the result says whether someone has moved on. *)
Fixpoint wait_loop (index k startTerm to : Z) (w : W) (iters : nat) : go (W * bool) :=
  match iters with
  | O => Ret (w, false)
  | S iters' =>
      let! '(nd, _) := nCommitted (tw_cfg w) index in
      if k <=? nd then Ret (w, false)
      else
        let w := tw_sleep to w in
        let to := if to <? Second then to * 2 else to in
        let! moved := (if -1 <? startTerm then moved_on startTerm (tw_rafts w) else Ret false) in
        if (moved : bool) then Ret (w, true) else wait_loop index k startTerm to w iters'
  end.

(** [None] is the [-1] that is returned when someone has moved on. *)
Definition wait (index k startTerm : Z) (w : W) : go (W * option (option C)) :=
  let! '(w, moved) := wait_loop index k startTerm (10 * Millisecond) w 30 in
  if (moved : bool) then Ret (w, None)
  else
    let! '(nd, cmd) := nCommitted (tw_cfg w) index in
    if nd <? k then Panic else Ret (w, Some cmd).

(** ** Terms and leaders *)

Definition checkTerms (conn : list bool) (rafts : list (option (Raft C))) : go Z :=
  go_fold (fun term '(c, r) =>
    if (c : bool) then
      match r with
      | None => Panic
      | Some rf =>
          let xterm := (GetState rf).1 in
          if term =? -1 then Ret xterm else if negb (term =? xterm) then Panic else Ret term
      end
    else Ret term) (-1) (zip conn rafts).

Definition checkNoLeader (conn : list bool) (rafts : list (option (Raft C))) : go unit :=
  go_fold (fun _ '(c, r) =>
    if (c : bool) then
      match r with
      | None => Panic
      | Some rf => if (GetState rf).2 then Panic else Ret tt
      end
    else Ret tt) tt (zip conn rafts).

(** The ten iterations of [checkOneLeader]; [obs k] is what the k-th reads,
    the connected servers and the instances, none of which is nil. *)
Fixpoint checkOneLeader_loop (obs : nat -> list bool * list (Raft C)) (iters : nat) (left : nat) : go nat :=
  match left with
  | O => Panic
  | S left' =>
      let! r := checkOneLeader (obs iters).1 (obs iters).2 in
      match r with
      | Some i => Ret i
      | None => checkOneLeader_loop obs (S iters) left'
      end
  end.

(** ** Time limit, statistics and sizes *)

Definition checkTimeout (failed : bool) (start now : Z) : go unit :=
  if negb failed && (120 * Second <? now - start) then Panic else Ret tt.

Definition cleanup (w : LabRpc.Network (E := E) (N := nat)) (rafts : list (option (Raft C)))
    (failed : bool) (start now : Z) : go (LabRpc.Network (E := E) (N := nat) * list (option (Raft C))) :=
  let rafts := (fun r : option (Raft C) => Kill <$> r) <$> rafts in
  let w := Cleanup w in
  let! _ := checkTimeout failed start now in
  Ret (w, rafts).

Definition rpcCount (cfg : config (E := E) (C := C)) (server : nat) : go Z := GetCount (net cfg) server.
Definition rpcTotal (cfg : config (E := E) (C := C)) : Z := GetTotalCount (net cfg).
Definition bytesTotal (cfg : config (E := E) (C := C)) : Z := GetTotalBytes (net cfg).
Definition setunreliable (cfg : config (E := E) (C := C)) (unrel : bool) : config :=
  set_net (Reliable (net cfg) (negb unrel)) cfg.
Definition setlongreordering (cfg : config (E := E) (C := C)) (longrel : bool) : config :=
  set_net (LongReordering (net cfg) longrel) cfg.

(** The fields [begin] sets. *)
Record statistics : Type := mkStatistics {
  t0 : Z; rpcs0 : Z; cmds0 : Z; bytes0 : Z; maxIndex0 : Z
}.

Definition begin (cfg : config (E := E) (C := C)) (now : Z) : statistics :=
  mkStatistics now (rpcTotal cfg) 0 (bytesTotal cfg) (maxIndex cfg).

(** What [end] prints: the time, and the numbers of peers, RPCs, bytes and
    agreements. *)
Definition end_ (cfg : config (E := E) (C := C)) (st : statistics) (failed : bool) (start now : Z)
    : go (option (Z * nat * Z * Z * Z)) :=
  let! _ := checkTimeout failed start now in
  if failed then Ret None
  else Ret (Some (now - t0 st, n cfg, rpcTotal cfg - rpcs0 st, bytesTotal cfg - bytes0 st,
                  maxIndex cfg - maxIndex0 st)).

Definition larger {B} (logsize : Z) (p : option (Persister B)) : go Z :=
  match p with
  | None => Panic
  | Some ps => let k := RaftStateSize ps in Ret (if logsize <? k then k else logsize)
  end.

Definition LogSize {B} (saved : list (option (Persister B))) : go Z := go_fold larger 0 saved.

(** ** What [nCommitted] found *)

Lemma count_committed index (rows : list (gmap Z (option C))) count (cmd : option C) nd cmd' :
  go_fold (fun '(count, cmd) l =>
    match l !! index with
    | Some cmd1 => if ((0 <? count)%Z && bool_decide (cmd <> cmd1)) then Panic else Ret ((count + 1)%Z, cmd1)
    | None => Ret (count, cmd)
    end) (count, cmd) rows = Ret (nd, cmd') -> 0 <= count ->
  (0 < count -> cmd' = cmd)
  /\ nd = count + len (filter (fun l => l !! index = Some cmd') rows)
  /\ (forall l v, l ∈ rows -> l !! index = Some v -> v = cmd').
Proof.
  revert count cmd. induction rows as [|l rows IH]; intros count cmd Hf Hc; cbn [go_fold] in Hf.
  { injection Hf as <- <-. rewrite filter_nil. unfold len. cbn. split_and!; [done|lia|set_solver]. }
  rewrite filter_cons. destruct (l !! index) as [v|] eqn:El.
  - destruct ((0 <? count) && bool_decide (cmd <> v)) eqn:B; cbn [mbind go_bind] in Hf; [done|].
    destruct (IH _ _ Hf ltac:(lia)) as (H1 & H2 & H3). rewrite (H1 ltac:(lia)) in *.
    rewrite decide_True by done. unfold len in *. cbn [length]. split_and!; [|lia|].
    + intros Hp. rewrite (proj2 (Z.ltb_lt _ _) Hp) in B. apply bool_decide_eq_false in B.
      destruct (decide (cmd = v)); [done|by destruct B].
    + intros l' v' [->|Hin]%elem_of_cons Hl'; [congruence|eauto].
  - cbn [mbind go_bind] in Hf. destruct (IH _ _ Hf Hc) as (H1 & H2 & H3).
    rewrite decide_False by done. split_and!; [done|done|].
    intros l' v' [->|Hin]%elem_of_cons Hl'; [congruence|eauto].
Qed.

(** The servers that have committed [cmd] at [index], and that nobody has
    committed anything else there. *)
Definition committed_on (cfg : config (E := E) (C := C)) (index : Z) (cmd : option C) (k : Z) : Prop :=
  k <= len (filter (fun l => l !! index = Some cmd) (logs cfg))
  /\ forall i v, entry cfg i index = Some v -> v = cmd.

Lemma nCommitted_committed cfg index nd cmd :
  nCommitted cfg index = Ret (nd, cmd) -> committed_on cfg index cmd nd.
Proof.
  intros Hn. apply count_committed in Hn as (_ & -> & Hall); [|lia]. split; [lia|].
  intros i v (l & Hl & Hv)%bind_Some. apply (Hall l v); [by eapply list_elem_of_lookup_2|done].
Qed.

Lemma committed_on_weaken cfg index cmd k k' :
  committed_on cfg index cmd k -> k' <= k -> committed_on cfg index cmd k'.
Proof. intros [? ?] ?. split; [lia|done]. Qed.

(** ** The result of [one] *)

(** What [one] does to the world: [Start] on a connected server that is up,
    and sleeping. *)
Inductive moves (cmd : C) : W -> W -> Prop :=
| moves_start w i rf rf' ps r :
    connected (tw_cfg w) !! i = Some true -> tw_rafts w !! i = Some (Some rf) ->
    Start rf (Some cmd) = Ret (rf', ps, r) -> moves cmd w (tw_started w i rf' ps)
| moves_sleep w d : 0 <= d -> moves cmd w (tw_sleep d w).

(** At some moment between [w] and [w'] a connected server led and appended
    the command to its log, at [index]. *)
Definition accepted (cmd : C) (w w' : W) (index : Z) : Prop :=
  exists w1 i (rf rf' : Raft C) ps,
    rtc (moves cmd) w w1 /\ connected (tw_cfg w1) !! i = Some true /\ tw_rafts w1 !! i = Some (Some rf)
    /\ Start rf (Some cmd) = Ret (rf', ps, (index, currentTerm rf, true)) /\ state rf = Leader
    /\ log rf' = log rf ++ [mkEntry (currentTerm rf) (Some cmd) index]
    /\ rtc (moves cmd) (tw_started w1 i rf' ps) w'.

Lemma accepted_between cmd w0 w w' w2 index :
  rtc (moves cmd) w0 w -> accepted cmd w w' index -> rtc (moves cmd) w' w2 -> accepted cmd w0 w2 index.
Proof.
  intros Hb (w1 & i & rf & rf' & ps & Hw1 & Hc & Hr & Hs & Hst & Hlog & Hw2) Ha.
  exists w1, i, rf, rf', ps. split_and!; try done; by etrans.
Qed.

Lemma try_servers_spec cmd w starts k w' starts' index :
  try_servers cmd w starts k = Ret (w', starts', index) ->
  tw_now w <= tw_now w' /\ rtc (moves cmd) w w' /\ (index = -1 \/ accepted cmd w w' index).
Proof.
  revert w starts. induction k as [|k IH]; intros w starts Hf; cbn [try_servers] in Hf.
  { injection Hf as -> _ <-. split; [lia|]. split; [done|by left]. }
  apply bind_Ret in Hf as (c & [_ Hc]%go_index_Ret & Hf). apply bind_Ret in Hf as (rf & [_ Hrf]%go_index_Ret & Hf).
  destruct c; [|by eapply IH]. destruct rf as [r|]; [|by eapply IH].
  apply bind_Ret in Hf as ([[rf' ps] [[index1 term] ok]] & Hs & Hf).
  set (i := Z.to_nat (Z.rem (starts + 1) (Z.of_nat (n (tw_cfg w))))) in *.
  pose proof (started_now w i rf' ps) as Hnow.
  assert (moves cmd w (tw_started w i rf' ps)) as Hm by (by eapply moves_start).
  destruct ok.
  - injection Hf as <- <- <-. split; [done|]. split; [by apply rtc_once|]. right. exists w, i, r, rf', ps.
    destruct (Start_spec _ _ _ _ _ Hs) as [(_ & _ & _ & [=])|(Hst & last & _ & -> & _ & [= -> ->])].
    split_and!; try done.
  - destruct (IH _ _ Hf) as (? & Hr & Ha). split; [lia|]. split; [by eapply rtc_l|].
    destruct Ha as [?|Ha]; [by left|right]. eapply accepted_between; [by apply rtc_once|exact Ha|done].
Qed.

Lemma poll_spec cmd k index t1 w fuel w' agreed :
  poll cmd k index t1 w fuel = Ret (w', agreed) ->
  rtc (moves cmd) w w' /\
  if agreed then committed_on (tw_cfg w') index (Some cmd) (Z.max 1 k) else 5 * Second <= tw_now w' - t1.
Proof.
  revert w. induction fuel as [|fuel IH]; intros w Hf; cbn [poll] in Hf;
    destruct (Z.ltb_spec (tw_now w - t1) (5 * Second)); try done; try (by injection Hf as <- <-).
  apply bind_Ret in Hf as ([nd cmd1] & Hn & Hf).
  destruct ((0 <? nd) && (k <=? nd) && bool_decide (cmd1 = Some cmd)) eqn:B.
  2: { destruct (IH _ Hf) as [Hr ?]. split; [|done]. eapply rtc_l; [|exact Hr]. by apply moves_sleep. }
  injection Hf as <- <-. split; [done|]. apply andb_true_iff in B as [[Hp%Z.ltb_lt Hk%Z.leb_le]%andb_true_iff ->%bool_decide_eq_true].
  apply nCommitted_committed in Hn. eapply committed_on_weaken; [exact Hn|lia].
Qed.

Lemma one_loop_spec cmd k retry t0 w starts fuel w' index :
  one_loop cmd k retry t0 w starts fuel = Ret (w', index) ->
  committed_on (tw_cfg w') index (Some cmd) (Z.max 1 k) /\ accepted cmd w w' index.
Proof.
  revert w starts. induction fuel as [|fuel IH]; intros w starts Hf; cbn [one_loop] in Hf;
    destruct (_ <? 25 * Second); try done.
  apply bind_Ret in Hf as ([[w1 starts1] index1] & Ht & Hf). apply try_servers_spec in Ht as (_ & Hr & Ht).
  destruct (Z.eqb_spec index1 (-1)).
  { destruct (IH _ _ Hf) as [? Ha]. split; [done|]. eapply accepted_between; [|exact Ha|done].
    eapply rtc_r; [exact Hr|by apply moves_sleep]. }
  destruct Ht as [?|Ht]; [done|].
  apply bind_Ret in Hf as ([w2 agreed] & Hp & Hf). apply poll_spec in Hp as [Hr2 Hp]. destruct agreed.
  - injection Hf as <- <-. split; [done|]. eapply accepted_between; [apply rtc_refl|exact Ht|exact Hr2].
  - destruct retry; [|done]. destruct (IH _ _ Hf) as [? Ha]. split; [done|].
    eapply accepted_between; [|exact Ha|done]. by etrans.
Qed.

(** ** Termination of [one] *)

Lemma bind_not_block {A B} (m : go A) (f : A -> go B) :
  m <> Block -> (forall a, f a <> Block) -> (let! a := m in f a) <> Block.
Proof. intros Hm Hf. destruct m; cbn; [apply Hf|done|done]. Qed.

Lemma fold_not_block {A S} (f : S -> A -> go S) s l :
  (forall s x, f s x <> Block) -> go_fold f s l <> Block.
Proof.
  intros Hf. revert s. induction l as [|x l IH]; intros s; cbn [go_fold]; [done|].
  apply bind_not_block; [apply Hf|apply IH].
Qed.

Lemma index_not_block {A} (l : list A) i : go_index l i <> Block.
Proof. unfold go_index. repeat case_match; done. Qed.

Lemma from_not_block {A} (l : list A) i : go_from l i <> Block.
Proof. unfold go_from. repeat case_match; done. Qed.

Create HintDb noblock.
Hint Resolve bind_not_block fold_not_block index_not_block from_not_block : noblock.
Hint Extern 2 (Ret _ <> Block) => discriminate : noblock.

Lemma nCommitted_not_block cfg index : nCommitted (E := E) (C := C) cfg index <> Block.
Proof.
  apply fold_not_block. intros [count cmd] l. destruct (l !! index); [|done]. by destruct (_ && _).
Qed.

Lemma heartbeat_args_not_block (rf : Raft C) i : heartbeat_args rf i <> Block.
Proof. unfold heartbeat_args, log_base. repeat (apply bind_not_block; [auto with noblock|intros]). done. Qed.

Lemma Start_not_block (rf : Raft C) cmd : Start rf cmd <> Block.
Proof.
  unfold Start. destruct (is_leader (state rf)); [|done]. apply bind_not_block.
  { unfold lastLogIndex. repeat case_match; auto with noblock. }
  intros last. apply bind_not_block; [|done]. apply fold_not_block. intros ps i.
  destruct (i =? _)%nat; [done|]. apply bind_not_block; [apply heartbeat_args_not_block|done].
Qed.

Lemma try_servers_not_block cmd w starts k : try_servers cmd w starts k <> Block.
Proof.
  revert w starts. induction k as [|k IH]; intros w starts; cbn [try_servers]; [done|].
  apply bind_not_block; [auto with noblock|]. intros c. apply bind_not_block; [auto with noblock|]. intros rf.
  destruct (if c then rf else None) as [r|]; [|apply IH]. apply bind_not_block; [apply Start_not_block|].
  intros [[rf' ps] [[index1 term] []]]; [done|apply IH].
Qed.

Lemma poll_not_block cmd k index t1 w fuel :
  5 * Second - (tw_now w - t1) <= Z.of_nat fuel * (20 * Millisecond) -> poll cmd k index t1 w fuel <> Block.
Proof.
  revert w. induction fuel as [|fuel IH]; intros w Hf; cbn [poll];
    destruct (Z.ltb_spec (tw_now w - t1) (5 * Second)); try done; [lia|].
  pose proof (nCommitted_not_block (tw_cfg w) index).
  destruct (nCommitted (tw_cfg w) index) as [[nd cmd1]| |]; cbn [mbind go_bind]; [|done|done].
  destruct (_ && _); [done|]. apply IH.
  pose proof (sleep_now (20 * Millisecond) w). unfold Second, Millisecond in *. lia.
Qed.

Lemma one_loop_not_block cmd k retry t0 w starts fuel :
  25 * Second - (tw_now w - t0) <= Z.of_nat fuel * (50 * Millisecond) ->
  one_loop cmd k retry t0 w starts fuel <> Block.
Proof.
  revert w starts. induction fuel as [|fuel IH]; intros w starts Hf; cbn [one_loop];
    destruct (Z.ltb_spec (tw_now w - t0) (25 * Second)); try done; [lia|].
  pose proof (try_servers_not_block cmd w starts (n (tw_cfg w))).
  destruct (try_servers _ _ _ _) as [[[w1 starts1] index]| |] eqn:Et; cbn [mbind go_bind]; [|done|done].
  apply try_servers_spec in Et as (Hnow & _ & _). destruct (index =? -1).
  { apply IH. pose proof (sleep_now (50 * Millisecond) w1). unfold Second, Millisecond in *. lia. }
  assert (poll cmd k index (tw_now w1) w1 250 <> Block).
  { apply poll_not_block. change (Z.of_nat 250) with 250. unfold Second, Millisecond. lia. }
  destruct (poll _ _ _ _ _ _) as [[w2 agreed]| |] eqn:Ep; cbn [mbind go_bind]; [|done|done].
  apply poll_spec in Ep as [_ Ep]. destruct agreed; [done|]. destruct retry; [|done].
  apply IH. unfold Second, Millisecond in *. lia.
Qed.

(** [one] ends. As long as a sleep takes at least the time it is asked
    for, the 25 seconds of [one] are at most 500 rounds of at most 250 polls:
    [one] returns an index or fails the test, it does not loop. *)
Theorem one_terminates cmd expectedServers retry (w : W) : one cmd expectedServers retry w <> Block.
Proof. apply one_loop_not_block. change (Z.of_nat 500) with 500. unfold Second, Millisecond. lia. Qed.

(** C23: [one] always comes to an end: it fails the test or returns, it does
    not loop. When it returns there is agreement: during the call a connected
    server that led appended the command to its log at the returned index;
    when [one] returns at least [expectedServers] servers, and at least one,
    have committed this very command there, and no server has committed
    anything else there. *)
Theorem one_sound cmd expectedServers retry (w : W) :
  match one cmd expectedServers retry w with
  | Ret (w', index) =>
      accepted cmd w w' index
      /\ Z.max 1 expectedServers <= len (filter (fun l => l !! index = Some (Some cmd)) (logs (tw_cfg w')))
      /\ forall i v, entry (tw_cfg w') i index = Some v -> v = Some cmd
  | Panic => True
  | Block => False
  end.
Proof.
  destruct (one cmd expectedServers retry w) as [[w' index]| |] eqn:Ho; [|done|by apply one_terminates in Ho].
  revert Ho. unfold one. generalize 500%nat. intros fuel Hf. apply one_loop_spec in Hf as [[? ?] ?]. auto.
Qed.

(** ** The result of [wait] *)

Lemma moved_on_spec startTerm rafts :
  moved_on startTerm rafts = Ret true ->
  exists r : Raft C, Some r ∈ rafts /\ startTerm < currentTerm r.
Proof.
  induction rafts as [|[r|] rafts IH]; cbn; [done| |done].
  destruct (Z.ltb_spec startTerm (currentTerm r)); [intros _; exists r; split; [left|done]|].
  intros (r' & Hin & ?)%IH. exists r'. split; [by right|done].
Qed.

Lemma wait_loop_spec index k startTerm to w iters w' moved :
  wait_loop index k startTerm to w iters = Ret (w', moved) ->
  moved = true -> -1 < startTerm /\ exists r, Some r ∈ tw_rafts w' /\ startTerm < currentTerm r.
Proof.
  revert w to. induction iters as [|iters IH]; intros w to Hf ->; cbn [wait_loop] in Hf; [done|].
  apply bind_Ret in Hf as ([nd c] & _ & Hf). destruct (k <=? nd); [done|].
  apply bind_Ret in Hf as (m & Hm & Hf). destruct m; [|by eapply IH].
  injection Hf as <-. destruct (Z.ltb_spec (-1) startTerm); [|done]. split; [done|]. by apply moved_on_spec.
Qed.

(** [wait] is right about what it returns: a command, when at that moment
    at least [k] servers have committed it at the index and none another one
    there; and [-1] only when it was asked to watch the term and some server
    has moved on to a later one. *)
Theorem wait_sound index k startTerm (w w' : W) r :
  wait index k startTerm w = Ret (w', r) ->
  match r with
  | Some cmd => k <= len (filter (fun l => l !! index = Some cmd) (logs (tw_cfg w')))
                /\ forall i v, entry (tw_cfg w') i index = Some v -> v = cmd
  | None => -1 < startTerm /\ exists rf, Some rf ∈ tw_rafts w' /\ startTerm < currentTerm rf
  end.
Proof.
  unfold wait. intros ([w1 moved] & Hl & Hf)%bind_Ret. pose proof (wait_loop_spec _ _ _ _ _ _ _ _ Hl) as Hm.
  clear Hl. destruct moved.
  { injection Hf as <- <-. by apply Hm. }
  apply bind_Ret in Hf as ([nd cmd] & Hn & Hf). destruct (Z.ltb_spec nd k); [done|]. injection Hf as <- <-.
  apply nCommitted_committed in Hn. by apply (committed_on_weaken _ _ _ nd k).
Qed.

(** ** Terms and leaders *)

Lemma checkTerms_fold conn rafts t0 t :
  (forall rf, Some rf ∈ rafts -> 0 <= currentTerm rf) ->
  go_fold (fun term '(c, r) =>
    if (c : bool) then
      match r with
      | None => Panic
      | Some rf =>
          let xterm := (GetState rf).1 in
          if term =? -1 then Ret xterm else if negb (term =? xterm) then Panic else Ret term
      end
    else Ret term) t0 (zip conn rafts) = Ret t ->
  (t0 <> -1 -> t = t0)
  /\ forall i (rf : Raft C), conn !! i = Some true -> rafts !! i = Some (Some rf) -> currentTerm rf = t.
Proof.
  revert rafts t0. induction conn as [|c conn IH]; intros [|r rafts] t0 Hpos Hf; cbn [zip zip_with go_fold] in Hf;
    try (injection Hf as <-; split; [done|]; intros [|i] rf ? ?; done).
  assert (forall rf, Some rf ∈ rafts -> 0 <= currentTerm rf) as Hpos' by (intros; apply Hpos; by right).
  apply bind_Ret in Hf as (t1 & H1 & Hf). destruct (IH _ _ Hpos' Hf) as [Ht Hall].
  destruct c; cycle 1.
  { injection H1 as ->. split; [done|]. intros [|i] rf Hc Hr; [done|by eapply Hall]. }
  destruct r as [rf|]; [|done]. specialize (Hpos rf ltac:(left)). cbn in H1.
  assert (t1 = currentTerm rf /\ (t0 <> -1 -> t0 = t1)) as [-> Ht0].
  { destruct (Z.eqb_spec t0 (-1)); [by injection H1 as <-|].
    destruct (Z.eqb_spec t0 (currentTerm rf)); cbn in H1; [|done]. injection H1 as <-. done. }
  rewrite Ht in * by lia. split; [intros ?; symmetry; auto|].
  intros [|i] rf' Hc Hr; [cbn in Hr; by simplify_eq|by eapply Hall].
Qed.

(** [checkTerms] returns the term every connected server is in. *)
Theorem checkTerms_spec conn rafts t :
  (forall rf : Raft C, Some rf ∈ rafts -> 0 <= currentTerm rf) -> checkTerms conn rafts = Ret t ->
  forall i rf, conn !! i = Some true -> rafts !! i = Some (Some rf) -> currentTerm rf = t.
Proof. intros Hpos Hf. by eapply checkTerms_fold in Hf as [_ ?]. Qed.

Lemma check_leaders_from k timeout (cs : nat -> cluster C) conns iters left :
  (forall j, (iters <= j < iters + left)%nat -> reachable k timeout (cs j)) ->
  match checkOneLeader_loop (fun j => (conns j, nodes (cs j))) iters left with
  | Ret i => exists j rf, (iters <= j < iters + left)%nat
      /\ nodes (cs j) !! i = Some rf /\ says (conns j) (currentTerm rf) (i, rf)
      /\ forall i' rf', nodes (cs j) !! i' = Some rf' -> says (conns j) (currentTerm rf') (i', rf') ->
           currentTerm rf' <= currentTerm rf
  | Panic => forall j i rf, (iters <= j < iters + left)%nat -> nodes (cs j) !! i = Some rf ->
      ~ says (conns j) (currentTerm rf) (i, rf)
  | Block => False
  end.
Proof.
  revert iters. induction left as [|left IH]; intros iters Hr; cbn [checkOneLeader_loop].
  { intros j i rf Hj. lia. }
  destruct (one_leader_check k timeout (cs iters) (conns iters)) as (r & E0 & Hres); [apply Hr; lia|].
  cbn [fst snd]. rewrite E0. cbn [mbind go_bind]. destruct r as [i|].
  { destruct Hres as (rf & ? & ? & ?). exists iters, rf. split; [lia|done]. }
  specialize (IH (S iters) ltac:(intros; apply Hr; lia)).
  destruct (checkOneLeader_loop _ _ _) as [i| |]; [|..|done].
  - destruct IH as (j & rf & ? & ?). exists j, rf. split; [lia|done].
  - intros j i rf Hj Hi. destruct (decide (j = iters)) as [->|]; [by apply Hres|]. apply (IH j); [lia|done].
Qed.

(** The check of leaders never fails for the wrong reason on a crash-free
    run. However the cluster runs and is partitioned between its ten
    iterations, [checkOneLeader] never reports two leaders of one term: it
    returns a server that at one of the iterations was connected and led the
    latest term any connected server led; it fails only when at none of the
    ten iterations any connected server was a leader. *)
Theorem one_leader_found k timeout (cs : nat -> cluster C) (conns : nat -> list bool) :
  (forall j, (j < 10)%nat -> reachable k timeout (cs j)) ->
  match checkOneLeader_loop (fun j => (conns j, nodes (cs j))) 0 10 with
  | Ret i => exists j rf, (j < 10)%nat
      /\ nodes (cs j) !! i = Some rf /\ says (conns j) (currentTerm rf) (i, rf)
      /\ forall i' rf', nodes (cs j) !! i' = Some rf' -> says (conns j) (currentTerm rf') (i', rf') ->
           currentTerm rf' <= currentTerm rf
  | Panic => forall j i rf, (j < 10)%nat -> nodes (cs j) !! i = Some rf ->
      ~ says (conns j) (currentTerm rf) (i, rf)
  | Block => False
  end.
Proof.
  intros Hr. pose proof (check_leaders_from k timeout cs conns 0 10) as Hc.
  specialize (Hc ltac:(intros; apply Hr; lia)).
  destruct (checkOneLeader_loop _ _ _) as [i| |]; [|intros j i rf ?; apply Hc; lia|done].
  destruct Hc as (j & rf & ? & ?). exists j, rf. split; [lia|done].
Qed.

Lemma LogSize_fold {B} (saved : list (Persister B)) b :
  exists z, go_fold larger b (Some <$> saved) = Ret z
    /\ b <= z /\ (forall ps, ps ∈ saved -> RaftStateSize ps <= z)
    /\ (z = b \/ exists ps, ps ∈ saved /\ RaftStateSize ps = z).
Proof.
  revert b. induction saved as [|ps saved IH]; intros b; cbn [fmap list_fmap go_fold larger].
  { exists b. split; [done|]. split; [lia|]. split; [set_solver|by left]. }
  cbn [mbind go_bind]. destruct (IH (if b <? RaftStateSize ps then RaftStateSize ps else b)) as (z & -> & Hb & Hall & Hor).
  exists z. split; [done|]. destruct (Z.ltb_spec b (RaftStateSize ps)); (split; [lia|split]).
  - intros p [->|?]%elem_of_cons; [lia|auto].
  - destruct Hor as [->|(p & ? & ?)]; right; [exists ps|exists p]; set_solver.
  - intros p [->|?]%elem_of_cons; [lia|auto].
  - destruct Hor as [->|(p & ? & ?)]; [by left|right; exists p; set_solver].
Qed.

(** [LogSize] is the size of the largest saved state. *)
Theorem LogSize_max {B} (saved : list (Persister B)) :
  saved <> [] -> exists z, LogSize (Some <$> saved) = Ret z
    /\ (forall ps, ps ∈ saved -> RaftStateSize ps <= z) /\ (exists ps, ps ∈ saved /\ RaftStateSize ps = z).
Proof.
  intros Hne. destruct (LogSize_fold saved 0) as (z & E0 & Hz & Hall & Hor). exists z. split; [done|].
  split; [done|]. destruct Hor as [->|?]; [|done]. destruct saved as [|ps saved]; [done|].
  exists ps. split; [left|]. specialize (Hall ps ltac:(left)). unfold RaftStateSize, len in *. lia.
Qed.
End Agree.

(** ** A test run *)

(** Three servers, the first of them leader; while the test sleeps, all of them
    commit the command 7 at index 1. *)
Module Demo.
Record world : Type := mkWorld { cfg : config (E := nat) (C := nat); rafts : list (option (Raft nat)); now : Z }.

Definition before : config (E := nat) (C := nat) :=
  mkConfig MakeNetwork 3 [true; true; true] [] [∅; ∅; ∅] 0.
Definition after : config (E := nat) (C := nat) :=
  mkConfig MakeNetwork 3 [true; true; true] [] (replicate 3 {[ 1 := Some 7%nat ]}) 1.

#[local] Program Instance demo_world : TestWorld nat nat world := {
  tw_cfg := cfg;
  tw_rafts := rafts;
  tw_now := now;
  tw_started w i rf _ := mkWorld (cfg w) (<[i := Some rf]> (rafts w)) (now w);
  tw_sleep d w := mkWorld after (rafts w) (now w + d)
}.
Next Obligation. intros. cbn. lia. Qed.
Next Obligation. intros. cbn. lia. Qed.

Definition w0 : world := mkWorld before (Some <$> nodes (final 3 elect)) 0.
Definition w1 : world :=
  match one 7%nat 3 false w0 with Ret (w, _) => w | _ => w0 end.

Lemma one_sound_witness :
  accepted 7%nat w0 w1 1
  /\ 3 <= len (filter (fun l => l !! 1 = Some (Some 7%nat)) (logs (tw_cfg w1)))
  /\ forall i v, entry (tw_cfg w1) i 1 = Some v -> v = Some 7%nat.
Proof.
  pose proof (one_sound 7%nat 3 false w0) as Hone.
  assert (one 7%nat 3 false w0 = Ret (w1, 1)) as Ho by (vm_compute; reflexivity). rewrite Ho in Hone. exact Hone.
Defined.

Lemma wait_sound_witness :
  3 <= len (filter (fun l => l !! 1 = Some (Some 7%nat)) (logs (tw_cfg (tw_sleep (10 * Millisecond) w0))))
  /\ forall i v, entry (tw_cfg (tw_sleep (10 * Millisecond) w0)) i 1 = Some v -> v = Some 7%nat.
Proof.
  apply (wait_sound 1 3 1 w0 (tw_sleep (10 * Millisecond) w0) (Some (Some 7%nat))). vm_compute. reflexivity.
Defined.

Lemma one_leader_found_witness :
  exists j rf, (j < 10)%nat /\ nodes (final 3 elect) !! 0%nat = Some rf
    /\ says [true; true; false] (currentTerm rf) (0%nat, rf).
Proof.
  assert (Hr : forall j, (j < 10)%nat -> reachable 3 RaftRuns.t0 (final 3 elect)) by (intros; reach elect).
  pose proof (one_leader_found 3 RaftRuns.t0 (fun _ => final 3 elect) (fun _ => [true; true; false]) Hr) as Hf.
  replace (checkOneLeader_loop _ 0 10) with (@Ret nat 0%nat) in Hf by (vm_compute; reflexivity).
  destruct Hf as (j & rf & Hj & Hn & Hs & _). exists j, rf. split; [exact Hj|]. split; [exact Hn|exact Hs].
Defined.

Lemma LogSize_max_witness :
  exists z, LogSize (Some <$> [mkPersister [1; 2] []; mkPersister [3] [4]]) = Ret z
    /\ (forall ps, ps ∈ [mkPersister [1; 2] []; mkPersister [3] [4]] -> RaftStateSize ps <= z)
    /\ (exists ps, ps ∈ [mkPersister [1; 2] []; mkPersister [3] [4]] /\ RaftStateSize ps = z).
Proof. apply (LogSize_max [mkPersister [1; 2] []; mkPersister [3] [4]]). discriminate. Defined.
End Demo.
