(* ===== verification/ShardMap.v ===== *)
(** * lab4/kv/shardmap.go and lab4/kv/util.go: which node hosts which shard

    The state of a [ShardMap] is swapped atomically; readers get one
    [ShardMapState]. Go map iteration has no order, so what the code builds
    from one is used only up to membership. The listener protocol is at the
    end of the file: it is a transition system, because [Update] blocks on an
    unbuffered channel per listener while it holds the read lock. *)

From S2P Require Import Prelude Fnv.
From Stdlib Require Import String.
From stdpp Require Import prelude gmap strings relations.
Local Open Scope Z_scope.

Record NodeInfo : Type := mkNodeInfo {
  Address : string;
  Port : Z
}.

Record ShardMapState : Type := mkState {
  Nodes : gmap string NodeInfo;
  ShardsToNodes : gmap Z (list string);
  NumShards : Z
}.

(** The inner loop of [IsValid]: every node exists and none is repeated. *)
Fixpoint nodes_valid (nodes : gmap string NodeInfo) (nodeSet : gset string) (l : list string) : bool :=
  match l with
  | [] => true
  | node :: l' =>
      match nodes !! node with
      | None => false
      | Some _ => if decide (node ∈ nodeSet) then false
                  else nodes_valid nodes ({[node]} ∪ nodeSet) l'
      end
  end.

Definition IsValid (smState : ShardMapState) : bool :=
  if NumShards smState <? Z.of_nat (size (ShardsToNodes smState)) then false
  else forallb (fun '(shard, nodes) =>
         if (shard <? 1) || (NumShards smState <? shard) then false
         else nodes_valid (Nodes smState) ∅ nodes)
       (map_to_list (ShardsToNodes smState)).

Definition ShardsForNode (state : ShardMapState) (nodeName : string) : list Z :=
  '(shard, nodes) ← map_to_list (ShardsToNodes state);
  node ← nodes;
  if decide (node = nodeName) then [shard] else [].

Definition NodesForShard (state : ShardMapState) (shard : Z) : list string :=
  default [] (ShardsToNodes state !! shard).

(** [int(hasher.Sum32())%numShards + 1]: a division by zero panics. *)
Definition GetShardForKey (key : string) (numShards : Z) : go Z :=
  if numShards =? 0 then Panic else Ret (Z.rem (fnv32 key) numShards + 1).

(** ** Validity *)

Definition valid_assignment (smState : ShardMapState) : Prop :=
  forall shard nodes, ShardsToNodes smState !! shard = Some nodes ->
    1 <= shard <= NumShards smState /\ NoDup nodes
    /\ forall node, node ∈ nodes -> is_Some (Nodes smState !! node).

Lemma nodes_valid_spec ns S l :
  nodes_valid ns S l = true <->
  NoDup l /\ (forall node, node ∈ l -> node ∉ S /\ is_Some (ns !! node)).
Proof.
  revert S. induction l as [|x l IH]; intros S; cbn.
  { split; [intros _; split; [constructor|]|done]. intros n Hn. by apply elem_of_nil in Hn. }
  rewrite NoDup_cons. destruct (ns !! x) as [i|] eqn:E; cycle 1.
  { split; [done|]. intros [_ H]. destruct (H x) as [_ [? ?]]; [left|congruence]. }
  destruct (decide (x ∈ S)) as [Hx|Hx].
  { split; [done|]. intros [_ H]. by destruct (H x) as [? _]; [left|]. }
  rewrite IH. split.
  - intros [Hnd H]. split; [split; [|done]; intros Hxl; destruct (H x Hxl); set_solver|].
    intros n [->|Hn]%elem_of_cons; [eauto|]. destruct (H n Hn). split; [set_solver|done].
  - intros [[Hxl Hnd] H]. split; [done|]. intros n Hn. destruct (H n) as [HS ?]; [by right|].
    split; [|done]. intros [->%elem_of_singleton|?]%elem_of_union; done.
Qed.

(** Keys between 1 and [n] are at most [n]. *)
Lemma size_bounded {A} (m : gmap Z A) (n : Z) :
  0 <= n -> (forall k x, m !! k = Some x -> 1 <= k <= n) -> Z.of_nat (size m) <= n.
Proof.
  intros Hn Hk. rewrite <- (size_dom m).
  assert (dom m ⊆ list_to_set (C := gset Z) (seqZ 1 n)) as Hs.
  { intros k [x Hx]%elem_of_dom. apply elem_of_list_to_set, elem_of_seqZ. specialize (Hk k x Hx). lia. }
  apply subseteq_size in Hs. rewrite size_list_to_set, length_seqZ in Hs by apply NoDup_seqZ. lia.
Qed.

(** C26: [IsValid] accepts exactly the states that assign shards of
    [1..NumShards] to lists of distinct, known nodes; its first test, on the
    number of shards, only rejects a negative [NumShards] that nothing else
    would reject. *)
Theorem IsValid_spec (smState : ShardMapState) :
  IsValid smState = true <-> 0 <= NumShards smState /\ valid_assignment smState.
Proof.
  unfold IsValid, valid_assignment.
  destruct (Z.ltb_spec (NumShards smState) (Z.of_nat (size (ShardsToNodes smState)))) as [Hsz|Hsz].
  - split; [done|]. intros [H0 H]. exfalso.
    enough (Z.of_nat (size (ShardsToNodes smState)) <= NumShards smState) by lia.
    apply size_bounded; [done|]. intros k x Hk. by apply (H k x).
  - rewrite forallb_forall. split.
    + intros H. split; [lia|]. intros shard nodes Hl.
      assert (In (shard, nodes) (map_to_list (ShardsToNodes smState))) as Hin
        by (by apply list_elem_of_In, elem_of_map_to_list).
      specialize (H _ Hin). cbn in H. destruct (_ || _) eqn:E; [done|]. bprop.
      apply nodes_valid_spec in H as [Hnd Hn]. split; [lia|]. split; [done|]. intros n ?. by apply Hn.
    + intros [_ H] [shard nodes] Hin%list_elem_of_In%elem_of_map_to_list.
      destruct (H _ _ Hin) as (Hr & Hnd & Hn).
      destruct (_ || _) eqn:E; [bprop; destruct E; bprop; lia|].
      apply nodes_valid_spec. split; [done|]. intros n ?. split; [set_solver|auto].
Qed.

(** ** The two directions of the assignment *)

(** [ShardsForNode] and [NodesForShard] are inverse to each other: a node
    is listed for a shard exactly when the shard is listed for the node. *)
Theorem shards_nodes_dual (state : ShardMapState) (shard : Z) (nodeName : string) :
  shard ∈ ShardsForNode state nodeName <-> nodeName ∈ NodesForShard state shard.
Proof.
  unfold ShardsForNode, NodesForShard. rewrite list_elem_of_bind. split.
  - intros ([s nodes] & Hin & Hs). apply elem_of_map_to_list in Hs.
    apply list_elem_of_bind in Hin as (node & Hin & Hnode). case_decide; [|by apply elem_of_nil in Hin].
    apply list_elem_of_singleton in Hin. subst. by rewrite Hs.
  - destruct (ShardsToNodes state !! shard) as [nodes|] eqn:E; cbn; [|by intros ?%elem_of_nil].
    intros Hin. exists (shard, nodes). split; [|by apply elem_of_map_to_list].
    apply list_elem_of_bind. exists nodeName. split; [|done]. rewrite decide_True by done. left.
Qed.

(** ** The shard of a key *)

(** A key's shard is one of [1..NumShards], and the conversion to [int32]
    with which the server looks it up does not change it. *)
Theorem GetShardForKey_range (key : string) (numShards : Z) :
  1 <= numShards < 2 ^ 31 ->
  exists shard, GetShardForKey key numShards = Ret shard
    /\ 1 <= shard <= numShards /\ int32 shard = shard.
Proof.
  intros Hn. unfold GetShardForKey. destruct (Z.eqb_spec numShards 0); [lia|].
  eexists. split; [done|]. pose proof (fnv32_bound key).
  pose proof (Z.rem_bound_pos (fnv32 key) numShards). split; [lia|]. apply int32_id. lia.
Qed.

Lemma GetShardForKey_range_witness :
  exists shard, GetShardForKey "abc" 5 = Ret shard /\ 1 <= shard <= 5 /\ int32 shard = shard.
Proof. apply (GetShardForKey_range "abc" 5). lia. Defined.

(** ** Listeners

    [Update] swaps the state and then sends on the channel of every listener,
    one after the other, with the read lock of [mutex] held; the channels are
    unbuffered, so each send waits for that listener's loop. [MakeListener]
    and [Close] take the write lock. The consumer of a listener is the
    [shardMapListenLoop] of a server: it receives an update and handles it,
    or it receives the shutdown signal and returns, after which [Shutdown]
    closes the listener. *)

Module Listeners.

Inductive loop : Type := Listening | Handling | Stopped.

Record ShardMap : Type := mkShardMap {
  state : option ShardMapState;
  updateChannels : gmap Z loop;      (* the listeners and what their loops do *)
  updateChannelCounter : Z;
  updates : list (list Z)            (* calls of Update: the channels left *)
}.

Inductive action : Type :=
| MakeListener
| UpdateBegin (st : ShardMapState) (order : list Z)
| UpdateSend (k : nat)
| UpdateEnd (k : nat)
| LoopHandled (id : Z)
| LoopShutdown (id : Z)
| Close (id : Z).

Definition no_update (sm : ShardMap) : bool := match updates sm with [] => true | _ => false end.

Definition set_loop (sm : ShardMap) (id : Z) (l : loop) : ShardMap :=
  mkShardMap (state sm) (<[id := l]> (updateChannels sm)) (updateChannelCounter sm) (updates sm).

(** [MakeListener]: the new listener's id and the map after the call. *)
Definition makeListener (sm : ShardMap) : ShardMap * Z :=
  let id := updateChannelCounter sm in
  (mkShardMap (state sm) (<[id := Listening]> (updateChannels sm))
     (updateChannelCounter sm + 1) (updates sm), id).

Definition step (sm : ShardMap) (a : action) : option ShardMap :=
  match a with
  | MakeListener => if no_update sm then Some (makeListener sm).1 else None
  | UpdateBegin st order =>
      if decide (order ≡ₚ elements (dom (updateChannels sm)))
      then Some (mkShardMap (Some st) (updateChannels sm) (updateChannelCounter sm)
                   (updates sm ++ [order]))
      else None
  | UpdateSend k =>
      match updates sm !! k with
      | Some (id :: rest) =>
          match updateChannels sm !! id with
          | Some Listening =>
              Some (mkShardMap (state sm) (<[id := Handling]> (updateChannels sm))
                      (updateChannelCounter sm) (<[k := rest]> (updates sm)))
          | _ => None
          end
      | _ => None
      end
  | UpdateEnd k =>
      match updates sm !! k with
      | Some [] => Some (mkShardMap (state sm) (updateChannels sm) (updateChannelCounter sm)
                           (delete k (updates sm)))
      | _ => None
      end
  | LoopHandled id =>
      match updateChannels sm !! id with
      | Some Handling => Some (set_loop sm id Listening) | _ => None end
  | LoopShutdown id =>
      match updateChannels sm !! id with
      | Some Listening => Some (set_loop sm id Stopped) | _ => None end
  | Close id =>
      match updateChannels sm !! id with
      | Some Stopped =>
          if no_update sm
          then Some (mkShardMap (state sm) (delete id (updateChannels sm))
                       (updateChannelCounter sm) (updates sm))
          else None
      | _ => None
      end
  end.

Definition sstep (sm sm' : ShardMap) : Prop := exists a, step sm a = Some sm'.

Definition empty_map : ShardMap := mkShardMap None ∅ 0 [].

Definition wf (sm : ShardMap) : Prop :=
  (forall id l, updateChannels sm !! id = Some l -> 0 <= id < updateChannelCounter sm)
  /\ 0 <= updateChannelCounter sm
  /\ forall u id, u ∈ updates sm -> id ∈ u -> is_Some (updateChannels sm !! id).

Ltac step_inv H := unfold step in H; repeat (case_match; simplify_eq/=); try done.

Lemma elem_of_update {A} (l : list A) k x y : y ∈ <[k := x]> l -> y = x \/ y ∈ l.
Proof.
  intros [i Hi]%list_elem_of_lookup. apply list_lookup_insert_Some in Hi as [(_ & -> & _)|[_ Hi]]; [by left|].
  right. by eapply list_elem_of_lookup_2.
Qed.

Lemma no_update_true sm : no_update sm = true -> updates sm = [].
Proof. unfold no_update. by destruct (updates sm). Qed.

Lemma wf_step sm sm' : wf sm -> sstep sm sm' -> wf sm'.
Proof.
  intros (Hid & Hc & Hu) [a H].
  destruct a as [|st order|k|k|id|id|id]; step_inv H; (split; [|split]); cbn; try done;
    try (intros i l Hi; cbn in Hi; apply lookup_insert_Some in Hi as [[<- _]|[_ Hi]]);
    try (specialize (Hid _ _ ltac:(eassumption)); lia); try lia;
    try (intros u i Hin Hi; cbn in *; apply lookup_insert_is_Some'; right; by eapply Hu).
  - intros u i [Hin| ->%list_elem_of_singleton]%elem_of_app Hi; [by eapply Hu|].
    match goal with H : order ≡ₚ _ |- _ => rewrite H in Hi end.
    by apply elem_of_elements, elem_of_dom in Hi.
  - intros u i Hin Hi. apply lookup_insert_is_Some'. right.
    apply elem_of_update in Hin as [->|Hin]; [|by eapply Hu].
    eapply Hu; [by eapply list_elem_of_lookup_2|by right].
  - intros u i Hin Hi. eapply Hu; [|done]. by eapply list_elem_of_delete_inv.
  - intros i l Hi. apply lookup_delete_Some in Hi as [_ Hi]. by eapply Hid.
  - intros u i Hin. match goal with H : no_update _ = true |- _ => apply no_update_true in H; rewrite H in Hin end.
    by apply elem_of_nil in Hin.
Qed.

Lemma wf_rtc sm sm' : wf sm -> rtc sstep sm sm' -> wf sm'.
Proof. intros Hwf H. induction H; [done|]. eauto using wf_step. Qed.

Lemma wf_empty : wf empty_map.
Proof.
  split; [intros id l H; cbn in H; by rewrite lookup_empty in H|]. split; [done|].
  intros u id H. by apply elem_of_nil in H.
Qed.

(** Listener ids are unique: whatever has happened to a [ShardMap], the
    id the next [MakeListener] returns is not the id of an open listener, so
    no channel is overwritten. *)
Theorem listener_id_fresh (sm : ShardMap) :
  rtc sstep empty_map sm -> updateChannels sm !! (makeListener sm).2 = None.
Proof.
  intros H. destruct (wf_rtc _ _ wf_empty H) as (Hid & _ & _). cbn.
  destruct (updateChannels sm !! updateChannelCounter sm) eqn:E; [|done].
  specialize (Hid _ _ E). lia.
Qed.

(** An update waits for the listener [id], whose loop has returned. *)
Definition waits_for_stopped (id : Z) (sm : ShardMap) : Prop :=
  updateChannels sm !! id = Some Stopped /\ exists u, u ∈ updates sm /\ id ∈ u.

Lemma waits_step id sm sm' : waits_for_stopped id sm -> sstep sm sm' -> waits_for_stopped id sm'.
Proof.
  intros [Hs (u & Hin & Hid)] [a H]. unfold waits_for_stopped.
  assert (updates sm <> []) as Hne by (intros E; rewrite E in Hin; by apply elem_of_nil in Hin).
  destruct a as [|st order|k|k|i|i|i]; unfold step, no_update in H;
    try (destruct (updates sm); [done|done]); cycle -1.
  { destruct (updateChannels sm !! i) as [[]|]; [done|done| |done]. by destruct (updates sm). }
  all: repeat (case_match; simplify_eq/=); try done.
  - split; [done|]. exists u. split; [apply elem_of_app; by left|done].
  - rewrite lookup_insert_ne by congruence. split; [done|].
    apply list_elem_of_lookup in Hin as [j Hj]. destruct (decide (j = k)) as [->|Hjk].
    + rewrite Hj in *. simplify_eq. apply elem_of_cons in Hid as [->|Hid]; [congruence|].
      eexists. split; [eapply list_elem_of_lookup_2, list_lookup_insert_eq; by eapply lookup_lt_Some|done].
    + exists u. split; [|done]. eapply (list_elem_of_lookup_2 _ j). by rewrite list_lookup_insert_ne.
  - split; [done|]. exists u. split; [|done].
    rewrite (lookup_delete_perm _ _ _ ltac:(eassumption)) in Hin.
    apply elem_of_cons in Hin as [->|?]; [by apply elem_of_nil in Hid|done].
  - rewrite lookup_insert_ne by congruence. eauto.
  - rewrite lookup_insert_ne by congruence. eauto.
Qed.

(** C27: [Shutdown] and [Update] can deadlock. Once an [Update] has yet to
    send to a listener whose loop has received the shutdown signal, it waits
    for ever: in every later state the [Update] is still in progress, and
    neither [Close], which [Shutdown] calls next, nor [MakeListener] gets the
    lock. *)
Theorem shutdown_update_deadlock (id : Z) (sm sm' : ShardMap) :
  waits_for_stopped id sm -> rtc sstep sm sm' ->
  waits_for_stopped id sm' /\ (forall i, step sm' (Close i) = None) /\ step sm' MakeListener = None.
Proof.
  intros Hw H. assert (waits_for_stopped id sm') as Hw' by (induction H; eauto using waits_step).
  split; [done|]. destruct Hw' as [_ (u & Hin & _)].
  assert (no_update sm' = false) as Hn.
  { unfold no_update. destruct (updates sm'); [by apply elem_of_nil in Hin|done]. }
  cbn. rewrite Hn. split; [|done]. intros i. by destruct (updateChannels sm' !! i) as [[]|].
Qed.

Definition one_state : ShardMapState := mkState ∅ ∅ 1.
Definition deadlock_acts : list action := [MakeListener; UpdateBegin one_state [0]; LoopShutdown 0].

Definition run (sm : ShardMap) (acts : list action) : option ShardMap :=
  foldl (fun o a => sm ← o; step sm a) (Some sm) acts.

Lemma shutdown_update_deadlock_witness :
  exists sm, run empty_map deadlock_acts = Some sm /\ waits_for_stopped 0 sm
    /\ (forall i, step sm (Close i) = None).
Proof.
  eexists. split; [vm_compute; reflexivity|].
  match goal with |- waits_for_stopped 0 ?s /\ _ =>
    destruct (shutdown_update_deadlock 0 s s) as (H & Hc & _) end.
  - split; [vm_compute; reflexivity|]. exists [0]. split; apply list_elem_of_singleton; reflexivity.
  - apply rtc_refl.
  - exact (conj H Hc).
Defined.

(** *** Without a shutdown, updates complete *)

Lemma ready_listener sm id l :
  updateChannels sm !! id = Some l -> l <> Stopped ->
  exists sm', rtc sstep sm sm' /\ updateChannels sm' = <[id := Listening]> (updateChannels sm)
    /\ updates sm' = updates sm.
Proof.
  intros Hl Hne. destruct l; [| |done].
  - exists sm. split; [done|]. by rewrite insert_id.
  - exists (set_loop sm id Listening). split; [|done].
    apply rtc_once. exists (LoopHandled id). cbn. by rewrite Hl.
Qed.

Definition no_stopped (sm : ShardMap) : Prop :=
  forall id l, updateChannels sm !! id = Some l -> l <> Stopped.

Lemma update_drains u sm rest :
  wf sm -> no_stopped sm -> updates sm = u :: rest ->
  exists sm', rtc sstep sm sm' /\ no_stopped sm' /\ updates sm' = rest.
Proof.
  revert sm. induction u as [|id u IH]; intros sm Hwf Hns Hu.
  - exists (mkShardMap (state sm) (updateChannels sm) (updateChannelCounter sm) rest).
    split; [|done]. apply rtc_once. exists (UpdateEnd 0). cbn. by rewrite Hu.
  - destruct (proj2 (proj2 Hwf) (id :: u) id) as [l Hl]; [rewrite Hu; left|left|].
    destruct (ready_listener sm id l Hl) as (sm1 & Hr1 & Hc1 & Hu1); [by eapply Hns|].
    set (sm2 := mkShardMap (state sm1) (<[id := Handling]> (updateChannels sm1))
                  (updateChannelCounter sm1) (u :: rest)).
    assert (sstep sm1 sm2) as Hs2.
    { assert (updateChannels sm1 !! id = Some Listening) as E by (rewrite Hc1; apply lookup_insert_eq).
      exists (UpdateSend 0). cbn. rewrite Hu1, Hu. cbn. by rewrite E. }
    assert (rtc sstep sm sm2) as Hr2 by (by eapply rtc_r).
    destruct (IH sm2) as (sm' & Hr' & Hns' & Hu').
    + by eapply wf_rtc.
    + intros i l' Hi. cbn in Hi. rewrite Hc1 in Hi.
      apply lookup_insert_Some in Hi as [[_ <-]|[_ Hi]]; [done|].
      apply lookup_insert_Some in Hi as [[_ <-]|[_ Hi]]; [done|]. by eapply Hns.
    + done.
    + exists sm'. split; [by etrans|done].
Qed.

(** As long as no listener's loop has stopped, every [Update] in progress
    can run to its end: some execution delivers all notifications and
    releases the lock. *)
Theorem updates_complete (sm : ShardMap) :
  rtc sstep empty_map sm -> no_stopped sm ->
  exists sm', rtc sstep sm sm' /\ updates sm' = [].
Proof.
  intros H%(wf_rtc _ _ wf_empty). remember (updates sm) as us eqn:E. revert sm H E.
  induction us as [|u us IH]; intros sm Hwf E Hns; [by exists sm|].
  destruct (update_drains u sm us Hwf Hns) as (sm1 & Hr & Hns1 & Hu1); [done|].
  destruct (IH sm1) as (sm' & Hr' & Hu'); [by eapply wf_rtc|done|done|].
  exists sm'. split; [by etrans|done].
Qed.

Lemma run_steps sm acts sm' : run sm acts = Some sm' -> rtc sstep sm sm'.
Proof.
  unfold run. revert sm. induction acts as [|a acts IH]; intros sm H; [cbn in H; naive_solver|].
  change (foldl (fun o a => sm ← o; step sm a) (step sm a) acts = Some sm') in H.
  destruct (step sm a) as [sm1|] eqn:E.
  - eapply rtc_l; [by exists a|by apply IH].
  - exfalso. clear -H. induction acts; cbn in *; [done|auto].
Qed.

Definition busy : ShardMap :=
  mkShardMap (Some one_state) {[0 := Listening; 1 := Handling]} 2 [[0]].
Definition busy_acts : list action :=
  [MakeListener; MakeListener; UpdateBegin one_state [1; 0]; UpdateSend 0].

Lemma updates_complete_witness :
  run empty_map busy_acts = Some busy /\ exists sm', rtc sstep busy sm' /\ updates sm' = [].
Proof.
  split; [vm_compute; reflexivity|]. apply (updates_complete busy).
  - apply (run_steps _ busy_acts). vm_compute. reflexivity.
  - intros id l H. unfold busy in H. cbn in H.
    apply lookup_insert_Some in H as [[_ <-]|[_ H]]; [discriminate|].
    apply lookup_singleton_Some in H as [_ <-]. discriminate.
Defined.

Lemma listener_id_fresh_witness : updateChannels busy !! (makeListener busy).2 = None.
Proof.
  apply (listener_id_fresh busy). apply (run_steps _ busy_acts). vm_compute. reflexivity.
Defined.

End Listeners.
