(* ===== verification/FileShardMap.v ===== *)
(** * lab4/kv/file_shardmap.go: a shard map kept in a file

    The file is read once at the start and again whenever the watcher reports
    a write to it. What the watcher reports and what a read of the file gives
    are inputs; [Unmarshal] is the JSON decoder for [ShardMapState] and
    [Create] and [Write] are the bits of fsnotify's [Op]. *)

From Stdlib Require Import String ZArith.
From stdpp Require Import prelude strings.
From S2P Require Import Prelude ShardMap.
Local Open Scope Z_scope.

Section FileShardMap.
Context {Data : Type} (Unmarshal : Data -> option ShardMapState) (Create Write : Z).

Definition isBitSet (bitset bit : Z) : bool := negb (Z.land bitset bit =? 0).

Record FileShardMap : Type := mkFileSM {
  updates : list ShardMapState;     (* the calls of ShardMap.Update, oldest first *)
  filename : string;
  done_made : bool;                 (* the channel [done] is not nil *)
  watching : bool                   (* watchForUpdates has not returned *)
}.

(** What [ShardMap.GetState] returns: the state of the last [Update]. *)
Definition GetState (f : FileShardMap) : option ShardMapState := last (updates f).

(** [file] is what [os.ReadFile] gives, [None] an error. The result says
    whether the function returned nil. *)
Definition applyFromFile (f : FileShardMap) (file : option Data) : FileShardMap * bool :=
  match file ≫= Unmarshal with
  | Some smState => (mkFileSM (updates f ++ [smState]) (filename f) (done_made f) (watching f), true)
  | None => (f, false)
  end.

(** What the [select] of [watchForUpdates] may receive; a file event comes
    with what a read of the file gives at that moment. *)
Inductive event : Type :=
| Event (name : string) (op : Z) (file : option Data)
| EventsClosed
| WatchError
| ErrorsClosed
| DoneReceived.

(** One iteration of the loop. The [break]s leave only the [select]. A receive
    from the nil channel [done] is never ready. *)
Definition watch_iter (f : FileShardMap) (ev : event) : go FileShardMap :=
  match ev with
  | Event name op file =>
      if negb (String.eqb name (filename f)) then Ret f
      else if isBitSet op Write || isBitSet op Create then Ret (applyFromFile f file).1
      else Ret f
  | EventsClosed | WatchError | ErrorsClosed => Ret f
  | DoneReceived => if done_made f then Ret (mkFileSM (updates f) (filename f) (done_made f) false) else Block
  end.

Definition watchForUpdates (f : FileShardMap) (evs : list event) : go FileShardMap :=
  go_fold (fun f ev => if watching f then watch_iter f ev else Block) f evs.

(** [watcher]: the watcher was made and watches the directory. *)
Definition WatchShardMapFile (name : string) (watcher : bool) (file : option Data) : option FileShardMap :=
  if negb watcher then None
  else match applyFromFile (mkFileSM [] name false true) file with
       | (f, true) => Some f
       | (_, false) => None
       end.

(** A send on a nil channel blocks for ever; on an unbuffered one it needs the
    loop to receive. *)
Definition Shutdown (f : FileShardMap) : go FileShardMap :=
  if done_made f then watch_iter f DoneReceived else Block.

(** The state an event makes current, if it makes any. *)
Definition good (name : string) (ev : event) : option ShardMapState :=
  match ev with
  | Event nm op file =>
      if String.eqb nm name && (isBitSet op Write || isBitSet op Create) then file ≫= Unmarshal else None
  | _ => None
  end.

Lemma watch_iter_good f ev : done_made f = false -> watching f = true -> ev <> DoneReceived ->
  watch_iter f ev = Ret (mkFileSM (updates f ++ option_list (good (filename f) ev)) (filename f) false true).
Proof.
  intros Hd Hw Hev. destruct f as [u fn d w]; cbn in *; subst.
  destruct ev as [name op file| | | |]; try done; unfold watch_iter, good; cbn [filename]; cbn [option_list];
    rewrite ?app_nil_r; try done.
  destruct (String.eqb name fn); cbn; rewrite ?app_nil_r; [|done].
  destruct (isBitSet op Write || isBitSet op Create); cbn; rewrite ?app_nil_r; [|done].
  unfold applyFromFile. destruct (file ≫= Unmarshal); cbn; by rewrite ?app_nil_r.
Qed.

(** A watched file keeps its last good shard map and can never be shut
    down. After a successful [WatchShardMapFile] and any events of the watcher
    (closed channels and errors included), the loop still runs and the current
    map is the last one parsed from the file at a write or create event for it, the initial one if
    there was none; unreadable or malformed contents change nothing; and
    [Shutdown], whose channel nobody makes, blocks for ever. *)
Theorem file_last_good name watcher file f evs :
  WatchShardMapFile name watcher file = Some f -> DoneReceived ∉ evs ->
  exists s0 f', file ≫= Unmarshal = Some s0 /\ watchForUpdates f evs = Ret f' /\ watching f' = true
    /\ GetState f' = last (s0 :: omap (good name) evs)
    /\ Shutdown f' = Block /\ watch_iter f' DoneReceived = Block.
Proof.
  unfold WatchShardMapFile, applyFromFile. intros Hw Hd. destruct watcher; [|done]. cbn in Hw.
  destruct (file ≫= Unmarshal) as [s0|] eqn:E0; [|done]. injection Hw as <-. exists s0.
  assert (H : forall u, watchForUpdates (mkFileSM u name false true) evs
    = Ret (mkFileSM (u ++ omap (good name) evs) name false true)).
  { clear E0. induction evs as [|ev evs IH]; intros u; cbn; [by rewrite app_nil_r|].
    apply not_elem_of_cons in Hd as [Hev Hd]. rewrite watch_iter_good by done. cbn [mbind go_bind updates filename].
    fold (watchForUpdates (mkFileSM (u ++ option_list (good name ev)) name false true) evs). rewrite IH by done.
    destruct (good name ev); cbn; by rewrite <- ?app_assoc, ?app_nil_r. }
  eexists. split_and!; [done|apply H|done..].
Qed.

End FileShardMap.

(** A file of one number of shards. *)
Definition demo_unmarshal (z : Z) : option ShardMapState := if z <? 0 then None else Some (mkState ∅ ∅ z).
Definition demo_events : list (event (Data := Z)) :=
  [Event "map" 2 (Some 5); Event "other" 2 (Some 6); WatchError; Event "map" 2 (Some (-1)); EventsClosed].

Lemma file_last_good_witness : exists f', 
  watchForUpdates demo_unmarshal 1 2 (mkFileSM [mkState ∅ ∅ 3] "map" false true) demo_events = Ret f'
  /\ GetState f' = Some (mkState ∅ ∅ 5).
Proof.
  destruct (file_last_good demo_unmarshal 1 2 "map" true (Some 3) (mkFileSM [mkState ∅ ∅ 3] "map" false true) demo_events)
    as (s0 & f' & Hs & Hw & _ & Hg & _).
  - reflexivity.
  - unfold demo_events. set_solver.
  - exists f'. split; [exact Hw|]. rewrite Hg. vm_compute in Hs. injection Hs as <-. vm_compute. reflexivity.
Defined.
