(* ===== verification/ShardWorkflows.v ===== *)
(** * lab4/kv/test/test_setup.go: moving shards and replicas

    The workflows that change which node hosts a shard, the way an operator
    would: add and drop replicas, move a shard, drain or remove a node. Each
    works on a copy of the shard map's state and publishes it with
    [UpdateShardMapping]. A workflow is a function from the current state to
    the list of states it publishes, the last of which is the state it leaves;
    an error ends it with what was published before.

    [rand.Perm] is the class [RandPerm]: [Perm k n] is what the k-th call
    returns for [n]. The order in which Go ranges over a map does not matter
    where a random choice follows, and is the order of [map_to_list]
    otherwise. *)

From Stdlib Require Import String.
From stdpp Require Import prelude gmap strings pretty sorting.
From S2P Require Import Prelude Fnv ShardMap.
Local Open Scope Z_scope.

Class RandPerm : Type := {
  Perm : Z -> Z -> list Z;
  Perm_law k n : 0 <= n -> Perm k n ≡ₚ seqZ 0 n
}.

Inductive wf_error : Type :=
| NotEnoughNodes (shard : Z)
| AlreadyAdded (node : string) (shard : Z)
| TooFewReplicas (shard : Z)
| TooManySrcNodes (shard : Z)
| NotInNodeSet (rest : gset string) (shard : Z).

Definition sliceToMap (nodes : list string) : gset string := list_to_set nodes.

Fixpoint nodesExcept (nodes : list string) (nodeToRemove : string) : list string :=
  match nodes with
  | [] => []
  | node :: rest =>
      if decide (node = nodeToRemove) then nodesExcept rest nodeToRemove
      else node :: nodesExcept rest nodeToRemove
  end.

(** The values are copied; in the model a state is a value. *)
Definition copyShardMapState (src : ShardMapState) : ShardMapState :=
  mkState (Nodes src) (ShardsToNodes src) (NumShards src).

Definition set_nodes (st : ShardMapState) (shard : Z) (nodes : list string) : ShardMapState :=
  mkState (Nodes st) (<[shard := nodes]> (ShardsToNodes st)) (NumShards st).

Section Workflows.
Context `{RandPerm}.

(** ** Adding replicas *)

(** The loop over [dstNodes]. *)
Fixpoint add_dst (shard : Z) (nodesSet : gset string) (nodes dst : list string)
    : gset string * list string + wf_error :=
  match dst with
  | [] => inl (nodesSet, nodes)
  | node :: rest =>
      if decide (node ∈ nodesSet) then inr (AlreadyAdded node shard)
      else add_dst shard ({[node]} ∪ nodesSet) (nodes ++ [node]) rest
  end.

(** The loops that append [xs[perm[i]]] for [i] below [k]. *)
Definition pick (xs : list string) (perm : list Z) (nodes : list string) (i : nat) : go (list string) :=
  let! j := go_index perm (Z.of_nat i) in
  let! x := go_index xs j in
  Ret (nodes ++ [x]).

Definition addReplicasForShard (smState : ShardMapState) (shard numReplicasToAdd : Z) (dstNodes : list string)
    (call : Z) : go (ShardMapState + wf_error) :=
  let nodes := NodesForShard smState shard in
  let numNodes := Z.of_nat (size (Nodes smState)) in
  if numNodes <? len nodes + numReplicasToAdd then Ret (inr (NotEnoughNodes shard))
  else
    match add_dst shard (sliceToMap nodes) nodes dstNodes with
    | inr e => Ret (inr e)
    | inl (nodesSet, nodes) =>
        if numNodes - len nodes <? 0 then Panic   (* the capacity of dstOptions *)
        else
          let dstOptions := filter (fun n => n ∉ nodesSet) (map_to_list (Nodes smState)).*1 in
          let perm := Perm call (len dstOptions) in
          let! nodes := go_fold (pick dstOptions perm) nodes
                          (seq 0 (Z.to_nat (numReplicasToAdd - len dstNodes))) in
          Ret (inl (set_nodes smState shard nodes))
    end.

(** ** Dropping replicas *)

(** The loop over the current nodes: those of [srcNodes] are taken out, once. *)
Fixpoint drop_src (srcNodesSet : gset string) (candidates nodes : list string) : gset string * list string :=
  match nodes with
  | [] => (srcNodesSet, candidates)
  | node :: rest =>
      if decide (node ∈ srcNodesSet) then drop_src (srcNodesSet ∖ {[node]}) candidates rest
      else drop_src srcNodesSet (candidates ++ [node]) rest
  end.

Definition dropReplicasForShard (smState : ShardMapState) (shard numReplicasToDrop : Z) (srcNodes : list string)
    (call : Z) : go (ShardMapState + wf_error) :=
  let nodes := NodesForShard smState shard in
  let numCurrentNodes := len nodes in
  if numCurrentNodes <? numReplicasToDrop then Ret (inr (TooFewReplicas shard))
  else if numReplicasToDrop <? len srcNodes then Ret (inr (TooManySrcNodes shard))
  else
    let '(missing, candidates) := drop_src (sliceToMap srcNodes) [] nodes in
    if decide (missing = ∅) then
      let perm := Perm call (numCurrentNodes - len srcNodes) in
      let! nodes := go_fold (pick candidates perm) [] (seq 0 (Z.to_nat (numCurrentNodes - numReplicasToDrop))) in
      Ret (inl (set_nodes smState shard nodes))
    else Ret (inr (NotInNodeSet missing shard)).

(** ** Workflows *)

(** [UpdateShardMapping] publishes twice, to wait for the first update. *)
Definition UpdateShardMapping (cur : ShardMapState) (shardsToNodes : gmap Z (list string)) : list ShardMapState :=
  let state := mkState (Nodes cur) shardsToNodes (NumShards cur) in [state; state].

(** One shard after the other; [calls] numbers the random choices. *)
Fixpoint each_shard (f : ShardMapState -> Z -> Z -> go (ShardMapState + wf_error))
    (smState : ShardMapState) (shards : list Z) (calls : Z -> Z) : go (ShardMapState + wf_error) :=
  match shards with
  | [] => Ret (inl smState)
  | shard :: rest =>
      let! r := f smState shard (calls shard) in
      match r with
      | inr e => Ret (inr e)
      | inl smState => each_shard f smState rest calls
      end
  end.

(** The published states and the error, if there was one. *)
Notation outcome := (list ShardMapState * option wf_error)%type.

Definition RemoveNode (cur : ShardMapState) (nodeToRemove : string) (calls : Z -> Z) : go outcome :=
  let shards := ShardsForNode cur nodeToRemove in
  let! r := each_shard (fun st shard call => dropReplicasForShard st shard 1 [nodeToRemove] call)
              (copyShardMapState cur) shards calls in
  match r with
  | inr e => Ret ([], Some e)
  | inl st => Ret (UpdateShardMapping cur (ShardsToNodes st), None)
  end.

Definition DrainNode (cur : ShardMapState) (nodeToDrain : string) (calls1 calls2 : Z -> Z) : go outcome :=
  let numNodes := Z.of_nat (size (Nodes cur)) in
  let shards := ShardsForNode cur nodeToDrain in
  let! r := each_shard (fun st shard call =>
              if len (NodesForShard st shard) <? numNodes then addReplicasForShard st shard 1 [] call
              else Ret (inl st)) (copyShardMapState cur) shards calls1 in
  match r with
  | inr e => Ret ([], Some e)
  | inl st =>
      let published := UpdateShardMapping cur (ShardsToNodes st) in
      let cur := mkState (Nodes cur) (ShardsToNodes st) (NumShards cur) in
      let! r := each_shard (fun st shard call => dropReplicasForShard st shard 1 [nodeToDrain] call)
                  (copyShardMapState cur) shards calls2 in
      match r with
      | inr e => Ret (published, Some e)
      | inl st => Ret (published ++ UpdateShardMapping cur (ShardsToNodes st), None)
      end
  end.

Definition MoveShard (cur : ShardMapState) (shardToMove : Z) (srcNode dstNode : string) (call1 call2 : Z)
    : go outcome :=
  if decide (srcNode = dstNode) then Ret ([], None)
  else
    let! r := addReplicasForShard (copyShardMapState cur) shardToMove 1 [dstNode] call1 in
    match r with
    | inr e => Ret ([], Some e)
    | inl st =>
        let published := UpdateShardMapping cur (ShardsToNodes st) in
        let cur := mkState (Nodes cur) (ShardsToNodes st) (NumShards cur) in
        let! r := dropReplicasForShard (copyShardMapState cur) shardToMove 1 [srcNode] call2 in
        match r with
        | inr e => Ret (published, Some e)
        | inl st => Ret (published ++ UpdateShardMapping cur (ShardsToNodes st), None)
        end
    end.

(** [for { ... }] of [MoveRandomShard]: [draws] are the values of [rand.Int()];
    [Block] is the end of the draws. *)
Fixpoint find_shard (cur : ShardMapState) (draws : list Z) : go Z :=
  match draws with
  | [] => Block
  | r :: rest =>
      if NumShards cur =? 0 then Panic
      else
        let shard := Z.rem r (NumShards cur) + 1 in
        let nodes := NodesForShard cur shard in
        if (0 <? len nodes) && (len nodes <? Z.of_nat (size (Nodes cur))) then Ret shard
        else find_shard cur rest
  end.

Definition MoveRandomShard (cur : ShardMapState) (draws : list Z) (r1 r2 : Z) (call1 call2 : Z) : go outcome :=
  let! shardToMove := find_shard cur draws in
  let nodes := NodesForShard cur shardToMove in
  let! srcNode := go_index nodes (Z.rem r1 (len nodes)) in
  let dstCandidate := filter (fun n => n ∉ sliceToMap nodes) (map_to_list (Nodes cur)).*1 in
  if len dstCandidate =? 0 then Panic
  else
    let! dstNode := go_index dstCandidate (Z.rem r2 (len dstCandidate)) in
    MoveShard cur shardToMove srcNode dstNode call1 call2.

Definition DropShard (cur : ShardMapState) (shardToDrop call : Z) : go outcome :=
  let! r := dropReplicasForShard (copyShardMapState cur) shardToDrop (len (NodesForShard cur shardToDrop)) [] call in
  match r with
  | inr e => Ret ([], Some e)
  | inl st => Ret (UpdateShardMapping cur (ShardsToNodes st), None)
  end.

Definition DropRandomShard (cur : ShardMapState) (r call : Z) : go outcome :=
  if NumShards cur =? 0 then Panic else DropShard cur (Z.rem r (NumShards cur) + 1) call.

(** ** Random choices *)

Definition permuted (xs : list string) (perm : list Z) : list string :=
  (fun j => default ""%string (xs !! Z.to_nat j)) <$> perm.

Lemma permuted_id xs : permuted xs (seqZ 0 (len xs)) = xs.
Proof.
  apply list_eq. intros i. unfold permuted. rewrite list_lookup_fmap.
  destruct (xs !! i) as [x|] eqn:E.
  - rewrite lookup_seqZ_lt by (apply lookup_lt_Some in E; unfold len; lia). cbn.
    replace (Z.to_nat (0 + Z.of_nat i)) with i by lia. by rewrite E.
  - rewrite lookup_seqZ_ge; [done|]. apply lookup_ge_None in E. unfold len. lia.
Qed.

Lemma permuted_perm xs perm : perm ≡ₚ seqZ 0 (len xs) -> permuted xs perm ≡ₚ xs.
Proof. intros Hp. rewrite <- (permuted_id xs) at 2. unfold permuted. by rewrite Hp. Qed.

Lemma pick_fold (xs : list string) perm nodes k :
  perm ≡ₚ seqZ 0 (len xs) -> (k <= length xs)%nat ->
  go_fold (pick xs perm) nodes (seq 0 k) = Ret (nodes ++ take k (permuted xs perm)).
Proof.
  intros Hp. assert (length perm = length xs) as Hl.
  { rewrite Hp, length_seqZ. unfold len. lia. }
  induction k as [|k IH]; intros Hk; [cbn; by rewrite app_nil_r|].
  rewrite seq_S, go_fold_app, IH by lia. cbn [mbind go_bind go_fold Nat.add].
  destruct (lookup_lt_is_Some_2 perm k) as [j Hj]; [lia|].
  assert (j ∈ seqZ 0 (len xs)) as Hin by (rewrite <- Hp; by eapply list_elem_of_lookup_2).
  apply elem_of_seqZ in Hin. destruct (lookup_lt_is_Some_2 xs (Z.to_nat j)) as [x Hx]; [unfold len in Hin; lia|].
  unfold pick. rewrite (go_index_nat _ _ _ Hj). cbn [mbind go_bind].
  rewrite (proj2 (go_index_Ret xs j x)) by (split; [lia|done]). cbn [mbind go_bind].
  rewrite <- app_assoc. do 2 f_equal. symmetry. apply take_S_r. unfold permuted.
  by rewrite list_lookup_fmap, Hj; cbn; rewrite Hx.
Qed.

(** A part of a random order has no repetitions and no strangers. *)
Lemma take_permuted (xs : list string) perm k :
  perm ≡ₚ seqZ 0 (len xs) -> NoDup xs -> (k <= length xs)%nat ->
  NoDup (take k (permuted xs perm)) /\ length (take k (permuted xs perm)) = k
  /\ (forall x, x ∈ take k (permuted xs perm) -> x ∈ xs).
Proof.
  intros Hp Hnd Hk. pose proof (permuted_perm xs perm Hp) as Hx. split_and!.
  - eapply sublist_NoDup; [|apply sublist_take]. by rewrite Hx.
  - rewrite length_take, (Permutation_length Hx). lia.
  - intros x Hin. rewrite <- Hx. eapply elem_of_sublist; [done|apply sublist_take].
Qed.

(** ** The two operations *)

Lemma copy_id st : copyShardMapState st = st.
Proof. by destruct st. Qed.

Lemma NodesForShard_set st shard nodes k :
  NodesForShard (set_nodes st shard nodes) k = if decide (k = shard) then nodes else NodesForShard st k.
Proof.
  unfold NodesForShard, set_nodes. cbn. case_decide as E; [subst; by rewrite lookup_insert_eq|].
  by rewrite lookup_insert_ne by congruence.
Qed.

Lemma valid_set_nodes st shard nodes :
  valid_assignment st -> 1 <= shard <= NumShards st -> NoDup nodes ->
  (forall n, n ∈ nodes -> is_Some (Nodes st !! n)) -> valid_assignment (set_nodes st shard nodes).
Proof.
  intros Hv Hs Hnd Hn k ns Hk. cbn in *. apply lookup_insert_Some in Hk as [[<- <-]|[_ Hk]]; [done|by apply Hv].
Qed.

Lemma valid_nodes st shard :
  valid_assignment st -> NoDup (NodesForShard st shard)
    /\ forall n, n ∈ NodesForShard st shard -> is_Some (Nodes st !! n).
Proof.
  intros Hv. unfold NodesForShard. destruct (ShardsToNodes st !! shard) as [ns|] eqn:E; cbn.
  - by destruct (Hv _ _ E) as (_ & ? & ?).
  - split; [constructor|]. by intros n ?%elem_of_nil.
Qed.

Lemma hosted_range st shard n : valid_assignment st -> n ∈ NodesForShard st shard -> 1 <= shard <= NumShards st.
Proof.
  intros Hv Hin. unfold NodesForShard in Hin. destruct (ShardsToNodes st !! shard) as [ns|] eqn:E; cbn in Hin.
  - by destruct (Hv _ _ E) as (? & _).
  - by apply elem_of_nil in Hin.
Qed.

Lemma add_dst_ok shard S nodes dst :
  NoDup dst -> (forall n, n ∈ dst -> n ∉ S) ->
  add_dst shard S nodes dst = inl (list_to_set dst ∪ S, nodes ++ dst).
Proof.
  revert S nodes. induction dst as [|d dst IH]; intros S nodes Hnd Hd; cbn.
  { by rewrite (left_id_L ∅ (∪)), app_nil_r. }
  apply NoDup_cons in Hnd as [Hx Hnd]. rewrite decide_False by (apply Hd; left).
  rewrite IH; [|done|]; [|intros n Hn; specialize (Hd n); set_solver].
  rewrite <- app_assoc. do 2 f_equal. set_solver.
Qed.

Lemma dst_options (m : gmap string NodeInfo) (S : gset string) :
  S ⊆ dom m -> let opts := filter (fun n => n ∉ S) (map_to_list m).*1 in
  NoDup opts /\ (forall n, n ∈ opts <-> is_Some (m !! n) /\ n ∉ S) /\ length opts = (size m - size S)%nat.
Proof.
  intros HS opts. assert (forall n, n ∈ opts <-> is_Some (m !! n) /\ n ∉ S) as Hin.
  { intros n. unfold opts. rewrite list_elem_of_filter, <- elem_of_dom.
    assert (n ∈ (map_to_list m).*1 <-> n ∈ dom m) as ->; [|tauto].
    rewrite elem_of_dom, list_elem_of_fmap. split.
    - intros ([k x] & -> & Hk%elem_of_map_to_list). by exists x.
    - intros [x Hx]. exists (n, x). by rewrite elem_of_map_to_list. }
  assert (NoDup opts) as Hnd by (apply NoDup_filter, NoDup_fst_map_to_list). split_and!; [done|done|].
  rewrite <- (size_dom m), <- size_difference by done. rewrite <- (size_list_to_set (C := gset string) opts) by done.
  f_equal. apply set_eq. intros n. rewrite elem_of_list_to_set, Hin, elem_of_difference, elem_of_dom. done.
Qed.

(** [addReplicasForShard] adds the given nodes and then random ones, to the
    asked number, and the assignment stays valid. *)
Lemma add_ok st shard num dst call :
  valid_assignment st -> 1 <= shard <= NumShards st -> NoDup dst -> len dst <= num ->
  (forall n, n ∈ dst -> is_Some (Nodes st !! n) /\ n ∉ NodesForShard st shard) ->
  len (NodesForShard st shard) + num <= Z.of_nat (size (Nodes st)) ->
  exists extra, addReplicasForShard st shard num dst call
      = Ret (inl (set_nodes st shard (NodesForShard st shard ++ dst ++ extra)))
    /\ len extra = num - len dst
    /\ valid_assignment (set_nodes st shard (NodesForShard st shard ++ dst ++ extra)).
Proof.
  intros Hv Hs Hnd Hl Hd Hn. destruct (valid_nodes st shard Hv) as [Hcur Hcurn].
  set (cur := NodesForShard st shard) in *. set (S := list_to_set dst ∪ sliceToMap cur : gset string).
  assert (size S = length dst + length cur)%nat as HSsz.
  { unfold S, sliceToMap. rewrite size_union by (intros n; rewrite !elem_of_list_to_set; naive_solver).
    by rewrite !size_list_to_set. }
  assert (S ⊆ dom (Nodes st)) as HSd.
  { intros n. unfold S, sliceToMap. rewrite elem_of_union, !elem_of_list_to_set, elem_of_dom. naive_solver. }
  destruct (dst_options (Nodes st) S HSd) as (Hond & Hoin & Holen).
  set (opts := filter (fun n => n ∉ S) (map_to_list (Nodes st)).*1) in *.
  assert (Z.to_nat (num - len dst) <= length opts)%nat as Hk by (unfold len in *; lia).
  pose proof (Perm_law call (len opts) ltac:(unfold len; lia)) as Hp.
  destruct (take_permuted opts _ _ Hp Hond Hk) as (Hend & Helen & Hein).
  set (extra := take (Z.to_nat (num - len dst)) (permuted opts (Perm call (len opts)))) in *.
  exists extra. unfold addReplicasForShard. fold cur. destruct (Z.ltb_spec (Z.of_nat (size (Nodes st))) (len cur + num)); [lia|].
  rewrite add_dst_ok by (try done; intros n ?%Hd; unfold sliceToMap; rewrite elem_of_list_to_set; naive_solver).
  fold S. destruct (Z.ltb_spec (Z.of_nat (size (Nodes st)) - len (cur ++ dst)) 0).
  { unfold len in *. rewrite length_app in *. lia. }
  fold opts. rewrite pick_fold by done. cbn [mbind go_bind]. fold extra. rewrite <- app_assoc.
  split; [done|]. split; [unfold len in *; lia|]. apply valid_set_nodes; [done|done| |].
  - rewrite !NoDup_app. split_and!; try done.
    + intros n Hn1 [Hn2|Hn2%Hein%Hoin]%elem_of_app; [naive_solver|]. unfold S, sliceToMap in Hn2. set_solver.
    + intros n Hn1 Hn2%Hein%Hoin. unfold S, sliceToMap in Hn2. set_solver.
  - intros n [?|[?|?%Hein%Hoin]%elem_of_app]%elem_of_app; naive_solver.
Qed.

Lemma filter_same (P1 P2 : string -> Prop) `{!forall x, Decision (P1 x), !forall x, Decision (P2 x)} (l : list string) :
  (forall x, x ∈ l -> P1 x <-> P2 x) -> filter P1 l = filter P2 l.
Proof.
  induction l as [|x l IH]; intros Hl; [done|]. rewrite !filter_cons, IH by (intros; apply Hl; by right).
  pose proof (Hl x ltac:(left)). repeat case_decide; tauto.
Qed.

Lemma filter_keep (P : string -> Prop) `{!forall x, Decision (P x)} (l : list string) :
  (forall x, x ∈ l -> P x) -> filter P l = l.
Proof.
  induction l as [|x l IH]; intros Hl; [done|].
  rewrite filter_cons, decide_True by (apply Hl; left). rewrite IH; [done|]. intros y Hy. apply Hl. by right.
Qed.

Lemma drop_src_ok S cand nodes :
  NoDup nodes ->
  drop_src S cand nodes = (S ∖ list_to_set nodes, cand ++ filter (fun n => n ∉ S) nodes).
Proof.
  intros Hnd. revert S cand. induction Hnd as [|x nodes Hx _ IH]; intros S cand; cbn [drop_src].
  { rewrite filter_nil, app_nil_r. f_equal. set_solver. }
  rewrite filter_cons. case_decide as Hin; rewrite IH.
  - rewrite decide_False by naive_solver. f_equal; [set_solver|]. f_equal. apply filter_same.
    intros y Hy. set_solver.
  - rewrite decide_True by done. rewrite <- app_assoc. f_equal. set_solver.
Qed.

Lemma filter_out_length (S : gset string) nodes :
  NoDup nodes -> (forall n, n ∈ S -> n ∈ nodes) ->
  length (filter (fun n => n ∉ S) nodes) = (length nodes - size S)%nat.
Proof.
  intros Hnd HS. rewrite <- (size_list_to_set (C := gset string) nodes) by done.
  rewrite <- size_difference by (intros n Hn; rewrite elem_of_list_to_set; auto).
  rewrite <- (size_list_to_set (C := gset string) (filter _ nodes)) by (by apply NoDup_filter).
  f_equal. apply set_eq. intros n.
  rewrite elem_of_list_to_set, list_elem_of_filter, elem_of_difference, elem_of_list_to_set. tauto.
Qed.

(** [dropReplicasForShard] takes out the given nodes and then random ones, to
    the asked number; when it drops just the given ones, exactly the others
    remain. *)
Lemma drop_ok st shard num src call :
  valid_assignment st -> 1 <= shard <= NumShards st -> NoDup src ->
  (forall n, n ∈ src -> n ∈ NodesForShard st shard) ->
  len src <= num <= len (NodesForShard st shard) ->
  exists ns, dropReplicasForShard st shard num src call = Ret (inl (set_nodes st shard ns))
    /\ len ns = len (NodesForShard st shard) - num
    /\ (forall n, n ∈ ns -> n ∈ NodesForShard st shard /\ n ∉ src)
    /\ (num = len src -> ns ≡ₚ filter (fun n => n ∉ src) (NodesForShard st shard))
    /\ valid_assignment (set_nodes st shard ns).
Proof.
  intros Hv Hs Hnd Hsrc Hnum. destruct (valid_nodes st shard Hv) as [Hcur Hcurn].
  set (cur := NodesForShard st shard) in *. unfold dropReplicasForShard. fold cur.
  destruct (Z.ltb_spec (len cur) num); [lia|]. destruct (Z.ltb_spec num (len src)); [lia|].
  rewrite drop_src_ok by done. rewrite decide_True by (unfold sliceToMap; set_solver). cbn [app].
  set (cand := filter (fun n => n ∉ sliceToMap src) cur).
  assert (len cand = len cur - len src) as Hcl.
  { unfold cand, len. rewrite filter_out_length; [|done|intros n; unfold sliceToMap; rewrite elem_of_list_to_set; auto].
    unfold sliceToMap. rewrite size_list_to_set by done. unfold len in *. lia. }
  rewrite <- Hcl. pose proof (Perm_law call (len cand) ltac:(unfold len; lia)) as Hp.
  assert (NoDup cand) as Hcnd by (by apply NoDup_filter).
  destruct (take_permuted cand _ (Z.to_nat (len cur - num)) Hp Hcnd) as (Hn1 & Hn2 & Hn3); [unfold len in *; lia|].
  rewrite pick_fold by (done || unfold len in *; lia). cbn [mbind go_bind app].
  set (ns := take _ _) in *. exists ns.
  assert (forall n, n ∈ ns -> n ∈ cur /\ n ∉ src) as Hin.
  { intros n Hn%Hn3. unfold cand, sliceToMap in Hn. rewrite list_elem_of_filter, elem_of_list_to_set in Hn. tauto. }
  split; [done|]. split; [unfold len in *; lia|]. split; [done|]. split.
  - intros ->. assert (ns = permuted cand (Perm call (len cand))) as ->.
    { unfold ns. apply take_ge. rewrite (Permutation_length (permuted_perm cand _ Hp)). unfold len in *. lia. }
    rewrite (permuted_perm cand _ Hp). unfold cand, sliceToMap. erewrite list_filter_iff; [done|].
    intros n. by rewrite elem_of_list_to_set.
  - apply valid_set_nodes; [done|done|done|]. intros n [? _]%Hin. auto.
Qed.

(** A change that loses nothing: a shard gets at most one new host, which has
    an old one to copy from. *)
Definition gentle (s0 s1 : ShardMapState) : Prop :=
  forall k new, new ∈ NodesForShard s1 k -> new ∉ NodesForShard s0 k ->
    (exists old, old ∈ NodesForShard s1 k /\ old <> new)
    /\ forall other, other ∈ NodesForShard s1 k -> other <> new -> other ∈ NodesForShard s0 k.

Lemma gentle_shrink s0 s1 :
  (forall k n, n ∈ NodesForShard s1 k -> n ∈ NodesForShard s0 k) -> gentle s0 s1.
Proof. intros Hsub k new Hin Hnew. by apply Hsub in Hin. Qed.

(** One host more for a shard that has one. *)
Lemma gentle_add s0 s1 :
  (forall k, NodesForShard s1 k = NodesForShard s0 k
     \/ NodesForShard s0 k <> [] /\ exists new, NodesForShard s1 k = NodesForShard s0 k ++ [new]) -> gentle s0 s1.
Proof.
  intros Hadd k new Hin Hnew. destruct (Hadd k) as [E|(Hne & x & E)]; rewrite E in *; [done|].
  apply elem_of_app in Hin as [?| ->%list_elem_of_singleton]; [done|]. split.
  - destruct (NodesForShard s0 k) as [|old rest]; [done|]. exists old. split; [left|]. intros ->. apply Hnew. left.
  - intros other [?| ->%list_elem_of_singleton]%elem_of_app Hother; [done|by destruct Hother].
Qed.

(** Moving a shard keeps it available. For a shard hosted by the source
    and not by the destination, [MoveShard] succeeds; it publishes first a map
    in which the source and the destination both host the shard, then one
    with the destination in place of the source. Both are valid and gentle,
    the number of replicas after the move is the one before, and no other
    shard is touched. *)
Theorem MoveShard_spec cur shard src dst call1 call2 :
  valid_assignment cur -> src ∈ NodesForShard cur shard -> dst ∉ NodesForShard cur shard ->
  is_Some (Nodes cur !! dst) ->
  exists s1 s2, MoveShard cur shard src dst call1 call2 = Ret ([s1; s1; s2; s2], None)
    /\ valid_assignment s1 /\ valid_assignment s2
    /\ (Nodes s1 = Nodes cur /\ Nodes s2 = Nodes cur /\ NumShards s1 = NumShards cur /\ NumShards s2 = NumShards cur)
    /\ gentle cur s1 /\ gentle s1 s2
    /\ NodesForShard s1 shard = NodesForShard cur shard ++ [dst]
    /\ NodesForShard s2 shard ≡ₚ dst :: filter (fun n => n <> src) (NodesForShard cur shard)
    /\ len (NodesForShard s2 shard) = len (NodesForShard cur shard)
    /\ forall k, k <> shard ->
         NodesForShard s1 k = NodesForShard cur k /\ NodesForShard s2 k = NodesForShard cur k.
Proof.
  intros Hv Hsrc Hdst Hnode. assert (src <> dst) as Hne by congruence.
  pose proof (hosted_range cur shard src Hv Hsrc) as Hr. destruct (valid_nodes cur shard Hv) as [Hnd Hns].
  set (old := NodesForShard cur shard) in *.
  destruct (add_ok cur shard 1 [dst] call1) as (extra & E1 & Hex & Hv1); try done.
  { apply NoDup_singleton. }
  { by intros n ->%list_elem_of_singleton. }
  { fold old. assert (size (list_to_set (dst :: old) : gset string) <= size (Nodes cur))%nat as Hsz.
    { rewrite <- size_dom. apply subseteq_size. intros n. rewrite elem_of_list_to_set, elem_of_dom, elem_of_cons.
      intros [->|?]; auto. }
    rewrite size_list_to_set in Hsz by (by apply NoDup_cons). unfold len. cbn in Hsz. lia. }
  assert (extra = []) as -> by (destruct extra; [done|]; unfold len in Hex; cbn in Hex; lia).
  rewrite app_nil_r in *. fold old in E1, Hv1. set (s1 := set_nodes cur shard (old ++ [dst])) in *.
  assert (NodesForShard s1 shard = old ++ [dst]) as En1 by (unfold s1; by rewrite NodesForShard_set, decide_True).
  destruct (drop_ok s1 shard 1 [src] call2) as (ns & E2 & Hl2 & Hin2 & Hp2 & Hv2); try done.
  { apply NoDup_singleton. }
  { intros n ->%list_elem_of_singleton. rewrite En1. apply elem_of_app. by left. }
  { rewrite En1. unfold len. rewrite length_app. cbn. lia. }
  specialize (Hp2 eq_refl). rewrite En1 in *. exists s1, (set_nodes s1 shard ns).
  unfold MoveShard. rewrite decide_False by done. rewrite copy_id, E1. cbn [mbind go_bind].
  change (mkState (Nodes cur) (ShardsToNodes s1) (NumShards cur)) with s1. rewrite copy_id, E2. cbn [mbind go_bind].
  split; [done|]. split_and!; try done.
  - apply gentle_add. intros k. destruct (decide (k = shard)) as [->|Hk].
    + right. split; [intros E; fold old in E; rewrite E in Hsrc; by apply elem_of_nil in Hsrc|]. by exists dst.
    + left. unfold s1. by rewrite NodesForShard_set, decide_False.
  - apply gentle_shrink. intros k n. rewrite NodesForShard_set. case_decide as Hk; [|done]. subst k. rewrite En1.
    intros [? _]%Hin2. done.
  - rewrite NodesForShard_set, decide_True by done. rewrite Hp2, filter_app, filter_cons, filter_nil.
    rewrite decide_True by set_solver. rewrite Permutation_app_comm. cbn [app]. constructor.
    erewrite list_filter_iff; [done|]. intros n. by rewrite list_elem_of_singleton.
  - rewrite NodesForShard_set, decide_True by done. unfold len in *. rewrite length_app in Hl2. cbn in Hl2. lia.
  - intros k Hk. unfold s1. rewrite !NodesForShard_set. by rewrite !decide_False by done.
Qed.

(** ** Workflows over all shards of a node *)

(** [st'] is [st] but for the nodes of [shard]. *)
Definition changes (st st' : ShardMapState) (shard : Z) : Prop :=
  valid_assignment st' /\ Nodes st' = Nodes st /\ NumShards st' = NumShards st
  /\ forall k, k <> shard -> NodesForShard st' k = NodesForShard st k.

Lemma changes_set st shard nodes :
  valid_assignment (set_nodes st shard nodes) -> changes st (set_nodes st shard nodes) shard.
Proof.
  intros Hv. split_and!; [done..|]. intros k Hk. rewrite NodesForShard_set. by rewrite decide_False.
Qed.

(** A step that is right for one shard is right for a list of shards: [pre]
    is what it needs of the nodes of the shard, [Q] how it changes them. *)
Lemma each_shard_ok f (nodes : gmap string NodeInfo) (pre : Z -> list string -> Prop)
    (Q : list string -> list string -> Prop) st shards calls :
  (forall st shard call, valid_assignment st -> Nodes st = nodes -> pre shard (NodesForShard st shard) ->
     exists st', f st shard call = Ret (inl st') /\ changes st st' shard
       /\ Q (NodesForShard st shard) (NodesForShard st' shard)) ->
  valid_assignment st -> Nodes st = nodes -> NoDup shards ->
  (forall k, k ∈ shards -> pre k (NodesForShard st k)) ->
  exists st', each_shard f st shards calls = Ret (inl st')
    /\ valid_assignment st' /\ Nodes st' = nodes /\ NumShards st' = NumShards st
    /\ (forall k, k ∈ shards -> Q (NodesForShard st k) (NodesForShard st' k))
    /\ (forall k, k ∉ shards -> NodesForShard st' k = NodesForShard st k).
Proof.
  intros Hf Hv Hn Hnd. revert st Hv Hn. induction Hnd as [|x shards Hx _ IH]; intros st Hv Hn Hpre; cbn.
  { exists st. split_and!; try done. by intros k ?%elem_of_nil. }
  destruct (Hf st x (calls x) Hv Hn) as (st1 & E1 & (Hv1 & Hn1 & Hk1 & Ho1) & HQ1); [apply Hpre; left|].
  rewrite E1. cbn [mbind go_bind].
  assert (forall k, k ∈ shards -> NodesForShard st1 k = NodesForShard st k) as Hsame
    by (intros k Hk; apply Ho1; congruence).
  destruct (IH st1) as (st2 & E2 & Hv2 & Hn2 & Hk2 & HQ2 & Ho2); [done|congruence| |].
  { intros k Hk. rewrite Hsame by done. apply Hpre. by right. }
  exists st2. split_and!; [done|done|done|congruence|..].
  - intros k [->|Hk]%elem_of_cons; [by rewrite (Ho2 x Hx)|]. rewrite <- Hsame by done. by apply HQ2.
  - intros k [Hkx Hk]%not_elem_of_cons. rewrite Ho2 by done. by apply Ho1.
Qed.

Lemma ShardsForNode_nodup st node : valid_assignment st -> NoDup (ShardsForNode st node).
Proof.
  intros Hv. unfold ShardsForNode.
  assert (forall p, p ∈ map_to_list (ShardsToNodes st) -> NoDup p.2) as Hns.
  { intros [k ns] Hk%elem_of_map_to_list. by destruct (Hv _ _ Hk) as (_ & ? & _). }
  pose proof (NoDup_fst_map_to_list (ShardsToNodes st)) as Hnd. revert Hns Hnd.
  assert (forall (k : Z) ns, NoDup ns ->
    (ns ≫= fun n => if decide (n = node) then [k] else []) = if decide (node ∈ ns) then [k] else []) as Hone.
  { intros k ns Hn. induction Hn as [|x ns Hx _ IH]; [done|]. rewrite bind_cons, IH.
    repeat case_decide; subst; try done; set_solver. }
  induction (map_to_list (ShardsToNodes st)) as [|[k ns] l IH]; intros Hns Hnd; [constructor|].
  rewrite bind_cons. cbn in Hnd. apply NoDup_cons in Hnd as [Hk Hnd].
  rewrite (Hone k ns) by (by apply (Hns (k, ns)); left). specialize (IH ltac:(intros; apply Hns; by right) Hnd).
  case_decide; [|done]. cbn. apply NoDup_cons. split; [|done].
  intros ([k' ns'] & Hin & Hl)%list_elem_of_bind. apply Hk, list_elem_of_fmap. exists (k', ns'). split; [|done].
  apply list_elem_of_bind in Hin as (n & Hin & _). case_decide; [|by apply elem_of_nil in Hin].
  by apply list_elem_of_singleton in Hin.
Qed.

Lemma drop_node_step node st shard call :
  valid_assignment st -> node ∈ NodesForShard st shard ->
  exists st', dropReplicasForShard st shard 1 [node] call = Ret (inl st') /\ changes st st' shard
    /\ NodesForShard st' shard ≡ₚ filter (fun n => n <> node) (NodesForShard st shard).
Proof.
  intros Hv Hin. destruct (drop_ok st shard 1 [node] call) as (ns & E & _ & _ & Hp & Hv'); try done.
  { by eapply hosted_range. }
  { apply NoDup_singleton. }
  { by intros n ->%list_elem_of_singleton. }
  { unfold len. cbn. destruct (NodesForShard st shard); [by apply elem_of_nil in Hin|cbn; lia]. }
  exists (set_nodes st shard ns). split; [done|]. split; [by apply changes_set|].
  rewrite NodesForShard_set, decide_True by done. rewrite Hp by done.
  erewrite list_filter_iff; [done|]. intros n. by rewrite list_elem_of_singleton.
Qed.

Definition one_more (total : Z) (ns ns' : list string) : Prop :=
  exists extra, ns' = ns ++ extra /\ len extra = if len ns <? total then 1 else 0.

Lemma one_more_gentle total (shards : list Z) s0 s1 :
  (forall k, k ∈ shards -> NodesForShard s0 k <> [] /\ one_more total (NodesForShard s0 k) (NodesForShard s1 k)) ->
  (forall k, k ∉ shards -> NodesForShard s1 k = NodesForShard s0 k) -> gentle s0 s1.
Proof.
  intros Hadd Hsame. apply gentle_add. intros k. destruct (decide (k ∈ shards)) as [Hk|Hk]; [|left; by apply Hsame].
  destruct (Hadd k Hk) as (Hne & extra & -> & He). destruct (len (NodesForShard s0 k) <? total).
  - right. split; [done|]. destruct extra as [|x [|]]; unfold len in He; cbn in He; try lia. by exists x.
  - left. destruct extra; [by rewrite app_nil_r|]. unfold len in He. cbn in He. lia.
Qed.

Lemma add_one_step total st shard call :
  valid_assignment st -> Z.of_nat (size (Nodes st)) = total -> NodesForShard st shard <> [] ->
  exists st', (if len (NodesForShard st shard) <? total then addReplicasForShard st shard 1 [] call
               else Ret (inl st)) = Ret (inl st')
    /\ changes st st' shard /\ one_more total (NodesForShard st shard) (NodesForShard st' shard).
Proof.
  intros Hv Ht Hne. unfold one_more. destruct (Z.ltb_spec (len (NodesForShard st shard)) total) as [Hlt|Hge].
  - destruct (NodesForShard st shard) as [|n0 rest] eqn:En; [done|].
    destruct (add_ok st shard 1 [] call) as (extra & E & Hl & Hv'); try done; rewrite ?En.
    { apply (hosted_range st shard n0 Hv). rewrite En. left. }
    { constructor. }
    { by intros n ?%elem_of_nil. }
    { lia. }
    rewrite En in *. exists (set_nodes st shard ((n0 :: rest) ++ [] ++ extra)). split; [done|].
    split; [by apply changes_set|]. exists extra. rewrite NodesForShard_set, decide_True by done.
    split; [done|]. unfold len in *. cbn in Hl. lia.
  - exists st. split; [done|]. split; [by split_and!|]. exists []. by rewrite app_nil_r.
Qed.

Lemma drop_all_ok st node shards calls :
  valid_assignment st -> NoDup shards -> (forall k, k ∈ shards -> node ∈ NodesForShard st k) ->
  exists st', each_shard (fun st shard call => dropReplicasForShard st shard 1 [node] call) st shards calls
      = Ret (inl st')
    /\ valid_assignment st' /\ Nodes st' = Nodes st /\ NumShards st' = NumShards st
    /\ (forall k, k ∈ shards -> NodesForShard st' k ≡ₚ filter (fun n => n <> node) (NodesForShard st k))
    /\ (forall k, k ∉ shards -> NodesForShard st' k = NodesForShard st k).
Proof.
  intros Hv Hnd Hin. apply (each_shard_ok _ (Nodes st) (fun _ ns => node ∈ ns)
    (fun ns ns' => ns' ≡ₚ filter (fun n => n <> node) ns)); try done.
  intros st1 k call Hv1 _ Hk. by apply drop_node_step.
Qed.

Lemma state_eq st st' : Nodes st' = Nodes st -> NumShards st' = NumShards st ->
  mkState (Nodes st) (ShardsToNodes st') (NumShards st) = st'.
Proof. destruct st'. cbn. by intros -> ->. Qed.

Lemma filter_out_node (node : string) ns :
  NoDup ns -> node ∈ ns -> len (filter (fun n => n <> node) ns) = len ns - 1.
Proof.
  intros Hnd Hin. unfold len. rewrite (filter_same _ (fun n => n ∉ ({[node]} : gset string))) by set_solver.
  rewrite filter_out_length by (try done; set_solver). rewrite size_singleton.
  destruct ns; [by apply elem_of_nil in Hin|cbn; lia].
Qed.

(** Draining a node is graceful. On a valid map of at least two nodes,
    [DrainNode] succeeds; it publishes first a map in which every shard of
    the node that some other node could take has one more replica, then one
    in which the node hosts nothing. Both are valid and gentle, every shard
    that had a host has one in both, and no shard loses a replica, except
    those that every node hosted. *)
Theorem DrainNode_spec cur node calls1 calls2 :
  valid_assignment cur -> 2 <= Z.of_nat (size (Nodes cur)) ->
  exists s1 s2, DrainNode cur node calls1 calls2 = Ret ([s1; s1; s2; s2], None)
    /\ valid_assignment s1 /\ valid_assignment s2
    /\ (Nodes s1 = Nodes cur /\ Nodes s2 = Nodes cur /\ NumShards s1 = NumShards cur /\ NumShards s2 = NumShards cur)
    /\ gentle cur s1 /\ gentle s1 s2
    /\ (forall k, node ∉ NodesForShard s2 k)
    /\ (forall k n, n ∈ NodesForShard cur k -> n ∈ NodesForShard s1 k)
    /\ (forall k, NodesForShard cur k <> [] -> NodesForShard s2 k <> [])
    /\ forall k, Z.min (len (NodesForShard cur k)) (Z.of_nat (size (Nodes cur)) - 1) <= len (NodesForShard s2 k).
Proof.
  intros Hv Hn. set (total := Z.of_nat (size (Nodes cur))) in *. set (shards := ShardsForNode cur node).
  pose proof (ShardsForNode_nodup cur node Hv) as Hnd. fold shards in Hnd.
  assert (forall k, k ∈ shards <-> node ∈ NodesForShard cur k) as Hdual by (intros; apply shards_nodes_dual).
  destruct (each_shard_ok (fun st shard call =>
      if len (NodesForShard st shard) <? total then addReplicasForShard st shard 1 [] call else Ret (inl st))
    (Nodes cur) (fun _ ns => ns <> []) (one_more total) cur shards calls1)
    as (s1 & E1 & Hv1 & Hn1 & Hk1 & Hadd & Hsame); try done.
  { intros st k call Hvs Hns Hne. apply add_one_step; [done|by rewrite Hns|done]. }
  { intros k Hk%Hdual Heq. rewrite Heq in Hk. by apply elem_of_nil in Hk. }
  assert (forall k n, n ∈ NodesForShard cur k -> n ∈ NodesForShard s1 k) as Hmore.
  { intros k n Hin. destruct (decide (k ∈ shards)) as [Hk|Hk]; [|by rewrite Hsame].
    destruct (Hadd k Hk) as (extra & -> & _). apply elem_of_app. by left. }
  destruct (drop_all_ok s1 node shards calls2) as (s2 & E2 & Hv2 & Hn2 & Hk2 & Hdrop & Hsame2); try done.
  { intros k Hk%Hdual. by apply Hmore. }
  exists s1, s2. split.
  { unfold DrainNode. fold shards total. rewrite copy_id, E1. cbn [mbind go_bind].
    rewrite (state_eq cur s1), copy_id, E2 by congruence. cbn [mbind go_bind]. unfold UpdateShardMapping.
    rewrite (state_eq cur s1), (state_eq s1 s2) by congruence. done. }
  assert (forall k, k ∈ shards ->
    len (NodesForShard s2 k) = len (NodesForShard cur k) + (if len (NodesForShard cur k) <? total then 1 else 0) - 1)
    as Hlen.
  { intros k Hk. destruct (valid_nodes s1 k Hv1) as [Hnd1 _]. unfold len at 1. rewrite (Hdrop k Hk).
    fold (len (filter (fun n => n <> node) (NodesForShard s1 k))).
    rewrite filter_out_node by (try done; by apply Hmore, Hdual).
    destruct (Hadd k Hk) as (extra & -> & He). rewrite <- He. unfold len. rewrite length_app. lia. }
  assert (forall k, Z.min (len (NodesForShard cur k)) (total - 1) <= len (NodesForShard s2 k)) as Hmin.
  { intros k. destruct (decide (k ∈ shards)) as [Hk|Hk].
    - rewrite Hlen by done. destruct (Z.ltb_spec (len (NodesForShard cur k)) total); lia.
    - rewrite Hsame2, Hsame by done. lia. }
  split_and!; try done; try congruence.
  - apply (one_more_gentle total shards); [|done]. intros k Hk. split; [|by apply Hadd].
    intros E. apply Hdual in Hk. rewrite E in Hk. by apply elem_of_nil in Hk.
  - apply gentle_shrink. intros k n Hin. destruct (decide (k ∈ shards)) as [Hk|Hk]; [|by rewrite Hsame2 in Hin].
    rewrite (Hdrop k Hk), list_elem_of_filter in Hin. by destruct Hin.
  - intros k Hin. destruct (decide (k ∈ shards)) as [Hk|Hk].
    + rewrite (Hdrop k Hk), list_elem_of_filter in Hin. naive_solver.
    + rewrite Hsame2, Hsame in Hin by done. by apply Hk, Hdual.
  - intros k Hne E. specialize (Hmin k). rewrite E in Hmin. unfold len in Hmin. destruct (NodesForShard cur k); [done|].
    cbn in Hmin. lia.
Qed.

(** [RemoveNode] leaves the node without shards and the other replicas where
    they are. *)
Theorem RemoveNode_spec cur node calls :
  valid_assignment cur ->
  exists s, RemoveNode cur node calls = Ret ([s; s], None) /\ valid_assignment s
    /\ forall k, NodesForShard s k ≡ₚ filter (fun n => n <> node) (NodesForShard cur k).
Proof.
  intros Hv. assert (forall k, k ∈ ShardsForNode cur node <-> node ∈ NodesForShard cur k) as Hdual
    by (intros; apply shards_nodes_dual).
  destruct (drop_all_ok cur node (ShardsForNode cur node) calls) as (s & E & Hvs & Hns & Hks & Hdrop & Hsame);
    [done|by apply ShardsForNode_nodup|intros k; apply Hdual|].
  exists s. unfold RemoveNode. rewrite copy_id, E. cbn [mbind go_bind]. unfold UpdateShardMapping.
  rewrite (state_eq cur s) by done. split; [done|]. split; [done|]. intros k.
  destruct (decide (k ∈ ShardsForNode cur node)) as [Hk|Hk]; [by apply Hdrop|]. rewrite Hsame by done.
  rewrite filter_keep; [done|]. intros n Hin ->. by apply Hk, Hdual.
Qed.

(** [DropShard] takes the shard away from every node. *)
Theorem DropShard_spec cur shard call :
  valid_assignment cur -> 1 <= shard <= NumShards cur ->
  exists s, DropShard cur shard call = Ret ([s; s], None) /\ valid_assignment s
    /\ NodesForShard s shard = [] /\ forall k, k <> shard -> NodesForShard s k = NodesForShard cur k.
Proof.
  intros Hv Hs. destruct (drop_ok cur shard (len (NodesForShard cur shard)) [] call) as (ns & E & Hl & _ & _ & Hv');
    try done; [constructor|by intros n ?%elem_of_nil|unfold len; cbn; lia|].
  assert (ns = []) as -> by (destruct ns; [done|]; unfold len in Hl; cbn in Hl; lia).
  exists (set_nodes cur shard []). unfold DropShard. rewrite copy_id, E. cbn [mbind go_bind]. split; [done|].
  split; [done|]. rewrite NodesForShard_set, decide_True by done. split; [done|].
  intros k Hk. by rewrite NodesForShard_set, decide_False.
Qed.

(** When every shard is either unassigned or on all nodes, [MoveRandomShard]
    searches for ever. *)
Theorem find_shard_never_ends cur draws :
  NumShards cur <> 0 ->
  (forall k, len (NodesForShard cur k) <= 0 \/ Z.of_nat (size (Nodes cur)) <= len (NodesForShard cur k)) ->
  find_shard cur draws = Block.
Proof.
  intros Hn Hall. induction draws as [|r draws IH]; cbn [find_shard]; [done|].
  destruct (Z.eqb_spec (NumShards cur) 0); [done|].
  destruct (Hall (Z.rem r (NumShards cur) + 1)); destruct (Z.ltb_spec 0 (len (NodesForShard cur (Z.rem r (NumShards cur) + 1))));
    destruct (Z.ltb_spec (len (NodesForShard cur (Z.rem r (NumShards cur) + 1))) (Z.of_nat (size (Nodes cur))));
    cbn [andb]; try lia; exact IH.
Qed.
End Workflows.

(** ** The maps of the tests *)

(** [fmt.Sprintf("n%d", i)] *)
Definition node_name (i : Z) : string := ("n" +:+ pretty i)%string.

Definition makeNodeInfos (n : Z) : gmap string NodeInfo :=
  foldl (fun nodes i => <[node_name i := mkNodeInfo "" (int32 i)]> nodes) ∅ (seqZ 1 n).

Definition MakeBasicOneShard : ShardMapState := mkState (makeNodeInfos 1) {[ 1 := ["n1"]%string ]} 1.

Definition MakeMultiShardSingleNode : ShardMapState :=
  mkState (makeNodeInfos 1)
    (list_to_map [(1, ["n1"]); (2, ["n1"]); (3, ["n1"]); (4, ["n1"]); (5, ["n1"])]%string) 5.

Definition MakeNoShardAssigned : ShardMapState := mkState (makeNodeInfos 1) ∅ 1.

Definition MakeSingleNodeHalfShardsAssigned : ShardMapState :=
  mkState (makeNodeInfos 1)
    (list_to_map [(1, ["n1"]); (2, ["n1"]); (3, ["n1"]); (4, ["n1"]); (5, []); (6, []); (7, []); (8, [])]%string) 8.

Definition MakeTwoNodeBothAssignedSingleShard : ShardMapState :=
  mkState (makeNodeInfos 2) {[ 1 := ["n1"; "n2"]%string ]} 1.

Definition MakeTwoNodeMultiShard : ShardMapState :=
  mkState (makeNodeInfos 2)
    (list_to_map [(1, ["n1"]); (2, ["n1"]); (3, ["n1"]); (4, ["n1"]); (5, ["n1"]);
                  (6, ["n2"]); (7, ["n2"]); (8, ["n2"]); (9, ["n2"]); (10, ["n2"])]%string) 10.

Definition MakeFourNodesWithFiveShards : ShardMapState :=
  mkState (makeNodeInfos 4)
    (list_to_map [(1, ["n1"; "n2"; "n3"]); (2, ["n1"; "n2"; "n4"]); (3, ["n2"; "n3"]);
                  (4, ["n3"; "n4"]); (5, ["n2"])]%string) 5.

(** The loop that picks [r] different nodes; [draws] are the values of
    [rand.Intn(numNodes)], and [Block] is their end. *)
Fixpoint pick_replicas (nodeNames : list string) (r : Z) (replicas : gset string) (nodes : list string)
    (draws : list Z) : go (list string) :=
  if Z.of_nat (size replicas) <? r then
    match draws with
    | [] => Block
    | idx :: rest =>
        let! node := go_index nodeNames idx in
        if decide (node = ""%string) then Panic
        else if decide (node ∈ replicas) then pick_replicas nodeNames r replicas nodes rest
        else pick_replicas nodeNames r ({[node]} ∪ replicas) (nodes ++ [node]) rest
    end
  else Ret nodes.

(** [r_draw shard] is [rand.Intn(maxR-minR+1)]. *)
Definition MakeManyNodesWithManyShards (numShards numNodes : Z) (r_draw : Z -> Z) (draws : Z -> list Z)
    : go ShardMapState :=
  let nodeNames := node_name <$> seqZ 1 numNodes in
  let maxR := if numNodes <? 5 then numNodes else 5 in
  let minR := if maxR <? 2 then maxR else 2 in
  let! shardsToNodes := go_fold (fun (m : gmap Z (list string)) shard =>
      let! nodes := pick_replicas nodeNames (r_draw shard + minR) ∅ [] (draws shard) in
      Ret (<[shard := nodes]> m)) ∅ (seqZ 1 numShards) in
  Ret (mkState (makeNodeInfos numNodes) shardsToNodes numShards).

Lemma node_name_inj i j : node_name i = node_name j -> i = j.
Proof. unfold node_name. intros E. apply (inj (String.append "n")) in E. by apply (inj pretty) in E. Qed.

Lemma makeNodeInfos_lookup n i : 1 <= i <= n -> is_Some (makeNodeInfos n !! node_name i).
Proof.
  intros Hi. unfold makeNodeInfos. assert (i ∈ seqZ 1 n) as Hin by (apply elem_of_seqZ; lia). clear Hi.
  assert (forall (l : list Z) (m : gmap string NodeInfo), i ∈ l \/ is_Some (m !! node_name i) ->
    is_Some (foldl (fun nodes i => <[node_name i := mkNodeInfo "" (int32 i)]> nodes) m l !! node_name i)) as Hf.
  { induction l as [|j l IH]; intros m Hor; cbn; [by destruct Hor as [?%elem_of_nil|?]|]. apply IH.
    destruct (decide (j = i)) as [->|Hne]; [right; by rewrite lookup_insert_eq|].
    rewrite lookup_insert_ne by (intros E%node_name_inj; done). destruct Hor as [[?|?]%elem_of_cons|?]; auto. congruence. }
  apply Hf. by left.
Qed.

(** The picked nodes are distinct and of the list, as many as asked. *)
Lemma pick_replicas_ok names r replicas nodes draws :
  NoDup nodes -> list_to_set nodes = replicas -> (forall n, n ∈ nodes -> n ∈ names) -> ""%string ∉ names -> NoDup names ->
  Z.of_nat (size replicas) <= r <= len names ->
  (forall idx, idx ∈ draws -> 0 <= idx < len names) ->
  (forall n, n ∈ names -> n ∈ replicas \/ exists idx, idx ∈ draws /\ names !! Z.to_nat idx = Some n) ->
  exists ns, pick_replicas names r replicas nodes draws = Ret ns
    /\ NoDup ns /\ len ns = r /\ forall n, n ∈ ns -> n ∈ names.
Proof.
  revert replicas nodes. induction draws as [|idx draws IH]; intros replicas nodes Hnd Hset Hin Hemp Hnn Hr Hidx Hcov;
    cbn [pick_replicas]; destruct (Z.ltb_spec (Z.of_nat (size replicas)) r) as [Hlt|Hge];
    try (exists nodes; split_and!; [done|done| |done]; unfold len; subst replicas;
         rewrite size_list_to_set in * by done; lia).
  - exfalso. assert (size (list_to_set names : gset string) <= size replicas)%nat as Hsz.
    { apply subseteq_size. intros n. rewrite elem_of_list_to_set. intros [?|(i & ?%elem_of_nil & _)]%Hcov; done. }
    rewrite size_list_to_set in Hsz by done. unfold len in Hr. lia.
  - destruct (go_index_returns names idx (Hidx idx ltac:(left))) as [node Hn]. rewrite Hn. cbn [mbind go_bind].
    apply go_index_Ret in Hn as [_ Hn]. pose proof (list_elem_of_lookup_2 _ _ _ Hn) as Hnode.
    rewrite decide_False by (intros ->; done).
    case_decide as Hmem.
    + apply IH; try done; [intros; apply Hidx; by right|]. intros n [?|(i & [->|?]%elem_of_cons & Hi)]%Hcov; eauto.
      left. congruence.
    + apply IH; try done.
      * apply NoDup_app. split; [done|]. split; [|apply NoDup_singleton].
        intros x Hx ->%list_elem_of_singleton. apply Hmem. rewrite <- Hset. by apply elem_of_list_to_set.
      * rewrite list_to_set_app_L, Hset. set_solver.
      * intros n [?| ->%list_elem_of_singleton]%elem_of_app; auto.
      * rewrite size_union by set_solver. rewrite size_singleton. lia.
      * intros; apply Hidx; by right.
      * intros n [?|(i & [->|?]%elem_of_cons & Hi)]%Hcov; [left; set_solver|left|right; eauto].
        assert (n = node) as -> by congruence. set_solver.
Qed.

(** Assigning one shard after the other. *)
Lemma assign_fold (names : list string) (lo hi : Z) (f : Z -> go (list string)) l (m : gmap Z (list string)) :
  let good := map_Forall (fun _ ns => NoDup ns /\ (forall n, n ∈ ns -> n ∈ names) /\ lo <= len ns <= hi) in
  (forall shard, exists ns, f shard = Ret ns /\ NoDup ns /\ (forall n, n ∈ ns -> n ∈ names) /\ lo <= len ns <= hi) ->
  good m ->
  exists m', go_fold (fun (m : gmap Z (list string)) shard => let! nodes := f shard in Ret (<[shard := nodes]> m)) m l
      = Ret m' /\ good m' /\ dom m' = list_to_set l ∪ dom m.
Proof.
  intros good Hf. revert m. induction l as [|x l IH]; intros m Hm; cbn [go_fold].
  { exists m. split_and!; [done..|set_solver]. }
  destruct (Hf x) as (ns & -> & Hn). cbn [mbind go_bind].
  destruct (IH (<[x := ns]> m)) as (m' & Em & Hm' & Hdom); [by apply map_Forall_insert_2|].
  exists m'. split_and!; [done|done|]. rewrite Hdom, dom_insert_L. set_solver.
Qed.

(** The random maps of the stress tests are valid: for any number of
    shards and nodes, once the draws have met every node, the map assigns to
    each shard between two and five different nodes (all of them when there
    are fewer), all of them nodes of the map. *)
Theorem MakeMany_valid numShards numNodes r_draw draws :
  0 <= numShards -> 0 <= numNodes ->
  (forall shard, 0 <= r_draw shard < Z.min 5 numNodes - Z.min 2 numNodes + 1) ->
  (forall shard idx, idx ∈ draws shard -> 0 <= idx < numNodes) ->
  (forall shard idx, 0 <= idx < numNodes -> idx ∈ draws shard) ->
  exists st, MakeManyNodesWithManyShards numShards numNodes r_draw draws = Ret st
    /\ valid_assignment st
    /\ forall shard, 1 <= shard <= numShards ->
         Z.min 2 numNodes <= len (NodesForShard st shard) <= Z.min 5 numNodes.
Proof.
  intros Hns Hnn Hr Hd Hcov. unfold MakeManyNodesWithManyShards.
  replace (if numNodes <? 5 then numNodes else 5) with (Z.min 5 numNodes)
    by (destruct (Z.ltb_spec numNodes 5); lia).
  replace (if Z.min 5 numNodes <? 2 then Z.min 5 numNodes else 2) with (Z.min 2 numNodes)
    by (destruct (Z.ltb_spec (Z.min 5 numNodes) 2); lia).
  set (names := node_name <$> seqZ 1 numNodes).
  assert (len names = numNodes) as Hlen by (unfold names, len; rewrite length_fmap, length_seqZ; lia).
  assert (NoDup names) as Hnd by (apply NoDup_fmap_2; [intros i j; apply node_name_inj|apply NoDup_seqZ]).
  assert (""%string ∉ names) as Hemp by (intros (i & Ei & _)%list_elem_of_fmap; done).
  assert (forall n, n ∈ names -> is_Some (makeNodeInfos numNodes !! n)) as Hknown.
  { intros n (i & -> & Hi%elem_of_seqZ)%list_elem_of_fmap. apply makeNodeInfos_lookup. lia. }
  assert (forall shard, exists ns, pick_replicas names (r_draw shard + Z.min 2 numNodes) ∅ [] (draws shard) = Ret ns
    /\ NoDup ns /\ len ns = r_draw shard + Z.min 2 numNodes /\ forall n, n ∈ ns -> n ∈ names) as Hpick.
  { intros shard. specialize (Hr shard). apply pick_replicas_ok; try done.
    - constructor.
    - by intros n ?%elem_of_nil.
    - rewrite size_empty. lia.
    - intros idx Hi. rewrite Hlen. by eapply Hd.
    - intros n [i Hi]%list_elem_of_lookup. right. exists (Z.of_nat i). rewrite Nat2Z.id. split; [|done].
      apply Hcov. apply lookup_lt_Some in Hi. unfold len in Hlen. lia. }
  destruct (assign_fold names (Z.min 2 numNodes) (Z.min 5 numNodes)
    (fun shard => pick_replicas names (r_draw shard + Z.min 2 numNodes) ∅ [] (draws shard)) (seqZ 1 numShards) ∅)
    as (m & -> & Hm & Hdom); [|done|].
  { intros shard. destruct (Hpick shard) as (ns & ? & ? & ? & ?). specialize (Hr shard). exists ns. split_and!; try done; lia. }
  cbn [mbind go_bind]. eexists. split; [done|].
  assert (forall k, k ∈ dom m <-> 1 <= k <= numShards) as Hk.
  { intros k. rewrite Hdom, dom_empty_L, elem_of_union, elem_of_list_to_set, elem_of_seqZ. set_solver by lia. }
  split.
  - intros shard ns Hs. cbn in Hs |- *. destruct (Hm _ _ Hs) as (? & ? & _). split; [apply Hk; by eapply elem_of_dom_2|].
    split; [done|]. auto.
  - intros shard Hs. unfold NodesForShard. cbn. apply Hk, elem_of_dom in Hs as [ns Hs].
    rewrite Hs. by destruct (Hm _ _ Hs) as (_ & _ & ?).
Qed.

(** ** Concrete maps *)

Definition check_assignment (st : ShardMapState) : bool :=
  bool_decide (map_Forall (fun shard ns => (1 <= shard <= NumShards st /\ NoDup ns)
    /\ Forall (fun n => is_Some (Nodes st !! n)) ns) (ShardsToNodes st)).

Lemma check_assignment_ok st : check_assignment st = true -> valid_assignment st.
Proof.
  intros E%bool_decide_eq_true shard ns Hs. destruct (E _ _ Hs) as [[? ?] Hn]. rewrite Forall_forall in Hn. auto.
Qed.

(** The fixed maps of the tests pass [IsValid]. *)
Theorem test_maps_valid :
  forallb IsValid [MakeBasicOneShard; MakeMultiShardSingleNode; MakeNoShardAssigned; MakeSingleNodeHalfShardsAssigned;
    MakeTwoNodeBothAssignedSingleShard; MakeTwoNodeMultiShard; MakeFourNodesWithFiveShards] = true.
Proof. vm_compute. reflexivity. Qed.

(** The random order that is none. *)
#[local] Instance in_order : RandPerm := {| Perm _ n := seqZ 0 n; Perm_law _ _ _ := reflexivity _ |}.

Lemma MoveShard_spec_witness :
  MoveShard MakeFourNodesWithFiveShards 3 "n2" "n4" 0 0 <> Ret ([], None)
  /\ exists s1 s2, MoveShard MakeFourNodesWithFiveShards 3 "n2" "n4" 0 0 = Ret ([s1; s1; s2; s2], None)
    /\ NodesForShard s2 3 ≡ₚ ["n4"; "n3"]%string.
Proof.
  split; [vm_compute; discriminate|].
  destruct (MoveShard_spec MakeFourNodesWithFiveShards 3 "n2" "n4" 0 0) as (s1 & s2 & E & _ & _ & _ & _ & _ & _ & Hp & _).
  - apply check_assignment_ok. vm_compute. reflexivity.
  - apply (bool_decide_unpack _). vm_compute. exact I.
  - apply (bool_decide_unpack _). vm_compute. exact I.
  - apply (bool_decide_unpack _). vm_compute. exact I.
  - exists s1, s2. split; [exact E|]. exact Hp.
Defined.

Lemma DrainNode_spec_witness :
  exists s1 s2, DrainNode MakeFourNodesWithFiveShards "n2" (fun k => k) (fun k => k) = Ret ([s1; s1; s2; s2], None)
    /\ ("n2"%string ∉ NodesForShard s2 5) /\ 1 <= len (NodesForShard s2 5).
Proof.
  destruct (DrainNode_spec MakeFourNodesWithFiveShards "n2" (fun k => k) (fun k => k))
    as (s1 & s2 & E & _ & _ & _ & _ & _ & Hnone & _ & _ & Hlen).
  - apply check_assignment_ok. vm_compute. reflexivity.
  - vm_compute. discriminate.
  - exists s1, s2. split; [exact E|]. split; [apply Hnone|]. specialize (Hlen 5). vm_compute in Hlen |- *. exact Hlen.
Defined.

Lemma MakeMany_valid_witness :
  exists st, MakeManyNodesWithManyShards 3 3 (fun _ => 1) (fun _ => [2; 0; 2; 1]) = Ret st
    /\ valid_assignment st /\ 2 <= len (NodesForShard st 3).
Proof.
  destruct (MakeMany_valid 3 3 (fun _ => 1) (fun _ => [2; 0; 2; 1])) as (st & E & Hv & Hl).
  - lia.
  - lia.
  - intros _. lia.
  - intros _ idx Hi. rewrite !elem_of_cons in Hi. destruct Hi as [->|[->|[->|[->|Hi%elem_of_nil]]]]; [lia..|done].
  - intros _ idx Hi. rewrite !elem_of_cons. lia.
  - exists st. split; [exact E|]. split; [exact Hv|]. apply (Hl 3). lia.
Defined.
