(* ===== verification/KvServer.v ===== *)
(** * lab4/kv/server.go: one node of the key-value store

    A shard is a map from keys to items with a time to live. Times are
    nanoseconds; [time.Duration.Milliseconds] truncates. [availableShards]
    maps a shard's number to its contents: the [shardData] pointer is shared
    only with the goroutine that sweeps that shard, whose tick is the
    operation [ttl_tick]. Every operation below is one critical section of
    [server.mu] (or of [shard.mu] for the sweep); [handleShardMapUpdate]
    gives up [server.mu] while it copies shards, so it is split where it
    does.

    The shard map is read through an atomic pointer, so two reads in one
    function may see different states: where the code reads it more than once
    the model takes one state per read. The clock is an argument, once per
    [time.Now] or [time.Since]. *)

From S2P Require Import Prelude Fnv ShardMap.
From Stdlib Require Import String.
From stdpp Require Import prelude gmap strings.
Local Open Scope Z_scope.

Inductive code : Type := InvalidArgument | NotFound | Unknown | Unavailable.
Record error : Type := mkError { err_code : code; err_msg : string }.

#[export] Instance code_eq_dec : EqDecision code.
Proof. solve_decision. Defined.

Record cacheItem : Type := mkItem {
  value : string;
  ttl : Z;
  time_elapsed : Z
}.

Notation shardData := (gmap string cacheItem).

Record KvServer : Type := mkServer {
  nodeName : string;
  availableShards : gmap Z shardData
}.

Definition set_shards (m : gmap Z shardData) (s : KvServer) : KvServer := mkServer (nodeName s) m.

Record GetResponse : Type := mkGetResponse { Value : string; WasFound : bool }.
Record GetShardValue : Type := mkShardValue { sv_Key : string; sv_Value : string; TtlMsRemaining : Z }.

Definition Milliseconds (d : Z) : Z := Z.quot d 1000000.

(** [time.Since(item.time_elapsed).Milliseconds() >= item.ttl] *)
Definition expired (now : Z) (it : cacheItem) : bool :=
  ttl it <=? Milliseconds (now - time_elapsed it).

(** ** Requests *)

Definition err_empty : error := mkError InvalidArgument "empty key is not allowed".
Definition err_not_found : error := mkError NotFound "NotFound".
Definition no_value : GetResponse := mkGetResponse "" false.

Definition Get (server : KvServer) (numShards now : Z) (key : string)
    : go (GetResponse * option error) :=
  if decide (key = ""%string) then Ret (no_value, Some err_empty)
  else
    let! shardID := GetShardForKey key numShards in
    match availableShards server !! int32 shardID with
    | None => Ret (no_value, Some err_not_found)
    | Some data =>
        match data !! key with
        | None => Ret (no_value, None)
        | Some it =>
            if expired now it then Ret (no_value, None)
            else Ret (mkGetResponse (value it) true, None)
        end
    end.

(** The shard of a request of [Set] or [Delete] is changed by [f]. *)
Definition on_shard (server : KvServer) (numShards : Z) (key : string)
    (f : shardData -> shardData) : go (KvServer * option error) :=
  if decide (key = ""%string) then Ret (server, Some err_empty)
  else
    let! shardID := GetShardForKey key numShards in
    match availableShards server !! int32 shardID with
    | None => Ret (server, Some err_not_found)
    | Some data =>
        Ret (set_shards (<[int32 shardID := f data]> (availableShards server)) server, None)
    end.

Definition Set_ (server : KvServer) (numShards now : Z) (key val : string) (ttlMs : Z)
    : go (KvServer * option error) :=
  on_shard server numShards key (fun data => <[key := mkItem val ttlMs now]> data).

Definition Delete (server : KvServer) (numShards : Z) (key : string)
    : go (KvServer * option error) :=
  on_shard server numShards key (fun data => delete key data).

(** [GetShardContents] looks at the clock twice per item: [now key] is the
    pair of readings. The shard is dereferenced before [found] is tested. *)
Definition GetShardContents (server : KvServer) (now : string -> Z * Z) (shard : Z)
    : go (list GetShardValue * option error) :=
  match availableShards server !! int32 shard with
  | None => Panic
  | Some data =>
      Ret (omap (fun '(key, it) =>
             if Milliseconds ((now key).1 - time_elapsed it) <? ttl it
             then Some (mkShardValue key (value it)
                          (ttl it - Milliseconds ((now key).2 - time_elapsed it)))
             else None) (map_to_list data), None)
  end.

(** ** The sweeper: one tick of the goroutine of a shard *)

Definition sweep (now : Z) (data : shardData) : shardData :=
  filter (fun p => expired now p.2 = false) data.

Definition ttl_tick (server : KvServer) (now shard : Z) : KvServer :=
  set_shards (alter (sweep now) shard (availableShards server)) server.

(** ** Shard map updates *)

(** [reads k] is the state the k-th access to the shard map sees; [fetch] is
    [GetClient] followed by [GetShardContents], [None] when one of them
    failed, [Panic] when the peer is of the same process and panics; [start]
    is the random start index. *)
Fixpoint retrieve_loop (self : string) (reads : nat -> ShardMapState) (shardID numNodes start : Z)
    (fetch : string -> go (option (list GetShardValue))) (i fuel : nat) : go (list GetShardValue) :=
  match fuel with
  | O => Ret []
  | S fuel' =>
      let! node := go_index (NodesForShard (reads (S i)) shardID) ((start + Z.of_nat i) mod numNodes) in
      if decide (node = self) then retrieve_loop self reads shardID numNodes start fetch (S i) fuel'
      else
        let! answer := fetch node in
        match answer with
        | Some response => Ret response
        | None => retrieve_loop self reads shardID numNodes start fetch (S i) fuel'
        end
  end.

Definition retrieveShardData (server : KvServer) (reads : nat -> ShardMapState) (start : Z)
    (fetch : string -> go (option (list GetShardValue))) (shardID : Z) : go (list GetShardValue) :=
  let numNodes := len (NodesForShard (reads 0%nat) shardID) in
  if numNodes =? 0 then Panic
  else retrieve_loop (nodeName server) reads shardID numNodes start fetch 0 (Z.to_nat numNodes).

(** The first critical section: which shards come and go, and an empty
    [shardData] for each new one. [sm] is the state the first loop reads,
    [read_for shard] the one the second loop reads at that shard. *)
Definition shardsToBeAdded (server : KvServer) (sm : ShardMapState) : gset Z :=
  list_to_set (filter (fun s => availableShards server !! s = None)
    (int32 <$> ShardsForNode sm (nodeName server))).

Definition shardsToBeRemoved (server : KvServer) (read_for : Z -> ShardMapState) : gset Z :=
  filter (fun s => s ∉ int32 <$> ShardsForNode (read_for s) (nodeName server))
    (dom (availableShards server)).

Definition update_begin (server : KvServer) (sm : ShardMapState) : KvServer :=
  set_shards (set_fold (fun s m => <[s := ∅]> m) (availableShards server)
    (shardsToBeAdded server sm)) server.

(** One iteration of the loop over [resp.Values], at clock [now]; a shard
    that is no longer there is a nil dereference. *)
Definition store_value (numShards : Z) (server : KvServer) (vn : GetShardValue * Z) : go KvServer :=
  let '(shardVal, now) := vn in
  let! shardID := GetShardForKey (sv_Key shardVal) numShards in
  match availableShards server !! int32 shardID with
  | None => Panic
  | Some data =>
      Ret (set_shards (<[int32 shardID :=
             <[sv_Key shardVal := mkItem (sv_Value shardVal) (TtlMsRemaining shardVal) now]> data]>
             (availableShards server)) server)
  end.

(** The second critical section: the responses in the order in which they
    arrived, each value with the clock at which it is stored; then the
    removals. *)
Definition update_copy (numShards : Z) (server : KvServer) (responses : list (list (GetShardValue * Z)))
    : go KvServer :=
  go_fold (fun s resp => go_fold (store_value numShards) s resp) server responses.

Definition update_remove (server : KvServer) (removed : list Z) : go KvServer :=
  go_fold (fun s shard =>
    match availableShards s !! shard with
    | None => Panic
    | Some _ => Ret (set_shards (delete shard (availableShards s)) s)
    end) server removed.

(** The whole function when nothing runs in between and the shard map does
    not change; [responses] are the results of [retrieveShardData] for the
    added shards. *)
Definition handleShardMapUpdate (server : KvServer) (sm : ShardMapState)
    (responses : list (list (GetShardValue * Z))) : go KvServer :=
  let added := shardsToBeAdded server sm in
  let removed := shardsToBeRemoved server (fun _ => sm) in
  let server := update_begin server sm in
  let! server := (if decide (added = ∅) then Ret server
                  else update_copy (NumShards sm) server responses) in
  update_remove server (elements removed).

Definition MakeKvServer (name : string) (sm : ShardMapState)
    (responses : list (list (GetShardValue * Z))) : go KvServer :=
  handleShardMapUpdate (mkServer name ∅) sm responses.

(** ** What a node serves *)

Definition shard_of (key : string) (numShards : Z) : Z := int32 (Z.rem (fnv32 key) numShards + 1).

Definition hosts (server : KvServer) (numShards : Z) (key : string) : Prop :=
  is_Some (availableShards server !! shard_of key numShards).

(** The abstract content of a node: the value it serves for a key at a time. *)
Definition serves (server : KvServer) (numShards now : Z) (key : string) : option string :=
  data ← availableShards server !! shard_of key numShards;
  it ← data !! key;
  if expired now it then None else Some (value it).

Definition response_of (o : option string) : GetResponse :=
  match o with Some v => mkGetResponse v true | None => no_value end.

Lemma GetShardForKey_Ret key n : n <> 0 -> GetShardForKey key n = Ret (Z.rem (fnv32 key) n + 1).
Proof. intros Hn. unfold GetShardForKey. by destruct (Z.eqb_spec n 0). Qed.

Lemma Get_serves server n now key :
  n <> 0 -> key <> ""%string -> hosts server n key ->
  Get server n now key = Ret (response_of (serves server n now key), None).
Proof.
  intros Hn Hk [d Hd]. unfold Get, serves. rewrite decide_False, GetShardForKey_Ret by done.
  unfold shard_of in *. cbn. rewrite Hd. cbn. destruct (d !! key) as [it|]; [|done].
  cbn. by destruct (expired now it).
Qed.

Lemma on_shard_ok server n key f server' e :
  on_shard server n key f = Ret (server', e) -> n <> 0 ->
  (e <> None /\ server' = server) \/
  (e = None /\ key <> ""%string /\ exists d, availableShards server !! shard_of key n = Some d
     /\ server' = set_shards (<[shard_of key n := f d]> (availableShards server)) server).
Proof.
  unfold on_shard. intros H Hn. case_decide; [go_inv; left; done|].
  rewrite GetShardForKey_Ret in H by done. cbn in H. fold (shard_of key n) in H.
  destruct (availableShards server !! shard_of key n) as [d|] eqn:E; go_inv; [right|left; done].
  eauto.
Qed.

(** What a change of one shard does to what the node serves. *)
Lemma serves_update server n now key k d d' :
  availableShards server !! k = Some d ->
  (shard_of key n = k -> d' !! key = d !! key) ->
  serves (set_shards (<[k := d']> (availableShards server)) server) n now key
  = serves server n now key.
Proof.
  intros Hd H. unfold serves. cbn. destruct (decide (shard_of key n = k)) as [<-|Hne].
  - rewrite lookup_insert_eq, Hd. cbn. by rewrite H.
  - by rewrite lookup_insert_ne.
Qed.

Lemma hosts_update server n key k d d' :
  availableShards server !! k = Some d ->
  hosts (set_shards (<[k := d']> (availableShards server)) server) n key <-> hosts server n key.
Proof.
  intros Hd. unfold hosts. cbn. destruct (decide (shard_of key n = k)) as [<-|Hne].
  - rewrite lookup_insert_eq, Hd. split; eauto.
  - by rewrite lookup_insert_ne.
Qed.

Lemma Set_serves server n t key v life server' :
  n <> 0 -> Set_ server n t key v life = Ret (server', None) ->
  key <> ""%string /\ (forall k, hosts server' n k <-> hosts server n k) /\ hosts server n key /\
  forall k now, serves server' n now k =
    if decide (k = key) then (if Milliseconds (now - t) <? life then Some v else None)
    else serves server n now k.
Proof.
  intros Hn H. apply on_shard_ok in H as [[? _]|(_ & Hk & d & Hd & ->)]; [done| |done].
  split; [done|]. split; [intros; by eapply hosts_update|]. split; [by exists d|].
  intros k now. case_decide as Hkk; [subst|].
  - unfold serves. cbn. rewrite lookup_insert_eq. cbn. rewrite lookup_insert_eq. cbn.
    unfold expired. cbn. rewrite Z.leb_antisym. by destruct (_ <? _).
  - eapply serves_update; [done|]. intros _. by rewrite lookup_insert_ne.
Qed.

Lemma Delete_serves server n key server' :
  n <> 0 -> Delete server n key = Ret (server', None) ->
  (forall k, hosts server' n k <-> hosts server n k) /\
  forall k now, serves server' n now k = if decide (k = key) then None else serves server n now k.
Proof.
  intros Hn H. apply on_shard_ok in H as [[? _]|(_ & Hk & d & Hd & ->)]; [done| |done].
  split; [intros; by eapply hosts_update|]. intros k now. case_decide as Hkk; [subst|].
  - unfold serves. cbn. rewrite lookup_insert_eq. cbn. by rewrite lookup_delete_eq.
  - eapply serves_update; [done|]. intros _. by rewrite lookup_delete_ne.
Qed.

Lemma expired_mono now now' it : now <= now' -> expired now it = true -> expired now' it = true.
Proof.
  unfold expired, Milliseconds. rewrite !Z.leb_le. intros H1 H2. etrans; [done|].
  apply Z.quot_le_mono; lia.
Qed.

(** The sweep removes only what is not served any more. *)
Lemma sweep_lookup now now' (d : shardData) key :
  now <= now' ->
  (sweep now d !! key ≫= fun it => if expired now' it then None else Some (value it))
  = (d !! key ≫= fun it => if expired now' it then None else Some (value it)).
Proof.
  intros Hle. unfold sweep. destruct (d !! key) as [it|] eqn:E; cbn.
  - destruct (expired now it) eqn:Ex.
    + rewrite (expired_mono now now' it) by done.
      rewrite map_lookup_filter_None_2; [done|]. right. cbn. intros ? ?. by simplify_eq; rewrite Ex.
    + by rewrite (map_lookup_filter_Some_2 _ _ _ it).
  - rewrite map_lookup_filter_None_2 by (by left). done.
Qed.

Lemma ttl_tick_serves server n now shard now' key :
  now <= now' -> serves (ttl_tick server now shard) n now' key = serves server n now' key.
Proof.
  intros Hle. unfold serves, ttl_tick. cbn.
  destruct (decide (shard = shard_of key n)) as [->|Hne]; [|by rewrite lookup_alter_ne].
  rewrite lookup_alter_eq. destruct (_ !! shard_of key n) as [d|]; [|done]. by apply sweep_lookup.
Qed.

Lemma ttl_tick_hosts server n now shard key :
  hosts (ttl_tick server now shard) n key <-> hosts server n key.
Proof. unfold hosts, ttl_tick. cbn. by rewrite lookup_alter_is_Some. Qed.

(** ** A key's life on one node *)

Inductive op : Type :=
| OSet (now : Z) (key val : string) (ttlMs : Z)
| ODelete (key : string)
| OTick (now shard : Z).

(** A request that fails leaves the node as it is. *)
Definition exec1 (numShards : Z) (server : KvServer) (o : op) : go KvServer :=
  match o with
  | OSet now key val life => let! r := Set_ server numShards now key val life in Ret r.1
  | ODelete key => let! r := Delete server numShards key in Ret r.1
  | OTick now shard => Ret (ttl_tick server now shard)
  end.

Definition exec (numShards : Z) (server : KvServer) (ops : list op) : go KvServer :=
  go_fold (exec1 numShards) server ops.

(** The operation is no request for [key], and no sweep after [now]. *)
Definition bystander (key : string) (now : Z) (o : op) : Prop :=
  match o with
  | OSet _ k _ _ => k <> key
  | ODelete k => k <> key
  | OTick t _ => t <= now
  end.

Lemma exec1_serves n server o server' key now :
  n <> 0 -> exec1 n server o = Ret server' -> bystander key now o ->
  (hosts server n key -> hosts server' n key) /\ serves server' n now key = serves server n now key.
Proof.
  intros Hn H Hb. destruct o as [t k v life|k|t sh]; cbn in H, Hb.
  - apply bind_Ret in H as ([s' [e|]] & H & E); cbn in E; go_inv.
    + apply on_shard_ok in H as [[_ ->]|(? & _)]; [done|done|done].
    + apply Set_serves in H as (_ & Hh & _ & Hs); [|done]. split; [by apply Hh|].
      rewrite Hs. by rewrite decide_False.
  - apply bind_Ret in H as ([s' [e|]] & H & E); cbn in E; go_inv.
    + apply on_shard_ok in H as [[_ ->]|(? & _)]; [done|done|done].
    + apply Delete_serves in H as (Hh & Hs); [|done]. split; [by apply Hh|].
      rewrite Hs. by rewrite decide_False.
  - go_inv. split; [by apply ttl_tick_hosts|]. by apply ttl_tick_serves.
Qed.

Lemma exec_serves n server ops server' key now :
  n <> 0 -> exec n server ops = Ret server' -> Forall (bystander key now) ops ->
  (hosts server n key -> hosts server' n key) /\ serves server' n now key = serves server n now key.
Proof.
  intros Hn H Hb. revert server H. induction Hb as [|o ops Ho _ IH]; intros server H; cbn in H.
  { go_inv. done. }
  apply bind_Ret in H as (s1 & H1 & H). eapply exec1_serves in H1 as [Hh1 Hs1]; [|done|done].
  destruct (IH s1 H) as [Hh Hs]. split; [auto|congruence].
Qed.

(** C5: A key that was [Set] is served until its time to live has passed, and
    not after: whatever requests for other keys and sweeps of expired items
    happen in between, [Get] returns the value exactly while fewer than
    [ttlMs] whole milliseconds have passed. *)
Theorem get_after_set numShards server t key v ttlMs server1 ops server2 now :
  numShards <> 0 -> Set_ server numShards t key v ttlMs = Ret (server1, None) ->
  exec numShards server1 ops = Ret server2 -> Forall (bystander key now) ops ->
  Get server2 numShards now key =
    Ret (if Milliseconds (now - t) <? ttlMs then mkGetResponse v true else no_value, None).
Proof.
  intros Hn Hset Hex Hb. apply Set_serves in Hset as (Hk & Hh & Hhost & Hs); [|done].
  destruct (exec_serves _ _ _ _ _ _ Hn Hex Hb) as [Hh2 Hs2].
  rewrite Get_serves; [|done|done|apply Hh2, Hh, Hhost].
  rewrite Hs2, Hs, decide_True by done. by destruct (_ <? _).
Qed.

(** A deleted key stays not found until it is set again. *)
Theorem get_after_delete numShards server key server1 ops server2 now :
  numShards <> 0 -> Delete server numShards key = Ret (server1, None) ->
  exec numShards server1 ops = Ret server2 -> Forall (bystander key now) ops ->
  Get server2 numShards now key = Ret (no_value, None).
Proof.
  intros Hn Hdel Hex Hb.
  assert (key <> ""%string /\ hosts server numShards key) as [Hk Hhost].
  { apply on_shard_ok in Hdel as [[? _]|(_ & ? & d & Hd & _)]; [done| |done]. split; [done|by exists d]. }
  apply Delete_serves in Hdel as (Hh & Hs); [|done].
  destruct (exec_serves _ _ _ _ _ _ Hn Hex Hb) as [Hh2 Hs2].
  rewrite Get_serves; [|done|done|apply Hh2, Hh, Hhost].
  by rewrite Hs2, Hs, decide_True.
Qed.

Definition demo : KvServer := mkServer "n1" {[ shard_of "k" 2 := ∅ ]}.
Definition demo_set : KvServer :=
  mkServer "n1" {[ shard_of "k" 2 := {[ "k"%string := mkItem "v" 100 5000000 ]} ]}.

Lemma get_after_set_witness :
  Get (ttl_tick demo_set 60000000 1) 2 60000000 "k" = Ret (mkGetResponse "v" true, None).
Proof.
  apply (get_after_set 2 demo 5000000 "k" "v" 100 demo_set [OTick 60000000 1]).
  - discriminate.
  - vm_compute. reflexivity.
  - vm_compute. reflexivity.
  - constructor; [cbn; lia|constructor].
Defined.

Lemma get_after_delete_witness :
  Get (ttl_tick demo 60000000 1) 2 60000000 "k" = Ret (no_value, None).
Proof.
  apply (get_after_delete 2 demo_set "k" demo [OTick 60000000 1]).
  - discriminate.
  - vm_compute. reflexivity.
  - vm_compute. reflexivity.
  - constructor; [cbn; lia|constructor].
Defined.

(** Requests are rejected as the interface says: an empty key is an
    [InvalidArgument], a key whose shard the node does not host is
    [NotFound], and neither changes the node. *)
Theorem rejected_requests server numShards now key v ttlMs :
  numShards <> 0 -> key = ""%string \/ ~ hosts server numShards key ->
  exists e, err_code e = (if decide (key = ""%string) then InvalidArgument else NotFound)
    /\ Get server numShards now key = Ret (no_value, Some e)
    /\ Set_ server numShards now key v ttlMs = Ret (server, Some e)
    /\ Delete server numShards key = Ret (server, Some e).
Proof.
  intros Hn Hor. unfold Get, Set_, Delete, on_shard. rewrite GetShardForKey_Ret by done.
  case_decide as Hk; [by exists err_empty|]. destruct Hor as [?|Hh]; [done|].
  unfold hosts, shard_of in Hh. apply eq_None_not_Some in Hh. cbn. rewrite Hh. by exists err_not_found.
Qed.

Lemma rejected_requests_witness :
  exists e, err_code e = NotFound /\ Get demo 5 0 "k" = Ret (no_value, Some e)
    /\ Set_ demo 5 0 "k" "v" 1 = Ret (demo, Some e) /\ Delete demo 5 "k" = Ret (demo, Some e).
Proof.
  apply (rejected_requests demo 5 0 "k" "v" 1).
  - discriminate.
  - right. intros [x Hx]. vm_compute in Hx. discriminate.
Defined.

(** ** Shard map updates *)

(** What storing copied values does, once it is known not to panic. *)
Definition store_pure (n : Z) (m : gmap Z shardData) (vn : GetShardValue * Z) : gmap Z shardData :=
  alter (<[sv_Key vn.1 := mkItem (sv_Value vn.1) (TtlMsRemaining vn.1) vn.2]>)
    (shard_of (sv_Key vn.1) n) m.

Lemma store_value_ok n server vn :
  n <> 0 -> shard_of (sv_Key vn.1) n ∈ dom (availableShards server) ->
  store_value n server vn = Ret (set_shards (store_pure n (availableShards server) vn) server).
Proof.
  destruct vn as [v now]. intros Hn [d Hd]%elem_of_dom. cbn [fst] in *. unfold store_value, store_pure.
  rewrite GetShardForKey_Ret by done. cbn. fold (shard_of (sv_Key v) n). rewrite Hd. do 2 f_equal.
  apply map_eq. intros k. destruct (decide (shard_of (sv_Key v) n = k)) as [<-|Hne].
  - by rewrite lookup_insert_eq, lookup_alter_eq, Hd.
  - by rewrite lookup_insert_ne, lookup_alter_ne.
Qed.

Lemma store_pure_dom n m vn : dom (store_pure n m vn) = dom m.
Proof. apply dom_alter_L. Qed.

Lemma store_pure_fold_dom n m vs : dom (foldl (store_pure n) m vs) = dom m.
Proof. revert m. induction vs as [|v vs IH]; intros m; cbn; [done|]. by rewrite IH, store_pure_dom. Qed.

Lemma store_values_ok n server vs :
  n <> 0 -> (forall v, v ∈ vs -> shard_of (sv_Key v.1) n ∈ dom (availableShards server)) ->
  go_fold (store_value n) server vs
  = Ret (set_shards (foldl (store_pure n) (availableShards server) vs) server).
Proof.
  intros Hn. revert server. induction vs as [|v vs IH]; intros server H; cbn; [by destruct server|].
  rewrite store_value_ok by (try apply H; auto; left). cbn. rewrite IH; [done|].
  intros w Hw. cbn. rewrite store_pure_dom. apply H. by right.
Qed.

Lemma go_fold_concat {A S} (f : S -> A -> go S) s ls :
  go_fold (fun s l => go_fold f s l) s ls = go_fold f s (concat ls).
Proof.
  revert s. induction ls as [|l ls IH]; intros s; [done|]. cbn. rewrite go_fold_app.
  destruct (go_fold f s l); [apply IH|done|done].
Qed.

Lemma elem_of_concat {A} (x : A) ls : x ∈ concat ls <-> exists l, l ∈ ls /\ x ∈ l.
Proof. rewrite !list_elem_of_In, in_concat. setoid_rewrite list_elem_of_In. naive_solver. Qed.

(** Shards no value belongs to keep their contents. *)
Lemma store_pure_fold_other n m vs k :
  (forall v, v ∈ vs -> shard_of (sv_Key v.1) n <> k) -> foldl (store_pure n) m vs !! k = m !! k.
Proof.
  revert m. induction vs as [|v vs IH]; intros m H; cbn; [done|].
  rewrite IH by (intros; apply H; by right). apply lookup_alter_ne, H. left.
Qed.

(** The value stored for a key that occurs once. *)
Lemma store_pure_fold_key n m vs v now :
  NoDup ((fun p => sv_Key p.1) <$> vs) -> (v, now) ∈ vs ->
  shard_of (sv_Key v) n ∈ dom m ->
  exists d, foldl (store_pure n) m vs !! shard_of (sv_Key v) n = Some d
    /\ d !! sv_Key v = Some (mkItem (sv_Value v) (TtlMsRemaining v) now).
Proof.
  intros Hnd Hin Hdom.
  apply list_elem_of_split in Hin as (l1 & l2 & ->). rewrite foldl_app. cbn.
  rewrite fmap_app, NoDup_app in Hnd. destruct Hnd as (_ & _ & Hnd). cbn in Hnd.
  apply NoDup_cons in Hnd as [Hnin _].
  assert (exists d, store_pure n (foldl (store_pure n) m l1) (v, now) !! shard_of (sv_Key v) n = Some d
    /\ d !! sv_Key v = Some (mkItem (sv_Value v) (TtlMsRemaining v) now)) as (d & Hd & Hk).
  { assert (shard_of (sv_Key v) n ∈ dom (foldl (store_pure n) m l1)) as [d Hd]%elem_of_dom
      by (by rewrite store_pure_fold_dom).
    unfold store_pure at 1. cbn. rewrite lookup_alter_eq, Hd. cbn. eexists. split; [done|].
    apply lookup_insert_eq. }
  revert d Hd Hk. generalize (store_pure n (foldl (store_pure n) m l1) (v, now)). clear Hdom.
  induction l2 as [|w l2 IH]; intros m' d Hd Hk; cbn; [eauto|].
  rewrite fmap_cons, not_elem_of_cons in Hnin. destruct Hnin as [Hw Hnin].
  unfold store_pure at 2. destruct (decide (shard_of (sv_Key w.1) n = shard_of (sv_Key v) n)) as [E|Hne].
  - eapply IH; [done| |]; [rewrite E, lookup_alter_eq, Hd; done|]. by rewrite lookup_insert_ne.
  - eapply IH; [done| |done]. by rewrite lookup_alter_ne.
Qed.

Lemma update_begin_lookup server sm k :
  availableShards (update_begin server sm) !! k =
  if decide (k ∈ shardsToBeAdded server sm) then Some ∅ else availableShards server !! k.
Proof.
  unfold update_begin. cbn. generalize (shardsToBeAdded server sm). intros X.
  set (P := fun (m : gmap Z shardData) (Y : gset Z) =>
    m !! k = if decide (k ∈ Y) then Some ∅ else availableShards server !! k).
  change (P (set_fold (fun s m => <[s := ∅]> m) (availableShards server) X) X).
  apply set_fold_ind_L; unfold P.
  - by rewrite decide_False by set_solver.
  - intros x X' m Hx H. destruct (decide (x = k)) as [->|Hne].
    + rewrite lookup_insert_eq, decide_True by set_solver. done.
    + rewrite lookup_insert_ne, H by done. repeat case_decide; set_solver.
Qed.

Lemma added_spec server sm k :
  k ∈ shardsToBeAdded server sm <->
  availableShards server !! k = None /\ k ∈ int32 <$> ShardsForNode sm (nodeName server).
Proof. unfold shardsToBeAdded. by rewrite elem_of_list_to_set, list_elem_of_filter. Qed.

Lemma removed_spec server sm k :
  k ∈ shardsToBeRemoved server (fun _ => sm) <->
  is_Some (availableShards server !! k) /\ k ∉ int32 <$> ShardsForNode sm (nodeName server).
Proof. unfold shardsToBeRemoved. rewrite elem_of_filter, elem_of_dom. tauto. Qed.

Lemma update_remove_ok server l :
  NoDup l -> (forall k, k ∈ l -> is_Some (availableShards server !! k)) ->
  exists server', update_remove server l = Ret server' /\ nodeName server' = nodeName server
    /\ forall k, availableShards server' !! k = if decide (k ∈ l) then None else availableShards server !! k.
Proof.
  unfold update_remove. intros Hnd. revert server.
  induction Hnd as [|x l Hx _ IH]; intros server H; cbn.
  { exists server. split; [done|]. split; [done|]. intros k. by rewrite decide_False by set_solver. }
  destruct (H x) as [d Hd]; [left|]. rewrite Hd. cbn.
  destruct (IH (set_shards (delete x (availableShards server)) server)) as (s' & -> & Hn & Hs').
  { intros k Hk. cbn. rewrite lookup_delete_ne by (intros ->; done). apply H. by right. }
  exists s'. split; [done|]. split; [done|]. intros k. rewrite Hs'. cbn.
  destruct (decide (x = k)) as [->|Hne]; [rewrite lookup_delete_eq|rewrite lookup_delete_ne by done];
    repeat case_decide; set_solver.
Qed.

(** The state between the copy and the removals. *)
Lemma update_copy_phase server sm responses :
  NumShards sm <> 0 ->
  (forall v, v ∈ concat responses ->
    shard_of (sv_Key v.1) (NumShards sm) ∈ shardsToBeAdded server sm) ->
  exists m2,
    (if decide (shardsToBeAdded server sm = ∅) then Ret (update_begin server sm)
     else update_copy (NumShards sm) (update_begin server sm) responses) = Ret (set_shards m2 server)
    /\ (forall k, is_Some (m2 !! k) <->
          is_Some (availableShards server !! k) \/ k ∈ shardsToBeAdded server sm)
    /\ (forall k d, availableShards server !! k = Some d -> m2 !! k = Some d)
    /\ (NoDup ((fun v => sv_Key v.1) <$> concat responses) ->
        forall v now, (v, now) ∈ concat responses ->
          exists d, m2 !! shard_of (sv_Key v) (NumShards sm) = Some d
            /\ d !! sv_Key v = Some (mkItem (sv_Value v) (TtlMsRemaining v) now)).
Proof.
  intros Hn Hresp. set (s1 := update_begin server sm).
  assert (forall v, v ∈ concat responses -> shard_of (sv_Key v.1) (NumShards sm) ∈ dom (availableShards s1)) as Hdom.
  { intros v Hv. apply elem_of_dom. unfold s1. rewrite update_begin_lookup, decide_True by auto. done. }
  exists (foldl (store_pure (NumShards sm)) (availableShards s1) (concat responses)).
  split; [|split; [|split]].
  - case_decide as E.
    + destruct (concat responses) as [|v vs]; [done|].
      specialize (Hresp v). rewrite E in Hresp. set_solver.
    + unfold update_copy. rewrite go_fold_concat. by rewrite store_values_ok.
  - intros k. rewrite <- elem_of_dom, store_pure_fold_dom, elem_of_dom. unfold s1.
    rewrite update_begin_lookup. case_decide; [split; eauto|]. split; [auto|]. by intros [?|?].
  - intros k d Hd. rewrite store_pure_fold_other.
    + unfold s1. rewrite update_begin_lookup, decide_False; [done|].
      rewrite added_spec. intros [? _]. congruence.
    + intros v Hv E. specialize (Hresp v Hv). rewrite E, added_spec, Hd in Hresp. by destruct Hresp.
  - intros Hnd v now Hv. apply store_pure_fold_key; [done|done|]. by apply (Hdom (v, now)).
Qed.

(** The shards a node should host. *)
Definition assigned (sm : ShardMapState) (name : string) (k : Z) : Prop :=
  k ∈ int32 <$> ShardsForNode sm name.

Lemma assigned_int32 sm name k :
  valid_assignment sm -> NumShards sm < 2 ^ 31 -> k ∈ ShardsForNode sm name -> int32 k = k.
Proof.
  intros Hv Hn Hk%shards_nodes_dual. apply int32_id. unfold NodesForShard in Hk.
  destruct (ShardsToNodes sm !! k) as [ns|] eqn:Ek; [destruct (Hv _ _ Ek); lia|]. by apply elem_of_nil in Hk.
Qed.

Lemma assigned_nodes sm name k :
  valid_assignment sm -> NumShards sm < 2 ^ 31 -> assigned sm name k <-> name ∈ NodesForShard sm k.
Proof.
  intros Hv Hn. unfold assigned. rewrite list_elem_of_fmap, <- shards_nodes_dual. split.
  - intros (k' & -> & Hk). by rewrite (assigned_int32 sm name k').
  - intros Hk. exists k. by rewrite (assigned_int32 sm name k).
Qed.

(** A shard map update that runs undisturbed makes the node host exactly
    the shards the new map assigns to it, and does not panic. Shards it keeps
    have their contents unchanged, and a new shard holds every copied value
    with the remaining time to live, dated at the time of the copy. The
    hypothesis on the responses is what [placed] peers guarantee: the values
    a peer returns belong to the shard it was asked for. *)
Theorem update_hosts_assigned server sm responses :
  NumShards sm <> 0 ->
  (forall v, v ∈ concat responses ->
    shard_of (sv_Key v.1) (NumShards sm) ∈ shardsToBeAdded server sm) ->
  NoDup ((fun v => sv_Key v.1) <$> concat responses) ->
  exists server', handleShardMapUpdate server sm responses = Ret server'
    /\ (forall k, is_Some (availableShards server' !! k) <-> assigned sm (nodeName server) k)
    /\ (forall k d, availableShards server !! k = Some d -> assigned sm (nodeName server) k ->
          availableShards server' !! k = Some d)
    /\ (forall v now, (v, now) ∈ concat responses ->
          exists d, availableShards server' !! shard_of (sv_Key v) (NumShards sm) = Some d
            /\ d !! sv_Key v = Some (mkItem (sv_Value v) (TtlMsRemaining v) now)).
Proof.
  intros Hn Hresp Hnd. unfold handleShardMapUpdate, assigned.
  destruct (update_copy_phase server sm responses Hn Hresp) as (m2 & -> & Hm2 & Hold & Hnew).
  cbn.
  destruct (update_remove_ok (set_shards m2 server) (elements (shardsToBeRemoved server (fun _ => sm))))
    as (s' & -> & _ & Hs').
  { apply NoDup_elements. }
  { intros k Hk%elem_of_elements%removed_spec. cbn. apply Hm2. left. apply Hk. }
  exists s'. split; [done|]. cbn in Hs'.
  assert (forall k, k ∈ int32 <$> ShardsForNode sm (nodeName server) -> availableShards s' !! k = m2 !! k) as Hkeep.
  { intros k Hk. rewrite Hs'. case_decide as Hr; [|done].
    by apply elem_of_elements, removed_spec in Hr as [_ ?]. }
  split; [|split].
  - intros k. rewrite Hs'. case_decide as Hr.
    + apply elem_of_elements, removed_spec in Hr as [_ Hr]. split; [intros [? ?]; done|done].
    + rewrite elem_of_elements, removed_spec in Hr. rewrite Hm2, added_spec.
      destruct (decide (k ∈ int32 <$> ShardsForNode sm (nodeName server))) as [Hin|Hin].
      * destruct (availableShards server !! k); split; eauto.
      * split; [|done]. intros [?|[_ ?]]; [|done]. exfalso. by apply Hr.
  - intros k d Hd Hk. rewrite Hkeep by done. by apply Hold.
  - intros v now Hv. rewrite Hkeep by (by apply (Hresp (v, now)), added_spec in Hv as [_ ?]). by apply Hnew.
Qed.

Definition demo_map : ShardMapState :=
  mkState {[ "n1"%string := mkNodeInfo "a" 1; "n2"%string := mkNodeInfo "b" 2 ]}
    {[ 2 := ["n1"; "n2"]%string ]} 2.
Definition demo_values : list (GetShardValue * Z) := [(mkShardValue "j" "w" 40, 9000000)].

Lemma update_hosts_assigned_witness :
  exists server', handleShardMapUpdate demo_set demo_map [demo_values] = Ret server'
    /\ (forall k, is_Some (availableShards server' !! k) <-> assigned demo_map "n1" k).
Proof.
  destruct (update_hosts_assigned demo_set demo_map [demo_values]) as (s & H & Hk & _ & _).
  - discriminate.
  - intros v ->%list_elem_of_singleton. vm_compute. reflexivity.
  - apply NoDup_singleton.
  - exact (ex_intro _ s (conj H Hk)).
Defined.

(** ** Items are where their key says *)

Definition placed (n : Z) (server : KvServer) : Prop :=
  forall shard d key it, availableShards server !! shard = Some d -> d !! key = Some it ->
    shard = shard_of key n.

Lemma placed_insert n server k d d' :
  placed n server -> availableShards server !! k = Some d ->
  (forall key it, d' !! key = Some it -> d !! key = Some it \/ k = shard_of key n) ->
  placed n (set_shards (<[k := d']> (availableShards server)) server).
Proof.
  intros Hp Hd Hd' sh e key it He Hit. cbn in He.
  apply lookup_insert_Some in He as [[<- <-]|[_ He]]; [|by eapply Hp].
  destruct (Hd' key it Hit); [by eapply Hp|done].
Qed.

Lemma placed_exec1 n server o server' :
  n <> 0 -> placed n server -> exec1 n server o = Ret server' -> placed n server'.
Proof.
  intros Hn Hp H. destruct o as [t k v life|k|t sh]; cbn in H.
  - apply bind_Ret in H as ([s' e] & H & E). go_inv.
    apply on_shard_ok in H as [[_ ->]|(_ & _ & d & Hd & ->)]; [done| |done].
    eapply placed_insert; [done|done|]. intros key it Hit. cbn in Hit.
    apply lookup_insert_Some in Hit as [[<- _]|[_ ?]]; auto.
  - apply bind_Ret in H as ([s' e] & H & E). go_inv.
    apply on_shard_ok in H as [[_ ->]|(_ & _ & d & Hd & ->)]; [done| |done].
    eapply placed_insert; [done|done|]. intros key it Hit. cbn in Hit.
    apply lookup_delete_Some in Hit as [_ ?]. auto.
  - go_inv. intros sh' d key it Hd Hit. cbn in Hd.
    apply lookup_alter_Some in Hd as [(<- & d0 & Hd0 & ->)|[_ Hd]]; [|by eapply Hp].
    apply map_lookup_filter_Some in Hit as [Hit _]. by eapply Hp.
Qed.

Lemma store_value_placed n server vn server' :
  n <> 0 -> store_value n server vn = Ret server' -> placed n server -> placed n server'.
Proof.
  intros Hn H Hp. destruct vn as [v now]. cbn in H. rewrite GetShardForKey_Ret in H by done. cbn in H.
  fold (shard_of (sv_Key v) n) in H.
  destruct (availableShards server !! shard_of (sv_Key v) n) as [d|] eqn:E; go_inv.
  eapply placed_insert; [done|done|]. intros key it Hit.
  apply lookup_insert_Some in Hit as [[<- _]|[_ ?]]; auto.
Qed.

Lemma update_placed server sm responses server' :
  NumShards sm <> 0 -> placed (NumShards sm) server ->
  handleShardMapUpdate server sm responses = Ret server' -> placed (NumShards sm) server'.
Proof.
  intros Hn Hp H. unfold handleShardMapUpdate in H. apply bind_Ret in H as (s1 & H1 & H).
  assert (placed (NumShards sm) (update_begin server sm)) as Hb.
  { intros sh d key it Hd Hit. rewrite update_begin_lookup in Hd.
    case_decide; [by simplify_eq|by eapply Hp]. }
  assert (placed (NumShards sm) s1) as Hs1.
  { case_decide; go_inv; [done|]. unfold update_copy in H1. rewrite go_fold_concat in H1.
    eapply go_fold_inv; [exact Hb| |exact H1]. intros s x s' _ Hs Hx. by eapply store_value_placed. }
  unfold update_remove in H. eapply go_fold_inv; [exact Hs1| |exact H].
  intros s x s' _ Hs Hx. cbn in Hx. destruct (availableShards s !! x); [|done]. apply Ret_inj in Hx as <-.
  intros sh d key it Hd. cbn in Hd. apply lookup_delete_Some in Hd as [_ Hd]. by eapply Hs.
Qed.

(** Every item a node stores is in the shard its key hashes to, from the
    node's creation on: [Set], [Delete], the sweeper and shard map updates
    all keep it so, and [GetShardContents] returns only keys of the shard it
    is asked for. *)
Theorem items_stay_placed name sm responses server0 ops server :
  NumShards sm <> 0 -> MakeKvServer name sm responses = Ret server0 ->
  exec (NumShards sm) server0 ops = Ret server ->
  placed (NumShards sm) server
  /\ (forall sm' rs server', NumShards sm' = NumShards sm ->
        handleShardMapUpdate server sm' rs = Ret server' -> placed (NumShards sm) server')
  /\ (forall now shard vs e v, GetShardContents server now shard = Ret (vs, e) -> v ∈ vs ->
        shard_of (sv_Key v) (NumShards sm) = int32 shard).
Proof.
  intros Hn H0 H.
  assert (placed (NumShards sm) server) as Hp.
  { refine (go_fold_inv (placed _) (exec1 (NumShards sm)) server0 ops server _ _ H); cycle 1.
    { intros s o s' _ Hs Ho. exact (placed_exec1 _ _ _ _ Hn Hs Ho). }
    eapply update_placed; [done| |exact H0]. intros sh d key it Hd. cbn in Hd. by rewrite lookup_empty in Hd. }
  split; [done|]. split.
  - intros sm' rs s' E Hu. rewrite <- E in *. by eapply update_placed.
  - intros now shard vs e v Hg Hv. unfold GetShardContents in Hg.
    destruct (availableShards server !! int32 shard) as [d|] eqn:Ed; go_inv.
    apply list_elem_of_omap in Hv as ([key it] & Hin & Hv). apply elem_of_map_to_list in Hin.
    case_match; simplify_eq/=. symmetry. by eapply Hp.
Qed.

Lemma items_stay_placed_witness :
  exists server, exec 2 (mkServer "n1" {[ 2 := {[ "j"%string := mkItem "w" 40 9000000 ]} ]})
      [OSet 10000000 "j" "z" 7] = Ret server /\ placed 2 server.
Proof.
  eexists. split; [vm_compute; reflexivity|].
  refine (proj1 (items_stay_placed "n1" demo_map [demo_values]
    (mkServer "n1" {[ 2 := {[ "j"%string := mkItem "w" 40 9000000 ]} ]})
    [OSet 10000000 "j" "z" 7] _ _ _ _)).
  - discriminate.
  - vm_compute. reflexivity.
  - vm_compute. reflexivity.
Defined.

(** ** Copying a shard *)

(** What the loop found among the hosts [nodes] of the shard, from iteration
    [i] on: an answer, nothing from any of them, or one it is waiting for. *)
Definition retrieved (self : string) (nodes : list string) (fetch : string -> go (option (list GetShardValue)))
    (among : string -> Prop) (out : go (list GetShardValue)) : Prop :=
  (out = Block /\ exists node, node ∈ nodes /\ node <> self /\ fetch node = Block)
  \/ exists r, out = Ret r
       /\ ((exists node, node ∈ nodes /\ node <> self /\ fetch node = Ret (Some r))
           \/ (r = [] /\ forall node, among node -> node <> self -> fetch node = Ret None)).

Lemma retrieve_loop_spec self sm shardID start fetch i fuel :
  let nodes := NodesForShard sm shardID in
  nodes <> [] -> (forall node, node ∈ nodes -> node <> self -> fetch node <> Panic) ->
  retrieved self nodes fetch
    (fun node => exists j, (i <= j < i + fuel)%nat /\
       nodes !! Z.to_nat ((start + Z.of_nat j) mod len nodes) = Some node)
    (retrieve_loop self (fun _ => sm) shardID (len nodes) start fetch i fuel).
Proof.
  intros nodes Hne Hret. revert i. induction fuel as [|fuel IH]; intros i.
  { right. exists []. split; [done|]. right. split; [done|]. intros node (j & ? & _). lia. }
  assert (0 <= (start + Z.of_nat i) mod len nodes < len nodes) as Hb.
  { apply Z.mod_pos_bound. unfold len. destruct nodes; [done|cbn; lia]. }
  destruct (go_index_returns nodes ((start + Z.of_nat i) mod len nodes) Hb) as [node Hnode].
  cbn. fold nodes. rewrite Hnode. cbn. apply go_index_Ret in Hnode as [_ Hnode].
  pose proof (list_elem_of_lookup_2 _ _ _ Hnode) as Hin.
  assert (node = self \/ fetch node = Ret None ->
    retrieved self nodes fetch
      (fun node => exists j, (i <= j < i + S fuel)%nat /\
         nodes !! Z.to_nat ((start + Z.of_nat j) mod len nodes) = Some node)
      (retrieve_loop self (fun _ => sm) shardID (len nodes) start fetch (S i) fuel)) as Hskip.
  { intros Hsk. destruct (IH (S i)) as [?|(r & Hr & [?|[-> Hall]])]; [by left|right; eauto|right].
    exists []. split; [done|]. right. split; [done|]. intros nd (j & Hj & Hnd) Hs.
    destruct (decide (j = i)) as [->|].
    - assert (nd = node) as -> by congruence. by destruct Hsk.
    - apply Hall; [|done]. exists j. split; [lia|done]. }
  case_decide as Hs; [by apply Hskip; left|].
  destruct (fetch node) as [[resp|]| |] eqn:Ef; cbn.
  - right. exists resp. split; [done|]. left. by exists node.
  - apply Hskip. by right.
  - by destruct (Hret node).
  - left. split; [done|]. by exists node.
Qed.

(** While the shard map does not change, some node hosts the shard and no
    peer panics, [retrieveShardData] does not panic either: it waits for a
    peer, or returns what one of the other hosts answered; it returns the
    empty response only when every other host failed to answer. *)
Theorem retrieve_asks_every_host server sm start fetch shardID :
  NodesForShard sm shardID <> [] ->
  (forall node, node ∈ NodesForShard sm shardID -> node <> nodeName server -> fetch node <> Panic) ->
  retrieved (nodeName server) (NodesForShard sm shardID) fetch (fun node => node ∈ NodesForShard sm shardID)
    (retrieveShardData server (fun _ => sm) start fetch shardID).
Proof.
  intros Hne Hret. unfold retrieveShardData. set (nodes := NodesForShard sm shardID) in *.
  destruct (Z.eqb_spec (len nodes) 0) as [E|_]; [destruct nodes; done|].
  destruct (retrieve_loop_spec (nodeName server) sm shardID start fetch 0 (Z.to_nat (len nodes)) Hne Hret)
    as [?|(r & Hr & [?|[-> Hall]])]; [by left|right; eauto|right].
  exists []. split; [done|]. right. split; [done|]. intros node Hin Hs. apply Hall; [|done].
  apply list_elem_of_lookup in Hin as [k Hk].
  destruct (rotation_covers (len nodes) start (Z.of_nat k)) as (i & Hi & Hmod).
  { apply lookup_lt_Some in Hk. unfold len. lia. }
  exists i. split; [lia|]. fold nodes. by rewrite Hmod, Nat2Z.id.
Qed.

Lemma retrieve_asks_every_host_witness :
  retrieved "n1" (NodesForShard demo_map 2) (fun _ => Ret (Some demo_values.*1))
    (fun node => node ∈ NodesForShard demo_map 2)
    (retrieveShardData demo_set (fun _ => demo_map) 1 (fun _ => Ret (Some demo_values.*1)) 2).
Proof.
  apply (retrieve_asks_every_host demo_set demo_map 1 (fun _ => Ret (Some demo_values.*1)) 2).
  - vm_compute. discriminate.
  - intros node _ _. discriminate.
Defined.

Lemma store_value_serves n server v t server' now :
  n <> 0 -> store_value n server (v, t) = Ret server' ->
  serves server' n now (sv_Key v) =
    if Milliseconds (now - t) <? TtlMsRemaining v then Some (sv_Value v) else None.
Proof.
  intros Hn H. cbn in H. rewrite GetShardForKey_Ret in H by done. cbn in H.
  fold (shard_of (sv_Key v) n) in H.
  destruct (availableShards server !! shard_of (sv_Key v) n) as [d|] eqn:E; go_inv.
  unfold serves. cbn. rewrite lookup_insert_eq. cbn. rewrite lookup_insert_eq. cbn.
  unfold expired. cbn. rewrite Z.leb_antisym. by destruct (_ <? _).
Qed.

(** An item that is copied to another node keeps its value and its time
    to live: the new node serves it at least as long as the old one would
    have, and stops at most one millisecond plus the transfer time (from the
    peer's clock reading to the store) after its time to live has passed. *)
Theorem copied_item_lifetime src clock shard vs d key it v r n dst t dst' now :
  n <> 0 -> availableShards src !! int32 shard = Some d -> d !! key = Some it ->
  GetShardContents src clock shard = Ret (vs, None) -> mkShardValue key v r ∈ vs ->
  store_value n dst (mkShardValue key v r, t) = Ret dst' ->
  time_elapsed it <= (clock key).2 <= t -> t <= now ->
  v = value it
  /\ (now - time_elapsed it < ttl it * 1000000 -> serves dst' n now key = Some v)
  /\ (serves dst' n now key <> None ->
        now - time_elapsed it < (ttl it + 1) * 1000000 + (t - (clock key).2)).
Proof.
  intros Hn Hd Hit Hg Hin Hst Ht Hnow. unfold GetShardContents in Hg. rewrite Hd in Hg. injection Hg as <-.
  apply list_elem_of_omap in Hin as ([k it'] & Hk & Hv). apply elem_of_map_to_list in Hk.
  destruct (_ <? _) in Hv; [|done]. injection Hv as -> Hv Hr. assert (it' = it) as -> by congruence.
  split; [done|].
  pose proof (store_value_serves n dst _ t dst' now Hn Hst) as Hs. cbn in Hs. rewrite Hs. clear Hs.
  subst r. unfold Milliseconds. rewrite !Z.quot_div_nonneg by lia.
  set (a := now - t) in *. set (b := (clock key).2 - time_elapsed it) in *.
  pose proof (Z.div_mod a 1000000). pose proof (Z.mod_pos_bound a 1000000).
  pose proof (Z.div_mod b 1000000). pose proof (Z.mod_pos_bound b 1000000).
  split.
  - intros Hlt. destruct (Z.ltb_spec (a / 1000000) (ttl it - b / 1000000)); [done|]. lia.
  - destruct (Z.ltb_spec (a / 1000000) (ttl it - b / 1000000)); [|done]. lia.
Qed.

Definition demo_dst : KvServer := mkServer "n2" {[ shard_of "k" 2 := ∅ ]}.

Lemma copied_item_lifetime_witness :
  exists dst', store_value 2 demo_dst (mkShardValue "k" "v" 90, 20000000) = Ret dst'
    /\ serves dst' 2 100000000 "k" = Some "v"%string.
Proof.
  eexists. split; [vm_compute; reflexivity|].
  refine (proj1 (proj2 (copied_item_lifetime demo_set (fun _ => (15000000, 15000000)) 1
    [mkShardValue "k" "v" 90] {[ "k"%string := mkItem "v" 100 5000000 ]} "k" (mkItem "v" 100 5000000)
    "v" 90 2 demo_dst 20000000 _ 100000000 _ _ _ _ _ _ _ _)) _).
  - discriminate.
  - vm_compute. reflexivity.
  - vm_compute. reflexivity.
  - vm_compute. reflexivity.
  - apply list_elem_of_singleton. reflexivity.
  - vm_compute. reflexivity.
  - cbn. lia.
  - lia.
  - cbn. lia.
Defined.

(** A shard map update can undo a later write. While a node copies a new
    shard it has given up its lock and already answers requests; a [Set] that
    it acknowledges in the meantime is replaced by the older value the copy
    brings, although it has not expired. *)
Theorem copy_overwrites_set n server t key v2 life server1 v1 r t2 server2 :
  n <> 0 -> Set_ server n t key v2 life = Ret (server1, None) -> Milliseconds (t2 - t) < life ->
  0 < r -> store_value n server1 (mkShardValue key v1 r, t2) = Ret server2 ->
  Get server1 n t2 key = Ret (mkGetResponse v2 true, None)
  /\ Get server2 n t2 key = Ret (mkGetResponse v1 true, None).
Proof.
  intros Hn Hset Hlife Hr Hst. apply Set_serves in Hset as (Hk & Hh & Hhost & Hs); [|done].
  split.
  - rewrite Get_serves, Hs, decide_True by (try apply Hh; done). by destruct (Z.ltb_spec (Milliseconds (t2 - t)) life); [|lia].
  - assert (hosts server2 n key) as Hh2.
    { cbn in Hst. rewrite GetShardForKey_Ret in Hst by done. cbn in Hst. fold (shard_of key n) in Hst.
      destruct (availableShards server1 !! shard_of key n) as [d|] eqn:E; go_inv. exists (<[key:=mkItem v1 r t2]> d).
      apply lookup_insert_eq. }
    rewrite Get_serves by done. pose proof (store_value_serves _ _ _ _ _ t2 Hn Hst) as Hs2. cbn in Hs2.
    rewrite Z.sub_diag in Hs2. change (Milliseconds 0) with 0 in Hs2.
    rewrite (proj2 (Z.ltb_lt 0 r) Hr) in Hs2. by rewrite Hs2.
Qed.

Lemma copy_overwrites_set_witness :
  exists s2, store_value 2 demo_set (mkShardValue "k" "old" 50, 6000000) = Ret s2
    /\ Get demo_set 2 6000000 "k" = Ret (mkGetResponse "v" true, None)
    /\ Get s2 2 6000000 "k" = Ret (mkGetResponse "old" true, None).
Proof.
  eexists. split; [vm_compute; reflexivity|].
  apply (copy_overwrites_set 2 demo 5000000 "k" "v" 100 demo_set "old" 50 6000000).
  - discriminate.
  - vm_compute. reflexivity.
  - vm_compute. reflexivity.
  - lia.
  - vm_compute. reflexivity.
Defined.

(** A request for the contents of a shard that is not hosted is a nil
    dereference, not the [NotFound] the code below it would return. *)
Lemma GetShardContents_unhosted_panics server clock shard :
  availableShards server !! int32 shard = None -> GetShardContents server clock shard = Panic.
Proof. unfold GetShardContents. by intros ->. Qed.

(** When the shard map changes between two reads, the index into the new list
    of hosts can be out of range. *)
Definition shrunk_map : ShardMapState := mkState (Nodes demo_map) {[ 2 := ["n1"]%string ]} 2.
Example retrieve_panics_when_map_changes :
  retrieveShardData demo_set (fun k => match k with O => demo_map | _ => shrunk_map end) 1
    (fun _ => Ret None) 2 = Panic.
Proof. vm_compute. reflexivity. Qed.
