(* ===== verification/KvNode.v ===== *)
(** * lab4/kv/server.go: a node whose updates and requests interleave

    [handleShardMapUpdate] releases [server.mu] while it copies shards, and
    two goroutines run it: the constructor, and the loop that it has started
    just before. This file runs the critical sections of KvServer.v as steps:
    thread 0 is the constructor's call, thread 1 the loop of
    [shardMapListenLoop], and requests and sweeps are steps of their own. The
    second critical section is taken apart further, into one step per stored
    value and per removed shard, because the sweepers, which take only the
    lock of a shard, run in between; [lock_free] is what keeps requests out.

    A step that is not possible in a state is [Block]; a nil dereference or
    an index out of range in one of the threads is [Panic], which takes the
    process down. *)

From S2P Require Import Prelude Fnv ShardMap KvServer.
From Stdlib Require Import String Wellfounded.Lexicographic_Product.
From stdpp Require Import prelude gmap strings relations.
Local Open Scope Z_scope.

(** Where a thread is in [handleShardMapUpdate]: [pending] are the shards
    whose [retrieveShardData] has not returned, [removed] the part of
    [shardsToBeRemoved] that is still to do, [values] what the second
    critical section has still to store. *)
Inductive phase : Type :=
| Idle
| Retrieving (pending : gset Z) (shardContentsResponses : list (list GetShardValue)) (removed : gset Z)
| Storing (values : list GetShardValue) (removed : gset Z)
| Stopped.

Record Node : Type := mkNode {
  srv : KvServer;
  threads : list phase
}.

Inductive action : Type :=
| Begin (t : nat) (sm : ShardMapState) (read_for : Z -> ShardMapState)
| Fetch (t : nat) (shard : Z) (reads : nat -> ShardMapState) (start : Z)
    (fetch : string -> go (option (list GetShardValue)))
| Relock (t : nat)
| Store (t : nat) (numShards now : Z)
| Remove (t : nat) (shard : Z)
| Finish (t : nat)
| Request (numShards : Z) (o : op)
| Shutdown.

Definition lock_free (nd : Node) : bool :=
  forallb (fun p => match p with Storing _ _ => false | _ => true end) (threads nd).

Definition set_thread (nd : Node) (s : KvServer) (t : nat) (p : phase) : Node :=
  mkNode s (<[t := p]> (threads nd)).

Definition takes_lock (o : op) : bool := match o with OTick _ _ => false | _ => true end.

(** The first critical section; when nothing is added the lock is kept. *)
Definition begin_update (server : KvServer) (sm : ShardMapState) (read_for : Z -> ShardMapState) : phase :=
  let added := shardsToBeAdded server sm in
  let removed := shardsToBeRemoved server read_for in
  if decide (added = ∅) then Storing [] removed else Retrieving added [] removed.

Definition step (nd : Node) (a : action) : go Node :=
  match a with
  | Begin t sm read_for =>
      match threads nd !! t with
      | Some Idle =>
          if lock_free nd
          then Ret (set_thread nd (update_begin (srv nd) sm) t (begin_update (srv nd) sm read_for))
          else Block
      | _ => Block
      end
  | Fetch t shard reads start fetch =>
      match threads nd !! t with
      | Some (Retrieving pending resps removed) =>
          if decide (shard ∈ pending) then
            let! resp := retrieveShardData (srv nd) reads start fetch shard in
            Ret (set_thread nd (srv nd) t (Retrieving (pending ∖ {[shard]}) (resps ++ [resp]) removed))
          else Block
      | _ => Block
      end
  | Relock t =>
      match threads nd !! t with
      | Some (Retrieving pending resps removed) =>
          if decide (pending = ∅) then
            if lock_free nd then Ret (set_thread nd (srv nd) t (Storing (concat resps) removed)) else Block
          else Block
      | _ => Block
      end
  | Store t numShards now =>
      match threads nd !! t with
      | Some (Storing (v :: values) removed) =>
          let! s := store_value numShards (srv nd) (v, now) in
          Ret (set_thread nd s t (Storing values removed))
      | _ => Block
      end
  | Remove t shard =>
      match threads nd !! t with
      | Some (Storing [] removed) =>
          if decide (shard ∈ removed) then
            let! s := update_remove (srv nd) [shard] in
            Ret (set_thread nd s t (Storing [] (removed ∖ {[shard]})))
          else Block
      | _ => Block
      end
  | Finish t =>
      match threads nd !! t with
      | Some (Storing [] removed) =>
          if decide (removed = ∅) then
            Ret (set_thread nd (srv nd) t (if decide (t = 0%nat) then Stopped else Idle))
          else Block
      | _ => Block
      end
  | Request numShards o =>
      if takes_lock o && negb (lock_free nd) then Block
      else let! s := exec1 numShards (srv nd) o in Ret (mkNode s (threads nd))
  | Shutdown =>
      match threads nd !! 1%nat with
      | Some Idle => Ret (set_thread nd (srv nd) 1 Stopped)
      | _ => Block
      end
  end.

(** [MakeKvServer] before its own update: both threads are about to run. *)
Definition make (name : string) : Node := mkNode (mkServer name ∅) [Idle; Idle].

Definition run (nd : Node) (acts : list action) : go Node := go_fold step nd acts.

#[local] Arguments store_value : simpl never.
#[local] Arguments update_remove : simpl never.
#[local] Arguments update_begin : simpl never.
#[local] Arguments begin_update : simpl never.
#[local] Arguments retrieveShardData : simpl never.
#[local] Arguments exec1 : simpl never.

(** ** Items stay where their key says, under every interleaving *)

(** The documented promise of the shard map: its [NumShards] never changes. *)
Definition same_count (n : Z) (a : action) : Prop :=
  match a with
  | Begin _ sm _ => NumShards sm = n
  | Store _ k _ | Request k _ => k = n
  | _ => True
  end.

Lemma placed_begin n server sm : placed n server -> placed n (update_begin server sm).
Proof.
  intros Hp sh d key it Hd Hit. rewrite update_begin_lookup in Hd.
  case_decide; [by simplify_eq|by eapply Hp].
Qed.

Lemma placed_remove n server l server' :
  placed n server -> update_remove server l = Ret server' -> placed n server'.
Proof.
  intros Hp H. unfold update_remove in H. eapply go_fold_inv; [exact Hp| |exact H].
  intros s x s' _ Hs Hx. cbn in Hx. destruct (availableShards s !! x); [|done]. apply Ret_inj in Hx as <-.
  intros sh d key it Hd. cbn in Hd. apply lookup_delete_Some in Hd as [_ Hd]. by eapply Hs.
Qed.

Lemma placed_step n nd a nd' :
  n <> 0 -> placed n (srv nd) -> same_count n a -> step nd a = Ret nd' -> placed n (srv nd').
Proof.
  intros Hn Hp Hc H. destruct a; cbn in H, Hc; repeat case_match; try done; go_inv; try done;
    eauto using placed_begin, store_value_placed, placed_remove, placed_exec1.
Qed.

Lemma placed_run n name acts nd :
  n <> 0 -> Forall (same_count n) acts -> run (make name) acts = Ret nd -> placed n (srv nd).
Proof.
  intros Hn Hc H. unfold run in H.
  refine (go_fold_inv (fun x => placed n (srv x)) step _ acts nd _ _ H); cycle 1.
  { intros x a x' Hin Hx Ha. rewrite Forall_forall in Hc. exact (placed_step n x a x' Hn Hx (Hc a Hin) Ha). }
  intros sh d key it Hd. cbn in Hd. by rewrite lookup_empty in Hd.
Qed.

(** However the constructor's update, the updates of the listen loop, the
    requests and the sweeps interleave, every item of the node is in the
    shard its key hashes to; so what [GetShardContents] hands to another node
    are keys of the shard that node asked for. *)
Theorem node_items_placed n name acts nd :
  n <> 0 -> Forall (same_count n) acts -> run (make name) acts = Ret nd ->
  placed n (srv nd)
  /\ forall now shard vs e v, GetShardContents (srv nd) now shard = Ret (vs, e) -> v ∈ vs ->
       shard_of (sv_Key v) n = int32 shard.
Proof.
  intros Hn Hc H. pose proof (placed_run n name acts nd Hn Hc H) as Hp. split; [done|].
  intros now shard vs e v Hg Hv. unfold GetShardContents in Hg.
  destruct (availableShards (srv nd) !! int32 shard) as [d|] eqn:Ed; go_inv.
  apply list_elem_of_omap in Hv as ([key it] & Hin & Hv). apply elem_of_map_to_list in Hin.
  case_match; simplify_eq/=. symmetry. by eapply Hp.
Qed.

(** ** One update at a time *)

Definition pending_of (p : phase) : gset Z :=
  match p with Retrieving pending _ _ => pending | _ => ∅ end.

Definition removing (p : phase) : gset Z :=
  match p with Retrieving _ _ removed | Storing _ removed => removed | _ => ∅ end.

Definition values_of (p : phase) : list GetShardValue :=
  match p with Retrieving _ resps _ => concat resps | Storing vs _ => vs | _ => [] end.

Definition active (p : phase) : bool :=
  match p with Retrieving _ _ _ | Storing _ _ => true | _ => false end.

Definition quiescent (nd : Node) : Prop := Forall (fun p => active p = false) (threads nd).

(** The shard map as an update that begins sees it, and the environment the
    update then has: the map does not change while it runs, no other update
    is in progress, the peers answer, if they do, with values of the shard
    they are asked for ([node_items_placed]). [m] is the map of the last update. *)
Definition calm (n : Z) (m : option ShardMapState) (nd : Node) (a : action) : Prop :=
  match a with
  | Begin _ sm read_for =>
      NumShards sm = n /\ valid_assignment sm /\ (forall k, read_for k = sm) /\ quiescent nd
  | Fetch _ shard reads _ fetch =>
      (forall sm, m = Some sm -> reads = fun _ => sm)
      /\ (forall node, fetch node <> Panic)
      /\ forall node vs v, fetch node = Ret (Some vs) -> v ∈ vs -> shard_of (sv_Key v) n = shard
  | Store _ k _ | Request k _ => k = n
  | _ => True
  end.

Definition next_map (a : action) (m : option ShardMapState) : option ShardMapState :=
  match a with Begin _ sm _ => Some sm | _ => m end.

Inductive calm_run (n : Z) (name : string) : option ShardMapState -> Node -> Prop :=
| calm_init : calm_run n name None (make name)
| calm_step m nd a nd' :
    calm_run n name m nd -> calm n m nd a -> step nd a = Ret nd' ->
    calm_run n name (next_map a m) nd'.

(** The shards the node is to host by the map [m]. *)
Definition target (m : option ShardMapState) (name : string) (k : Z) : Prop :=
  exists sm, m = Some sm /\ assigned sm name k.

Record phase_inv (n : Z) (m : option ShardMapState) (s : KvServer) (p : phase) : Prop := {
  inv_valid : forall sm, m = Some sm -> NumShards sm = n /\ valid_assignment sm;
  inv_hosted : forall k, is_Some (availableShards s !! k) /\ k ∉ removing p <-> target m (nodeName s) k;
  inv_removed : forall k, k ∈ removing p -> is_Some (availableShards s !! k);
  inv_pending : forall k, k ∈ pending_of p -> target m (nodeName s) k;
  inv_values : forall v, v ∈ values_of p -> target m (nodeName s) (shard_of (sv_Key v) n)
}.

Definition node_inv (n : Z) (name : string) (m : option ShardMapState) (nd : Node) : Prop :=
  nodeName (srv nd) = name
  /\ exists t p, threads nd !! t = Some p
    /\ (forall t' p', threads nd !! t' = Some p' -> t' <> t -> active p' = false)
    /\ phase_inv n m (srv nd) p.

(** Two servers that host the same shards. *)
Definition same_hosts (s s' : KvServer) : Prop :=
  nodeName s' = nodeName s
  /\ forall k, is_Some (availableShards s' !! k) <-> is_Some (availableShards s !! k).

Lemma same_hosts_insert s k d d' :
  availableShards s !! k = Some d ->
  same_hosts s (set_shards (<[k := d']> (availableShards s)) s).
Proof.
  intros Hd. split; [done|]. intros j. cbn. destruct (decide (k = j)) as [<-|].
  - rewrite lookup_insert_eq, Hd. split; eauto.
  - by rewrite lookup_insert_ne.
Qed.

Lemma same_hosts_exec1 n s o : n <> 0 -> exists s', exec1 n s o = Ret s' /\ same_hosts s s'.
Proof.
  intros Hn. unfold exec1. destruct o as [t key v life|key|t sh].
  1, 2: unfold KvServer.Set_, KvServer.Delete, on_shard; rewrite GetShardForKey_Ret by done; case_decide;
    [by exists s|]; cbn; destruct (availableShards s !! _) as [d|] eqn:E; [|by exists s];
    eexists; (split; [done|]); by eapply same_hosts_insert.
  eexists. split; [done|]. split; [done|]. intros k. cbn. apply lookup_alter_is_Some.
Qed.

Lemma same_hosts_store n s v now :
  n <> 0 -> is_Some (availableShards s !! shard_of (sv_Key v) n) ->
  exists s', store_value n s (v, now) = Ret s' /\ same_hosts s s'.
Proof.
  intros Hn [d Hd]. unfold store_value. rewrite GetShardForKey_Ret by done. cbn.
  fold (shard_of (sv_Key v) n). rewrite Hd. eexists. split; [done|]. by eapply same_hosts_insert.
Qed.

Lemma phase_inv_hosts n m s s' p : same_hosts s s' -> phase_inv n m s p -> phase_inv n m s' p.
Proof. intros [Hname Hh] []. constructor; try setoid_rewrite Hname; try setoid_rewrite Hh; auto. Qed.

(** A phase with no more to do than another, apart from the removals. *)
Lemma phase_inv_shrink n m s p p' :
  phase_inv n m s p -> removing p' = removing p -> pending_of p' ⊆ pending_of p ->
  (forall v, v ∈ values_of p' -> v ∈ values_of p \/ target m (nodeName s) (shard_of (sv_Key v) n)) ->
  phase_inv n m s p'.
Proof.
  intros [] Hr Hpd Hv. constructor; rewrite ?Hr; auto.
  intros v [?|?]%Hv; auto.
Qed.

Lemma inactive_phase p :
  active p = false -> removing p = ∅ /\ pending_of p = ∅ /\ values_of p = [].
Proof. by destruct p. Qed.

Lemma phase_inv_begin n m s p sm read_for :
  NumShards sm = n -> valid_assignment sm -> (forall k, read_for k = sm) ->
  phase_inv n m s p -> active p = false ->
  phase_inv n (Some sm) (update_begin s sm) (begin_update s sm read_for).
Proof.
  intros HN Hva Hrf Hinv Hact.
  assert (forall k, k ∈ shardsToBeRemoved s read_for <->
    is_Some (availableShards s !! k) /\ k ∉ int32 <$> ShardsForNode sm (nodeName s)) as Hrem.
  { intros k. unfold shardsToBeRemoved. rewrite elem_of_filter, elem_of_dom, Hrf. tauto. }
  assert (removing (begin_update s sm read_for) = shardsToBeRemoved s read_for) as Er.
  { unfold begin_update. by case_decide. }
  assert (forall k, k ∈ shardsToBeAdded s sm -> target (Some sm) (nodeName s) k) as Hadd.
  { intros k [_ Hk]%added_spec. by exists sm. }
  constructor.
  - intros ? [= <-]. done.
  - intros k. rewrite Er, Hrem, update_begin_lookup. change (nodeName (update_begin s sm)) with (nodeName s).
    split.
    + intros [Hs Hk]. case_decide as Ha; [by apply Hadd|]. exists sm. split; [done|].
      unfold assigned. destruct (decide (k ∈ int32 <$> ShardsForNode sm (nodeName s))); [done|naive_solver].
    + intros (? & [= <-] & Hk). split; [|naive_solver]. case_decide as Ha; [done|].
      rewrite added_spec in Ha. destruct (availableShards s !! k); [eauto|]. by destruct Ha.
  - intros k Hk. rewrite Er, Hrem in Hk. rewrite update_begin_lookup. case_decide; [done|]. apply Hk.
  - intros k Hk. apply Hadd. unfold begin_update in Hk. case_decide; [set_solver|done].
  - intros v Hv. unfold begin_update in Hv. case_decide; by apply elem_of_nil in Hv.
Qed.

Lemma phase_inv_remove n m s removed shard :
  phase_inv n m s (Storing [] removed) -> shard ∈ removed ->
  exists s', update_remove s [shard] = Ret s' /\ nodeName s' = nodeName s
    /\ phase_inv n m s' (Storing [] (removed ∖ {[shard]})).
Proof.
  intros [Hva Hh Hr Hp Hv] Hin. cbn in *.
  destruct (update_remove_ok s [shard]) as (s' & E & Hn & Hl).
  { apply NoDup_singleton. }
  { intros k ->%list_elem_of_singleton. by apply Hr. }
  exists s'. split; [done|]. split; [done|]. constructor; cbn; try setoid_rewrite Hn; try done.
  - intros k. rewrite <- Hh, Hl. case_decide as Hk.
    + apply list_elem_of_singleton in Hk as ->. split; [intros [[? ?] _]; done|]. intros [_ ?]. done.
    + rewrite list_elem_of_singleton in Hk. set_solver.
  - intros k Hk. rewrite Hl, decide_False by (rewrite list_elem_of_singleton; set_solver).
    apply Hr. set_solver.
Qed.

Lemma lookup_set_thread nd s t p t' p' :
  threads (set_thread nd s t p) !! t' = Some p' ->
  (t' = t /\ p' = p) \/ (t' <> t /\ threads nd !! t' = Some p').
Proof.
  cbn. intros H. destruct (decide (t' = t)) as [->|]; [left|right; by rewrite list_lookup_insert_ne in H].
  apply list_lookup_insert_Some in H as [(_ & <- & _)|[? _]]; done.
Qed.

(** The thread that may be in an update moves to phase [p']. *)
Lemma node_inv_move n name m nd s t p p' :
  threads nd !! t = Some p -> nodeName s = name ->
  (forall t' q, threads nd !! t' = Some q -> t' <> t -> active q = false) ->
  phase_inv n m s p' -> node_inv n name m (set_thread nd s t p').
Proof.
  intros Ht Hname Hone Hinv. split; [done|]. exists t, p'. split.
  { cbn. apply list_lookup_insert_eq. by eapply lookup_lt_Some. }
  split; [|done]. intros t' q [[-> _]|[Hne Hq]]%lookup_set_thread ?; [done|eauto].
Qed.

Lemma target_nodes n m sm name k :
  (forall sm, m = Some sm -> NumShards sm = n /\ valid_assignment sm) -> n < 2 ^ 31 ->
  m = Some sm -> target m name k -> NodesForShard sm k <> [].
Proof.
  intros Hva Hn Hm (sm' & Hm' & Hk). assert (sm' = sm) as -> by congruence. clear Hm'.
  apply list_elem_of_fmap in Hk as (j & -> & Hj). apply shards_nodes_dual in Hj.
  destruct (Hva sm Hm) as [HN Hval].
  assert (int32 j = j) as ->.
  { unfold NodesForShard in Hj. destruct (ShardsToNodes sm !! j) as [ns|] eqn:E; [|by apply elem_of_nil in Hj].
    destruct (Hval _ _ E) as [? _]. apply int32_id. lia. }
  intros E. rewrite E in Hj. by apply elem_of_nil in Hj.
Qed.

(** The thread in an update, when there is one, is the one of the invariant. *)
Lemma active_thread n name m nd t p :
  node_inv n name m nd -> threads nd !! t = Some p -> active p = true ->
  nodeName (srv nd) = name /\ phase_inv n m (srv nd) p
  /\ forall t' q, threads nd !! t' = Some q -> t' <> t -> active q = false.
Proof.
  intros (Hname & t0 & p0 & Ht0 & Hone & Hinv) Ht Hact. split; [done|].
  destruct (decide (t = t0)) as [->|Hne]; [|by rewrite (Hone t p) in Hact].
  assert (p0 = p) as -> by congruence. done.
Qed.

Definition safe_step (n : Z) (name : string) (m : option ShardMapState) (r : go Node) : Prop :=
  r = Block \/ exists nd', r = Ret nd' /\ node_inv n name m nd'.

Lemma safe_begin n name m nd t sm read_for :
  node_inv n name m nd -> calm n m nd (Begin t sm read_for) ->
  safe_step n name (Some sm) (step nd (Begin t sm read_for)).
Proof.
  intros (Hname & t0 & p0 & Ht0 & Hone & Hinv) (HN & Hva & Hrf & Hq). cbn.
  unfold quiescent in Hq. rewrite Forall_lookup in Hq.
  destruct (threads nd !! t) as [[]|] eqn:Ht; try by left.
  destruct (lock_free nd); [right|by left]. eexists. split; [done|].
  eapply node_inv_move; [done|done|by eauto|]. eapply phase_inv_begin; eauto.
Qed.

Lemma safe_fetch n name m nd t shard reads start fetch :
  n < 2 ^ 31 -> node_inv n name m nd -> calm n m nd (Fetch t shard reads start fetch) ->
  safe_step n name m (step nd (Fetch t shard reads start fetch)).
Proof.
  intros Hn Hinv (Hreads & Hret & Hfetch). cbn.
  destruct (threads nd !! t) as [[|pending resps removed| |]|] eqn:Ht; try by left.
  case_decide as Hs; [|by left].
  destruct (active_thread _ _ _ _ _ _ Hinv Ht eq_refl) as (Hname & Hp & Hone).
  assert (target m (nodeName (srv nd)) shard) as Htg by (by apply (inv_pending _ _ _ _ Hp)).
  pose proof Htg as (sm & Hm & _). specialize (Hreads sm Hm). subst reads.
  destruct (retrieve_asks_every_host (srv nd) sm start fetch shard) as [[-> _]|(r & -> & Hr)].
  { eapply target_nodes; [exact (inv_valid _ _ _ _ Hp)|done..]. }
  { auto. }
  { by left. }
  right. cbn. eexists. split; [done|]. eapply node_inv_move; [done|done|done|].
  eapply phase_inv_shrink; [exact Hp|done|cbn; set_solver|].
  intros v Hv. cbn in *. rewrite concat_app, elem_of_app in Hv. destruct Hv as [?|Hv]; [by left|right].
  cbn in Hv. rewrite app_nil_r in Hv. destruct Hr as [(node & _ & _ & Hf)|[-> _]]; [|by apply elem_of_nil in Hv].
  by rewrite (Hfetch _ _ _ Hf Hv).
Qed.

Lemma safe_second_section n name m nd a :
  n <> 0 -> node_inv n name m nd -> calm n m nd a ->
  match a with Relock _ | Store _ _ _ | Remove _ _ | Finish _ => True | _ => False end ->
  safe_step n name m (step nd a).
Proof.
  intros Hn Hinv Hc Ha. destruct a as [| |t|t k now|t shard|t| |]; try done; cbn in *.
  all: destruct (threads nd !! t) as [[|pending resps removed|[|v vs] removed|]|] eqn:Ht; try by left.
  all: destruct (active_thread _ _ _ _ _ _ Hinv Ht eq_refl) as (Hname & Hp & Hone).
  - case_decide as He; [|by left]. destruct (lock_free nd); [right|by left].
    eexists. split; [done|]. eapply node_inv_move; [done..|].
    eapply phase_inv_shrink; [exact Hp|done|cbn; set_solver|]. intros v Hv. by left.
  - subst k. right. destruct (same_hosts_store n (srv nd) v now) as (s' & -> & Hs); [done| |].
    { apply (inv_hosted n m (srv nd) _ Hp), (inv_values n m (srv nd) _ Hp). left. }
    cbn. eexists. split; [done|]. eapply node_inv_move; [done|by rewrite (proj1 Hs)|done|].
    eapply phase_inv_hosts; [done|]. eapply phase_inv_shrink; [exact Hp|done|done|].
    intros w Hw. left. by right.
  - case_decide as Hs; [right|by left].
    destruct (phase_inv_remove n m (srv nd) removed shard Hp Hs) as (s' & -> & Hn' & Hp').
    cbn. eexists. split; [done|]. eapply node_inv_move; [done|congruence|done|done].
  - case_decide as He; [right|by left]. eexists. split; [done|]. eapply node_inv_move; [done..|].
    subst removed. eapply phase_inv_shrink; [exact Hp|by case_decide|by case_decide|].
    intros v Hv. case_decide; by apply elem_of_nil in Hv.
Qed.

Lemma safe_request n name m nd o :
  n <> 0 -> node_inv n name m nd -> safe_step n name m (step nd (Request n o)).
Proof.
  intros Hn (Hname & t & p & Ht & Hone & Hp). cbn.
  destruct (takes_lock o && negb (lock_free nd)); [by left|right].
  destruct (same_hosts_exec1 n (srv nd) o Hn) as (s' & -> & Hs). cbn. eexists. split; [done|].
  split; [cbn; by rewrite (proj1 Hs)|]. exists t, p. split; [done|]. split; [done|].
  by eapply phase_inv_hosts.
Qed.

Lemma safe_shutdown n name m nd : node_inv n name m nd -> safe_step n name m (step nd Shutdown).
Proof.
  intros (Hname & t & p & Ht & Hone & Hp). cbn.
  destruct (threads nd !! 1%nat) as [[]|] eqn:E; try by left. right. eexists. split; [done|].
  split; [done|]. destruct (decide (t = 1%nat)) as [->|Hne].
  - exists 1%nat, Stopped. split; [cbn; apply list_lookup_insert_eq; by eapply lookup_lt_Some|].
    split; [intros t' q [[-> _]|[? Hq]]%lookup_set_thread ?; [done|eauto]|].
    assert (p = Idle) as -> by congruence. by destruct Hp.
  - exists t, p. split; [cbn; by rewrite list_lookup_insert_ne|].
    split; [|done]. intros t' q [[_ ->]|[_ Hq]]%lookup_set_thread ?; [done|eauto].
Qed.

Lemma calm_safe n name m nd a :
  1 <= n < 2 ^ 31 -> node_inv n name m nd -> calm n m nd a ->
  safe_step n name (next_map a m) (step nd a).
Proof.
  intros Hn Hinv Hc. destruct a; cbn [next_map].
  - by eapply safe_begin.
  - apply safe_fetch; [lia|done|done].
  - by apply safe_second_section; [lia|..].
  - by apply safe_second_section; [lia|..].
  - by apply safe_second_section; [lia|..].
  - by apply safe_second_section; [lia|..].
  - cbn in Hc. subst. apply safe_request; [lia|done].
  - by apply safe_shutdown.
Qed.

Lemma calm_run_inv n name m nd : 1 <= n < 2 ^ 31 -> calm_run n name m nd -> node_inv n name m nd.
Proof.
  intros Hn. induction 1 as [|m nd a nd' _ IH Hc Hs].
  - split; [done|]. exists 0%nat, Idle. split; [done|]. split.
    { intros t q Hq _. cbn in Hq. apply list_elem_of_lookup_2 in Hq. set_solver. }
    constructor; try done; cbn; try set_solver. intros k. rewrite lookup_empty.
    split; [intros [[? ?] _]; done|]. intros (? & ? & _). done.
  - destruct (calm_safe n name m nd a Hn IH Hc) as [E|(x & E & Hx)]; rewrite Hs in E; [done|].
    by apply Ret_inj in E as ->.
Qed.


(** ** Updates finish *)

(** The steps of the threads inside [handleShardMapUpdate]. *)
Definition own (a : action) : bool :=
  match a with Fetch _ _ _ _ _ | Relock _ | Store _ _ _ | Remove _ _ | Finish _ => true | _ => false end.

Definition total (f : phase -> nat) (nd : Node) : nat := sum_list (f <$> threads nd).

(** What is left before, and after, the lock is taken again. *)
Definition fetching (p : phase) : nat :=
  match p with Retrieving pending _ _ => S (size pending) | _ => 0 end.
Definition finishing (p : phase) : nat :=
  match p with Storing vs removed => S (length vs + size removed) | _ => 0 end.

Lemma total_set_thread f nd s t p p' :
  threads nd !! t = Some p -> (total f (set_thread nd s t p') + f p = total f nd + f p')%nat.
Proof.
  unfold total. cbn. generalize (threads nd). clear nd s. intros l. revert t.
  induction l as [|q l IH]; intros [|t] H; cbn in *; [done|done|naive_solver lia|].
  rewrite <- !Nat.add_assoc. f_equal. exact (IH t H).
Qed.

Lemma size_remove (X : gset Z) x : x ∈ X -> (size (X ∖ {[x]}) < size X)%nat.
Proof. intros Hx. apply subset_size. set_solver. Qed.

Definition left_to_do (nd : Node) : nat * nat := (total fetching nd, total finishing nd).

Lemma own_step_decreases nd a nd' :
  own a = true -> step nd a = Ret nd' ->
  Relation_Operators.slexprod nat nat lt lt (left_to_do nd') (left_to_do nd).
Proof.
  intros Ho H. unfold left_to_do.
  assert (forall s t p p', threads nd !! t = Some p ->
    (fetching p' < fetching p \/ fetching p' = fetching p /\ finishing p' < finishing p)%nat ->
    Relation_Operators.slexprod nat nat lt lt
      (total fetching (set_thread nd s t p'), total finishing (set_thread nd s t p'))
      (total fetching nd, total finishing nd)) as Hlex.
  { intros s t p p' Ht Hor. pose proof (total_set_thread fetching nd s t p p' Ht).
    pose proof (total_set_thread finishing nd s t p p' Ht). destruct Hor as [Hlt|[He Hlt]].
    - apply Relation_Operators.left_slex. lia.
    - replace (total fetching (set_thread nd s t p')) with (total fetching nd) by lia.
      apply Relation_Operators.right_slex. lia. }
  destruct a; try done; cbn in H; repeat case_match; try done; go_inv; (eapply Hlex; [eassumption|cbn]).
  - left. enough (size (pending ∖ {[shard]}) < size pending)%nat by lia. by apply size_remove.
  - left. lia.
  - right. lia.
  - right. enough (size (removed ∖ {[shard]}) < size removed)%nat by lia. by apply size_remove.
  - right. lia.
  - right. lia.
Qed.

Lemma own_steps_terminate : well_founded (fun nd' nd => exists a, own a = true /\ step nd a = Ret nd').
Proof.
  apply (wf_projected (Relation_Operators.slexprod nat nat lt lt) left_to_do).
  - intros nd' nd (a & Ho & H). by eapply own_step_decreases.
  - apply wf_slexprod; apply lt_wf.
Qed.

Lemma lone_lock_free nd t p :
  threads nd !! t = Some p -> (forall t' q, threads nd !! t' = Some q -> t' <> t -> active q = false) ->
  match p with Storing _ _ => False | _ => True end -> lock_free nd = true.
Proof.
  intros Ht Hone Hp. unfold lock_free. apply forallb_forall. intros q Hq.
  apply list_elem_of_In, list_elem_of_lookup in Hq as [t' Ht'].
  destruct (decide (t' = t)) as [->|Hne].
  - assert (q = p) as -> by congruence. by destruct p.
  - specialize (Hone t' q Ht' Hne). by destruct q.
Qed.

(** Every next piece of work of an update can be done: any shard that is still
    to be fetched, whichever replica is asked first and whatever the peers
    answer, as long as every call of a peer returns, with values or with an
    error; taking the lock again when all are there; the next value; any
    shard that is still to be removed; and the end. *)
Definition advances (n : Z) (m : option ShardMapState) (nd : Node) (t : nat) (p : phase) : Prop :=
  match p with
  | Retrieving pending _ _ =>
      (forall shard sm start fetch, m = Some sm -> shard ∈ pending -> (forall node, returns (fetch node)) ->
         returns (step nd (Fetch t shard (fun _ => sm) start fetch)))
      /\ (pending = ∅ -> returns (step nd (Relock t)))
  | Storing (_ :: _) _ => forall now, returns (step nd (Store t n now))
  | Storing [] removed =>
      (forall shard, shard ∈ removed -> returns (step nd (Remove t shard)))
      /\ (removed = ∅ -> returns (step nd (Finish t)))
  | _ => True
  end.

Lemma update_advances n name m nd t p :
  1 <= n < 2 ^ 31 -> node_inv n name m nd -> threads nd !! t = Some p -> active p = true ->
  advances n m nd t p.
Proof.
  intros Hn Hinv Ht Hact. destruct (active_thread _ _ _ _ _ _ Hinv Ht Hact) as (_ & Hp & Hone).
  destruct p as [|pending resps removed|[|v vs] removed|]; try done; cbn [advances step]; rewrite Ht.
  - split.
    + intros shard sm start fetch Hm Hs Hf. rewrite decide_True by done.
      destruct (retrieve_asks_every_host (srv nd) sm start fetch shard)
        as [(_ & node & _ & _ & Hb)|(r & -> & _)]; [| | |by eexists].
      * eapply target_nodes; [exact (inv_valid _ _ _ _ Hp)|lia|done|]. by apply (inv_pending _ _ _ _ Hp).
      * intros node _ _. destruct (Hf node) as [? ->]. done.
      * destruct (Hf node) as [? E]. by rewrite E in Hb.
    + intros ->. rewrite decide_True, (lone_lock_free nd t _ Ht) by done. by eexists.
  - split.
    + intros shard Hs. rewrite decide_True by done.
      destruct (phase_inv_remove n m (srv nd) removed shard Hp Hs) as (s' & -> & _). by eexists.
    + intros ->. rewrite decide_True by done. by eexists.
  - intros now. destruct (same_hosts_store n (srv nd) v now) as (s' & -> & _); [lia| |by eexists].
    apply (inv_hosted n m (srv nd) _ Hp), (inv_values n m (srv nd) _ Hp). left.
Qed.

(** An active thread has something left to do. *)
Lemma advances_step n m nd t p :
  active p = true -> (forall shard, shard ∈ pending_of p -> exists sm, m = Some sm) -> advances n m nd t p ->
  exists a nd', own a = true /\ step nd a = Ret nd'.
Proof.
  intros Hact Hmap Ha. destruct p as [|pending resps removed|[|v vs] removed|]; try done; cbn [advances] in Ha.
  - destruct Ha as [Hf He]. destruct (set_choose_or_empty pending) as [[shard Hs]|E%leibniz_equiv].
    + destruct (Hmap shard Hs) as [sm Hm].
      destruct (Hf shard sm 0 (fun _ => Ret None) Hm Hs) as [nd' E]; [by eexists|].
      exists (Fetch t shard (fun _ => sm) 0 (fun _ => Ret None)), nd'. done.
    + destruct (He E) as [nd' E']. by exists (Relock t), nd'.
  - destruct Ha as [Hr He]. destruct (set_choose_or_empty removed) as [[shard Hs]|E%leibniz_equiv].
    + destruct (Hr shard Hs) as [nd' E]. by exists (Remove t shard), nd'.
    + destruct (He E) as [nd' E']. by exists (Finish t), nd'.
  - destruct (Ha 0) as [nd' E]. by exists (Store t n 0), nd'.
Qed.

(** C24: Shard map updates terminate. However many updates are in progress and
    whatever the peers answer, the steps of [handleShardMapUpdate] cannot go
    on for ever. In the environment of [lone_updates_safe] (updates that do
    not overlap, a valid map that does not change during an update, values
    only of the shard asked for), an update in progress is never stuck
    either: each of its next pieces of work can be done ([advances]),
    whatever the peers answer, provided every call of a peer returns; a peer
    that never answers holds it up. So when its calls return the update comes
    to its end. *)
Theorem updates_finish n name m nd :
  1 <= n < 2 ^ 31 -> calm_run n name m nd ->
  well_founded (fun nd' nd => exists a, own a = true /\ step nd a = Ret nd')
  /\ (forall t p, threads nd !! t = Some p -> active p = true ->
        advances n m nd t p /\ exists a nd', own a = true /\ step nd a = Ret nd').
Proof.
  intros Hn Hrun. split; [apply own_steps_terminate|]. intros t p Ht Hact.
  pose proof (calm_run_inv n name m nd Hn Hrun) as Hinv.
  pose proof (update_advances n name m nd t p Hn Hinv Ht Hact) as Ha. split; [done|].
  eapply advances_step; [done| |exact Ha]. intros shard Hs.
  destruct (active_thread _ _ _ _ _ _ Hinv Ht Hact) as (_ & Hp & _).
  destruct (inv_pending _ _ _ _ Hp shard Hs) as (sm & Hm & _). by exists sm.
Qed.

(** ** Updates that overlap *)

(** The value of a copied item whose shard is gone is stored through a nil
    pointer, whatever else the node is doing. *)
Lemma store_gone_panics nd t v vs removed n now :
  n <> 0 -> threads nd !! t = Some (Storing (v :: vs) removed) ->
  availableShards (srv nd) !! shard_of (sv_Key v) n = None -> step nd (Store t n now) = Panic.
Proof.
  intros Hn Ht Hs. cbn. rewrite Ht. unfold store_value. rewrite GetShardForKey_Ret by done. cbn.
  fold (shard_of (sv_Key v) n). by rewrite Hs.
Qed.

Definition map_with : ShardMapState :=
  mkState {[ "n1"%string := mkNodeInfo "a" 1; "n2"%string := mkNodeInfo "b" 2 ]}
    {[ 1 := ["n1"; "n2"]%string ]} 1.
Definition map_without : ShardMapState :=
  mkState {[ "n1"%string := mkNodeInfo "a" 1; "n2"%string := mkNodeInfo "b" 2 ]} {[ 1 := ["n2"]%string ]} 1.
Definition one_value : list GetShardValue := [mkShardValue "k" "v" 40].

(** The constructor's update has fetched shard 1 when the map moves it away;
    the listen loop, which [MakeKvServer] has already started, removes it. *)
Definition overlap : list action :=
  [Begin 0 map_with (fun _ => map_with); Fetch 0 1 (fun _ => map_with) 0 (fun _ => Ret (Some one_value));
   Begin 1 map_without (fun _ => map_without); Remove 1 1; Finish 1; Relock 0; Store 0 1 0].

Lemma valid_single nodes shard l n :
  1 <= shard <= n -> NoDup l -> Forall (fun node => is_Some (nodes !! node)) l ->
  valid_assignment (mkState nodes {[ shard := l ]} n).
Proof.
  intros Hs Hnd Hl k ns H. cbn in H. apply lookup_singleton_Some in H as [<- <-]. split; [done|]. split; [done|].
  by rewrite Forall_forall in Hl.
Qed.

Lemma map_with_valid : valid_assignment map_with.
Proof. apply valid_single; [lia|apply (bool_decide_unpack _); vm_compute; reflexivity|]. by repeat constructor. Qed.

Lemma map_without_valid : valid_assignment map_without.
Proof. apply valid_single; [lia|apply NoDup_singleton|]. by repeat constructor. Qed.

(** Two updates that overlap can crash the node: the listen loop is
    started before the constructor's own update has finished, and when the
    shard map changes in between, the constructor stores copied values into
    a shard that the loop has removed. *)
Theorem overlapping_updates_panic :
  run (make "n1") overlap = Panic
  /\ valid_assignment map_with /\ valid_assignment map_without
  /\ NumShards map_with = NumShards map_without /\ Forall (same_count 1) overlap.
Proof.
  split; [vm_compute; reflexivity|].
  split; [apply map_with_valid|]. split; [apply map_without_valid|]. split; [done|].
  by repeat constructor.
Qed.

(** ** Runs *)

(** The whole life of an update, with a request and a sweep in between. *)
Definition lone : list action :=
  [Begin 0 map_with (fun _ => map_with); Request 1 (OSet 5 "j" "w" 10);
   Fetch 0 1 (fun _ => map_with) 0 (fun _ => Ret (Some one_value)); Relock 0; Store 0 1 7;
   Request 1 (OTick 8 1); Finish 0].

Definition lone_end : Node :=
  mkNode (mkServer "n1" {[ 1 := {[ "j"%string := mkItem "w" 10 5; "k"%string := mkItem "v" 40 7 ]} ]})
    [Stopped; Idle].

Lemma lone_runs : run (make "n1") lone = Ret lone_end.
Proof. vm_compute. reflexivity. Qed.

Lemma lone_calm : calm_run 1 "n1" (Some map_with) lone_end.
Proof.
  pose proof lone_runs as H. unfold run, lone in H. cbn [go_fold] in H.
  assert (calm_run 1 "n1" None (make "n1")) as H0 by constructor.
  repeat (apply bind_Ret in H as (? & ?E & H);
    match goal with
    | Hr : calm_run _ _ ?m ?nd, E : step ?nd ?a = Ret ?nd' |- _ =>
        assert (calm_run 1 "n1" (next_map a m) nd') by
          (eapply calm_step; [exact Hr| |exact E]; cbn;
           try (split; [done|split; [apply map_with_valid|by repeat constructor]]);
           try (split; [naive_solver|split; [done|intros ? ? ? [= <-] ->%list_elem_of_singleton; reflexivity]]); done);
        clear Hr; cbn [next_map] in *
    end).
  by apply Ret_inj in H as <-.
Qed.

Lemma node_items_placed_witness : placed 1 (srv lone_end).
Proof.
  refine (proj1 (node_items_placed 1 "n1" lone lone_end _ _ _)).
  - discriminate.
  - repeat constructor.
  - vm_compute. reflexivity.
Defined.


(** In the middle of that update *)
Definition lone_middle : Node :=
  mkNode (mkServer "n1" {[ 1 := ∅ ]}) [Retrieving {[1]} [] ∅; Idle].

Lemma lone_middle_calm : calm_run 1 "n1" (Some map_with) lone_middle.
Proof.
  apply (calm_step 1 "n1" None (make "n1") (Begin 0 map_with (fun _ => map_with))).
  - constructor.
  - split; [done|]. split; [apply map_with_valid|]. split; [done|by repeat constructor].
  - vm_compute. reflexivity.
Qed.

Lemma updates_finish_witness :
  returns (step lone_middle (Fetch 0 1 (fun _ => map_with) 0 (fun _ => Ret None)))
  /\ exists a nd', own a = true /\ step lone_middle a = Ret nd'.
Proof.
  destruct (updates_finish 1 "n1" (Some map_with) lone_middle) as [_ Hp]; [lia|exact lone_middle_calm|].
  destruct (Hp 0%nat (Retrieving {[1]} [] ∅)) as [[Hf _] He]; [reflexivity|reflexivity|].
  split; [|exact He]. apply Hf; [reflexivity|apply elem_of_singleton; reflexivity|]. intros node. eexists. reflexivity.
Defined.
