(* ===== verification/KvCluster.v ===== *)
(** * Nodes of the store while the shard map changes

    The nodes of KvNode.v together, as they react to a new shard map: the map
    is shared, every node runs [handleShardMapUpdate] in its listen loop, and
    what it fetches is what [GetShardContents] of another node returns at that
    moment. Steps of different nodes interleave in any order; sweeps happen and
    time passes in between. Requests that write are left out: what becomes of a
    value that is set while its shard is copied is the subject of
    [KvServer.copy_overwrites_set].

    The result is that a change of the map that adds at most one replica to a
    shard loses nothing: the new replica ends up with everything the old ones
    serve. Together with ShardWorkflows.v this covers draining a node and
    moving a shard. *)

From Stdlib Require Import String.
From stdpp Require Import prelude gmap strings relations.
From S2P Require Import Prelude Fnv ShardMap ShardWorkflows KvServer KvNode.
Local Open Scope Z_scope.

#[local] Arguments store_value : simpl never.
#[local] Arguments update_remove : simpl never.
#[local] Arguments update_begin : simpl never.
#[local] Arguments begin_update : simpl never.
#[local] Arguments retrieveShardData : simpl never.
#[local] Arguments exec1 : simpl never.
#[local] Arguments lock_free : simpl never.

Record cluster : Type := mkCluster {
  cl_now : Z;
  cl_map : ShardMapState;
  cl_nodes : gmap string Node
}.

(** [CFetch] reads the peer's clock twice per item and ends at time [t]. *)
Inductive caction : Type :=
| CBegin (name : string)
| CFetch (name : string) (shard start : Z) (clock : string -> Z * Z) (t : Z)
| CRelock (name : string)
| CStore (name : string)
| CRemove (name : string) (shard : Z)
| CFinish (name : string)
| CTick (name : string) (shard : Z)
| CWait (t : Z).

(** [GetClient] and [GetShardContents] of another node: a node that is not
    there is an error, one whose lock is taken keeps the caller waiting, and
    one that does not host the shard panics. *)
Definition peer_contents (cl : cluster) (clock : string -> Z * Z) (shard : Z) (peer : string)
    : go (option (list GetShardValue)) :=
  match cl_nodes cl !! peer with
  | None => Ret None
  | Some nd =>
      if lock_free nd then
        let! out := GetShardContents (srv nd) clock shard in
        Ret (match out.2 with None => Some out.1 | Some _ => None end)
      else Block
  end.

(** The node that acts, what it does, and the time afterwards. The listen loop
    is thread 1. *)
Definition node_action (cl : cluster) (a : caction) : option (string * action * Z) :=
  let sm := cl_map cl in
  let now := cl_now cl in
  match a with
  | CBegin name => Some (name, Begin 1 sm (fun _ => sm), now)
  | CFetch name shard start clock t =>
      Some (name, Fetch 1 shard (fun _ => sm) start (peer_contents cl clock shard), t)
  | CRelock name => Some (name, Relock 1, now)
  | CStore name => Some (name, Store 1 (NumShards sm) now, now)
  | CRemove name shard => Some (name, Remove 1 shard, now)
  | CFinish name => Some (name, Finish 1, now)
  | CTick name shard => Some (name, Request (NumShards sm) (OTick now shard), now)
  | CWait _ => None
  end.

Definition cluster_step (cl : cluster) (a : caction) : go cluster :=
  match node_action cl a with
  | Some (name, na, t) =>
      match cl_nodes cl !! name with
      | None => Block
      | Some nd => let! nd' := step nd na in Ret (mkCluster t (cl_map cl) (<[name := nd']> (cl_nodes cl)))
      end
  | None => match a with CWait t => Ret (mkCluster t (cl_map cl) (cl_nodes cl)) | _ => Block end
  end.

(** Time does not go back. *)
Definition timely (cl : cluster) (a : caction) : Prop :=
  match a with
  | CFetch _ _ _ clock t => forall key, cl_now cl <= (clock key).1 /\ (clock key).1 <= (clock key).2 <= t
  | CWait t => cl_now cl <= t
  | _ => True
  end.

Definition moves (cl cl' : cluster) : Prop := exists a, timely cl a /\ cluster_step cl a = Ret cl'.

(** [Update] of the shared map. *)
Definition publish (cl : cluster) (sm : ShardMapState) : cluster := mkCluster (cl_now cl) sm (cl_nodes cl).

Definition run_cluster (cl : cluster) (acts : list caction) : go cluster := go_fold cluster_step cl acts.

(** No update is in progress and every node hosts what [sm] assigns to it. *)
Definition settled (cl : cluster) (sm : ShardMapState) : Prop :=
  forall name nd, cl_nodes cl !! name = Some nd ->
    threads nd = [Stopped; Idle]
    /\ forall k, is_Some (availableShards (srv nd) !! k) <-> assigned sm name k.

(** The nodes have followed the publication of [sm]: they have handled it to
    the end. The workflows publish every map twice, and the second [Update]
    returns once the first handling is over; its own handling, of a map that
    did not change, may still be running when the next map is published. That
    overlap is left out: the next map comes once the cluster has settled. *)
Definition follows (cl : cluster) (sm : ShardMapState) (cl' : cluster) : Prop :=
  rtc moves (publish cl sm) cl' /\ settled cl' sm.

(** ** What a cluster holds *)

Definition dated (T : Z) (s : KvServer) : Prop :=
  forall k d key it, availableShards s !! k = Some d -> d !! key = Some it -> time_elapsed it <= T.

Section Content.
Context (n : Z) (content : string -> Z -> option string).

(** Every node hosts its shards, and serves from now on everything of [content]
    that belongs to them. *)
Record ready (sm : ShardMapState) (cl : cluster) : Prop := {
  rd_map : cl_map cl = sm;
  rd_count : NumShards sm = n;
  rd_valid : valid_assignment sm;
  rd_nodes : forall name, is_Some (Nodes sm !! name) -> is_Some (cl_nodes cl !! name);
  rd_settled : settled cl sm;
  rd_server : forall name nd, cl_nodes cl !! name = Some nd ->
    nodeName (srv nd) = name /\ placed n (srv nd) /\ dated (cl_now cl) (srv nd);
  rd_serves : forall name nd key v t, cl_nodes cl !! name = Some nd -> cl_now cl <= t ->
    content key t = Some v -> assigned sm name (shard_of key n) -> serves (srv nd) n t key = Some v
}.

(** A copied value that, stored at any moment from [T] on, is served at [t]. *)
Definition good (T : Z) (x : GetShardValue) (v : string) (t : Z) : Prop :=
  sv_Value x = v /\ forall w, T <= w <= t -> Milliseconds (t - w) < TtlMsRemaining x.

(** Where the content of a node is while it goes from map [s0] to [s1]: [m] is
    the map of its last update, [p] what its listen loop is doing. *)
Record holds (s0 : ShardMapState) (T : Z) (name : string) (s : KvServer) (m : ShardMapState) (p : phase) : Prop := {
  h_new : forall k, k ∈ pending_of p -> ~ assigned s0 name k;
  h_old : forall key v t, T <= t -> content key t = Some v -> assigned m name (shard_of key n) ->
    assigned s0 name (shard_of key n) -> serves s n t key = Some v;
  h_good : forall key v t x, T <= t -> content key t = Some v -> assigned m name (shard_of key n) ->
    x ∈ values_of p -> sv_Key x = key -> good T x v t;
  h_all : forall key v t, T <= t -> content key t = Some v -> assigned m name (shard_of key n) ->
    serves s n t key = Some v \/ (exists x, x ∈ values_of p /\ sv_Key x = key) \/ shard_of key n ∈ pending_of p
}.

Definition node_ok (s0 s1 : ShardMapState) (T : Z) (name : string) (nd : Node) : Prop :=
  nodeName (srv nd) = name /\ placed n (srv nd) /\ dated T (srv nd)
  /\ exists m p, threads nd = [Stopped; p] /\ phase_inv n (Some m) (srv nd) p
    /\ (m = s1 /\ p <> Stopped \/ m = s0 /\ p = Idle) /\ holds s0 T name (srv nd) m p.

Record moving (s0 s1 : ShardMapState) (cl : cluster) : Prop := {
  mv_map : cl_map cl = s1;
  mv_nodes : forall name, is_Some (Nodes s1 !! name) -> is_Some (cl_nodes cl !! name);
  mv_ok : forall name nd, cl_nodes cl !! name = Some nd -> node_ok s0 s1 (cl_now cl) name nd
}.

(** ** One node *)

Lemma good_mono T T' x v t : T <= T' -> good T x v t -> good T' x v t.
Proof. intros HT [Hv Hl]. split; [done|]. intros w Hw. apply Hl. lia. Qed.

Lemma holds_mono s0 T T' name s m p : T <= T' -> holds s0 T name s m p -> holds s0 T' name s m p.
Proof.
  intros HT [H1 H2 H3 H4]. constructor; [done|..].
  - intros key v t Ht. apply H2. lia.
  - intros key v t x Ht Hc Ha Hx Hk. eapply good_mono; [done|]. eapply H3; eauto; lia.
  - intros key v t Ht. apply H4. lia.
Qed.

Lemma node_ok_mono s0 s1 T T' name nd : T <= T' -> node_ok s0 s1 T name nd -> node_ok s0 s1 T' name nd.
Proof.
  intros HT (Hn & Hp & Hd & m & p & Ht & Hi & Hm & Hh). split_and!; [done|done| |].
  - intros k d key it Hk Hit. specialize (Hd _ _ _ _ Hk Hit). lia.
  - exists m, p. split_and!; try done. by eapply holds_mono.
Qed.

Lemma node_ok_inv name nd m p :
  nodeName (srv nd) = name -> threads nd = [Stopped; p] -> phase_inv n (Some m) (srv nd) p ->
  node_inv n name (Some m) nd.
Proof.
  intros Hname Ht Hp. split; [done|]. exists 1%nat, p. rewrite Ht. split; [done|]. split; [|done].
  intros t' p' Hq Hne. destruct t' as [|[|t']]; cbn in Hq; simplify_eq. done.
Qed.

(** The state of the listen loop when the invariant of the node holds. *)
Lemma node_inv_loop name m nd p :
  node_inv n name (Some m) nd -> threads nd = [Stopped; p] -> phase_inv n (Some m) (srv nd) p.
Proof.
  intros (Hname & t & q & Hq & Hone & Hp) Ht. rewrite Ht in Hq, Hone.
  destruct t as [|[|t]]; cbn in Hq; simplify_eq; [|done].
  assert (active p = false) as Ha by (by apply (Hone 1%nat)).
  apply inactive_phase in Ha as (Hr & Hpd & Hv). destruct Hp as [H1 H2 H3 H4 H5].
  constructor; rewrite ?Hr, ?Hpd, ?Hv; [done|done|set_solver|set_solver|]. by intros v ?%elem_of_nil.
Qed.

Lemma dated_mono_step T s s' :
  dated T s -> (forall k d key it, availableShards s' !! k = Some d -> d !! key = Some it ->
    time_elapsed it <= T \/ exists k0 d0, availableShards s !! k0 = Some d0 /\ d0 !! key = Some it) -> dated T s'.
Proof. intros Hd Hs k d key it Hk Hit. destruct (Hs _ _ _ _ Hk Hit) as [?|(k0 & d0 & H1 & H2)]; eauto. Qed.

Lemma dated_step T nd a nd' :
  dated T (srv nd) -> step nd a = Ret nd' ->
  match a with Request _ (OTick _ _) => True | Request _ _ => False | Store _ _ now => now <= T | _ => True end ->
  dated T (srv nd').
Proof.
  intros Hd H Ha. destruct a as [| | |t k now| | |k [| |now sh]|]; cbn in H; repeat case_match; try done; go_inv; try done.
  - eapply dated_mono_step; [exact Hd|]. intros j d key it Hj Hit. cbn in Hj. rewrite update_begin_lookup in Hj.
    case_decide; [by simplify_eq|]. right. eauto.
  - unfold store_value in *. go_inv. case_match; [|done]. go_inv. eapply dated_mono_step; [exact Hd|].
    intros j d key it Hj Hit. cbn in Hj. apply lookup_insert_Some in Hj as [[<- <-]|[_ Hj]]; [|right; eauto].
    apply lookup_insert_Some in Hit as [[<- <-]|[_ Hit]]; [by left|right; eauto].
  - unfold update_remove in *. cbn in *. case_match; [|done]. go_inv. eapply dated_mono_step; [exact Hd|].
    intros j d key it Hj Hit. cbn in Hj. apply lookup_delete_Some in Hj as [_ Hj]. right. eauto.
  - unfold exec1 in *. go_inv. eapply dated_mono_step; [exact Hd|].
    intros j d key it Hj Hit. cbn in Hj. apply lookup_alter_Some in Hj as [(<- & d0 & Hj & ->)|[_ Hj]]; [|right; eauto].
    unfold sweep in Hit. apply map_lookup_filter_Some in Hit as [Hit _]. right. eauto.
Qed.

Section Round.
Context (s0 s1 : ShardMapState).
Context (Hn : 1 <= n < 2 ^ 31) (Hc0 : NumShards s0 = n) (Hc1 : NumShards s1 = n).
Context (Hv0 : valid_assignment s0) (Hv1 : valid_assignment s1) (Hgentle : gentle s0 s1).

Lemma assigned0 name k : assigned s0 name k <-> name ∈ NodesForShard s0 k.
Proof using Hn Hc0 Hv0. apply assigned_nodes; [done|lia]. Qed.
Lemma assigned1 name k : assigned s1 name k <-> name ∈ NodesForShard s1 k.
Proof using Hn Hc1 Hv1. apply assigned_nodes; [done|lia]. Qed.

(** A node whose listen loop is idle hosts exactly its shards. *)
Lemma idle_hosts m s k :
  phase_inv n (Some m) s Idle -> is_Some (availableShards s !! k) <-> assigned m (nodeName s) k.
Proof.
  intros Hp. pose proof (inv_hosted _ _ _ _ Hp k) as H. cbn in H. split.
  - intros Hs. destruct (proj1 H) as (sm & [= <-] & ?); [set_solver|done].
  - intros Ha. apply H. by exists m.
Qed.

Lemma serves_begin s t key :
  shard_of key n ∉ shardsToBeAdded s s1 -> serves (update_begin s s1) n t key = serves s n t key.
Proof. intros Hk. unfold serves. rewrite update_begin_lookup. by rewrite decide_False. Qed.

Lemma holds_begin T name s m :
  nodeName s = name -> (m = s1 \/ m = s0) -> phase_inv n (Some m) s Idle -> holds s0 T name s m Idle ->
  holds s0 T name (update_begin s s1) s1 (begin_update s s1 (fun _ => s1)).
Proof.
  intros Hname Hm Hp [_ Hold _ Hall].
  assert (forall k, k ∈ shardsToBeAdded s s1 -> ~ assigned s0 name k) as Hnew.
  { intros k [Hk1 Hk2]%added_spec Hk0. fold (assigned s1 (nodeName s) k) in Hk2.
    destruct (proj2 (idle_hosts m s k Hp)) as [? ?]; [|congruence]. subst name. by destruct Hm as [->| ->]. }
  assert (values_of (begin_update s s1 (fun _ => s1)) = []) as Hval by (unfold begin_update; by case_decide).
  assert (pending_of (begin_update s s1 (fun _ => s1)) = shardsToBeAdded s s1) as Hpend.
  { unfold begin_update. case_decide; [done|]. done. }
  assert (forall key v t, T <= t -> content key t = Some v -> shard_of key n ∉ shardsToBeAdded s s1 ->
    assigned s1 name (shard_of key n) -> serves (update_begin s s1) n t key = Some v) as Hkept.
  { intros key v t Ht Hc Hk Ha. rewrite serves_begin by done. rewrite added_spec in Hk.
    assert (is_Some (availableShards s !! shard_of key n)) as Hs.
    { subst name. destruct (availableShards s !! shard_of key n); [by eexists|]. by destruct Hk. }
    apply (idle_hosts m s _ Hp) in Hs. rewrite Hname in Hs.
    destruct (Hall key v t Ht Hc Hs) as [?|[(x & Hx & _)|Hx]]; [done|by apply elem_of_nil in Hx|set_solver]. }
  constructor; rewrite ?Hval, ?Hpend; [done|..].
  - intros key v t Ht Hc H1 H0. apply (Hkept key v t); try done. intros Hk. by apply (Hnew _ Hk).
  - intros key v t x _ _ _ Hx. by apply elem_of_nil in Hx.
  - intros key v t Ht Hc Ha. destruct (decide (shard_of key n ∈ shardsToBeAdded s s1)); [by right; right|left; by eapply Hkept].
Qed.

(** Storing a copied value. *)
Lemma serves_store s x w s' t key :
  store_value n s (x, w) = Ret s' ->
  serves s' n t key = if decide (key = sv_Key x)
    then if Milliseconds (t - w) <? TtlMsRemaining x then Some (sv_Value x) else None
    else serves s n t key.
Proof using Hn.
  clear -Hn. intros H. case_decide as Hk; [rewrite Hk; by apply (store_value_serves n s x w); [lia|]|].
  unfold store_value in H. rewrite GetShardForKey_Ret in H by lia. cbn in H. fold (shard_of (sv_Key x) n) in H.
  destruct (availableShards s !! shard_of (sv_Key x) n) as [d|] eqn:Ed; [|done]. go_inv.
  eapply serves_update; [done|]. intros _. by rewrite lookup_insert_ne.
Qed.

Lemma holds_store T name s m x vs removed s' :
  holds s0 T name s m (Storing (x :: vs) removed) -> store_value n s (x, T) = Ret s' ->
  holds s0 T name s' m (Storing vs removed).
Proof using Hn.
  intros [H1 H2 H3 H4] Hs. pose proof (serves_store s x T s') as Hserve.
  assert (forall key v t, T <= t -> content key t = Some v -> assigned m name (shard_of key n) ->
    key = sv_Key x -> serves s' n t key = Some v) as Hx.
  { intros key v t Ht Hc Ha Hk. rewrite Hserve by done. rewrite decide_True by done.
    destruct (H3 key v t x Ht Hc Ha) as [Hv Hl]; [left|done|]. specialize (Hl T ltac:(lia)).
    destruct (Z.ltb_spec (Milliseconds (t - T)) (TtlMsRemaining x)); [by rewrite Hv|lia]. }
  constructor; cbn in *; [done|..].
  - intros key v t Ht Hc Ha H0. destruct (decide (key = sv_Key x)); [by eapply Hx|].
    rewrite Hserve by done. rewrite decide_False by done. by apply H2.
  - intros key v t y Ht Hc Ha Hy Hk. eapply H3; eauto. by right.
  - intros key v t Ht Hc Ha. destruct (decide (key = sv_Key x)) as [->|Hne]; [left; by eapply Hx|].
    destruct (H4 key v t Ht Hc Ha) as [Hs'|[(y & [->|Hy]%elem_of_cons & Hk)|Hy]]; [|done|right; left; eauto|auto].
    left. rewrite Hserve by done. by rewrite decide_False.
Qed.

(** What is assigned is served as before. *)
Lemma holds_serves T name s s' m p p' :
  holds s0 T name s m p ->
  (forall t key, T <= t -> assigned m name (shard_of key n) -> serves s' n t key = serves s n t key) ->
  pending_of p' = pending_of p -> values_of p' = values_of p -> holds s0 T name s' m p'.
Proof.
  intros [H1 H2 H3 H4] Hs Hp Hv. constructor; rewrite ?Hp, ?Hv; [done|..|done|].
  - intros key v t Ht Hc Ha H0. rewrite Hs by done. by apply H2.
  - intros key v t Ht Hc Ha. rewrite Hs by done. by apply H4.
Qed.

(** ** Fetching from a peer *)

(** What [GetShardContents] says about an item: it is served at [t], so it was
    not expired when the clock was read, and what remains lasts until [t]. *)
Lemma contents_item it (c1 c2 T' t : Z) :
  time_elapsed it <= c1 -> c1 <= c2 <= T' -> T' <= t -> expired t it = false ->
  Milliseconds (c1 - time_elapsed it) < ttl it
  /\ forall w, T' <= w <= t -> Milliseconds (t - w) < ttl it - Milliseconds (c2 - time_elapsed it).
Proof.
  intros H0 H1 H2 He%Z.leb_gt. unfold Milliseconds in *. rewrite Z.quot_div_nonneg in * by lia. split.
  - eapply Z.le_lt_trans; [|exact He]. apply Z.div_le_mono; lia.
  - intros w Hw. rewrite !Z.quot_div_nonneg by lia.
    set (a := t - w) in *. set (b := c2 - time_elapsed it) in *.
    pose proof (Z.div_mod a 1000000). pose proof (Z.mod_pos_bound a 1000000).
    pose proof (Z.div_mod b 1000000). pose proof (Z.mod_pos_bound b 1000000).
    assert (a + b <= t - time_elapsed it) by lia.
    assert (a / 1000000 + b / 1000000 <= (t - time_elapsed it) / 1000000); [|lia].
    apply Z.div_le_lower_bound; lia.
Qed.

Lemma serves_item s t key v :
  serves s n t key = Some v ->
  exists d it, availableShards s !! shard_of key n = Some d /\ d !! key = Some it
    /\ value it = v /\ expired t it = false.
Proof.
  unfold serves. destruct (availableShards s !! shard_of key n) as [d|]; [|done]. cbn.
  destruct (d !! key) as [it|] eqn:E; [|done]. cbn. destruct (expired t it) eqn:Ex; [done|].
  intros [= <-]. by exists d, it.
Qed.

(** The answer of a host that serves the content of [shard]. *)
Lemma contents_good T T' s clock shard vs :
  placed n s -> dated T s -> int32 shard = shard ->
  (forall key, T <= (clock key).1 /\ (clock key).1 <= (clock key).2 <= T') ->
  (forall key v t, T <= t -> content key t = Some v -> shard_of key n = shard -> serves s n t key = Some v) ->
  GetShardContents s clock shard = Ret (vs, None) ->
  (forall x, x ∈ vs -> shard_of (sv_Key x) n = shard)
  /\ (forall key v t x, T' <= t -> content key t = Some v -> x ∈ vs -> sv_Key x = key -> good T' x v t)
  /\ (forall key v t, T' <= t -> content key t = Some v -> shard_of key n = shard -> exists x, x ∈ vs /\ sv_Key x = key).
Proof.
  intros Hp Hd Hi Hclock Hserve Hg. unfold GetShardContents in Hg. rewrite Hi in Hg.
  destruct (availableShards s !! shard) as [d|] eqn:Ed; [|done]. injection Hg as <-.
  assert (forall x, x ∈ omap (fun '(key, it) =>
      if Milliseconds ((clock key).1 - time_elapsed it) <? ttl it
      then Some (mkShardValue key (value it) (ttl it - Milliseconds ((clock key).2 - time_elapsed it))) else None)
      (map_to_list d) ->
    exists it, d !! sv_Key x = Some it /\ sv_Value x = value it
      /\ TtlMsRemaining x = ttl it - Milliseconds ((clock (sv_Key x)).2 - time_elapsed it)) as Hin.
  { intros x ([key it] & Hk%elem_of_map_to_list & Hx)%list_elem_of_omap. case_match; [|done].
    injection Hx as <-. by exists it. }
  assert (forall key it, d !! key = Some it -> shard_of key n = shard) as Hkey
    by (intros key it Hit; symmetry; by eapply Hp).
  assert (forall key v t, T' <= t -> content key t = Some v -> shard_of key n = shard ->
    exists it, d !! key = Some it /\ value it = v /\ expired t it = false /\ time_elapsed it <= T) as Hitem.
  { intros key v t Ht Hc Hk. pose proof (Hclock key). destruct (serves_item s t key v) as (d' & it & Hd' & Hit & Hv & He).
    { apply Hserve; [lia|done|done]. }
    rewrite Hk, Ed in Hd'. injection Hd' as <-. exists it. split_and!; try done. by eapply Hd. }
  split_and!.
  - intros x (it & Hit & _)%Hin. by eapply Hkey.
  - intros key v t x Ht Hc (it & Hit & Hv & Hr)%Hin <-.
    destruct (Hitem (sv_Key x) v t Ht Hc) as (it' & Hit' & Hv' & He & Hle); [by eapply Hkey|].
    assert (it' = it) as -> by congruence. pose proof (Hclock (sv_Key x)).
    destruct (contents_item it (clock (sv_Key x)).1 (clock (sv_Key x)).2 T' t) as [_ Hl]; [lia|lia|lia|done|].
    split; [congruence|]. rewrite Hr. exact Hl.
  - intros key v t Ht Hc Hk. destruct (Hitem key v t Ht Hc Hk) as (it & Hit & Hv & He & Hle). pose proof (Hclock key).
    destruct (contents_item it (clock key).1 (clock key).2 T' t) as [Hlt _]; [lia|lia|lia|done|].
    exists (mkShardValue key (value it) (ttl it - Milliseconds ((clock key).2 - time_elapsed it))). split; [|done].
    apply list_elem_of_omap. exists (key, it). rewrite elem_of_map_to_list. split; [done|].
    by destruct (Z.ltb_spec (Milliseconds ((clock key).1 - time_elapsed it)) (ttl it)); [|lia].
Qed.

(** A host of a shard under both maps answers with its content, once its lock
    is free. *)
Lemma old_host_answers cl clock T' shard peer :
  moving s0 s1 cl -> timely cl (CFetch peer shard 0 clock T') ->
  peer ∈ NodesForShard s0 shard -> peer ∈ NodesForShard s1 shard ->
  peer_contents cl clock shard peer = Block
  \/ exists vs, peer_contents cl clock shard peer = Ret (Some vs)
    /\ (forall x, x ∈ vs -> shard_of (sv_Key x) n = shard)
    /\ (forall key v t x, T' <= t -> content key t = Some v -> x ∈ vs -> sv_Key x = key -> good T' x v t)
    /\ (forall key v t, T' <= t -> content key t = Some v -> shard_of key n = shard -> exists x, x ∈ vs /\ sv_Key x = key).
Proof using Hn Hc0 Hc1 Hv0 Hv1 Hgentle.
  intros [Hmap Hnodes Hok] Hclock H0 H1. unfold peer_contents.
  assert (1 <= shard <= n) as Hr by (rewrite <- Hc1; by eapply hosted_range).
  assert (int32 shard = shard) as Hi by (apply int32_id; lia).
  destruct (Hnodes peer) as [nd Hnd]; [by apply (valid_nodes s1 shard Hv1)|]. rewrite Hnd.
  destruct (lock_free nd); [right|by left].
  destruct (Hok _ _ Hnd) as (Hname & Hp & Hd & m & p & Ht & Hi' & Hm & Hh).
  assert (assigned m peer shard) as Ha.
  { destruct Hm as [[-> _]|[-> _]]; [by apply assigned1|by apply assigned0]. }
  destruct (proj2 (inv_hosted _ _ _ _ Hi' shard)) as [[d Hd'] _]; [exists m; by rewrite Hname|].
  destruct (GetShardContents (srv nd) clock shard) as [[vs e]| |] eqn:Eg; unfold GetShardContents in Eg; rewrite Hi, Hd' in Eg;
    try discriminate Eg. assert (e = None) as -> by congruence. cbn. exists vs. split; [done|].
  apply (contents_good (cl_now cl) T' (srv nd) clock shard vs); try done.
  - intros key v t Hle Hc Hk. apply (h_old _ _ _ _ _ _ Hh); rewrite ?Hk; [done|done|done|by apply assigned0].
  - unfold GetShardContents. by rewrite Hi, Hd'.
Qed.

(** What a new host fetches is the content of the shard. *)
Lemma fetch_answers cl name nd pending resps removed shard start clock T' :
  moving s0 s1 cl -> timely cl (CFetch name shard start clock T') ->
  cl_nodes cl !! name = Some nd -> node_ok s0 s1 (cl_now cl) name nd ->
  threads nd = [Stopped; Retrieving pending resps removed] -> shard ∈ pending ->
  retrieveShardData (srv nd) (fun _ => s1) start (peer_contents cl clock shard) shard = Block
  \/ exists vs, retrieveShardData (srv nd) (fun _ => s1) start (peer_contents cl clock shard) shard = Ret vs
    /\ (forall x, x ∈ vs -> shard_of (sv_Key x) n = shard)
    /\ (forall key v t x, T' <= t -> content key t = Some v -> x ∈ vs -> sv_Key x = key -> good T' x v t)
    /\ (forall key v t, T' <= t -> content key t = Some v -> shard_of key n = shard -> exists x, x ∈ vs /\ sv_Key x = key).
Proof using Hn Hc0 Hc1 Hv0 Hv1 Hgentle.
  intros Hmv Hclock Hnd (Hname & _ & _ & m & p & Ht & Hi & Hm & Hh) Ht' Hs.
  assert (p = Retrieving pending resps removed) as -> by congruence.
  destruct Hm as [[-> _]|[_ ?]]; [|done].
  assert (name ∈ NodesForShard s1 shard) as H1.
  { destruct (inv_pending _ _ _ _ Hi shard Hs) as (sm & [= <-] & Ha). rewrite Hname in Ha. by apply assigned1. }
  assert (name ∉ NodesForShard s0 shard) as H0.
  { rewrite <- assigned0. by apply (h_new _ _ _ _ _ _ Hh). }
  destruct (Hgentle shard name H1 H0) as [(old & Hold & Hne) Hothers].
  assert (forall peer, peer ∈ NodesForShard s1 shard -> peer <> name -> _) as Hans
    by (intros peer Hp Hpn; exact (old_host_answers cl clock T' shard peer Hmv Hclock (Hothers _ Hp Hpn) Hp)).
  destruct (retrieve_asks_every_host (srv nd) s1 start (peer_contents cl clock shard) shard)
    as [[? _]|(r & Hr & Hor)].
  - intros E. rewrite E in H1. by apply elem_of_nil in H1.
  - intros peer Hp Hpn. rewrite Hname in Hpn. by destruct (Hans peer Hp Hpn) as [->|(vs & -> & _)].
  - by left.
  - right. exists r. split; [done|]. rewrite Hname in Hor. destruct Hor as [(peer & Hp & Hpn & Hf)|[_ Hnone]].
    + destruct (Hans peer Hp Hpn) as [E|(vs & E & Hvs)]; rewrite E in Hf; simplify_eq. done.
    + specialize (Hnone old Hold Hne). destruct (Hans old Hold Hne) as [E|(vs & E & _)]; by rewrite E in Hnone.
Qed.

(** ** Steps *)

Lemma node_ok_step T name nd na nd' m p :
  node_ok s0 s1 T name nd -> same_count n na -> step nd na = Ret nd' ->
  match na with Request _ (OTick _ _) => True | Request _ _ => False | Store _ _ now => now <= T | _ => True end ->
  node_inv n name (Some m) nd' -> threads nd' = [Stopped; p] -> (m = s1 /\ p <> Stopped \/ m = s0 /\ p = Idle) ->
  holds s0 T name (srv nd') m p -> node_ok s0 s1 T name nd'.
Proof using Hn Hc0 Hc1 Hv0 Hv1 Hgentle.
  intros (_ & Hp & Hd & _) Hc Hs Ha Hi Ht Hm Hh. split_and!; [by destruct Hi| | |].
  - eapply placed_step; [lia|exact Hp|exact Hc|exact Hs].
  - by eapply dated_step.
  - exists m, p. split_and!; [done|by eapply node_inv_loop|done|done].
Qed.

Lemma begin_ok T name nd :
  node_ok s0 s1 T name nd ->
  step nd (Begin 1 s1 (fun _ => s1)) = Block
  \/ exists nd', step nd (Begin 1 s1 (fun _ => s1)) = Ret nd' /\ node_ok s0 s1 T name nd'.
Proof using Hn Hc0 Hc1 Hv0 Hv1 Hgentle.
  intros Hok. pose proof Hok as (Hname & Hp & Hd & m & p & Ht & Hi & Hm & Hh).
  destruct (step nd (Begin 1 s1 (fun _ => s1))) as [nd'| |] eqn:E; [right| |by left];
    [|cbn in E; rewrite Ht in E; cbn in E; destruct p; try done; by destruct (lock_free nd)].
  exists nd'. split; [done|]. pose proof E as E'. cbn in E'. rewrite Ht in E'. cbn in E'.
  destruct p; try done. destruct (lock_free nd); [|done]. apply Ret_inj in E' as <-.
  refine (node_ok_step T name nd _ _ s1 (begin_update (srv nd) s1 (fun _ => s1)) Hok _ E _ _ _ _ _).
  - exact Hc1.
  - done.
  - destruct (calm_safe n name (Some m) nd (Begin 1 s1 (fun _ => s1))) as [Eb|(x & Ex & Hx)]; [lia|..].
    + by eapply node_ok_inv.
    + split; [done|]. split; [done|]. split; [done|]. unfold quiescent. rewrite Ht. by repeat constructor.
    + by rewrite E in Eb.
    + rewrite E in Ex. by apply Ret_inj in Ex as ->.
  - cbn. by rewrite Ht.
  - left. split; [done|]. unfold begin_update. by case_decide.
  - cbn. apply (holds_begin T name (srv nd) m); [done|destruct Hm as [[? _]|[? _]]; auto|done|done].
Qed.

Lemma fetch_ok cl name nd shard start clock T' :
  moving s0 s1 cl -> timely cl (CFetch name shard start clock T') -> cl_nodes cl !! name = Some nd ->
  let na := Fetch 1 shard (fun _ => s1) start (peer_contents cl clock shard) in
  step nd na = Block \/ exists nd', step nd na = Ret nd' /\ node_ok s0 s1 T' name nd'.
Proof using Hn Hc0 Hc1 Hv0 Hv1 Hgentle.
  intros Hmv Hclock Hnd. pose proof (mv_ok _ _ _ Hmv _ _ Hnd) as Hok.
  assert (cl_now cl <= T') as HT by (specialize (Hclock ""%string); lia).
  pose proof Hok as (Hname & Hp & Hd & m & p & Ht & Hi & Hm & Hh). intros na.
  unfold na. cbn [step]. rewrite Ht. cbn [lookup list_lookup].
  destruct p as [|pending resps removed| |]; try by left. case_decide as Hs; [|by left].
  destruct (fetch_answers cl name nd pending resps removed shard start clock T' Hmv Hclock Hnd Hok Ht Hs)
    as [->|(r & -> & Hin & Hgood & Hall)]; [by left|right]. cbn [mbind go_bind]. eexists. split; [done|].
  apply (node_ok_mono _ _ _ T') in Hok as (_ & _ & Hd' & _); [|done].
  apply (holds_mono _ _ T') in Hh as [H1 H2 H3 H4]; [|done].
  destruct Hm as [[-> _]|[_ ?]]; [|done]. split_and!; [done|done|done|].
  exists s1, (Retrieving (pending ∖ {[shard]}) (resps ++ [r]) removed). split; [cbn; by rewrite Ht|].
  assert (forall x, x ∈ concat (resps ++ [r]) <-> x ∈ concat resps \/ x ∈ r) as Hcat.
  { intros x. rewrite concat_app, elem_of_app. cbn. by rewrite app_nil_r. }
  split; [|split; [left; by split|]].
  - eapply phase_inv_shrink; [exact Hi|done|cbn; set_solver|]. intros x [Hx|Hx]%Hcat; [by left|right].
    rewrite (Hin x Hx). by apply (inv_pending _ _ _ _ Hi).
  - constructor; cbn in *.
    + intros k Hk. apply H1. set_solver.
    + done.
    + intros key v t x Ht' Hc Ha [Hx|Hx]%Hcat Hk; [by eapply H3|by eapply Hgood].
    + intros key v t Ht' Hc Ha. destruct (H4 key v t Ht' Hc Ha) as [?|[(x & Hx & Hk)|Hk]]; [by left| |].
      * right. left. exists x. rewrite Hcat. auto.
      * right. destruct (decide (shard_of key n = shard)) as [Hsh|]; [left|right; set_solver].
        destruct (Hall key v t Ht' Hc Hsh) as (x & Hx & Hxk). exists x. rewrite Hcat. auto.
Qed.

Lemma serves_remove s shard s' t key :
  update_remove s [shard] = Ret s' -> shard_of key n <> shard -> serves s' n t key = serves s n t key.
Proof.
  unfold update_remove. cbn. intros H Hne. case_match; [|done]. injection H as <-. unfold serves. cbn.
  by rewrite lookup_delete_ne.
Qed.

(** The rest of an update, and the sweeper. *)
Definition local_step (T : Z) (na : action) : Prop :=
  match na with
  | Relock 1 | Remove 1 _ | Finish 1 => True
  | Store 1 k now => k = n /\ now = T
  | Request k (OTick now _) => k = n /\ now = T
  | _ => False
  end.

Lemma local_threads na T nd nd' p :
  local_step T na -> threads nd = [Stopped; p] -> step nd na = Ret nd' ->
  exists p', threads nd' = [Stopped; p'] /\ (p <> Stopped -> p' <> Stopped).
Proof.
  intros Hl Ht E. destruct na as [| |[|[|]]|[|[|]]|[|[|]]|[|[|]]|k []|]; try done; cbn in E; rewrite ?Ht in E; cbn in E;
    repeat case_match; try done; go_inv; cbn; rewrite ?Ht; cbn; eauto.
Qed.

Lemma local_holds T name nd na nd' m p p' :
  local_step T na -> nodeName (srv nd) = name -> threads nd = [Stopped; p] -> phase_inv n (Some m) (srv nd) p ->
  holds s0 T name (srv nd) m p -> step nd na = Ret nd' -> threads nd' = [Stopped; p'] -> holds s0 T name (srv nd') m p'.
Proof using Hn Hc0 Hc1 Hv0 Hv1 Hgentle.
  intros Hl Hname Ht Hi Hh E Ht'.
  destruct na as [| |[|[|]]|[|[|]] k now|[|[|]] shard|[|[|]]|k [| |now sh]|]; try done; cbn [step] in E;
    rewrite ?Ht in E; cbn [lookup list_lookup] in E.
  - destruct p as [|pending resps removed| |]; try done. case_decide as He; [|done]. destruct (lock_free nd); [|done].
    apply Ret_inj in E as <-. cbn in Ht'. rewrite Ht in Ht'. injection Ht' as <-.
    eapply holds_serves; [exact Hh|done|cbn; set_solver|done].
  - destruct Hl as [-> ->]. destruct p as [| |[|x vs] removed|]; try done.
    apply bind_Ret in E as (s' & Es & E). apply Ret_inj in E as <-. cbn in Ht'. rewrite Ht in Ht'. injection Ht' as <-.
    by eapply holds_store.
  - destruct p as [| |[|x vs] removed|]; try done. case_decide as Hs; [|done].
    apply bind_Ret in E as (s' & Es & E). apply Ret_inj in E as <-. cbn in Ht'. rewrite Ht in Ht'. injection Ht' as <-.
    eapply holds_serves; [exact Hh| |done|done]. intros t key _ Ha. eapply serves_remove; [exact Es|]. intros Hk.
    rewrite Hk, <- Hname in Ha. destruct (proj2 (inv_hosted _ _ _ _ Hi shard)) as [_ Hr]; [by exists m|]. by apply Hr.
  - destruct p as [| |[|x vs] removed|]; try done. case_decide as Hs; [|done].
    apply Ret_inj in E as <-. cbn in Ht'. rewrite Ht in Ht'. injection Ht' as <-.
    by eapply holds_serves.
  - destruct Hl as [-> ->]. cbn in E. unfold exec1 in E. cbn in E. apply Ret_inj in E as <-. cbn in Ht'. rewrite ?Ht in Ht'.
    injection Ht' as <-. eapply holds_serves; [exact Hh| |done|done]. intros t key Hle _. by apply ttl_tick_serves.
Qed.

Lemma local_ok T name nd na :
  node_ok s0 s1 T name nd -> local_step T na ->
  step nd na = Block \/ exists nd', step nd na = Ret nd' /\ node_ok s0 s1 T name nd'.
Proof using Hn Hc0 Hc1 Hv0 Hv1 Hgentle.
  intros Hok Hl. pose proof Hok as (Hname & Hp & Hd & m & p & Ht & Hi & Hm & Hh).
  assert (calm n (Some m) nd na) as Hcalm by (destruct na as [| |[|[|]]|[|[|]]|[|[|]]|[|[|]]|k []|]; try done; apply Hl).
  assert (next_map na (Some m) = Some m) as Hnext by (by destruct na).
  destruct (calm_safe n name (Some m) nd na) as [?|(nd' & E & Hinv)]; [lia|by eapply node_ok_inv|done|by left|right].
  rewrite Hnext in Hinv. exists nd'. split; [done|]. destruct (local_threads na T nd nd' p Hl Ht E) as (p' & Ht' & Hlive).
  refine (node_ok_step T name nd na nd' m p' Hok _ E _ Hinv Ht' _ _).
  - destruct na as [| |[|[|]]|[|[|]]|[|[|]]|[|[|]]|k []|]; try done; apply Hl.
  - destruct na as [| |[|[|]]|[|[|]]|[|[|]]|[|[|]]|k []|]; try done. cbn in Hl. lia.
  - destruct Hm as [[? ?]|[-> ->]]; [left; auto|right]. split; [done|].
    destruct na as [| |[|[|]]|[|[|]]|[|[|]]|[|[|]]|k []|]; try done; cbn in E; rewrite ?Ht in E; cbn in E; try done.
    unfold exec1 in E. cbn in E. apply Ret_inj in E as <-. cbn in Ht'. congruence.
  - by eapply local_holds.
Qed.

Lemma moving_insert cl name nd nd' t :
  moving s0 s1 cl -> cl_now cl <= t -> cl_nodes cl !! name = Some nd -> node_ok s0 s1 t name nd' ->
  moving s0 s1 (mkCluster t (cl_map cl) (<[name := nd']> (cl_nodes cl))).
Proof.
  intros [H1 H2 H3] Ht Hnd Hok. constructor; cbn; [done|..].
  - intros k Hk. destruct (decide (k = name)) as [->|]; [by rewrite lookup_insert_eq|].
    rewrite lookup_insert_ne by done. by apply H2.
  - intros k x [[<- <-]|[_ Hx]]%lookup_insert_Some; [done|]. eapply node_ok_mono; [exact Ht|]. by apply H3.
Qed.

(** No step of a round panics, and every step keeps the content. *)
Lemma moving_step cl a :
  moving s0 s1 cl -> timely cl a ->
  cluster_step cl a = Block \/ exists cl', cluster_step cl a = Ret cl' /\ moving s0 s1 cl'.
Proof using Hn Hc0 Hc1 Hv0 Hv1 Hgentle.
  intros Hmv Ht. pose proof (mv_map _ _ _ Hmv) as Hmap. unfold cluster_step.
  assert (forall name na t, cl_now cl <= t ->
    (forall nd, cl_nodes cl !! name = Some nd ->
      step nd na = Block \/ exists nd', step nd na = Ret nd' /\ node_ok s0 s1 t name nd') ->
    let r := match cl_nodes cl !! name with
      | None => Block
      | Some nd => let! nd' := step nd na in Ret (mkCluster t (cl_map cl) (<[name := nd']> (cl_nodes cl)))
      end in r = Block \/ exists cl', r = Ret cl' /\ moving s0 s1 cl') as Hact.
  { intros name na t Hle Hst r. unfold r. destruct (cl_nodes cl !! name) as [nd|] eqn:Hnd; [|by left].
    destruct (Hst nd eq_refl) as [->|(nd' & -> & Hok)]; [by left|right]. eexists. split; [done|]. by eapply moving_insert. }
  destruct a as [name|name shard start clock t|name|name|name shard|name|name shard|t]; cbn [node_action];
    try rewrite Hmap; try rewrite Hmap in Hact; try apply Hact; try lia;
    try (intros nd Hnd; pose proof (mv_ok _ _ _ Hmv _ _ Hnd); by (apply begin_ok || (apply local_ok; cbn))).
  - specialize (Ht ""%string). lia.
  - intros nd Hnd. by apply fetch_ok with (start := start).
  - right. eexists. split; [done|]. destruct Hmv as [H1 H2 H3]. constructor; cbn; [done|done|].
    intros k x Hx. eapply node_ok_mono; [exact Ht|]. by apply H3.
Qed.

Lemma moving_run cl cl' : rtc moves cl cl' -> moving s0 s1 cl -> moving s0 s1 cl'.
Proof using Hn Hc0 Hc1 Hv0 Hv1 Hgentle.
  induction 1 as [|cl mid cl' (a & Ht & Hs) _ IH]; [done|]. intros Hmv. apply IH.
  destruct (moving_step cl a Hmv Ht) as [Hb|(x & Hx & ?)]; [by rewrite Hb in Hs|].
  rewrite Hx in Hs. by apply Ret_inj in Hs as ->.
Qed.

(** The round starts when the map is published. *)
Lemma publish_moving cl :
  ready s0 cl -> (forall name, is_Some (Nodes s1 !! name) -> is_Some (cl_nodes cl !! name)) ->
  moving s0 s1 (publish cl s1).
Proof using Hn Hc0 Hc1 Hv0 Hv1 Hgentle.
  intros [_ _ _ _ Hset Hsrv Hserve] Hnodes. constructor; [done|done|]. cbn. intros name nd Hnd.
  destruct (Hset _ _ Hnd) as [Ht Hhost]. destruct (Hsrv _ _ Hnd) as (Hname & Hp & Hd). split_and!; try done.
  exists s0, Idle. split_and!; [done| |by right|].
  - constructor; cbn.
    + by intros sm [= <-].
    + intros k. rewrite Hname, Hhost. unfold target. split; [intros [Ha _]; by exists s0|].
      intros (sm & [= <-] & Ha). split; [done|]. apply not_elem_of_empty.
    + by intros k ?%elem_of_empty.
    + by intros k ?%elem_of_empty.
    + by intros v ?%elem_of_nil.
  - constructor; cbn.
    + by intros k ?%elem_of_empty.
    + intros key v t Hle Hc Ha _. by apply (Hserve name).
    + by intros key v t x _ _ _ ?%elem_of_nil.
    + intros key v t Hle Hc Ha. left. by apply (Hserve name).
Qed.

(** It ends when every node hosts what the new map says. *)
Lemma moving_settled cl : moving s0 s1 cl -> settled cl s1 -> ready s1 cl.
Proof using Hn Hc0 Hc1 Hv0 Hv1 Hgentle.
  intros Hmv Hset. constructor; try done; try apply Hmv.
  - intros name nd Hnd. by destruct (mv_ok _ _ _ Hmv _ _ Hnd) as (? & ? & ? & _).
  - intros name nd key v t Hnd Hle Hc Ha.
    destruct (mv_ok _ _ _ Hmv _ _ Hnd) as (Hname & _ & _ & m & p & Ht & Hi & Hm & Hh).
    destruct (Hset _ _ Hnd) as [Ht' Hhost]. assert (p = Idle) as -> by congruence.
    assert (assigned m name (shard_of key n)) as Hm'.
    { rewrite <- Hname. apply (idle_hosts m (srv nd) _ Hi), Hhost. exact Ha. }
    destruct (h_all _ _ _ _ _ _ Hh key v t Hle Hc Hm') as [?|[(x & Hx%elem_of_nil & _)|Hx]]; [done|done|].
    by apply elem_of_empty in Hx.
Qed.

(** ** A round comes to an end *)

(** What [name] can bring about alone. *)
Definition reach (cl : cluster) (name : string) (cl' : cluster) : Prop :=
  rtc moves cl cl' /\ moving s0 s1 cl' /\ dom (cl_nodes cl') = dom (cl_nodes cl)
  /\ forall k, k <> name -> cl_nodes cl' !! k = cl_nodes cl !! k.

Lemma reach_trans cl name cl1 cl2 : reach cl name cl1 -> reach cl1 name cl2 -> reach cl name cl2.
Proof.
  intros (H1 & _ & H2 & H3) (H4 & H5 & H6 & H7). split_and!; [by etrans|done|congruence|].
  intros k Hk. rewrite H7 by done. by apply H3.
Qed.

(** An action that does not have to wait. *)
Lemma advance cl a name na t nd :
  moving s0 s1 cl -> timely cl a -> node_action cl a = Some (name, na, t) -> cl_nodes cl !! name = Some nd ->
  step nd na <> Block ->
  exists nd', step nd na = Ret nd'
    /\ reach cl name (mkCluster t (cl_map cl) (<[name := nd']> (cl_nodes cl))).
Proof using Hn Hc0 Hc1 Hv0 Hv1 Hgentle.
  intros Hmv Ht Ha Hnd Hb. pose proof (moving_step cl a Hmv Ht) as Hs. unfold cluster_step in Hs.
  rewrite Ha, Hnd in Hs. destruct (step nd na) as [nd'| |] eqn:E; cbn in Hs; [|by destruct Hs as [?|(? & ? & _)]|done].
  destruct Hs as [?|(cl' & [= <-] & Hmv')]; [done|]. exists nd'. split; [done|]. split_and!; [|done|cbn|cbn].
  - apply rtc_once. exists a. split; [done|]. unfold cluster_step. by rewrite Ha, Hnd, E.
  - rewrite dom_insert_L. apply elem_of_dom_2 in Hnd. set_solver.
  - intros k Hk. by rewrite lookup_insert_ne.
Qed.

Definition caught_up (name : string) (nd : Node) : Prop :=
  threads nd = [Stopped; Idle] /\ forall k, is_Some (availableShards (srv nd) !! k) <-> assigned s1 name k.

(** What a node in the middle of an update is to host. *)
Lemma busy_hosts cl name nd p :
  moving s0 s1 cl -> cl_nodes cl !! name = Some nd -> threads nd = [Stopped; p] -> p <> Idle ->
  phase_inv n (Some s1) (srv nd) p /\ nodeName (srv nd) = name.
Proof.
  intros Hmv Hnd Ht Hp. destruct (mv_ok _ _ _ Hmv _ _ Hnd) as (Hname & _ & _ & m & q & Hq & Hi & Hm & _).
  assert (q = p) as -> by congruence. by destruct Hm as [[-> _]|[_ ?]].
Qed.

Lemma store_value_waits s x : store_value n s x <> Block.
Proof using Hn.
  destruct x as [x w]. unfold store_value. rewrite GetShardForKey_Ret by lia. cbn. by destruct (availableShards s !! _).
Qed.

Lemma store_all cl name nd vs removed :
  moving s0 s1 cl -> cl_nodes cl !! name = Some nd -> threads nd = [Stopped; Storing vs removed] ->
  exists cl' nd', reach cl name cl' /\ cl_nodes cl' !! name = Some nd' /\ threads nd' = [Stopped; Storing [] removed].
Proof using Hn Hc0 Hc1 Hv0 Hv1 Hgentle.
  revert cl nd. induction vs as [|x vs IH]; intros cl nd Hmv Hnd Ht.
  { exists cl, nd. by split_and!. }
  pose proof (mv_map _ _ _ Hmv) as Hmap.
  destruct (advance cl (CStore name) name (Store 1 n (cl_now cl)) (cl_now cl) nd) as (nd' & E & Hr); try done.
  { cbn. by rewrite Hmap, Hc1. }
  { cbn. rewrite Ht. cbn. destruct (store_value n (srv nd) (x, cl_now cl)) eqn:E; try done. by apply store_value_waits in E. }
  cbn in E. rewrite Ht in E. cbn in E. apply bind_Ret in E as (s & Es & [= <-]).
  destruct (IH _ _ (proj1 (proj2 Hr)) (lookup_insert_eq _ _ _)) as (cl2 & nd2 & Hr2 & ?); [cbn; by rewrite Ht|].
  exists cl2, nd2. split; [by eapply reach_trans|done].
Qed.

Lemma remove_all cl name nd removed :
  moving s0 s1 cl -> cl_nodes cl !! name = Some nd -> threads nd = [Stopped; Storing [] removed] ->
  exists cl' nd', reach cl name cl' /\ cl_nodes cl' !! name = Some nd' /\ threads nd' = [Stopped; Storing [] ∅].
Proof using Hn Hc0 Hc1 Hv0 Hv1 Hgentle.
  revert cl nd. induction removed as [removed IH] using (well_founded_induction set_wf); intros cl nd Hmv Hnd Ht.
  destruct (decide (removed = ∅)) as [->|[k Hk]%set_choose_L].
  { exists cl, nd. by split_and!. }
  destruct (busy_hosts cl name nd _ Hmv Hnd Ht) as [Hi _]; [done|].
  destruct (inv_removed _ _ _ _ Hi k Hk) as [d Hd].
  destruct (advance cl (CRemove name k) name (Remove 1 k) (cl_now cl) nd) as (nd' & E & Hr); try done.
  { cbn. rewrite Ht. cbn. rewrite decide_True by done. unfold update_remove. cbn. by rewrite Hd. }
  cbn in E. rewrite Ht in E. cbn in E. rewrite decide_True in E by done. apply bind_Ret in E as (s & Es & [= <-]).
  destruct (IH (removed ∖ {[k]}) ltac:(set_solver) _ _ (proj1 (proj2 Hr)) (lookup_insert_eq _ _ _))
    as (cl2 & nd2 & Hr2 & ?); [cbn; by rewrite Ht|].
  exists cl2, nd2. split; [by eapply reach_trans|done].
Qed.

(** A node that holds its lock releases it, and is then up to date. *)
Lemma finish_storing cl name nd vs removed :
  moving s0 s1 cl -> cl_nodes cl !! name = Some nd -> threads nd = [Stopped; Storing vs removed] ->
  exists cl' nd', reach cl name cl' /\ cl_nodes cl' !! name = Some nd' /\ caught_up name nd'.
Proof using Hn Hc0 Hc1 Hv0 Hv1 Hgentle.
  intros Hmv Hnd Ht. destruct (store_all cl name nd vs removed Hmv Hnd Ht) as (cl1 & nd1 & Hr1 & Hnd1 & Ht1).
  destruct (remove_all cl1 name nd1 removed (proj1 (proj2 Hr1)) Hnd1 Ht1) as (cl2 & nd2 & Hr2 & Hnd2 & Ht2).
  pose proof (proj1 (proj2 Hr2)) as Hmv2. destruct (busy_hosts cl2 name nd2 _ Hmv2 Hnd2 Ht2) as [Hi Hname]; [done|].
  destruct (advance cl2 (CFinish name) name (Finish 1) (cl_now cl2) nd2) as (nd3 & E & Hr3); try done.
  { cbn. by rewrite Ht2. }
  cbn in E. rewrite Ht2 in E. cbn in E. apply Ret_inj in E as <-.
  eexists _, _. split; [by eapply reach_trans; [|eapply reach_trans]|]. split; [apply lookup_insert_eq|].
  split; [cbn; by rewrite Ht2|]. cbn. intros k. pose proof (inv_hosted _ _ _ _ Hi k) as Hk. cbn in Hk. rewrite Hname in Hk. split.
  - intros Hs. destruct (proj1 Hk) as (sm & [= <-] & ?); [|done]. split; [done|apply not_elem_of_empty].
  - intros Ha. apply Hk. by exists s1.
Qed.

Definition quiet (cl : cluster) : Prop := forall name nd, cl_nodes cl !! name = Some nd -> lock_free nd = true.

(** When no node holds its lock, a fetch does not wait. *)
Lemma quiet_peer cl clock shard peer : quiet cl -> peer_contents cl clock shard peer <> Block.
Proof.
  intros Hq. unfold peer_contents. destruct (cl_nodes cl !! peer) as [nd|] eqn:E; [|done].
  rewrite (Hq _ _ E). unfold GetShardContents. by destruct (availableShards (srv nd) !! int32 shard).
Qed.

Lemma reach_quiet cl name nd' T :
  quiet cl -> lock_free nd' = true -> quiet (mkCluster T (cl_map cl) (<[name := nd']> (cl_nodes cl))).
Proof. intros Hq Hl k x Hx. cbn in Hx. apply lookup_insert_Some in Hx as [[_ <-]|[_ Hx]]; [done|by eapply Hq]. Qed.

Lemma fetch_waits cl name nd pending resps removed shard clock T' :
  moving s0 s1 cl -> timely cl (CFetch name shard 0 clock T') -> quiet cl ->
  cl_nodes cl !! name = Some nd -> threads nd = [Stopped; Retrieving pending resps removed] -> shard ∈ pending ->
  retrieveShardData (srv nd) (fun _ => s1) 0 (peer_contents cl clock shard) shard <> Block.
Proof using Hn Hc0 Hc1 Hv0 Hv1 Hgentle.
  intros Hmv Hclock Hq Hnd Ht Hs Hb. destruct (busy_hosts cl name nd _ Hmv Hnd Ht) as [Hi Hname]; [done|].
  destruct (inv_pending _ _ _ _ Hi shard Hs) as (sm & [= <-] & Ha). apply assigned1 in Ha.
  pose proof (mv_ok _ _ _ Hmv _ _ Hnd) as Hok. pose proof Hok as (_ & _ & _ & m & p & Hp & _ & _ & Hh).
  assert (p = Retrieving pending resps removed) as -> by congruence.
  destruct (retrieve_asks_every_host (srv nd) s1 0 (peer_contents cl clock shard) shard)
    as [(_ & peer & _ & _ & Hw)|(r & Hr & _)].
  - intros E. rewrite E in Ha. by apply elem_of_nil in Ha.
  - intros peer Hp1 Hpn. rewrite Hname in Hpn, Ha.
    assert (name ∉ NodesForShard s0 shard) as H0 by (rewrite <- assigned0; by apply (h_new _ _ _ _ _ _ Hh)).
    destruct (Hgentle shard name Ha H0) as [_ Hothers].
    by destruct (old_host_answers cl clock T' shard peer Hmv Hclock (Hothers _ Hp1 Hpn) Hp1) as [->|(vs & -> & _)].
  - by apply (quiet_peer cl clock shard peer Hq).
  - by rewrite Hr in Hb.
Qed.

Lemma fetch_all cl name nd pending resps removed :
  moving s0 s1 cl -> quiet cl -> cl_nodes cl !! name = Some nd ->
  threads nd = [Stopped; Retrieving pending resps removed] ->
  exists cl' nd' resps', reach cl name cl' /\ cl_nodes cl' !! name = Some nd'
    /\ threads nd' = [Stopped; Retrieving ∅ resps' removed].
Proof using Hn Hc0 Hc1 Hv0 Hv1 Hgentle.
  revert cl nd resps. induction pending as [pending IH] using (well_founded_induction set_wf).
  intros cl nd resps Hmv Hq Hnd Ht. destruct (decide (pending = ∅)) as [->|[k Hk]%set_choose_L].
  { exists cl, nd, resps. by split_and!. }
  set (clock := fun _ : string => (cl_now cl, cl_now cl)).
  assert (timely cl (CFetch name k 0 clock (cl_now cl))) as Htm by (intros key; cbn; lia).
  pose proof (mv_map _ _ _ Hmv) as Hmap.
  destruct (advance cl (CFetch name k 0 clock (cl_now cl)) name
    (Fetch 1 k (fun _ => s1) 0 (peer_contents cl clock k)) (cl_now cl) nd) as (nd' & E & Hr); try done.
  { cbn. by rewrite Hmap. }
  { cbn. rewrite Ht. cbn. rewrite decide_True by done.
    pose proof (fetch_waits cl name nd pending resps removed k clock (cl_now cl) Hmv Htm Hq Hnd Ht Hk).
    by destruct (retrieveShardData _ _ _ _ _). }
  cbn in E. rewrite Ht in E. cbn in E. rewrite decide_True in E by done. apply bind_Ret in E as (r & Er & [= <-]).
  destruct (IH (pending ∖ {[k]}) ltac:(set_solver) (mkCluster (cl_now cl) (cl_map cl)
      (<[name := set_thread nd (srv nd) 1 (Retrieving (pending ∖ {[k]}) (resps ++ [r]) removed)]> (cl_nodes cl)))
    (set_thread nd (srv nd) 1 (Retrieving (pending ∖ {[k]}) (resps ++ [r]) removed)) (resps ++ [r]))
    as (cl2 & nd2 & resps2 & Hr2 & ?); [apply Hr| |apply lookup_insert_eq|cbn; by rewrite Ht|].
  { apply reach_quiet; [done|]. unfold lock_free. cbn. by rewrite Ht. }
  exists cl2, nd2, resps2. split; [by eapply reach_trans|done].
Qed.

(** A node that has fetched everything. *)
Lemma catch_up_retrieving cl name nd pending resps removed :
  moving s0 s1 cl -> quiet cl -> cl_nodes cl !! name = Some nd ->
  threads nd = [Stopped; Retrieving pending resps removed] ->
  exists cl' nd', reach cl name cl' /\ cl_nodes cl' !! name = Some nd' /\ caught_up name nd'.
Proof using Hn Hc0 Hc1 Hv0 Hv1 Hgentle.
  intros Hmv Hq Hnd Ht.
  destruct (fetch_all cl name nd pending resps removed Hmv Hq Hnd Ht) as (cl1 & nd1 & resps1 & Hr1 & Hnd1 & Ht1).
  destruct (advance cl1 (CRelock name) name (Relock 1) (cl_now cl1) nd1 (proj1 (proj2 Hr1))) as (nd2 & E & Hr2); try done.
  { cbn. rewrite Ht1. cbn. unfold lock_free. by rewrite Ht1. }
  cbn in E. rewrite Ht1 in E. cbn in E. unfold lock_free in E. rewrite Ht1 in E. apply Ret_inj in E as <-.
  destruct (finish_storing _ name _ (concat resps1) removed (proj1 (proj2 Hr2)) (lookup_insert_eq _ _ _))
    as (cl3 & nd3 & Hr3 & ?); [cbn; by rewrite Ht1|].
  exists cl3, nd3. split; [by eapply reach_trans; [|eapply reach_trans]|done].
Qed.

(** One node after another comes up to date. *)
Lemma catch_up cl name nd :
  moving s0 s1 cl -> quiet cl -> cl_nodes cl !! name = Some nd ->
  exists cl' nd', reach cl name cl' /\ cl_nodes cl' !! name = Some nd' /\ caught_up name nd'.
Proof using Hn Hc0 Hc1 Hv0 Hv1 Hgentle.
  intros Hmv Hq Hnd. destruct (mv_ok _ _ _ Hmv _ _ Hnd) as (_ & _ & _ & m & p & Ht & _ & Hm & _).
  destruct p as [|pending resps removed|vs removed|];
    [|by eapply catch_up_retrieving|by eapply finish_storing|].
  - pose proof (mv_map _ _ _ Hmv) as Hmap.
    destruct (advance cl (CBegin name) name (Begin 1 s1 (fun _ => s1)) (cl_now cl) nd) as (nd1 & E & Hr); try done.
    { cbn. by rewrite Hmap. }
    { cbn. rewrite Ht. cbn. by rewrite (Hq _ _ Hnd). }
    cbn in E. rewrite Ht in E. cbn in E. rewrite (Hq _ _ Hnd) in E. apply Ret_inj in E as <-.
    assert (exists cl' nd', reach (mkCluster (cl_now cl) (cl_map cl)
        (<[name := set_thread nd (update_begin (srv nd) s1) 1 (begin_update (srv nd) s1 (fun _ => s1))]> (cl_nodes cl)))
        name cl' /\ cl_nodes cl' !! name = Some nd' /\ caught_up name nd') as (cl' & nd' & Hr2 & ?).
    { destruct (begin_update (srv nd) s1 (fun _ => s1)) as [|pending resps removed|vs removed|] eqn:Eb;
        try (unfold begin_update in Eb; by case_decide).
      - eapply catch_up_retrieving; [apply Hr| |apply lookup_insert_eq|cbn; by rewrite Ht].
        apply reach_quiet; [done|]. unfold lock_free. cbn. by rewrite Ht.
      - eapply finish_storing; [apply Hr|apply lookup_insert_eq|cbn; by rewrite Ht]. }
    exists cl', nd'. split; [by eapply reach_trans|done].
  - by destruct Hm as [[_ ?]|[_ ?]].
Qed.

Lemma each_node (P : string -> Node -> Prop) (I : cluster -> Prop) :
  (forall cl name nd, moving s0 s1 cl -> I cl -> cl_nodes cl !! name = Some nd ->
    exists cl' nd', reach cl name cl' /\ I cl' /\ cl_nodes cl' !! name = Some nd' /\ P name nd') ->
  forall cl, moving s0 s1 cl -> I cl ->
  exists cl', rtc moves cl cl' /\ moving s0 s1 cl' /\ I cl' /\ forall name nd, cl_nodes cl' !! name = Some nd -> P name nd.
Proof.
  intros Hone cl. assert (forall name nd, cl_nodes cl !! name = Some nd -> name ∈ elements (dom (cl_nodes cl)) \/ P name nd) as Hl.
  { intros name nd ?%elem_of_dom_2. left. by apply elem_of_elements. }
  revert Hl. generalize (elements (dom (cl_nodes cl))) as l. intros l. revert cl.
  induction l as [|x l IH]; intros cl Hl Hmv HI.
  { exists cl. split_and!; try done. intros name nd Hnd. by destruct (Hl _ _ Hnd) as [?%elem_of_nil|?]. }
  destruct (cl_nodes cl !! x) as [nd|] eqn:E.
  - destruct (Hone cl x nd Hmv HI E) as (cl1 & nd1 & Hr & HI1 & Hnd1 & HP). pose proof Hr as (Hm & Hmv1 & _ & Hsame).
    destruct (IH cl1) as (cl2 & ? & ?); [|done|done|exists cl2; split; [by etrans|done]].
    intros name nd' Hnd'. destruct (decide (name = x)) as [->|Hne]; [right; congruence|].
    rewrite Hsame in Hnd' by done. destruct (Hl _ _ Hnd') as [[?|?]%elem_of_cons|?]; auto; done.
  - apply IH; [|done|done]. intros name nd Hnd.
    destruct (Hl _ _ Hnd) as [[->|?]%elem_of_cons|?]; auto. congruence.
Qed.

Lemma caught_up_free name nd : caught_up name nd -> lock_free nd = true.
Proof. intros [Ht _]. unfold lock_free. by rewrite Ht. Qed.

(** From every state of a round the nodes can complete it. *)
Lemma round_ends cl : moving s0 s1 cl -> exists cl', rtc moves cl cl' /\ settled cl' s1.
Proof using Hn Hc0 Hc1 Hv0 Hv1 Hgentle.
  intros Hmv. destruct (each_node (fun _ nd => lock_free nd = true) (fun _ => True)) with (cl := cl)
    as (cl1 & Hr1 & Hmv1 & _ & Hq); [|done|done|].
  { intros c name nd Hc _ Hnd. destruct (mv_ok _ _ _ Hc _ _ Hnd) as (_ & _ & _ & m & p & Ht & _ & Hm & _).
    destruct p as [| |vs removed|];
      try (exists c, nd; split; [by split_and!|]; split_and!; [done|done|unfold lock_free; by rewrite Ht]).
    destruct (finish_storing c name nd vs removed Hc Hnd Ht) as (c' & nd' & ? & ? & ?%caught_up_free). by exists c', nd'. }
  destruct (each_node caught_up quiet) with (cl := cl1) as (cl2 & Hr2 & _ & _ & Hdone); [|done|done|].
  { intros c name nd Hc Hqc Hnd. destruct (catch_up c name nd Hc Hqc Hnd) as (c' & nd' & Hr & Hnd' & Hd).
    exists c', nd'. split_and!; try done. intros k x Hx. destruct (decide (k = name)) as [->|Hne].
    - apply (caught_up_free name). congruence.
    - destruct Hr as (_ & _ & _ & Hsame). rewrite Hsame in Hx by done. by eapply Hqc. }
  exists cl2. split; [by etrans|done].
Qed.
End Round.

(** ** Rounds *)

Lemma gentle_change s0 s1 cl cl' :
  1 <= n < 2 ^ 31 -> ready s0 cl -> gentle s0 s1 -> valid_assignment s1 -> NumShards s1 = n -> Nodes s1 = Nodes s0 ->
  follows cl s1 cl' -> ready s1 cl'.
Proof.
  intros Hn Hr Hg Hv Hc Hnodes [Hrun Hset]. pose proof Hr as [_ Hc0 Hv0 Hk _ _ _].
  eapply moving_settled; [exact Hn|exact Hc0|exact Hc|exact Hv0|exact Hv|exact Hg| |done].
  eapply moving_run; [exact Hn|exact Hc0|exact Hc|exact Hv0|exact Hv|exact Hg|exact Hrun|].
  apply publish_moving; try done. by rewrite Hnodes.
Qed.

Lemma follows_exists s0 s1 cl :
  1 <= n < 2 ^ 31 -> ready s0 cl -> gentle s0 s1 -> valid_assignment s1 -> NumShards s1 = n -> Nodes s1 = Nodes s0 ->
  exists cl', follows cl s1 cl'.
Proof.
  intros Hn Hr Hg Hv Hc Hnodes. pose proof Hr as [_ Hc0 Hv0 Hk _ _ _].
  apply (round_ends s0 s1 Hn Hc0 Hc Hv0 Hv Hg). apply publish_moving; try done. by rewrite Hnodes.
Qed.

(** One map after the other. *)
Fixpoint follows_all (cl : cluster) (published : list ShardMapState) (cl' : cluster) : Prop :=
  match published with
  | [] => cl' = cl
  | sm :: rest => exists mid, follows cl sm mid /\ follows_all mid rest cl'
  end.

(** Two gentle changes, each published twice. *)
Lemma gentle_twice s0 s1 s2 cl :
  1 <= n < 2 ^ 31 -> ready s0 cl -> valid_assignment s1 -> valid_assignment s2 ->
  (Nodes s1 = Nodes s0 /\ Nodes s2 = Nodes s0 /\ NumShards s1 = NumShards s0 /\ NumShards s2 = NumShards s0) ->
  gentle s0 s1 -> gentle s1 s2 ->
  (exists cl', follows_all cl [s1; s1; s2; s2] cl')
  /\ forall cl', follows_all cl [s1; s1; s2; s2] cl' -> ready s2 cl'.
Proof.
  intros Hn Hr Hv1 Hv2 (Hn1 & Hn2 & Hc1 & Hc2) Hg1 Hg2. pose proof (rd_count _ _ Hr) as Hc.
  assert (gentle s1 s1) as Hg11 by (by apply gentle_shrink). assert (gentle s2 s2) as Hg22 by (by apply gentle_shrink).
  assert (forall c c', ready s0 c -> follows c s1 c' -> ready s1 c') as R1
    by (intros c c' ? ?; eapply gentle_change; eauto; congruence).
  assert (forall c c', ready s1 c -> follows c s1 c' -> ready s1 c') as R2
    by (intros c c' ? ?; eapply gentle_change; eauto; congruence).
  assert (forall c c', ready s1 c -> follows c s2 c' -> ready s2 c') as R3
    by (intros c c' ? ?; eapply gentle_change; eauto; congruence).
  assert (forall c c', ready s2 c -> follows c s2 c' -> ready s2 c') as R4
    by (intros c c' ? ?; eapply gentle_change; eauto; congruence).
  split.
  - destruct (follows_exists s0 s1 cl) as [c1 F1]; try done; [congruence|].
    destruct (follows_exists s1 s1 c1) as [c2 F2]; eauto; [congruence|].
    destruct (follows_exists s1 s2 c2) as [c3 F3]; eauto; [congruence..|].
    destruct (follows_exists s2 s2 c3) as [c4 F4]; eauto; [congruence|].
    exists c4. exists c1. split; [done|]. exists c2. split; [done|]. exists c3. split; [done|]. by exists c4.
  - intros cl' (c1 & F1 & c2 & F2 & c3 & F3 & c4 & F4 & ->). eauto.
Qed.

(** What a host of a ready cluster answers. *)
Lemma ready_answers sm cl host key v t :
  1 <= n < 2 ^ 31 -> ready sm cl -> host ∈ NodesForShard sm (shard_of key n) -> key <> ""%string ->
  cl_now cl <= t -> content key t = Some v ->
  exists nd, cl_nodes cl !! host = Some nd /\ Get (srv nd) n t key = Ret (mkGetResponse v true, None).
Proof.
  intros Hn Hr Hh Hk Ht Hc. pose proof Hr as [_ Hcnt Hv Hnodes Hset _ Hserve].
  destruct (Hnodes host) as [nd Hnd]; [by apply (valid_nodes sm (shard_of key n) Hv)|]. exists nd. split; [done|].
  assert (assigned sm host (shard_of key n)) as Ha by (apply assigned_nodes; [done|lia|done]).
  rewrite Get_serves; [|lia|done|]; [by rewrite (Hserve host nd key v t)|].
  apply (proj2 (Hset _ _ Hnd)). done.
Qed.
End Content.

(** ** What the operator sees *)

(** C7: A round loses nothing on the way. After a gentle change of the map is
    published to a cluster that holds [content], and whatever the nodes do in
    whatever order: no step panics; a node that hosts a shard under both maps
    answers a [Get] for it with the value of [content], now and later; and
    the nodes can always complete the round. *)
Theorem round_safe n content s0 s1 cl mid :
  1 <= n < 2 ^ 31 -> ready n content s0 cl -> gentle s0 s1 -> valid_assignment s1 -> NumShards s1 = n ->
  Nodes s1 = Nodes s0 -> rtc moves (publish cl s1) mid ->
  (forall a, timely mid a -> cluster_step mid a <> Panic)
  /\ (forall host key v t, host ∈ NodesForShard s0 (shard_of key n) -> host ∈ NodesForShard s1 (shard_of key n) ->
        key <> ""%string -> cl_now mid <= t -> content key t = Some v ->
        exists nd, cl_nodes mid !! host = Some nd /\ Get (srv nd) n t key = Ret (mkGetResponse v true, None))
  /\ exists cl', rtc moves mid cl' /\ settled cl' s1.
Proof.
  intros Hn Hr Hg Hv Hc Hnodes Hrun. pose proof Hr as [_ Hc0 Hv0 Hk _ _ _].
  assert (moving n content s0 s1 mid) as Hmv.
  { eapply moving_run; try done. apply publish_moving; try done. by rewrite Hnodes. }
  split_and!.
  - intros a Ha. by destruct (moving_step n content s0 s1 Hn Hc0 Hc Hv0 Hv Hg mid a Hmv Ha) as [->|(? & -> & _)].
  - intros host key v t H0 H1 Hkey Ht Hcon.
    destruct (mv_nodes _ _ _ _ _ Hmv host) as [nd Hnd]; [by apply (valid_nodes s1 (shard_of key n) Hv)|].
    exists nd. split; [done|]. destruct (mv_ok _ _ _ _ _ Hmv _ _ Hnd) as (Hname & _ & _ & m & p & _ & Hi & Hm & Hh).
    apply (assigned0 n s0 Hn Hc0 Hv0) in H0. apply (assigned1 n s1 Hn Hc Hv) in H1.
    assert (assigned m host (shard_of key n)) as Ha by (by destruct Hm as [[-> _]|[-> _]]).
    rewrite Get_serves; [|lia|done|]; [by rewrite (h_old _ _ _ _ _ _ _ _ Hh key v t)|].
    apply (inv_hosted _ _ _ _ Hi). exists m. by rewrite Hname.
  - by eapply round_ends.
Qed.

(** C6: Draining a node loses nothing. From a cluster of at least two nodes
    that holds [content], [DrainNode] succeeds, and the nodes can follow the
    maps it publishes; when they have, in whatever order they acted, the
    cluster holds [content] again: the drained node hosts no shard, every shard that had a
    host has one, and every host of a key answers a [Get] with its value for
    as long as before. *)
Theorem drain_keeps_data `{RandPerm} n content cur cl node calls1 calls2 :
  1 <= n < 2 ^ 31 -> ready n content cur cl -> 2 <= Z.of_nat (size (Nodes cur)) ->
  exists published left,
    DrainNode cur node calls1 calls2 = Ret (published, None) /\ last published = Some left
    /\ (forall k, node ∉ NodesForShard left k)
    /\ (forall k, NodesForShard cur k <> [] -> NodesForShard left k <> [])
    /\ (exists cl', follows_all cl published cl')
    /\ forall cl', follows_all cl published cl' ->
         ready n content left cl'
         /\ forall host key v t, host ∈ NodesForShard left (shard_of key n) -> key <> ""%string ->
              cl_now cl' <= t -> content key t = Some v ->
              exists nd, cl_nodes cl' !! host = Some nd /\ Get (srv nd) n t key = Ret (mkGetResponse v true, None).
Proof.
  intros Hn Hr Htwo. destruct (DrainNode_spec cur node calls1 calls2 (rd_valid _ _ _ _ Hr) Htwo)
    as (s1 & s2 & E & Hv1 & Hv2 & Hsame & Hg1 & Hg2 & Hnone & _ & Hsome & _).
  destruct (gentle_twice n content cur s1 s2 cl Hn Hr Hv1 Hv2 Hsame Hg1 Hg2) as [Hex Hall].
  exists [s1; s1; s2; s2], s2. split_and!; try done. intros cl' Hr'%Hall. split; [done|].
  intros host key v t Hh Hk Ht Hc. by eapply ready_answers.
Qed.

(** So does moving a shard. *)
Theorem move_keeps_data `{RandPerm} n content cur cl shard src dst call1 call2 :
  1 <= n < 2 ^ 31 -> ready n content cur cl ->
  src ∈ NodesForShard cur shard -> dst ∉ NodesForShard cur shard -> is_Some (Nodes cur !! dst) ->
  exists published left,
    MoveShard cur shard src dst call1 call2 = Ret (published, None) /\ last published = Some left
    /\ NodesForShard left shard ≡ₚ dst :: filter (fun n => n <> src) (NodesForShard cur shard)
    /\ (exists cl', follows_all cl published cl')
    /\ forall cl', follows_all cl published cl' -> ready n content left cl'.
Proof.
  intros Hn Hr Hsrc Hdst Hnode.
  destruct (MoveShard_spec cur shard src dst call1 call2 (rd_valid _ _ _ _ Hr) Hsrc Hdst Hnode)
    as (s1 & s2 & E & Hv1 & Hv2 & Hsame & Hg1 & Hg2 & _ & Hp & _).
  destruct (gentle_twice n content cur s1 s2 cl Hn Hr Hv1 Hv2 Hsame Hg1 Hg2) as [Hex Hall].
  by exists [s1; s1; s2; s2], s2.
Qed.

(** ** Examples *)

Definition demo_nodes (st : gmap Z (list string)) : ShardMapState := mkState (makeNodeInfos 2) st 1.

Definition on_n1 : ShardMapState := demo_nodes {[ 1 := ["n1"]%string ]}.
Definition on_n2 : ShardMapState := demo_nodes {[ 1 := ["n2"]%string ]}.
Definition on_both : ShardMapState := demo_nodes {[ 1 := ["n1"; "n2"]%string ]}.

(** One shard with one key, on the first of two nodes. *)
Definition demo_cluster : cluster :=
  mkCluster 5 on_n1
    (<["n1" := mkNode (mkServer "n1" {[ 1 := {[ "k" := mkItem "v" 1000 0 ]} ]}) [Stopped; Idle]]>
     {["n2" := mkNode (mkServer "n2" ∅) [Stopped; Idle]]})%string.

Definition demo_content (key : string) (t : Z) : option string :=
  if decide (key = "k"%string) then if t <? 1000000000 then Some "v"%string else None else None.

Lemma on_n1_assigned name k : assigned on_n1 name k <-> name = "n1"%string /\ k = 1.
Proof.
  rewrite assigned_nodes; [|apply check_assignment_ok; vm_compute; reflexivity|done].
  unfold NodesForShard. cbn [on_n1 demo_nodes ShardsToNodes]. destruct (decide (k = 1)) as [->|Hk].
  - rewrite lookup_singleton_eq. cbn. rewrite list_elem_of_singleton. naive_solver.
  - rewrite lookup_singleton_ne by done. cbn. rewrite elem_of_nil. naive_solver.
Qed.

Lemma demo_lookup name nd :
  cl_nodes demo_cluster !! name = Some nd ->
  name = "n1"%string /\ nd = mkNode (mkServer "n1" {[ 1 := {[ "k"%string := mkItem "v" 1000 0 ]} ]}) [Stopped; Idle]
  \/ name = "n2"%string /\ nd = mkNode (mkServer "n2" ∅) [Stopped; Idle].
Proof.
  cbn [cl_nodes demo_cluster]. intros [[<- <-]|[_ [<- <-]%lookup_singleton_Some]]%lookup_insert_Some; auto.
Qed.

Lemma demo_key_shard key : shard_of key 1 = 1.
Proof. unfold shard_of. rewrite Z.rem_1_r. reflexivity. Qed.

Lemma demo_ready : ready 1 demo_content on_n1 demo_cluster.
Proof.
  constructor; [done|done|apply check_assignment_ok; vm_compute; reflexivity|..].
  - intros name Hn. apply elem_of_dom in Hn. change (dom (Nodes on_n1)) with (dom (makeNodeInfos 2)) in Hn.
    assert (dom (makeNodeInfos 2) = {["n1"; "n2"]}%string) as E by (vm_compute; reflexivity).
    rewrite E in Hn. apply elem_of_dom. cbn [demo_cluster cl_nodes]. set_solver.
  - intros name nd [[-> ->]|[-> ->]]%demo_lookup; (split; [done|]); intros k; rewrite on_n1_assigned; cbn.
    + rewrite lookup_singleton_is_Some. naive_solver.
    + rewrite lookup_empty. split; [by intros []|naive_solver].
  - intros name nd [[-> ->]|[-> ->]]%demo_lookup; cbn; split_and!; try done.
    + intros k d key it Hk _. cbn in Hk. apply lookup_singleton_Some in Hk as [<- _]. by rewrite demo_key_shard.
    + intros k d key it Hk Hit. cbn in Hk. apply lookup_singleton_Some in Hk as [<- <-].
      apply lookup_singleton_Some in Hit as [<- <-]. cbn. lia.
  - intros name nd key v t [[-> ->]|[-> ->]]%demo_lookup Ht Hc Ha; [|by apply on_n1_assigned in Ha as [? _]].
    unfold demo_content in Hc. case_decide as Hk; [|done]. subst key. destruct (Z.ltb_spec t 1000000000); [|done].
    injection Hc as <-. unfold serves. rewrite demo_key_shard. cbn [srv availableShards]. rewrite lookup_singleton_eq. cbn.
    rewrite lookup_singleton_eq. cbn. unfold expired. cbn. cbn in Ht.
    destruct (Z.leb_spec 1000 (Milliseconds (t - 0))) as [Hle|]; [|done]. exfalso.
    unfold Milliseconds in Hle. rewrite Z.quot_div_nonneg in Hle by lia.
    pose proof (Z.mul_div_le (t - 0) 1000000). lia.
Qed.

#[local] Instance demo_order : RandPerm := {| Perm _ n := seqZ 0 n; Perm_law _ _ _ := reflexivity _ |}.

Lemma drain_keeps_data_witness :
  exists published left, DrainNode on_n1 "n1" (fun k => k) (fun k => k) = Ret (published, None)
    /\ exists cl', follows_all demo_cluster published cl' /\ ready 1 demo_content left cl'.
Proof.
  destruct (drain_keeps_data 1 demo_content on_n1 demo_cluster "n1" (fun k => k) (fun k => k))
    as (published & left & E & _ & _ & _ & [cl' Hf] & Hall).
  - lia.
  - exact demo_ready.
  - vm_compute. discriminate.
  - exists published, left. split; [exact E|]. exists cl'. split; [exact Hf|]. apply Hall. exact Hf.
Defined.

Lemma round_safe_witness :
  exists nd, cl_nodes (publish demo_cluster on_both) !! "n1"%string = Some nd
    /\ Get (srv nd) 1 7 "k" = Ret (mkGetResponse "v" true, None).
Proof.
  destruct (round_safe 1 demo_content on_n1 on_both demo_cluster (publish demo_cluster on_both)) as (_ & Hget & _).
  - lia.
  - exact demo_ready.
  - apply gentle_add. intros k. unfold NodesForShard. cbn. destruct (decide (k = 1)) as [->|Hk].
    + rewrite !lookup_singleton_eq. right. split; [done|]. by exists "n2"%string.
    + left. by rewrite !lookup_singleton_ne by done.
  - apply check_assignment_ok. vm_compute. reflexivity.
  - reflexivity.
  - reflexivity.
  - apply rtc_refl.
  - apply (Hget "n1"%string "k"%string "v"%string 7).
    + apply (bool_decide_unpack _). vm_compute. exact I.
    + apply (bool_decide_unpack _). vm_compute. exact I.
    + discriminate.
    + vm_compute. discriminate.
    + reflexivity.
Defined.

(** A copy is what saves the data: when the shard goes from one node to another
    in a single change, the new host finds nobody to ask and the key is gone,
    although no step fails. *)
Theorem abrupt_move_loses_data :
  exists cl', run_cluster (publish demo_cluster on_n2)
      [CBegin "n2"; CFetch "n2" 1 0 (fun _ => (5, 5)) 5; CRelock "n2"; CFinish "n2";
       CBegin "n1"; CRemove "n1" 1; CFinish "n1"]%string = Ret cl'
    /\ (fun nd => Get (srv nd) 1 6 "k") <$> cl_nodes cl' !! "n2"%string = Some (Ret (no_value, None))
    /\ (fun nd => Get (srv nd) 1 6 "k") <$> cl_nodes cl' !! "n1"%string = Some (Ret (no_value, Some err_not_found)).
Proof. eexists. split; [vm_compute; reflexivity|]. split; vm_compute; reflexivity. Qed.

(** The same shard, moved through a map with both hosts. *)
Theorem gentle_move_run :
  exists cl', run_cluster (publish demo_cluster on_both)
      [CBegin "n2"; CFetch "n2" 1 0 (fun _ => (5, 5)) 6; CRelock "n2"; CStore "n2"; CFinish "n2";
       CBegin "n1"; CFinish "n1"]%string = Ret cl'
    /\ (fun nd => Get (srv nd) 1 7 "k") <$> cl_nodes cl' !! "n2"%string = Some (Ret (mkGetResponse "v" true, None))
    /\ (fun nd => Get (srv nd) 1 7 "k") <$> cl_nodes cl' !! "n1"%string = Some (Ret (mkGetResponse "v" true, None)).
Proof. eexists. split; [vm_compute; reflexivity|]. split; vm_compute; reflexivity. Qed.
