(* ===== verification/KvTestPool.v ===== *)
(** * lab4/kv/test/test_clientpool.go and the setup of test_setup.go

    The client pool of the tests: its clients call the servers of the same
    process directly, count the requests, and can be told to answer with an
    error or with a fixed response instead. Servers are shared: the setup and
    the client of a node hold the same pointer, so a pointer is an address in
    a heap of servers, [None] is nil, and a call on nil is a panic. A client
    is named by its node.

    Every request holds the lock of its client for reading and every override
    holds it for writing, so each is one step. [time.Sleep] only delays a
    request: the clock arguments are what the server reads, after it. *)

From Stdlib Require Import String.
From stdpp Require Import prelude gmap strings.
From S2P Require Import Prelude Fnv ShardMap ShardWorkflows KvServer.
Local Open Scope Z_scope.

Notation heap := (gmap nat KvServer).

Record TestClient : Type := mkClient {
  server : option nat;
  requestsSent : Z;      (* uint64 *)
  err : option error;
  getResponse : option GetResponse;
  setResponse : option unit;
  deleteResponse : option unit;
  getShardContentsResponse : option (list GetShardValue);
  latencyInjection : option Z
}.

(** ** Requests *)

Definition set_sent (k : Z) (c : TestClient) : TestClient :=
  mkClient (server c) k (err c) (getResponse c) (setResponse c) (deleteResponse c)
    (getShardContentsResponse c) (latencyInjection c).

(** What the four requests have in common; [mock] is the response they may be
    told to give. *)
Definition request {A} (c : TestClient) (h : heap) (mock : option A)
    (call : KvServer -> go (KvServer * (option A * option error)))
    : go (TestClient * heap * (option A * option error)) :=
  let c := set_sent (uint_w 64 (requestsSent c + 1)) c in
  match err c with
  | Some e => Ret (c, h, (None, Some e))
  | None =>
      match mock with
      | Some r => Ret (c, h, (Some r, None))
      | None =>
          match l ← server c; s ← h !! l; Some (l, s) with
          | None => Panic
          | Some (l, s) => let! '(s', r) := call s in Ret (c, <[l := s']> h, r)
          end
      end
  end.

(** The handlers of the server, with their response and their error. *)
Definition serve_get (n now : Z) (key : string) (s : KvServer) : go (KvServer * (option GetResponse * option error)) :=
  let! '(r, e) := Get s n now key in Ret (s, (Some r, e)).
Definition serve_write (f : KvServer -> go (KvServer * option error)) (key : string) (s : KvServer)
    : go (KvServer * (option unit * option error)) :=
  let! '(s', e) := f s in Ret (s', (if decide (key = ""%string) then None else Some tt, e)).
Definition serve_contents (clock : string -> Z * Z) (shard : Z) (s : KvServer)
    : go (KvServer * (option (list GetShardValue) * option error)) :=
  let! '(r, e) := GetShardContents s clock shard in Ret (s, (Some r, e)).

Definition TestClient_Get (c : TestClient) (h : heap) (n now : Z) (key : string) :=
  request c h (getResponse c) (serve_get n now key).
Definition TestClient_Set (c : TestClient) (h : heap) (n now : Z) (key value : string) (ttlMs : Z) :=
  request c h (setResponse c) (serve_write (fun s => KvServer.Set_ s n now key value ttlMs) key).
Definition TestClient_Delete (c : TestClient) (h : heap) (n : Z) (key : string) :=
  request c h (deleteResponse c) (serve_write (fun s => KvServer.Delete s n key) key).
Definition TestClient_GetShardContents (c : TestClient) (h : heap) (clock : string -> Z * Z) (shard : Z) :=
  request c h (getShardContentsResponse c) (serve_contents clock shard).

(** ** Overrides *)

Definition ClearOverrides (c : TestClient) : TestClient :=
  mkClient (server c) (requestsSent c) None None (setResponse c) (deleteResponse c) None None.
Definition OverrideError (e : option error) (c : TestClient) : TestClient :=
  mkClient (server c) (requestsSent c) e (getResponse c) (setResponse c) (deleteResponse c)
    (getShardContentsResponse c) (latencyInjection c).
Definition OverrideGetResponse (val : string) (wasFound : bool) (c : TestClient) : TestClient :=
  mkClient (server c) (requestsSent c) (err c) (Some (mkGetResponse val wasFound)) (setResponse c)
    (deleteResponse c) (getShardContentsResponse c) (latencyInjection c).
Definition OverrideSetResponse (c : TestClient) : TestClient :=
  mkClient (server c) (requestsSent c) (err c) (getResponse c) (Some tt) (deleteResponse c)
    (getShardContentsResponse c) (latencyInjection c).
Definition OverrideDeleteResponse (c : TestClient) : TestClient :=
  mkClient (server c) (requestsSent c) (err c) (getResponse c) (setResponse c) (Some tt)
    (getShardContentsResponse c) (latencyInjection c).
Definition OverrideGetShardContentsResponse (r : option (list GetShardValue)) (c : TestClient) : TestClient :=
  mkClient (server c) (requestsSent c) (err c) (getResponse c) (setResponse c) (deleteResponse c) r
    (latencyInjection c).
Definition SetLatencyInjection (d : Z) (c : TestClient) : TestClient :=
  mkClient (server c) (requestsSent c) (err c) (getResponse c) (setResponse c) (deleteResponse c)
    (getShardContentsResponse c) (Some d).

(** ** The pool *)

(** A nil map of errors has no entries; a nil map of clients is [None]. An
    error may be nil. *)
Record TestClientPool : Type := mkTestPool {
  getClientErrors : gmap string (option error);
  nodes : option (gmap string TestClient)
}.

Definition Setup (cp : TestClientPool) (servers : gmap string (option nat)) : TestClientPool :=
  mkTestPool (getClientErrors cp)
    (Some ((fun s => mkClient s 0 None None None None None None) <$> servers)).

Definition err_not_setup : error := mkError Unknown "node setup yet: test cluster may be starting".

(** The client, nil for a name that is not there, and the error. *)
Definition GetClient (cp : TestClientPool) (nodeName : string) : option TestClient * option error :=
  match getClientErrors cp !! nodeName with
  | Some e => (None, e)
  | None =>
      match nodes cp with
      | None => (None, Some err_not_setup)
      | Some ns => (ns !! nodeName, None)
      end
  end.

Definition OverrideGetClientError (cp : TestClientPool) (nodeName : string) (e : option error) : TestClientPool :=
  mkTestPool (<[nodeName := e]> (getClientErrors cp)) (nodes cp).
Definition ClearGetClientErrors (cp : TestClientPool) : TestClientPool := mkTestPool ∅ (nodes cp).

(** A method of [cp.nodes[nodeName]]; on nil it panics. *)
Definition on_client (cp : TestClientPool) (nodeName : string) (f : TestClient -> TestClient) : go TestClientPool :=
  match nodes cp ≫= lookup nodeName with
  | None => Panic
  | Some c => Ret (mkTestPool (getClientErrors cp) (insert nodeName (f c) <$> nodes cp))
  end.

Definition OverrideRpcError cp nodeName e := on_client cp nodeName (OverrideError e).
Definition pool_OverrideGetResponse cp nodeName val wasFound := on_client cp nodeName (OverrideGetResponse val wasFound).
Definition pool_OverrideSetResponse cp nodeName := on_client cp nodeName OverrideSetResponse.
Definition pool_OverrideDeleteResponse cp nodeName := on_client cp nodeName OverrideDeleteResponse.
Definition pool_OverrideGetShardContentsResponse cp nodeName r :=
  on_client cp nodeName (OverrideGetShardContentsResponse r).
Definition AddLatencyInjection cp nodeName d := on_client cp nodeName (SetLatencyInjection d).
Definition ClearRpcOverrides cp nodeName := on_client cp nodeName ClearOverrides.

(** [int] of a [uint64]. *)
Definition GetRequestsSent (cp : TestClientPool) (nodeName : string) : go Z :=
  match nodes cp ≫= lookup nodeName with
  | None => Panic
  | Some c => Ret (int_w 64 (requestsSent c))
  end.
Definition ClearRequestsSent cp nodeName := on_client cp nodeName (set_sent 0).

Definition ClearServerImpls (cp : TestClientPool) : TestClientPool :=
  mkTestPool (getClientErrors cp)
    (option_map (fun ns => (fun c => mkClient None (requestsSent c) (err c) (getResponse c) (setResponse c)
       (deleteResponse c) (getShardContentsResponse c) (latencyInjection c)) <$> ns) (nodes cp)).

(** ** The setup *)

Record TestSetup : Type := mkSetup {
  ts_map : ShardMapState;
  ts_nodes : gmap string (option nat);
  ts_pool : TestClientPool;
  ts_heap : heap
}.

Definition empty_pool : TestClientPool := mkTestPool ∅ None.

(** [GetClient] and [GetShardContents], as [retrieveShardData] calls them. *)
Definition pool_fetch (cp : TestClientPool) (h : heap) (clock : string -> Z * Z) (shard : Z) (node : string)
    : go (option (list GetShardValue)) :=
  match GetClient cp node with
  | (_, Some _) => Ret None
  | (None, None) => Panic
  | (Some c, None) =>
      let! out := TestClient_GetShardContents c h clock shard in
      Ret (match out.2 with (r, None) => r | _ => None end)
  end.

(** [kv.MakeKvServer] with the pool as its client pool, at clock [now]:
    [start shard] is the replica at which the search for a copy begins. *)
Definition make_server (cp : TestClientPool) (h : heap) (sm : ShardMapState) (start : Z -> Z) (now : Z) (name : string)
    : go KvServer :=
  let! responses := go_fold (fun responses shard =>
      let! r := retrieveShardData (mkServer name ∅) (fun _ => sm) (start shard)
                  (pool_fetch cp h (fun _ => (now, now)) shard) shard in
      Ret (responses ++ [(fun v => (v, now)) <$> r])) [] (elements (shardsToBeAdded (mkServer name ∅) sm)) in
  MakeKvServer name sm responses.

(** The loop over the nodes of the map; the next free address is the size of
    the heap. *)
Definition make_servers (cp : TestClientPool) (sm : ShardMapState) (start : Z -> Z) (now : Z)
    : gmap string (option nat) * heap -> list string -> go (gmap string (option nat) * heap) :=
  go_fold (fun '(ns, h) name =>
    let! s := make_server cp h sm start now name in
    Ret (<[name := Some (size h)]> ns, <[size h := s]> h)).

Definition MakeTestSetup (sm : ShardMapState) (start : Z -> Z) (now : Z) : go TestSetup :=
  let! '(ns, h) := make_servers empty_pool sm start now (∅, ∅) (map_to_list (Nodes sm)).*1 in
  Ret (mkSetup sm ns (Setup empty_pool ns) h).

Definition MakeTestSetupWithoutServers (sm : ShardMapState) : TestSetup :=
  let ns := (fun _ => None) <$> Nodes sm in
  mkSetup sm ns (Setup empty_pool ns) ∅.

(** [ts.nodes[nodeName].Get] and the like. *)
Definition on_node {A} (ts : TestSetup) (nodeName : string) (call : KvServer -> go (KvServer * A)) : go (TestSetup * A) :=
  match o ← ts_nodes ts !! nodeName; l ← o; s ← ts_heap ts !! l; Some (l, s) with
  | None => Panic
  | Some (l, s) =>
      let! '(s', r) := call s in Ret (mkSetup (ts_map ts) (ts_nodes ts) (ts_pool ts) (<[l := s']> (ts_heap ts)), r)
  end.

Definition NodeGet (ts : TestSetup) (now : Z) (nodeName key : string) : go (TestSetup * (string * bool * option error)) :=
  let! '(ts, (r, e)) := on_node ts nodeName (serve_get (NumShards (ts_map ts)) now key) in
  match e with
  | Some e => Ret (ts, (""%string, false, Some e))
  | None => match r with Some r => Ret (ts, (Value r, WasFound r, None)) | None => Panic end
  end.
Definition NodeSet (ts : TestSetup) (now : Z) (nodeName key value : string) (ttl : Z) : go (TestSetup * option error) :=
  on_node ts nodeName (fun s => KvServer.Set_ s (NumShards (ts_map ts)) now key value (Milliseconds ttl)).
Definition NodeDelete (ts : TestSetup) (nodeName key : string) : go (TestSetup * option error) :=
  on_node ts nodeName (fun s => KvServer.Delete s (NumShards (ts_map ts)) key).

(** ** Requests that are not overridden *)

Inductive query : Type :=
| QGet (now : Z) (key : string)
| QSet (now : Z) (key value : string) (ttlMs : Z)
| QDelete (key : string)
| QContents (clock : string -> Z * Z) (shard : Z).

Definition answer : Type := (option GetResponse + option unit + option (list GetShardValue)) * option error.

Definition ask_server (n : Z) (s : KvServer) (q : query) : go (KvServer * answer) :=
  match q with
  | QGet now key => let! '(s, (r, e)) := serve_get n now key s in Ret (s, (inl (inl r), e))
  | QSet now key v ttlMs =>
      let! '(s, (r, e)) := serve_write (fun s => KvServer.Set_ s n now key v ttlMs) key s in Ret (s, (inl (inr r), e))
  | QDelete key =>
      let! '(s, (r, e)) := serve_write (fun s => KvServer.Delete s n key) key s in Ret (s, (inl (inr r), e))
  | QContents clock shard => let! '(s, (r, e)) := serve_contents clock shard s in Ret (s, (inr r, e))
  end.

Definition ask_client (n : Z) (c : TestClient) (h : heap) (q : query) : go (TestClient * heap * answer) :=
  match q with
  | QGet now key => let! '(c, h, (r, e)) := TestClient_Get c h n now key in Ret (c, h, (inl (inl r), e))
  | QSet now key v ttlMs =>
      let! '(c, h, (r, e)) := TestClient_Set c h n now key v ttlMs in Ret (c, h, (inl (inr r), e))
  | QDelete key => let! '(c, h, (r, e)) := TestClient_Delete c h n key in Ret (c, h, (inl (inr r), e))
  | QContents clock shard =>
      let! '(c, h, (r, e)) := TestClient_GetShardContents c h clock shard in Ret (c, h, (inr r, e))
  end.

Fixpoint ask_server_all (n : Z) (s : KvServer) (qs : list query) : go (KvServer * list answer) :=
  match qs with
  | [] => Ret (s, [])
  | q :: qs =>
      let! '(s, a) := ask_server n s q in
      let! '(s, l) := ask_server_all n s qs in Ret (s, a :: l)
  end.

Fixpoint ask_client_all (n : Z) (c : TestClient) (h : heap) (qs : list query) : go (TestClient * heap * list answer) :=
  match qs with
  | [] => Ret (c, h, [])
  | q :: qs =>
      let! '(c, h, a) := ask_client n c h q in
      let! '(c, h, l) := ask_client_all n c h qs in Ret (c, h, a :: l)
  end.

Definition no_override (c : TestClient) : Prop :=
  err c = None /\ getResponse c = None /\ setResponse c = None /\ deleteResponse c = None
  /\ getShardContentsResponse c = None.

Lemma request_forwards {A} c h (call : KvServer -> go (KvServer * (option A * option error))) l s :
  err c = None -> server c = Some l -> h !! l = Some s ->
  request c h None call
  = let! '(s', r) := call s in Ret (set_sent (uint_w 64 (requestsSent c + 1)) c, <[l := s']> h, r).
Proof. intros He Hc Hs. unfold request. cbn. rewrite He, Hc. cbn. rewrite Hs. done. Qed.

Lemma ask_client_forwards n c h q l s :
  no_override c -> server c = Some l -> h !! l = Some s ->
  ask_client n c h q
  = let! '(s', a) := ask_server n s q in Ret (set_sent (uint_w 64 (requestsSent c + 1)) c, <[l := s']> h, a).
Proof.
  intros (He & Hg & Hst & Hd & Hk) Hc Hs.
  destruct q; cbn [ask_client ask_server]; unfold TestClient_Get, TestClient_Set, TestClient_Delete, TestClient_GetShardContents;
    rewrite ?Hg, ?Hst, ?Hd, ?Hk, (request_forwards c h _ l s) by done.
  - by destruct (serve_get n now key s) as [[s' [r e]]| |].
  - by destruct (serve_write _ key s) as [[s' [r e]]| |].
  - by destruct (serve_write _ key s) as [[s' [r e]]| |].
  - by destruct (serve_contents clock shard s) as [[s' [r e]]| |].
Qed.

(** A test client without overrides is transparent: every sequence of
    requests gets the answers the server itself would give and leaves the
    server as it would be, panics included, the other servers are not
    touched, and the counter has moved by the number of requests, modulo
    2^64. *)
Theorem test_client_transparent n c h qs l s :
  no_override c -> server c = Some l -> h !! l = Some s -> 0 <= requestsSent c < 2 ^ 64 ->
  ask_client_all n c h qs
  = let! '(s', answers) := ask_server_all n s qs in
    Ret (set_sent (uint_w 64 (requestsSent c + len qs)) c, <[l := s']> h, answers).
Proof.
  revert c h s. induction qs as [|q qs IH]; intros c h s Hno Hc Hs Hr; cbn [ask_client_all ask_server_all].
  { cbn. unfold uint_w, len. cbn. rewrite Z.add_0_r, Z.mod_small, insert_id by done. by destruct c. }
  rewrite (ask_client_forwards n c h q l s) by done.
  destruct (ask_server n s q) as [[s1 a]| |]; [|done..]. cbn [mbind go_bind].
  rewrite (IH _ _ s1); [|done|done|by rewrite lookup_insert_eq|by apply Z.mod_pos_bound].
  destruct (ask_server_all n s1 qs) as [[s2 answers]| |]; [|done..]. cbn [mbind go_bind].
  rewrite insert_insert_eq. do 2 f_equal. unfold set_sent, uint_w, len. cbn. f_equal.
  f_equal. rewrite Zplus_mod_idemp_l. f_equal. lia.
Qed.

(** An error that overrides the calls keeps every request from the server. *)
Theorem override_error_shields n c h q e :
  err c = Some e -> exists c' a, ask_client n c h q = Ret (c', h, (a, Some e)) /\ err c' = Some e.
Proof.
  intros He. destruct q; cbn [ask_client]; unfold TestClient_Get, TestClient_Set, TestClient_Delete, TestClient_GetShardContents,
    request; cbn; rewrite He; cbn; eauto.
Qed.

(** Clearing the overrides of a client does not clear a response for [Set]:
    the next [Set] still succeeds without reaching the server, even when
    there is none. *)
Theorem cleared_set_still_mocked c h n now key v ttlMs :
  exists c', TestClient_Set (ClearOverrides (OverrideSetResponse c)) h n now key v ttlMs = Ret (c', h, (Some tt, None)).
Proof. unfold TestClient_Set, request. cbn. eauto. Qed.

(** ** The servers of a setup *)

Lemma unset_fetch h clock shard node : pool_fetch empty_pool h clock shard node = Ret None.
Proof. unfold pool_fetch, GetClient. cbn. by rewrite lookup_empty. Qed.

(** With no values to copy the constructor leaves empty shards. *)
Lemma MakeKvServer_empty name sm responses :
  concat responses = [] -> MakeKvServer name sm responses = Ret (update_begin (mkServer name ∅) sm).
Proof.
  intros E. unfold MakeKvServer, handleShardMapUpdate, update_copy. rewrite go_fold_concat, E.
  assert (shardsToBeRemoved (mkServer name ∅) (fun _ => sm) = ∅) as ->.
  { apply set_eq. intros k. rewrite removed_spec. cbn. rewrite lookup_empty. split; [by intros [[? ?] _]|set_solver]. }
  by case_decide; cbn; rewrite elements_empty.
Qed.

Lemma gather_nothing (f : Z -> go (list GetShardValue)) now acc shards :
  (forall shard, shard ∈ shards -> f shard = Ret []) -> concat acc = [] ->
  exists responses, go_fold (fun responses shard =>
      let! r := f shard in Ret (responses ++ [(fun v => (v, now)) <$> r])) acc shards = Ret responses
    /\ concat responses = ([] : list (GetShardValue * Z)).
Proof.
  revert acc. induction shards as [|x shards IH]; intros acc Hf Hacc; cbn [go_fold]; [eauto|].
  rewrite Hf by left. cbn [mbind go_bind fmap list_fmap]. apply IH; [intros; apply Hf; by right|].
  by rewrite concat_app, Hacc.
Qed.

Lemma make_server_ok h sm start now name :
  valid_assignment sm -> NumShards sm < 2 ^ 31 ->
  make_server empty_pool h sm start now name = Ret (update_begin (mkServer name ∅) sm).
Proof.
  intros Hv Hn. unfold make_server.
  destruct (gather_nothing (fun shard => retrieveShardData (mkServer name ∅) (fun _ => sm) (start shard)
    (pool_fetch empty_pool h (fun _ => (now, now)) shard) shard) now [] (elements (shardsToBeAdded (mkServer name ∅) sm)))
    as (responses & -> & E); [|done|by apply MakeKvServer_empty].
  intros shard Hin. apply elem_of_elements, added_spec in Hin as [_ Hin].
  apply list_elem_of_fmap in Hin as (k & -> & Hk). rewrite (assigned_int32 sm name k) by done.
  apply shards_nodes_dual in Hk.
  destruct (retrieve_asks_every_host (mkServer name ∅) sm (start k)
    (pool_fetch empty_pool h (fun _ => (now, now)) k) k)
    as [(_ & node & _ & _ & Hf)|(r & -> & [(node & _ & _ & Hf)|[-> _]])];
    [|intros ? _ _; by rewrite unset_fetch|by rewrite unset_fetch in Hf..|done].
  intros E. rewrite E in Hk. by apply elem_of_nil in Hk.
Qed.

(** [done] are the nodes whose servers have been made. *)
Definition made (sm : ShardMapState) (ready : list string) (ns : gmap string (option nat)) (h : heap) : Prop :=
  (forall i, is_Some (h !! i) -> (i < size h)%nat)
  /\ forall name, name ∈ ready ->
       exists l, ns !! name = Some (Some l) /\ h !! l = Some (update_begin (mkServer name ∅) sm).

Lemma make_servers_ok sm start now ready ns h names :
  valid_assignment sm -> NumShards sm < 2 ^ 31 -> made sm ready ns h -> NoDup names ->
  exists ns' h', make_servers empty_pool sm start now (ns, h) names = Ret (ns', h') /\ made sm (ready ++ names) ns' h'.
Proof.
  intros Hv Hn Hm Hnd. revert ready ns h Hm. induction Hnd as [|x names Hx _ IH]; intros ready ns h [Hfresh Hready].
  { exists ns, h. by rewrite app_nil_r. }
  unfold make_servers. cbn [go_fold]. rewrite make_server_ok by done. cbn [mbind go_bind].
  rewrite (cons_middle x), app_assoc. apply IH.
  assert (h !! size h = None) as Hnone by (destruct (h !! size h) eqn:E; [specialize (Hfresh (size h)); rewrite E in Hfresh;
    specialize (Hfresh ltac:(eauto)); lia|done]).
  split.
  - intros i [s Hi]. rewrite map_size_insert_None by done. apply lookup_insert_Some in Hi as [[<- _]|[_ Hi]]; [lia|].
    specialize (Hfresh i ltac:(eauto)). lia.
  - intros name Hin. destruct (decide (name = x)) as [->|Hne].
    + exists (size h). by rewrite !lookup_insert_eq.
    + apply elem_of_app in Hin as [Hin|?%list_elem_of_singleton]; [|done].
      destruct (Hready name Hin) as (l & Hl1 & Hl2). exists l. rewrite !lookup_insert_ne; [done|congruence|done].
Qed.

(** A test setup is wired as the tests expect. For a valid map the
    constructor returns; every node of the map then has a server of its own
    that hosts exactly the shards the map assigns to it, all empty, since no
    peer can be reached before the pool is set up; and the client the pool
    gives for the node points to that same server, has sent nothing and has
    no override. *)
Theorem MakeTestSetup_spec sm start now :
  valid_assignment sm -> NumShards sm < 2 ^ 31 ->
  exists ts, MakeTestSetup sm start now = Ret ts /\ ts_map ts = sm
    /\ forall name, is_Some (Nodes sm !! name) ->
         exists l s, ts_nodes ts !! name = Some (Some l) /\ ts_heap ts !! l = Some s /\ nodeName s = name
           /\ (forall k, availableShards s !! k = if decide (name ∈ NodesForShard sm k) then Some ∅ else None)
           /\ exists c, GetClient (ts_pool ts) name = (Some c, None)
                /\ server c = Some l /\ requestsSent c = 0 /\ no_override c.
Proof.
  intros Hv Hn. destruct (make_servers_ok sm start now [] ∅ ∅ (map_to_list (Nodes sm)).*1) as (ns & h & E & _ & Hm);
    [done|done| |apply NoDup_fst_map_to_list|].
  { split; [intros i [? Hi]; by rewrite lookup_empty in Hi|]. by intros name ?%elem_of_nil. }
  exists (mkSetup sm ns (Setup empty_pool ns) h). unfold MakeTestSetup. rewrite E. split; [done|]. split; [done|].
  intros name [info Hi]. destruct (Hm name) as (l & Hl1 & Hl2).
  { cbn. apply list_elem_of_fmap. exists (name, info). by rewrite elem_of_map_to_list. }
  exists l, (update_begin (mkServer name ∅) sm). split_and!; [done|done|done| |].
  - intros k. rewrite update_begin_lookup. cbn. rewrite lookup_empty.
    enough (k ∈ shardsToBeAdded (mkServer name ∅) sm <-> name ∈ NodesForShard sm k) as Hiff
      by (repeat case_decide; tauto).
    rewrite added_spec. cbn. rewrite lookup_empty. split.
    + intros [_ (k' & -> & Hk)%list_elem_of_fmap]. pose proof (assigned_int32 sm name k' Hv Hn Hk) as ->.
      by apply shards_nodes_dual.
    + intros Hk%shards_nodes_dual. split; [done|]. apply list_elem_of_fmap. exists k.
      by rewrite (assigned_int32 sm name k Hv Hn Hk).
  - eexists. unfold GetClient. cbn. rewrite lookup_empty, lookup_fmap, Hl1. cbn. split; [done|]. by split_and!.
Qed.

(** ** A setup of two nodes *)

Definition two : ShardMapState := MakeTwoNodeBothAssignedSingleShard.

Lemma MakeTestSetup_spec_witness :
  exists ts, MakeTestSetup two (fun _ => 0) 7 = Ret ts
    /\ exists l s, ts_nodes ts !! "n2"%string = Some (Some l) /\ ts_heap ts !! l = Some s
         /\ availableShards s !! 1 = Some ∅.
Proof.
  destruct (MakeTestSetup_spec two (fun _ => 0) 7) as (ts & E & _ & Hts).
  - apply check_assignment_ok. vm_compute. reflexivity.
  - reflexivity.
  - destruct (Hts "n2"%string) as (l & s & H1 & H2 & _ & H3 & _).
    + apply (bool_decide_unpack _). vm_compute. exact I.
    + exists ts. split; [exact E|]. exists l, s. split; [exact H1|]. split; [exact H2|]. rewrite (H3 1). reflexivity.
Defined.

Definition ts0 : TestSetup :=
  match MakeTestSetup two (fun _ => 0) 7 with Ret ts => ts | _ => MakeTestSetupWithoutServers two end.

(** A value set on a node is what the client of the pool reads: both hold
    the same server. *)
Definition set_then_ask : option string :=
  match NodeSet ts0 10000000 "n1" "k" "v" 50000000 with
  | Ret (ts, None) =>
      match (GetClient (ts_pool ts) "n1").1 with
      | Some c =>
          match TestClient_Get c (ts_heap ts) 1 20000000 "k" with
          | Ret (_, (Some r, None)) => if WasFound r then Some (Value r) else None
          | _ => None
          end
      | None => None
      end
  | _ => None
  end.

Theorem node_and_client_share_server : set_then_ask = Some "v"%string.
Proof. vm_compute. reflexivity. Qed.

Definition c0 : TestClient := mkClient (Some 0%nat) 3 None None None None None None.
Definition h0 : heap := {[ 0%nat := mkServer "n1" {[ 1 := ∅ ]} ]}.

Lemma test_client_transparent_witness :
  exists c' h' answers, ask_client_all 1 c0 h0 [QSet 5 "k" "v" 9; QGet 6 "k"; QDelete ""] = Ret (c', h', answers)
    /\ requestsSent c' = 6.
Proof.
  rewrite (test_client_transparent 1 c0 h0 _ 0 (mkServer "n1" {[ 1 := ∅ ]})).
  - eexists _, _, _. split; [vm_compute; reflexivity|]. reflexivity.
  - repeat split.
  - reflexivity.
  - reflexivity.
  - split; [discriminate|reflexivity].
Defined.
