(* ===== verification/KvClient.v ===== *)
(** * lab4/kv/client.go and lab4/kv/clientpool.go: the client of the store

    The client is written against two interfaces of the source: [ClientPool]
    (a connection to a node by its name) and the generated [proto.KvClient]
    (the remote calls). Here they are the class [KvNodes], and what the
    client may rely on is the class [KvNodesLaws]; the theorems about the
    client are proved from the laws. At the end of the file the laws are
    discharged by a network of the servers of KvServer.v reached through a
    [GrpcClientPool].

    [kv.Set] and [kv.Delete] call all replicas in parallel and wait for all
    of them. The calls of one request go to different nodes, so an execution
    is a sequence of them: [order] is the order in which they complete, a
    permutation of the replicas. [kv.Get] starts at a random replica, the
    argument [start]. *)

From S2P Require Import Prelude Fnv ShardMap KvServer.
From Stdlib Require Import String.
From stdpp Require Import prelude gmap strings pretty.
Local Open Scope Z_scope.

(** A remote call may panic in the process of the caller, when the pool has
    handed out a nil client. *)
Class KvNodes (W : Type) : Type := {
  GetClient : W -> string -> W * option error;
  client_Get : W -> string -> string -> go (W * (GetResponse * option error));
  client_Set : W -> string -> string -> string -> Z -> go (W * option error);
  client_Delete : W -> string -> string -> go (W * option error)
}.

Section Client.
Context {W : Type} `{KvNodes W}.

Definition err_no_nodes : error := mkError NotFound "no nodes available".

(** The loop of [Get]: the first replica that answers, or the last error. *)
Fixpoint get_loop (w : W) (nodes : list string) (start : Z) (key : string)
    (lastErr : option error) (i fuel : nat) : go (W * (string * bool * option error)) :=
  match fuel with
  | O => Ret (w, (""%string, false, lastErr))
  | S fuel' =>
      let! node := go_index nodes ((Z.of_nat i + start) mod len nodes) in
      match GetClient w node with
      | (w', Some err) => get_loop w' nodes start key (Some err) (S i) fuel'
      | (w', None) =>
          let! '(w'', (response, err)) := client_Get w' node key in
          match err with
          | None => Ret (w'', (Value response, WasFound response, None))
          | Some err => get_loop w'' nodes start key (Some err) (S i) fuel'
          end
      end
  end.

Definition kv_Get (w : W) (sm : ShardMapState) (start : Z) (key : string)
    : go (W * (string * bool * option error)) :=
  let! shardID := GetShardForKey key (NumShards sm) in
  let available_nodes := NodesForShard sm shardID in
  if len available_nodes =? 0 then Ret (w, (""%string, false, Some err_no_nodes))
  else get_loop w available_nodes start key None 0 (length available_nodes).

(** One goroutine of [Set] or [Delete]: connect, then [call]. *)
Definition replica_call (call : W -> string -> go (W * option error)) (w : W) (node : string)
    : go (W * option error) :=
  match GetClient w node with
  | (w', Some err) => Ret (w', Some err)
  | (w', None) => call w' node
  end.

(** All of them, in the order [order]; the errors go to a channel with room
    for all, and the first one is returned. *)
Fixpoint call_all (call : W -> string -> go (W * option error)) (w : W) (order : list string)
    : go (W * option error) :=
  match order with
  | [] => Ret (w, None)
  | node :: rest =>
      let! '(w1, e1) := replica_call call w node in
      let! '(w2, e2) := call_all call w1 rest in
      Ret (w2, match e1 with Some err => Some err | None => e2 end)
  end.

Definition kv_write (call : W -> string -> go (W * option error)) (w : W) (sm : ShardMapState)
    (order : list string) (key : string) : go (W * option error) :=
  let! shardID := GetShardForKey key (NumShards sm) in
  if len (NodesForShard sm shardID) =? 0 then Ret (w, Some err_no_nodes)
  else call_all call w order.

Definition kv_Set (w : W) (sm : ShardMapState) (order : list string) (key value : string) (ttl : Z)
    : go (W * option error) :=
  let ttlMs := Z.quot ttl 1000000 in
  kv_write (fun w node => client_Set w node key value ttlMs) w sm order key.

Definition kv_Delete (w : W) (sm : ShardMapState) (order : list string) (key : string)
    : go (W * option error) :=
  kv_write (fun w node => client_Delete w node key) w sm order key.

(** The node answers a request for the key without an error. *)
Definition responds (w : W) (node key : string) : Prop :=
  exists w' r, client_Get w node key = Ret (w', (r, None)).

End Client.

(** ** What the client relies on

    [served w t node key] is what the node would answer at time [t]; a client
    that [GetClient] hands out for a node that [has_client] is not nil. *)
Class KvView (W : Type) : Type := {
  w_now : W -> Z;
  w_wf : W -> Prop;
  has_client : W -> string -> Prop;
  advance : W -> Z -> W;
  served : W -> Z -> string -> string -> option string
}.

Section View.
Context {W : Type} `{KvNodes W, KvView W}.

(** Nothing about the nodes has changed. *)
Record same_nodes (w w' : W) : Prop := {
  sn_wf : w_wf w';
  sn_now : w_now w' = w_now w;
  sn_has : forall n, has_client w n -> has_client w' n;
  sn_served : forall t n k, served w' t n k = served w t n k;
  sn_client : forall n, (GetClient w' n).2 = (GetClient w n).2;
  sn_responds : forall n k, responds w' n k <-> responds w n k
}.

(** A write to [node] that succeeds sets what the node serves for [key] to
    [val]; one that fails may have been executed or not. Nothing else
    changes. *)
Record written (w w' : W) (node key : string) (e : option error) (val : Z -> option string) : Prop := {
  wr_wf : w_wf w';
  wr_now : w_now w' = w_now w;
  wr_has : forall n, has_client w n -> has_client w' n;
  wr_else : forall t n k, (n, k) <> (node, key) -> served w' t n k = served w t n k;
  wr_val : e = None -> forall t, served w' t node key = val t
}.

Lemma same_nodes_refl w : w_wf w -> same_nodes w w.
Proof. by split. Qed.

Lemma same_nodes_trans w1 w2 w3 : same_nodes w1 w2 -> same_nodes w2 w3 -> same_nodes w1 w3.
Proof.
  intros [] []. split; auto; [congruence|..]; intros; etrans; eauto.
Qed.

End View.

(** Connecting and reading change no node. *)
Class KvNodesLaws (W : Type) `{KvNodes W, KvView W} : Prop := {
  connect_law w node : w_wf w -> same_nodes w (GetClient w node).1;
  get_law w node key : w_wf w -> has_client w node -> (GetClient w node).2 = None ->
    exists w' resp e, client_Get w node key = Ret (w', (resp, e)) /\ same_nodes w w'
      /\ (e = None -> resp = response_of (served w (w_now w) node key));
  set_law w node key v ttlMs : w_wf w -> has_client w node -> (GetClient w node).2 = None ->
    exists w' e, client_Set w node key v ttlMs = Ret (w', e)
      /\ written w w' node key e (fun t => if Milliseconds (t - w_now w) <? ttlMs then Some v else None);
  delete_law w node key : w_wf w -> has_client w node -> (GetClient w node).2 = None ->
    exists w' e, client_Delete w node key = Ret (w', e) /\ written w w' node key e (fun _ => None);
  advance_law w t : w_wf w -> w_now w <= t ->
    w_wf (advance w t) /\ w_now (advance w t) = t
    /\ (forall n, has_client w n -> has_client (advance w t) n)
    /\ (forall t' n k, t <= t' -> served (advance w t) t' n k = served w t' n k)
}.

Section ClientTheorems.
Context `{KvNodesLaws W}.

(** A replica answers: the connection and the call both succeed. *)
Definition answers (w : W) (node key : string) : Prop :=
  (GetClient w node).2 = None /\ responds w node key.

(** What went wrong at a replica: the connection, or the call. *)
Definition fails (w : W) (node key : string) (err : error) : Prop :=
  (GetClient w node).2 = Some err
  \/ ((GetClient w node).2 = None
      /\ exists w' r, client_Get (GetClient w node).1 node key = Ret (w', (r, Some err))).

Lemma same_answers w w' n k : same_nodes w w' -> answers w' n k <-> answers w n k.
Proof. intros [? ? ? ? Hc Hr]. unfold answers. by rewrite Hc, Hr. Qed.

(** One iteration: the replica answers, or the loop goes on. *)
Lemma get_loop_step w nodes start key lastErr i fuel :
  w_wf w -> nodes <> [] -> (forall n, n ∈ nodes -> has_client w n) ->
  exists node, nodes !! Z.to_nat ((Z.of_nat i + start) mod len nodes) = Some node /\
    ((exists w', get_loop w nodes start key lastErr i (S fuel) =
        Ret (w', (Value (response_of (served w (w_now w) node key)),
                  WasFound (response_of (served w (w_now w) node key)), None)) /\ answers w node key)
     \/ (exists w1 err, get_loop w nodes start key lastErr i (S fuel) =
           get_loop w1 nodes start key (Some err) (S i) fuel /\ same_nodes w w1 /\ fails w node key err
           /\ ~ answers w node key)).
Proof.
  intros Hwf Hne Hhas. assert (0 <= (Z.of_nat i + start) mod len nodes < len nodes) as Hb.
  { apply Z.mod_pos_bound. unfold len. destruct nodes; [done|cbn; lia]. }
  destruct (go_index_returns nodes ((Z.of_nat i + start) mod len nodes) Hb) as [node Hnode].
  cbn [get_loop]. rewrite Hnode. cbn [mbind go_bind]. apply go_index_Ret in Hnode as [_ Hnode].
  exists node. split; [done|]. pose proof (connect_law w node Hwf) as Hc.
  destruct (GetClient w node) as [w1 e1] eqn:Eg. cbn in Hc.
  destruct e1 as [err|].
  { right. exists w1, err. split; [done|]. split; [done|]. split; [left; by rewrite Eg|].
    intros [Ha _]. by rewrite Eg in Ha. }
  pose proof (list_elem_of_lookup_2 _ _ _ Hnode) as Hin.
  assert ((GetClient w1 node).2 = None) as Hg1 by (by rewrite (sn_client _ _ Hc), Eg).
  destruct (get_law w1 node key (sn_wf _ _ Hc) (sn_has _ _ Hc _ (Hhas _ Hin)) Hg1)
    as (w2 & resp & e & Er & Hs & Hv). rewrite Er. cbn [mbind go_bind]. destruct e as [err|].
  - right. exists w2, err. split; [done|]. split; [by eapply same_nodes_trans|].
    split; [right; rewrite Eg; cbn; eauto|]. intros [_ Ha]. rewrite <- (sn_responds _ _ Hc) in Ha. destruct Ha as (? & ? & Ha). congruence.
  - left. exists w2. rewrite (Hv eq_refl), (sn_served _ _ Hc), (sn_now _ _ Hc). split; [done|].
    split; [by rewrite Eg|]. rewrite <- (sn_responds _ _ Hc). by exists w2, resp.
Qed.

Lemma get_loop_spec w nodes start key lastErr i fuel :
  w_wf w -> nodes <> [] -> (forall n, n ∈ nodes -> has_client w n) ->
  exists w' v found e, get_loop w nodes start key lastErr i fuel = Ret (w', (v, found, e))
    /\ ((exists node, e = None /\ node ∈ nodes /\ answers w node key /\
          mkGetResponse v found = response_of (served w (w_now w) node key))
        \/ (v = ""%string /\ found = false /\ (fuel = 0%nat -> e = lastErr)
            /\ (fuel <> 0%nat -> exists w1 node err, e = Some err /\ same_nodes w w1 /\ fails w1 node key err
                 /\ nodes !! Z.to_nat ((Z.of_nat (i + fuel - 1) + start) mod len nodes) = Some node)
            /\ forall j node, (i <= j < i + fuel)%nat ->
                 nodes !! Z.to_nat ((Z.of_nat j + start) mod len nodes) = Some node ->
                 ~ answers w node key)).
Proof.
  intros Hwf Hne Hhas. revert w lastErr i Hwf Hhas. induction fuel as [|fuel IH]; intros w lastErr i Hwf Hhas.
  { exists w, ""%string, false, lastErr. split; [done|]. right. split_and!; [done..|]. intros; lia. }
  destruct (get_loop_step w nodes start key lastErr i fuel Hwf Hne Hhas)
    as (node & Hnode & [(w' & -> & Ha)|(w1 & err & -> & Hs & Hf & Hna)]).
  { eexists _, _, _, _. split; [done|]. left. exists node. split; [done|].
    split; [by eapply list_elem_of_lookup_2|]. split; [done|]. by destruct (response_of _). }
  destruct (IH w1 (Some err) (S i) (sn_wf _ _ Hs)) as (w' & v & found & e & Hl & Hor).
  { intros n Hn. by apply (sn_has _ _ Hs), Hhas. }
  exists w', v, found, e. split; [done|].
  destruct Hor as [(n & -> & Hn & Han & Hv)|(-> & -> & He0 & He & Hall)].
  - left. exists n. by rewrite <- (same_answers w w1), <- (sn_served _ _ Hs), <- (sn_now _ _ Hs).
  - right. split_and!; [done|done|done| |].
    + intros _. destruct fuel as [|fuel'].
      * rewrite He0 by done. exists w, node, err. replace (i + 1 - 1)%nat with i by lia.
        split_and!; [done|by apply same_nodes_refl|done|done].
      * destruct He as (w2 & n & err' & -> & Hs2 & Hf2 & Hn2); [done|]. exists w2, n, err'.
        replace (i + S (S fuel') - 1)%nat with (S i + S fuel' - 1)%nat by lia.
        split_and!; [done|by eapply same_nodes_trans|done|done].
    + intros j n Hj Hn. destruct (decide (j = i)) as [->|]; [congruence|].
      rewrite <- (same_answers w w1) by done. apply (Hall j); [lia|done].
Qed.

(** The replica that the loop asks last, when no other answers *)
Definition last_tried (sm : ShardMapState) (shard start : Z) : option string :=
  NodesForShard sm shard !! Z.to_nat ((len (NodesForShard sm shard) - 1 + start) mod len (NodesForShard sm shard)).

Lemma kv_Get_spec (w : W) sm start key shard :
  w_wf w -> GetShardForKey key (NumShards sm) = Ret shard -> NodesForShard sm shard <> [] ->
  (forall node, node ∈ NodesForShard sm shard -> has_client w node) ->
  exists w' v found e, kv_Get w sm start key = Ret (w', (v, found, e))
    /\ (e = None <-> exists node, node ∈ NodesForShard sm shard /\ answers w node key)
    /\ match e with
       | None => exists node, node ∈ NodesForShard sm shard /\ answers w node key
           /\ mkGetResponse v found = response_of (served w (w_now w) node key)
       | Some err => v = ""%string /\ found = false
           /\ exists w1 last, same_nodes w w1 /\ last_tried sm shard start = Some last /\ fails w1 last key err
       end.
Proof.
  intros Hwf Hsh Hne Hhas. unfold kv_Get, last_tried. rewrite Hsh. cbn. set (nodes := NodesForShard sm shard) in *.
  assert (length nodes <> 0%nat) as Hlen by (by destruct nodes).
  destruct (Z.eqb_spec (len nodes) 0) as [E|_]; [destruct nodes; done|].
  destruct (get_loop_spec w nodes start key None 0 (length nodes) Hwf Hne Hhas)
    as (w' & v & found & e & -> & Hor). exists w', v, found, e. split; [done|].
  destruct Hor as [(node & -> & Hn & Ha & Hv)|(-> & -> & _ & He & Hall)].
  { split; [split; eauto|eauto]. }
  destruct (He Hlen) as (w1 & last & err & -> & Hs & Hf & Hlast). split.
  - split; [done|]. intros (node & Hin & Ha). exfalso. apply list_elem_of_lookup in Hin as [k Hk].
    destruct (rotation_covers (len nodes) start (Z.of_nat k)) as (i & Hi & Hmod).
    { apply lookup_lt_Some in Hk. unfold len. lia. }
    apply (Hall i node); [unfold len in Hi; lia| |done]. by rewrite Z.add_comm, Hmod, Nat2Z.id.
  - split_and!; [done|done|]. exists w1, last. split_and!; [done| |done]. rewrite <- Hlast. do 3 f_equal.
    unfold len. lia.
Qed.

(** A call that writes [val] to its node. *)
Definition writes (call : W -> string -> go (W * option error)) (key : string) (T : Z)
    (val : Z -> option string) : Prop :=
  forall w node, w_wf w -> w_now w = T -> has_client w node -> (GetClient w node).2 = None ->
    exists w' e, call w node = Ret (w', e) /\ written w w' node key e val.

Lemma replica_call_writes call key T val w node :
  writes call key T val -> w_wf w -> w_now w = T -> has_client w node ->
  exists w' e, replica_call call w node = Ret (w', e) /\ written w w' node key e val.
Proof.
  intros Hcall Hwf HT Hhas. unfold replica_call. pose proof (connect_law w node Hwf) as Hc.
  destruct (GetClient w node) as [w1 e1] eqn:Eg. cbn in Hc. destruct e1 as [err|].
  - exists w1, (Some err). split; [done|]. split; [apply Hc..| |done]. intros. apply Hc.
  - destruct (Hcall w1 node) as (w2 & e & Ec & [Hwf2 Hnow2 Hhas2 Hs2 Hv2]);
      [apply Hc|by rewrite (sn_now _ _ Hc)|by apply Hc|by rewrite (sn_client _ _ Hc), Eg|].
    exists w2, e. split; [done|]. split; [done| | | |done].
    + by rewrite Hnow2, (sn_now _ _ Hc).
    + intros n Hn. by apply Hhas2, Hc.
    + intros t n k Hne. by rewrite Hs2, (sn_served _ _ Hc).
Qed.

(** All replicas are called, whatever some of them answer. *)
Lemma call_all_writes call key T val w order :
  writes call key T val -> w_wf w -> w_now w = T -> NoDup order ->
  (forall n, n ∈ order -> has_client w n) ->
  exists w' e, call_all call w order = Ret (w', e)
    /\ w_wf w' /\ w_now w' = T /\ (forall n, has_client w n -> has_client w' n)
    /\ (forall t n, n ∉ order -> served w' t n key = served w t n key)
    /\ (e = None -> forall t n, n ∈ order -> served w' t n key = val t).
Proof.
  intros Hcall. revert w. induction order as [|node order IH]; intros w Hwf HT Hnd Hhas; cbn [call_all].
  { exists w, None. split_and!; auto. intros _ t n Hn. by apply elem_of_nil in Hn. }
  apply NoDup_cons in Hnd as [Hnode Hnd].
  destruct (replica_call_writes call key T val w node Hcall Hwf HT) as (w1 & e1 & -> & Hw1); [apply Hhas; left|].
  destruct Hw1 as [Hwf1 Hnow1 Hhas1 Ho1 Hv1]. cbn [mbind go_bind].
  destruct (IH w1 Hwf1) as (w2 & e2 & -> & Hwf2 & Hnow2 & Hhas2 & Ho2 & Hv2);
    [congruence|done|intros n Hn; apply Hhas1, Hhas; by right|].
  cbn [mbind go_bind]. eexists _, _. split; [done|]. split_and!; auto.
  - intros t n [Hn Hno]%not_elem_of_cons. rewrite Ho2, Ho1 by (done || congruence). done.
  - destruct e1; [done|]. intros E t n [->|Hn]%elem_of_cons; [|by apply Hv2].
    rewrite Ho2 by done. by apply Hv1.
Qed.

Lemma kv_write_then_get call val (w w' w2 w'' : W) sm order key start t v found :
  writes call key (w_now w) val -> w_wf w ->
  (forall shard, GetShardForKey key (NumShards sm) = Ret shard -> order ≡ₚ NodesForShard sm shard) ->
  NoDup order -> (forall n, n ∈ order -> has_client w n) ->
  kv_write call w sm order key = Ret (w', None) ->
  w_now w <= t -> w2 = advance w' t ->
  kv_Get w2 sm start key = Ret (w'', (v, found, None)) ->
  mkGetResponse v found = response_of (val t).
Proof.
  intros Hw Hwf Hord Hnd Hhas Hset Ht -> Hget. unfold kv_write in Hset.
  apply bind_Ret in Hset as (shard & Hsh & Hset). specialize (Hord shard Hsh).
  destruct (Z.eqb_spec (len (NodesForShard sm shard)) 0) as [E|E]; [done|].
  destruct (call_all_writes _ _ _ _ w order Hw Hwf eq_refl Hnd Hhas) as (w1 & e1 & E1 & Hwf' & Hnow' & Hhas' & _ & Hv).
  rewrite E1 in Hset. injection Hset as -> ->. specialize (Hv eq_refl).
  destruct (advance_law w' t Hwf') as (Hwf2 & Hnow2 & Hhas2 & Hs2); [lia|].
  destruct (kv_Get_spec (advance w' t) sm start key shard Hwf2 Hsh) as (x & v0 & f0 & e0 & Hg & _ & Hn).
  { intros En. by rewrite En in E. }
  { intros n Hn. apply Hhas2, Hhas', Hhas. by rewrite Hord. }
  rewrite Hget in Hg. injection Hg as <- <- <- <-. destruct Hn as (node & Hin & _ & ->).
  rewrite Hnow2, Hs2 by lia. f_equal. apply Hv. by rewrite Hord.
Qed.

(** C25: [kv.Get] is available as long as one replica is: it succeeds exactly
    when some replica of the key's shard answers, whatever the random start,
    and then returns what a replica that answers serves; otherwise it returns
    the error of the replica it tried last, the one before the start in the
    rotation, where either the connection or the call failed with it. *)
Theorem kv_Get_available (w : W) sm start key shard :
  w_wf w -> GetShardForKey key (NumShards sm) = Ret shard -> NodesForShard sm shard <> [] ->
  (forall node, node ∈ NodesForShard sm shard -> has_client w node) ->
  exists w' v found e, kv_Get w sm start key = Ret (w', (v, found, e))
    /\ (e = None <-> exists node, node ∈ NodesForShard sm shard /\ answers w node key)
    /\ match e with
       | None => exists node, node ∈ NodesForShard sm shard /\ answers w node key
           /\ mkGetResponse v found = response_of (served w (w_now w) node key)
       | Some err => v = ""%string /\ found = false
           /\ exists w1 last, same_nodes w w1 /\ last_tried sm shard start = Some last /\ fails w1 last key err
       end.
Proof. apply kv_Get_spec. Qed.

(** A value that was set, as it is read later. *)
Lemma kv_Set_reads (w w' w'' : W) sm order key value ttl start t v found :
  w_wf w ->
  (forall shard, GetShardForKey key (NumShards sm) = Ret shard -> order ≡ₚ NodesForShard sm shard) ->
  NoDup order -> (forall n, n ∈ order -> has_client w n) ->
  kv_Set w sm order key value ttl = Ret (w', None) ->
  w_now w <= t ->
  kv_Get (advance w' t) sm start key = Ret (w'', (v, found, None)) ->
  mkGetResponse v found =
    response_of (if Milliseconds (t - w_now w) <? Z.quot ttl 1000000 then Some value else None).
Proof.
  intros Hwf Hord Hnd Hhas Hset Ht Hget.
  assert (writes (fun w node => client_Set w node key value (Z.quot ttl 1000000)) key (w_now w)
    (fun t => if Milliseconds (t - w_now w) <? Z.quot ttl 1000000 then Some value else None)) as Hw.
  { intros w0 node Hwf0 <-. by apply set_law. }
  exact (kv_write_then_get _ _ w w' _ w'' sm order key start t v found Hw Hwf Hord Hnd Hhas Hset Ht eq_refl Hget).
Qed.

(** A value that was set is read back: when [kv.Set] has returned without
    an error, then until the time to live (in whole milliseconds) has passed
    every [kv.Get] that succeeds returns that value, whichever replica it
    reaches. *)
Theorem kv_Set_then_Get (w w' w'' : W) sm order key value ttl start t v found :
  w_wf w ->
  (forall shard, GetShardForKey key (NumShards sm) = Ret shard -> order ≡ₚ NodesForShard sm shard) ->
  NoDup order -> (forall n, n ∈ order -> has_client w n) ->
  kv_Set w sm order key value ttl = Ret (w', None) ->
  w_now w <= t -> Milliseconds (t - w_now w) < Z.quot ttl 1000000 ->
  kv_Get (advance w' t) sm start key = Ret (w'', (v, found, None)) ->
  v = value /\ found = true.
Proof.
  intros Hwf Hord Hnd Hhas Hset Ht Hlt Hget.
  pose proof (kv_Set_reads w w' w'' sm order key value ttl start t v found Hwf Hord Hnd Hhas Hset Ht Hget) as E.
  rewrite (proj2 (Z.ltb_lt _ _) Hlt) in E. by simplify_eq/=.
Qed.

(** A deleted key is gone: when [kv.Delete] has returned without an
    error, every later [kv.Get] that succeeds finds nothing. *)
Theorem kv_Delete_then_Get (w w' w'' : W) sm order key start t v found :
  w_wf w ->
  (forall shard, GetShardForKey key (NumShards sm) = Ret shard -> order ≡ₚ NodesForShard sm shard) ->
  NoDup order -> (forall n, n ∈ order -> has_client w n) ->
  kv_Delete w sm order key = Ret (w', None) -> w_now w <= t ->
  kv_Get (advance w' t) sm start key = Ret (w'', (v, found, None)) ->
  v = ""%string /\ found = false.
Proof.
  intros Hwf Hord Hnd Hhas Hdel Ht Hget.
  assert (writes (fun w node => client_Delete w node key) key (w_now w) (fun _ => None)) as Hw.
  { intros w0 node Hwf0 _. by apply delete_law. }
  pose proof (kv_write_then_get _ _ w w' _ w'' sm order key start t v found Hw Hwf Hord Hnd Hhas Hdel Ht eq_refl Hget) as E.
  cbn in E. by injection E as -> ->.
Qed.

End ClientTheorems.

(** ** The pool of connections

    [makeConnection] dials with gRPC, which is not part of the repository: it
    is a parameter, from an address to a client or an error. *)
Module Pool.
Section Pool.
Context {Client : Type} (makeConnection : string -> Client + error).

Record GrpcClientPool : Type := mkPool { clients : gmap string Client }.

Definition MakeClientPool : GrpcClientPool := mkPool ∅.

(** [fmt.Sprintf("%s:%d", nodeInfo.Address, nodeInfo.Port)] *)
Definition address (nodeInfo : NodeInfo) : string :=
  (Address nodeInfo +:+ ":" +:+ pretty (Port nodeInfo))%string.

Definition err_unknown (nodeName : string) : error :=
  mkError Unknown ("no node named: " +:+ nodeName)%string.

Definition pool_GetClient (pool : GrpcClientPool) (nodes : gmap string NodeInfo) (nodeName : string)
    : GrpcClientPool * (Client + error) :=
  match clients pool !! nodeName with
  | Some client => (pool, inl client)
  | None =>
      match nodes !! nodeName with
      | None => (pool, inr (err_unknown nodeName))
      | Some nodeInfo =>
          match makeConnection (address nodeInfo) with
          | inr err => (pool, inr err)
          | inl client => (mkPool (<[nodeName := client]> (clients pool)), inl client)
          end
      end
  end.

(** A sequence of calls, each with the nodes the shard map holds then. *)
Fixpoint calls (pool : GrpcClientPool) (l : list (gmap string NodeInfo * string))
    : GrpcClientPool :=
  match l with
  | [] => pool
  | (nodes, n) :: l' => calls (pool_GetClient pool nodes n).1 l'
  end.

Lemma pool_GetClient_keeps pool nodes n m c :
  clients pool !! m = Some c -> clients (pool_GetClient pool nodes n).1 !! m = Some c.
Proof.
  intros Hm. unfold pool_GetClient. destruct (clients pool !! n) eqn:E; [done|].
  destruct (nodes !! n); [|done]. destruct (makeConnection _); [|done]. cbn.
  rewrite lookup_insert_ne by congruence. done.
Qed.

(** Connections are cached and errors are not: once [GetClient] has
    returned a client for a node, every later call for that node returns the
    same client, whatever the shard map says by then; a call that fails
    leaves the pool as it was, so the next one tries again. *)
Theorem pool_caches pool nodes n :
  match pool_GetClient pool nodes n with
  | (pool', inl c) => forall l nodes', (pool_GetClient (calls pool' l) nodes' n).2 = inl c
  | (pool', inr _) => pool' = pool
  end.
Proof.
  destruct (pool_GetClient pool nodes n) as [pool' [c|e]] eqn:E.
  - assert (clients pool' !! n = Some c) as Hc.
    { unfold pool_GetClient in E. repeat (case_match; simplify_eq/=); [done|]. apply lookup_insert_eq. }
    intros l nodes'. assert (clients (calls pool' l) !! n = Some c) as Hl.
    { clear E. revert pool' Hc. induction l as [|[ns m] l IH]; intros pool' Hc; [done|]. cbn.
      by apply IH, pool_GetClient_keeps. }
    unfold pool_GetClient. by rewrite Hl.
  - unfold pool_GetClient in E. by repeat (case_match; simplify_eq/=).
Qed.

End Pool.
Arguments GrpcClientPool Client : clear implicits.
End Pool.
