(* ===== verification/KvSystem.v ===== *)
(** * The servers of KvServer.v behind the interface of KvClient.v

    A network of key-value nodes reached through a [GrpcClientPool]: the
    instance of [KvNodes] the program runs with, and the proof that it obeys
    [KvNodesLaws]. A client is the address it was dialled with; dialling does
    not contact the node (gRPC connects lazily), a call to an address that is
    not reachable fails with [Unavailable], and a handler that panics answers
    nothing. Between requests time passes and every shard is swept. *)

From Stdlib Require Import String.
From stdpp Require Import prelude gmap strings pretty.
From S2P Require Import Prelude Fnv ShardMap KvServer KvClient.
Import Pool.
Local Open Scope Z_scope.

Record net : Type := mkNet {
  nt_now : Z;
  nt_map : ShardMapState;
  nt_pool : GrpcClientPool string;
  nt_servers : gmap string KvServer;   (* by address *)
  nt_up : string -> bool
}.

Definition dial (addr : string) : string + error := inl addr.
Definition err_unavailable : error := mkError Unavailable "unavailable".

Definition addr_of (w : net) (node : string) : option string := address <$> Nodes (nt_map w) !! node.

(** The server a call to [node] reaches. *)
Definition reached (w : net) (node : string) : option (string * KvServer) :=
  addr ← addr_of w node;
  srv ← nt_servers w !! addr;
  if nt_up w addr then Some (addr, srv) else None.

Definition set_server (w : net) (addr : string) (srv : KvServer) : net :=
  mkNet (nt_now w) (nt_map w) (nt_pool w) (<[addr := srv]> (nt_servers w)) (nt_up w).
Definition set_pool (w : net) (p : GrpcClientPool string) : net :=
  mkNet (nt_now w) (nt_map w) p (nt_servers w) (nt_up w).

Definition net_GetClient (w : net) (node : string) : net * option error :=
  match pool_GetClient dial (nt_pool w) (Nodes (nt_map w)) node with
  | (p, inl _) => (set_pool w p, None)
  | (p, inr e) => (set_pool w p, Some e)
  end.

Definition net_Get (w : net) (node key : string) : GetResponse * option error :=
  match reached w node with
  | None => (no_value, Some err_unavailable)
  | Some (_, srv) =>
      match Get srv (NumShards (nt_map w)) (nt_now w) key with
      | Ret r => r
      | _ => (no_value, Some err_unavailable)
      end
  end.

Definition net_write (w : net) (node : string) (f : KvServer -> go (KvServer * option error))
    : net * option error :=
  match reached w node with
  | None => (w, Some err_unavailable)
  | Some (addr, srv) =>
      match f srv with
      | Ret (srv', e) => (set_server w addr srv', e)
      | _ => (w, Some err_unavailable)
      end
  end.

#[export] Instance net_nodes : KvNodes net := {
  GetClient := net_GetClient;
  client_Get w node key := Ret (w, net_Get w node key);
  client_Set w node key v ttlMs :=
    Ret (net_write w node (fun srv => Set_ srv (NumShards (nt_map w)) (nt_now w) key v ttlMs));
  client_Delete w node key :=
    Ret (net_write w node (fun srv => Delete srv (NumShards (nt_map w)) key))
}.

Definition sweep_all (t : Z) (srv : KvServer) : KvServer :=
  set_shards (sweep t <$> availableShards srv) srv.

Definition net_advance (w : net) (t : Z) : net :=
  mkNet t (nt_map w) (nt_pool w) (sweep_all t <$> nt_servers w) (nt_up w).

Definition net_served (w : net) (t : Z) (node key : string) : option string :=
  addr ← addr_of w node;
  srv ← nt_servers w !! addr;
  serves srv (NumShards (nt_map w)) t key.

(** Names are bound to distinct addresses, cached clients are up to date, and
    there is a shard. *)
Definition net_wf (w : net) : Prop :=
  NumShards (nt_map w) <> 0
  /\ (forall n a, clients (nt_pool w) !! n = Some a -> addr_of w n = Some a)
  /\ (forall n1 n2 a, addr_of w n1 = Some a -> addr_of w n2 = Some a -> n1 = n2).

Lemma reached_Some w node addr srv :
  reached w node = Some (addr, srv) -> addr_of w node = Some addr /\ nt_servers w !! addr = Some srv.
Proof.
  unfold reached. destruct (addr_of w node) as [a|]; [|done]. cbn.
  destruct (nt_servers w !! a) as [s|] eqn:E; [|done]. cbn. destruct (nt_up w a); naive_solver.
Qed.

(** A write that reaches its node changes only what that node serves. *)
Lemma served_set_server w node addr srv srv' t n k :
  net_wf w -> addr_of w node = Some addr -> nt_servers w !! addr = Some srv ->
  net_served (set_server w addr srv') t n k =
    if decide (n = node) then serves srv' (NumShards (nt_map w)) t k else net_served w t n k.
Proof.
  intros (_ & _ & Hinj) Ha Hs. unfold net_served.
  change (addr_of (set_server w addr srv') n) with (addr_of w n).
  case_decide as E; [subst; rewrite Ha; cbn; by rewrite lookup_insert_eq|].
  destruct (addr_of w n) as [a|] eqn:Ea; [|done]. cbn. rewrite lookup_insert_ne; [done|].
  intros ->. apply E. by eapply Hinj.
Qed.

Lemma net_write_law w node f key (val : Z -> option string) :
  net_wf w ->
  (forall srv srv' e t k, f srv = Ret (srv', e) ->
     serves srv' (NumShards (nt_map w)) t k =
       match e with
       | None => if decide (k = key) then val t else serves srv (NumShards (nt_map w)) t k
       | Some _ => serves srv (NumShards (nt_map w)) t k
       end) ->
  let '(w', e) := net_write w node f in
  net_wf w' /\ nt_now w' = nt_now w
  /\ (forall t n k, (n, k) <> (node, key) -> net_served w' t n k = net_served w t n k)
  /\ (e = None -> forall t, net_served w' t node key = val t).
Proof.
  intros Hwf Hf. unfold net_write. destruct (reached w node) as [[addr srv]|] eqn:Er; [|done].
  apply reached_Some in Er as [Ha Hs]. destruct (f srv) as [[srv' e]| |] eqn:Ef; [|done|done].
  split; [done|]. split; [done|]. split.
  - intros t n k Hne. rewrite (served_set_server w node addr srv) by done. case_decide as En; [subst|done].
    rewrite (Hf _ _ _ t k Ef). unfold net_served. rewrite Ha. cbn. rewrite Hs. cbn.
    destruct e; [done|]. rewrite decide_False by congruence. done.
  - intros -> t. rewrite (served_set_server w node addr srv), decide_True by done.
    rewrite (Hf _ _ _ t key Ef). by rewrite decide_True.
Qed.

Lemma on_shard_fail server n key f server' e :
  n <> 0 -> on_shard server n key f = Ret (server', Some e) -> server' = server.
Proof. intros Hn H. by apply on_shard_ok in H as [[_ ?]|[? _]]. Qed.

Lemma Get_ok_serves server n now key r :
  n <> 0 -> Get server n now key = Ret (r, None) -> r = response_of (serves server n now key).
Proof.
  intros Hn Hg. destruct (decide (key = ""%string)) as [->|Hk]; [done|].
  assert (hosts server n key) as Hh.
  { unfold Get in Hg. rewrite decide_False, GetShardForKey_Ret in Hg by done. cbn in Hg.
    unfold hosts, shard_of. destruct (_ !! _); [done|]. done. }
  rewrite Get_serves in Hg by done. by injection Hg as <-.
Qed.

Lemma sweep_all_serves t srv n t' k : t <= t' -> serves (sweep_all t srv) n t' k = serves srv n t' k.
Proof.
  intros Ht. unfold serves, sweep_all. cbn. rewrite lookup_fmap.
  destruct (availableShards srv !! shard_of k n); [|done]. by apply sweep_lookup.
Qed.

Lemma net_connect_law w node : net_wf w ->
  let '(w', e) := net_GetClient w node in
  net_wf w' /\ nt_now w' = nt_now w
  /\ (forall t n k, net_served w' t n k = net_served w t n k)
  /\ (forall n, (net_GetClient w' n).2 = (net_GetClient w n).2)
  /\ (forall n k, net_Get w' n k = net_Get w n k).
Proof.
  intros (Hn & Hp & Hinj). unfold net_GetClient at 1. unfold pool_GetClient.
  assert (forall p, (forall n a, clients p !! n = Some a -> addr_of w n = Some a) ->
    net_wf (set_pool w p) /\ forall n, (net_GetClient (set_pool w p) n).2 =
      match Nodes (nt_map w) !! n with Some _ => None | None => Some (err_unknown n) end) as Hset.
  { intros p Hc. split; [done|]. intros n. unfold net_GetClient, pool_GetClient. cbn.
    destruct (clients p !! n) as [a|] eqn:E.
    - apply Hc in E. unfold addr_of in E. by destruct (Nodes (nt_map w) !! n).
    - by destruct (Nodes (nt_map w) !! n). }
  assert (forall p, (forall n a, clients p !! n = Some a -> addr_of w n = Some a) ->
    forall n, (net_GetClient (set_pool w p) n).2 = (net_GetClient w n).2) as Hsame.
  { intros p Hc n. rewrite (proj2 (Hset p Hc)). destruct w as [nw m po s u]. by rewrite <- (proj2 (Hset po Hp)). }
  destruct (clients (nt_pool w) !! node) as [a|] eqn:Ec.
  { split; [done|]. split; [done|]. split; [done|]. split; [by apply Hsame|done]. }
  destruct (Nodes (nt_map w) !! node) as [info|] eqn:En; cbn; cycle 1.
  { split; [by apply Hset|]. split; [done|]. split; [done|]. split; [by apply Hsame|done]. }
  assert (forall n a, clients (mkPool (<[node := address info]> (clients (nt_pool w)))) !! n = Some a ->
    addr_of w n = Some a) as Hc.
  { intros n a Ha. cbn in Ha. apply lookup_insert_Some in Ha as [[<- <-]|[_ ?]]; [|by apply Hp].
    unfold addr_of. by rewrite En. }
  split; [by apply Hset|]. split; [done|]. split; [done|]. split; [by apply Hsame|done].
Qed.

(** A pool hands out no nil client without an error. *)
#[export] Instance net_view : KvView net := {
  w_now := nt_now;
  w_wf := net_wf;
  has_client _ _ := True;
  advance := net_advance;
  served := net_served
}.

Lemma net_same w w' :
  net_wf w' -> nt_now w' = nt_now w ->
  (forall t n k, net_served w' t n k = net_served w t n k) ->
  (forall n, (net_GetClient w' n).2 = (net_GetClient w n).2) ->
  (forall n k, net_Get w' n k = net_Get w n k) -> same_nodes w w'.
Proof.
  intros Hwf Hnow Hs Hc Hg. split; auto. intros n k. unfold responds. cbn. rewrite Hg.
  split; intros (? & r & [= _ E]); eexists _, r; by rewrite E.
Qed.

Lemma net_written w node f key val :
  net_wf w ->
  (forall srv srv' e t k, f srv = Ret (srv', e) ->
     serves srv' (NumShards (nt_map w)) t k =
       match e with
       | None => if decide (k = key) then val t else serves srv (NumShards (nt_map w)) t k
       | Some _ => serves srv (NumShards (nt_map w)) t k
       end) ->
  exists w' e, Ret (net_write w node f) = Ret (w', e) /\ written w w' node key e val.
Proof.
  intros Hwf Hf. pose proof (net_write_law w node f key val Hwf Hf) as Hl.
  destruct (net_write w node f) as [w' e]. destruct Hl as (? & ? & ? & ?).
  exists w', e. split; [done|]. split; auto.
Qed.

#[export] Program Instance net_laws : KvNodesLaws net.
Next Obligation.
  intros w node Hwf. cbn in Hwf. pose proof (net_connect_law w node Hwf) as Hc. cbn.
  destruct (net_GetClient w node) as [w' e]. destruct Hc as (? & ? & ? & ? & ?). by apply net_same.
Qed.
Next Obligation.
  intros w node key Hwf _ _. cbn in Hwf. exists w, (net_Get w node key).1, (net_Get w node key).2.
  split; [cbn; by destruct (net_Get w node key)|]. split; [by apply net_same|]. destruct Hwf as (Hn & _).
  unfold net_Get. destruct (reached w node) as [[addr srv]|] eqn:Er; [|done].
  destruct (Get srv _ _ key) as [r| |] eqn:Eg; [|done|done]. destruct r as [r e]. cbn. intros ->.
  apply Get_ok_serves in Eg as ->; [|done]. apply reached_Some in Er as [Ha Hs].
  unfold net_served. rewrite Ha. cbn. by rewrite Hs.
Qed.
Next Obligation.
  intros w node key v ttlMs Hwf _ _. cbn. apply net_written; [done|]. intros srv srv' e t k Hf.
  destruct Hwf as [Hn _]. destruct e as [e|]; [by apply on_shard_fail in Hf as ->|].
  apply Set_serves in Hf as (_ & _ & _ & ->); [|done]. by case_decide.
Qed.
Next Obligation.
  intros w node key Hwf _ _. cbn. apply (net_written w node _ key (fun _ => None)); [done|]. intros srv srv' e t k Hf.
  destruct Hwf as [Hn _]. destruct e as [e|]; [by apply on_shard_fail in Hf as ->|].
  by apply Delete_serves in Hf as (_ & ->).
Qed.
Next Obligation.
  intros w t (Hn & Hp & Hinj) Ht. split; [done|]. split; [done|]. split; [done|].
  intros t' n k Ht'. cbn. unfold net_served.
  change (addr_of (net_advance w t) n) with (addr_of w n).
  destruct (addr_of w n) as [a|]; [|done]. cbn. rewrite lookup_fmap.
  destruct (nt_servers w !! a); [|done]. cbn. by apply sweep_all_serves.
Qed.

(** ** The client's theorems on a network of two replicas *)

Definition two_map : ShardMapState :=
  mkState {[ "n1"%string := mkNodeInfo "a" 1; "n2"%string := mkNodeInfo "b" 2 ]}
    {[ 1 := ["n1"; "n2"]%string ]} 2.

Definition two_net (s1 s2 : shardData) : net :=
  mkNet 5000000 two_map (mkPool ∅)
    {[ "a:1"%string := mkServer "n1" {[ 1 := s1 ]}; "b:2"%string := mkServer "n2" {[ 1 := s2 ]} ]}
    (fun addr => negb (String.eqb addr "b:2")).

(** The same network with both nodes reachable. *)
Definition all_up (w : net) : net :=
  mkNet (nt_now w) (nt_map w) (nt_pool w) (nt_servers w) (fun _ => true).

Lemma two_net_wf s1 s2 : net_wf (two_net s1 s2) /\ net_wf (all_up (two_net s1 s2)).
Proof.
  assert (forall n a, addr_of (two_net s1 s2) n = Some a ->
    n = "n1"%string /\ a = "a:1"%string \/ n = "n2"%string /\ a = "b:2"%string) as H.
  { intros n a Ha. unfold addr_of in Ha. apply fmap_Some in Ha as (i & Hi & ->). cbn in Hi.
    apply lookup_insert_Some in Hi as [[<- <-]|[_ Hi]]; [left; split; vm_compute; reflexivity|].
    apply lookup_singleton_Some in Hi as [<- <-]. right. split; vm_compute; reflexivity. }
  assert (net_wf (two_net s1 s2)) as Hw.
  { split; [done|]. split; [intros n a Hn; cbn in Hn; by rewrite lookup_empty in Hn|].
    intros n1 n2 a [[-> ->]|[-> ->]]%H [[-> ?]|[-> ?]]%H; done. }
  split; exact Hw.
Qed.

Lemma kv_Get_available_witness :
  exists w' v found e, kv_Get (two_net ∅ ∅) two_map 1 "k" = Ret (w', (v, found, e))
    /\ (e = None <-> exists node, node ∈ NodesForShard two_map 1 /\ answers (two_net ∅ ∅) node "k")
    /\ match e with
       | None => exists node, node ∈ NodesForShard two_map 1 /\ answers (two_net ∅ ∅) node "k"
           /\ mkGetResponse v found = response_of (served (two_net ∅ ∅) (w_now (two_net ∅ ∅)) node "k")
       | Some err => v = ""%string /\ found = false
           /\ exists w1 last, same_nodes (two_net ∅ ∅) w1 /\ last_tried two_map 1 1 = Some last /\ fails w1 last "k" err
       end.
Proof.
  apply (kv_Get_available (two_net ∅ ∅) two_map 1 "k" 1).
  - apply two_net_wf.
  - vm_compute. reflexivity.
  - vm_compute. discriminate.
  - intros node _. exact I.
Defined.

Lemma two_order shard :
  GetShardForKey "k" (NumShards two_map) = Ret shard -> ["n2"; "n1"]%string ≡ₚ NodesForShard two_map shard.
Proof. intros H. vm_compute in H. injection H as <-. vm_compute. apply perm_swap. Qed.

Lemma two_nodup : NoDup ["n2"; "n1"]%string.
Proof. apply (bool_decide_unpack _). vm_compute. exact I. Qed.

Definition after_set : net :=
  default (two_net ∅ ∅)
    match kv_Set (all_up (two_net ∅ ∅)) two_map ["n2"; "n1"]%string "k" "v" 30000000 with
    | Ret (w, None) => Some w | _ => None end.

Lemma kv_Set_then_Get_witness :
  exists w' v, kv_Get (advance after_set 20000000) two_map 1 "k" = Ret (w', (v, true, None))
    /\ v = "v"%string /\ true = true.
Proof.
  eexists _, _. split; [vm_compute; reflexivity|].
  refine (kv_Set_then_Get (all_up (two_net ∅ ∅)) after_set _ two_map ["n2"; "n1"]%string
    "k" "v" 30000000 1 20000000 _ true _ two_order two_nodup _ _ _ _ _).
  - apply two_net_wf.
  - intros n _. exact I.
  - vm_compute. reflexivity.
  - cbn. lia.
  - vm_compute. reflexivity.
  - vm_compute. reflexivity.
Defined.

Definition filled : net :=
  all_up (two_net {[ "k"%string := mkItem "v" 30 0 ]} {[ "k"%string := mkItem "v" 30 0 ]}).
Definition after_delete : net :=
  default (two_net ∅ ∅)
    match kv_Delete filled two_map ["n2"; "n1"]%string "k" with
    | Ret (w, None) => Some w | _ => None end.

Lemma kv_Delete_then_Get_witness :
  exists w' v, kv_Get (advance after_delete 20000000) two_map 0 "k" = Ret (w', (v, false, None))
    /\ v = ""%string /\ false = false.
Proof.
  eexists _, _. split; [vm_compute; reflexivity|].
  refine (kv_Delete_then_Get filled after_delete _ two_map ["n2"; "n1"]%string
    "k" 0 20000000 _ false _ two_order two_nodup _ _ _ _).
  - apply two_net_wf.
  - intros n _. exact I.
  - vm_compute. reflexivity.
  - cbn. lia.
  - vm_compute. reflexivity.
Defined.
