(* ===== verification/Strconv.v ===== *)
(** * strconv.ParseInt in base 10 at 64 bits, as lab4/cmd/client uses it *)

From Stdlib Require Import Ascii String.
From stdpp Require Import prelude strings pretty.
From S2P Require Import Prelude Fnv.
Local Open Scope Z_scope.

Inductive num_error : Type :=
| ErrSyntax
| ErrRange.

Definition maxUint64 : Z := 2 ^ 64 - 1.

Definition digit (c : ascii) : option Z :=
  let n := Z.of_N (N_of_ascii c) in
  if (48 <=? n) && (n <=? 57) then Some (n - 48) else None.

(** The loop of [ParseUint]: the number so far may not reach the cutoff, from
    which multiplying by ten overflows; an overflow ends the loop, whatever
    follows. *)
Fixpoint parse_digits (n : Z) (s : string) : Z + num_error :=
  match s with
  | EmptyString => inl n
  | String c s' =>
      match digit c with
      | None => inr ErrSyntax
      | Some d =>
          if maxUint64 / 10 + 1 <=? n then inr ErrRange
          else
            let n := uint_w 64 (n * 10) in
            let n1 := uint_w 64 (n + d) in
            if (n1 <? n) || (maxUint64 <? n1) then inr ErrRange else parse_digits n1 s'
      end
  end.

Definition ParseUint (s : string) : Z + num_error :=
  if decide (s = ""%string) then inr ErrSyntax else parse_digits 0 s.

Definition split_sign (s : string) : bool * string :=
  match s with
  | String c s' => if (c =? "+")%char then (false, s') else if (c =? "-")%char then (true, s') else (false, s)
  | EmptyString => (false, s)
  end.

Definition ParseInt (s : string) : Z + num_error :=
  if decide (s = ""%string) then inr ErrSyntax
  else
    let '(neg, s) := split_sign s in
    match ParseUint s with
    | inr e => inr e
    | inl un =>
        if negb neg && (2 ^ 63 <=? un) then inr ErrRange
        else if neg && (2 ^ 63 <? un) then inr ErrRange
        else
          let n := int_w 64 un in
          inl (if (neg : bool) then int_w 64 (- n) else n)
    end.

(** ** Decimal numbers *)

Lemma digit_char d : (d < 10)%N -> digit (pretty_N_char d) = Some (Z.of_N d).
Proof.
  intros Hd. assert (d = 0 \/ d = 1 \/ d = 2 \/ d = 3 \/ d = 4 \/ d = 5 \/ d = 6 \/ d = 7 \/ d = 8 \/ d = 9)%N
    as H by lia. by repeat destruct H as [->|H]; subst; vm_compute.
Qed.

Lemma char_no_sign d : (pretty_N_char d =? "+")%char = false /\ (pretty_N_char d =? "-")%char = false.
Proof. unfold pretty_N_char. repeat case_match; done. Qed.

(** One digit more. *)
Lemma parse_digit n d s :
  0 <= n <= maxUint64 -> (d < 10)%N ->
  parse_digits n (String (pretty_N_char d) s) =
    if n * 10 + Z.of_N d <=? maxUint64 then parse_digits (n * 10 + Z.of_N d) s else inr ErrRange.
Proof.
  intros Hn Hd. cbn [parse_digits]. rewrite digit_char by done. unfold maxUint64, uint_w in *.
  replace ((2 ^ 64 - 1) / 10 + 1) with 1844674407370955162 by (vm_compute; reflexivity).
  destruct (Z.leb_spec 1844674407370955162 n); [destruct (Z.leb_spec (n * 10 + Z.of_N d) (2 ^ 64 - 1)); [lia|done]|].
  rewrite (Z.mod_small (n * 10)) by lia. destruct (Z.leb_spec (n * 10 + Z.of_N d) (2 ^ 64 - 1)) as [Hle|Hgt].
  - rewrite Z.mod_small by lia. destruct (Z.ltb_spec (n * 10 + Z.of_N d) (n * 10)); [lia|].
    destruct (Z.ltb_spec (2 ^ 64 - 1) (n * 10 + Z.of_N d)); [lia|done].
  - replace ((n * 10 + Z.of_N d) mod 2 ^ 64) with (n * 10 + Z.of_N d - 2 ^ 64).
    + destruct (Z.ltb_spec (n * 10 + Z.of_N d - 2 ^ 64) (n * 10)); [done|lia].
    + rewrite <- (Z.mod_small (n * 10 + Z.of_N d - 2 ^ 64) (2 ^ 64)) at 1 by lia.
      rewrite Zminus_mod, Z_mod_same_full, Z.sub_0_r, Z.mod_mod by lia. done.
Qed.

Lemma parse_pretty x s :
  (0 < x)%N ->
  parse_digits 0 (pretty_N_go x s) = if Z.of_N x <=? maxUint64 then parse_digits (Z.of_N x) s else inr ErrRange.
Proof.
  revert s. induction (N.lt_wf_0 x) as [x _ IH]; intros s Hx. rewrite pretty_N_go_step by done.
  pose proof (N.div_mod x 10 ltac:(lia)) as Hdm. pose proof (N.mod_lt x 10 ltac:(lia)) as Hm.
  destruct (decide (x / 10 = 0)%N) as [E|E].
  - rewrite E, pretty_N_go_0, parse_digit by (try done; lia). replace (0 * 10 + Z.of_N (x mod 10)) with (Z.of_N x) by lia. done.
  - rewrite IH by (try apply N.div_lt; lia).
    destruct (Z.leb_spec (Z.of_N (x / 10)) maxUint64).
    + rewrite parse_digit by lia. replace (Z.of_N (x / 10) * 10 + Z.of_N (x mod 10)) with (Z.of_N x) by lia. done.
    + assert (x / 10 <= x)%N by (apply N.div_le_upper_bound; lia).
      destruct (Z.leb_spec (Z.of_N x) maxUint64); [lia|done].
Qed.

Lemma pretty_head x s : (0 < x)%N -> exists d s', pretty_N_go x s = String (pretty_N_char d) s'.
Proof.
  revert s. induction (N.lt_wf_0 x) as [x _ IH]; intros s Hx. rewrite pretty_N_go_step by done.
  destruct (decide (x / 10 = 0)%N) as [->|E]; [rewrite pretty_N_go_0; eauto|].
  apply IH; [apply N.div_lt; lia|by apply N.neq_0_lt_0].
Qed.

Lemma ParseUint_pretty x :
  (0 < x)%N -> ParseUint (pretty_N_go x "") = if Z.of_N x <=? maxUint64 then inl (Z.of_N x) else inr ErrRange.
Proof.
  intros Hx. unfold ParseUint. rewrite decide_False.
  - by rewrite parse_pretty.
  - destruct (pretty_head x "" Hx) as (d & s' & ->). done.
Qed.

(** Every number that fits is read back from its decimal representation, and
    every other number is refused as out of range. *)
Lemma ParseInt_pretty z :
  ParseInt (pretty z) = if decide (- 2 ^ 63 <= z < 2 ^ 63) then inl z else inr ErrRange.
Proof.
  destruct z as [|p|p].
  - reflexivity.
  - change (pretty (Z.pos p)) with (pretty_N_go (N.pos p) ""). unfold ParseInt.
    pose proof (ParseUint_pretty (N.pos p) ltac:(lia)) as Hp.
    destruct (pretty_head (N.pos p) "" ltac:(lia)) as (d & s' & E). rewrite E in *. rewrite decide_False by done.
    cbn [split_sign]. destruct (char_no_sign d) as [-> ->]. rewrite Hp. change (Z.of_N (N.pos p)) with (Z.pos p).
    unfold maxUint64. destruct (Z.leb_spec (Z.pos p) (2 ^ 64 - 1)); cbn [negb andb]; [|rewrite decide_False by lia; done].
    destruct (Z.leb_spec (2 ^ 63) (Z.pos p)); [rewrite decide_False by lia; done|].
    rewrite decide_True by lia. f_equal. apply int_w_id; lia.
  - change (pretty (Z.neg p)) with (String "-" (pretty_N_go (N.pos p) "")). unfold ParseInt.
    rewrite decide_False by done. cbn [split_sign]. change (("-" =? "+")%char) with false. change (("-" =? "-")%char) with true.
    cbn iota. rewrite ParseUint_pretty by lia. change (Z.of_N (N.pos p)) with (Z.pos p).
    unfold maxUint64. destruct (Z.leb_spec (Z.pos p) (2 ^ 64 - 1)); cbn [negb andb]; [|rewrite decide_False by lia; done].
    destruct (Z.ltb_spec (2 ^ 63) (Z.pos p)); [rewrite decide_False by lia; done|].
    rewrite decide_True by lia. f_equal. destruct (decide (Z.pos p = 2 ^ 63)) as [E|Hne].
    { rewrite E. change (int_w 64 (- int_w 64 (2 ^ 63))) with (- 2 ^ 63). lia. }
    rewrite (int_w_id 64 (Z.pos p)) by lia. rewrite int_w_id by lia. done.
Qed.
