(* ===== verification/KvCommands.v ===== *)
(** * lab4/cmd/client, lab4/cmd/server and lab4/logging

    The command line of the store: a client that gets, sets or deletes one key
    and a program that runs one node. [flag.Parse] has split the arguments;
    [watched] is what [WatchShardMapFile] gave. The client runs on the
    interface of KvClient.v. [logrus.Fatal] ends a program. *)

From Stdlib Require Import Ascii String.
From stdpp Require Import prelude gmap strings pretty.
From S2P Require Import Prelude Fnv ShardMap FileShardMap KvServer KvClient KvSystem Strconv.
Local Open Scope Z_scope.

(** ** logging.go *)

Inductive Level : Type := ErrorLevel | WarnLevel | InfoLevel | DebugLevel | TraceLevel.

(** [strings.ToLower] of an ASCII string. *)
Definition lower (c : ascii) : ascii :=
  let n := N_of_ascii c in if ((65 <=? n) && (n <=? 90))%N then ascii_of_N (n + 32) else c.
Fixpoint ToLower (s : string) : string :=
  match s with EmptyString => EmptyString | String c s' => String (lower c) (ToLower s') end.

Definition set_level (logLevel : string) (cur : Level) : Level :=
  let l := ToLower logLevel in
  if decide (l = "error"%string) then ErrorLevel
  else if decide (l = "warn"%string) then WarnLevel
  else if decide (l = "info"%string) then InfoLevel
  else if decide (l = "debug"%string) then DebugLevel
  else if decide (l = "trace"%string) then TraceLevel
  else cur.

Record logrus : Type := mkLogrus { level : Level; fullTimestamp : bool; output : option string }.

(** What logrus starts with. *)
Definition default_logrus : logrus := mkLogrus InfoLevel false None.

(** [OpenFile] says whether the log file can be opened; [None] is the fatal
    error. *)
Definition InitLogging (OpenFile : string -> bool) (logLevel logFile : string) (l : logrus) : option logrus :=
  let l := mkLogrus (set_level logLevel (level l)) true (output l) in
  if decide (logFile = ""%string) then Some l
  else if OpenFile logFile then Some (mkLogrus (level l) (fullTimestamp l) (Some logFile)) else None.

Lemma lower_idem c : lower (lower c) = lower c.
Proof. destruct c as [[] [] [] [] [] [] [] []]; vm_compute; reflexivity. Qed.

(** The case of the flag does not matter. *)
Theorem level_ignores_case s cur : set_level (ToLower s) cur = set_level s cur.
Proof.
  unfold set_level. assert (ToLower (ToLower s) = ToLower s) as ->; [|done].
  induction s as [|c s IH]; cbn; [done|]. by rewrite lower_idem, IH.
Qed.

(** ** cmd/client/client.go *)

Inductive outcome : Type :=
| Usage
| FatalShardMap
| FatalTtl (e : num_error)
| Printed (value : string)
| NoValueSet
| ErrorGetting (e : error)
| ErrorSetting (e : error)
| ErrorDeleting (e : error)
| Done.

(** [time.Duration(ttlMs) * time.Millisecond], at 64 bits *)
Definition ttl_duration (ttlMs : Z) : Z := int_w 64 (ttlMs * 1000000).

Section Client.
Context {W : Type} `{KvNodes W}.

(** [start] and [order] are those of [kv_Get] and [kv_Set]. *)
Definition client_main (watched : option FileShardMap) (start : Z) (order : list string) (w : W) (args : list string)
    : go (W * outcome) :=
  if len args <? 2 then Ret (w, Usage)
  else
    match watched ≫= GetState with
    | None => Ret (w, FatalShardMap)
    | Some sm =>
        let! subcommand := go_index args 0 in
        let! key := go_index args 1 in
        if decide (subcommand = "get"%string) then
          let! out := kv_Get w sm start key in
          Ret (out.1, match out.2 with
                      | (_, _, Some err) => ErrorGetting err
                      | (_, false, None) => NoValueSet
                      | (value, true, None) => Printed value
                      end)
        else if decide (subcommand = "set"%string) then
          if len args <? 4 then Ret (w, Usage)
          else
            let! value := go_index args 2 in
            let! arg3 := go_index args 3 in
            match ParseInt arg3 with
            | inr err => Ret (w, FatalTtl err)
            | inl ttlMs =>
                let! out := kv_Set w sm order key value (ttl_duration ttlMs) in
                Ret (out.1, match out.2 with Some err => ErrorSetting err | None => Done end)
            end
        else if decide (subcommand = "delete"%string) then
          let! out := kv_Delete w sm order key in
          Ret (out.1, match out.2 with Some err => ErrorDeleting err | None => Done end)
        else Ret (w, Usage)
    end.
End Client.

#[local] Arguments ParseInt : simpl never.
#[local] Arguments kv_Get : simpl never.
#[local] Arguments kv_Set : simpl never.

Section ClientTheorems.
Context `{KvNodesLaws W}.

Lemma kv_Get_returns (w : W) sm start key :
  w_wf w -> NumShards sm <> 0 -> (forall node, has_client w node) -> returns (kv_Get w sm start key).
Proof.
  intros Hw Hn Hhas. unfold kv_Get. rewrite GetShardForKey_Ret by done. cbn.
  destruct (Z.eqb_spec (len (NodesForShard sm (Z.rem (fnv32 key) (NumShards sm) + 1))) 0) as [E|E]; [by eexists|].
  destruct (get_loop_spec w (NodesForShard sm (Z.rem (fnv32 key) (NumShards sm) + 1)) start key None 0
    (length (NodesForShard sm (Z.rem (fnv32 key) (NumShards sm) + 1))) Hw) as (w' & v & f & e & -> & _); [|done|by eexists].
  intros En. by rewrite En in E.
Qed.

Lemma kv_write_returns call val (w : W) sm order key :
  writes call key (w_now w) val -> w_wf w -> NoDup order -> NumShards sm <> 0 -> (forall node, has_client w node) ->
  returns (kv_write call w sm order key).
Proof.
  intros Hc Hw Hnd Hn Hhas. unfold kv_write. rewrite GetShardForKey_Ret by done. cbn.
  destruct (_ =? 0); [by eexists|].
  destruct (call_all_writes call key (w_now w) val w order Hc Hw eq_refl Hnd) as (w' & e & -> & _); [done|by eexists].
Qed.

(** Whatever the arguments, the client ends with a message: no index is out of
    range, as long as the map has shards. *)
Theorem client_total watched sm start order (w : W) args :
  watched ≫= GetState = Some sm -> NumShards sm <> 0 -> w_wf w -> (forall node, has_client w node) -> NoDup order ->
  returns (client_main watched start order w args).
Proof.
  intros Hsm Hn Hw Hhas Hnd. unfold client_main. destruct (Z.ltb_spec (len args) 2) as [|Hl]; [by eexists|]. rewrite Hsm.
  destruct (go_index_returns args 0 ltac:(lia)) as [sub ->]. destruct (go_index_returns args 1 ltac:(lia)) as [key ->].
  cbn [mbind go_bind]. repeat case_decide; [..|by eexists].
  - destruct (kv_Get_returns w sm start key Hw Hn Hhas) as [? ->]. by eexists.
  - destruct (Z.ltb_spec (len args) 4) as [|Hl4]; [by eexists|].
    destruct (go_index_returns args 2 ltac:(lia)) as [v ->]. destruct (go_index_returns args 3 ltac:(lia)) as [a ->].
    cbn [mbind go_bind]. destruct (ParseInt a) as [ttl|e]; [|by eexists].
    unfold kv_Set. destruct (kv_write_returns (fun w node => client_Set w node key v (Z.quot (ttl_duration ttl) 1000000))
      (fun t => if Milliseconds (t - w_now w) <? Z.quot (ttl_duration ttl) 1000000 then Some v else None)
      w sm order key) as [? ->]; auto; [|by eexists].
    intros w0 node Hwf0 <-. by apply set_law.
  - unfold kv_Delete. destruct (kv_write_returns (fun w node => client_Delete w node key) (fun _ => None) w sm order key)
      as [? ->]; auto; [|by eexists].
    intros w0 node Hwf0 _. by apply delete_law.
Qed.

Lemma ttl_duration_ok ttlMs : 0 <= ttlMs * 1000000 < 2 ^ 63 -> Z.quot (ttl_duration ttlMs) 1000000 = ttlMs.
Proof. intros Ht. unfold ttl_duration. rewrite int_w_id by lia. by apply Z.quot_mul. Qed.

(** A [Set] that succeeded has found the shard of its key and its replicas. *)
Lemma kv_Set_reached (w w' : W) sm order key value ttl :
  w_wf w -> (forall shard, GetShardForKey key (NumShards sm) = Ret shard -> order ≡ₚ NodesForShard sm shard) ->
  NoDup order -> (forall n, n ∈ order -> has_client w n) -> kv_Set w sm order key value ttl = Ret (w', None) ->
  exists shard, GetShardForKey key (NumShards sm) = Ret shard /\ NodesForShard sm shard <> []
    /\ w_wf w' /\ w_now w' = w_now w /\ forall n, n ∈ order -> has_client w' n.
Proof.
  intros Hwf Hord Hnd Hhas Hset. unfold kv_Set, kv_write in Hset. apply bind_Ret in Hset as (shard & Hsh & Hset).
  exists shard. split; [done|]. destruct (Z.eqb_spec (len (NodesForShard sm shard)) 0) as [E|E]; [done|].
  split; [intros En; by rewrite En in E|].
  destruct (call_all_writes (fun w node => client_Set w node key value (Z.quot ttl 1000000)) key (w_now w)
    (fun t => if Milliseconds (t - w_now w) <? Z.quot ttl 1000000 then Some value else None) w order)
    as (w1 & e1 & E1 & Hwf1 & Hnow1 & Hhas1 & _); [|done..|].
  { intros w0 node Hwf0 <-. by apply set_law. }
  rewrite E1 in Hset. injection Hset as -> _. split_and!; auto.
Qed.

Lemma client_get watched sm start order (w : W) key :
  watched ≫= GetState = Some sm ->
  client_main watched start order w ["get"%string; key] =
    (let! out := kv_Get w sm start key in
     Ret (out.1, match out.2 with
                 | (_, _, Some err) => ErrorGetting err
                 | (_, false, None) => NoValueSet
                 | (value, true, None) => Printed value
                 end)).
Proof. intros Hsm. unfold client_main. by rewrite Hsm. Qed.

Lemma client_set watched sm start order (w : W) key value ttl ttlMs :
  watched ≫= GetState = Some sm -> ParseInt ttl = inl ttlMs ->
  client_main watched start order w ["set"%string; key; value; ttl] =
    (let! out := kv_Set w sm order key value (ttl_duration ttlMs) in
     Ret (out.1, match out.2 with Some err => ErrorSetting err | None => Done end)).
Proof.
  intros Hsm Hp. unfold client_main. rewrite Hsm. cbn [mbind go_bind].
  change (go_index ["set"%string; key; value; ttl] 3) with (Ret ttl). cbn [mbind go_bind]. rewrite Hp. reflexivity.
Qed.

(** C12: What the command line stored it shows. When [set key value ttl] has
    ended without a message and the time to live, written in decimal, is one
    that fits into a duration, then a later [get key] ends: if some replica
    of the key's shard answers, it prints the value until that many
    milliseconds have passed and says that there is none from then on,
    whichever replica it reaches; only if none answers it prints an error. *)
Theorem client_set_then_get watched sm start order (w w' : W) key value ttlMs t :
  watched ≫= GetState = Some sm -> w_wf w ->
  (forall shard, GetShardForKey key (NumShards sm) = Ret shard -> order ≡ₚ NodesForShard sm shard) ->
  NoDup order -> (forall n, n ∈ order -> has_client w n) -> 0 <= ttlMs <= 9223372036854 -> w_now w <= t ->
  client_main watched start order w ["set"%string; key; value; pretty ttlMs] = Ret (w', Done) ->
  exists w'' out, client_main watched start order (advance w' t) ["get"%string; key] = Ret (w'', out)
    /\ ((exists node, node ∈ order /\ answers (advance w' t) node key) ->
          out = if Milliseconds (t - w_now w) <? ttlMs then Printed value else NoValueSet)
    /\ ((forall node, node ∈ order -> ~ answers (advance w' t) node key) -> exists err, out = ErrorGetting err).
Proof.
  intros Hsm Hw Hord Hnd Hhas Httl Ht Hset. rewrite (client_get _ _ _ _ _ _ Hsm).
  rewrite (client_set watched sm start order w key value _ ttlMs Hsm) in Hset
    by (rewrite ParseInt_pretty; by rewrite decide_True by lia).
  apply bind_Ret in Hset as ([w1 e1] & Hset & Hs). cbn in Hs. destruct e1; [done|]. injection Hs as <-.
  destruct (kv_Set_reached w w1 sm order key value (ttl_duration ttlMs) Hw Hord Hnd Hhas Hset)
    as (shard & Hsh & Hne & Hwf1 & Hnow1 & Hhas1).
  specialize (Hord shard Hsh) as Hperm. destruct (advance_law w1 t Hwf1) as (Hwf2 & _ & Hhas2 & _); [lia|].
  destruct (kv_Get_spec (advance w1 t) sm start key shard Hwf2 Hsh Hne) as (w2 & v & found & e & Hget & He & _).
  { intros n Hn. apply Hhas2, Hhas1. by rewrite Hperm. }
  rewrite Hget. cbn. eexists _, _. split; [done|]. setoid_rewrite Hperm. split.
  - intros Ha. apply He in Ha as ->.
    pose proof (kv_Set_reads w w1 w2 sm order key value (ttl_duration ttlMs) start t v found Hw Hord Hnd Hhas Hset Ht Hget) as E.
    rewrite ttl_duration_ok in E by lia. destruct (Milliseconds (t - w_now w) <? ttlMs); by injection E as -> ->.
  - intros Hna. destruct e as [err|]; [by exists err; destruct found|].
    exfalso. destruct (proj1 He eq_refl) as (node & Hin & Ha). by apply (Hna node).
Qed.
End ClientTheorems.

(** A time to live of more than 9223372036854 milliseconds is accepted and
    wraps to a negative duration: the value is never served, not even at once. *)
Theorem client_ttl_wraps :
  let watched := Some (mkFileSM [two_map] "f" false true) in
  let set := client_main watched 0 ["n2"; "n1"]%string (all_up (two_net ∅ ∅)) ["set"; "k"; "v"; "9223372036855"]%string in
  (let! r := set in Ret r.2) = Ret Done
  /\ (let! r := set in let! r := client_main watched 0 [] r.1 ["get"; "k"]%string in Ret r.2) = Ret NoValueSet.
Proof. split; vm_compute; reflexivity. Qed.

(** ** cmd/server/server.go *)

Inductive server_fatal : Type :=
| FlagsRequired
| ServerShardMap
| NodeNotFound (nodeName : string)
| FailedToListen.

(** The address to listen on and the node that is served. *)
Definition server_main (Listen : string -> bool) (shardMapFile nodeName : string) (watched : option FileShardMap)
    (responses : list (list (GetShardValue * Z))) : go (string * KvServer + server_fatal) :=
  if (String.length shardMapFile =? 0)%nat || (String.length nodeName =? 0)%nat then Ret (inr FlagsRequired)
  else
    match watched ≫= GetState with
    | None => Ret (inr ServerShardMap)
    | Some sm =>
        match Nodes sm !! nodeName with
        | None => Ret (inr (NodeNotFound nodeName))
        | Some nodeInfo =>
            let addr := (":" +:+ pretty (Port nodeInfo))%string in
            if Listen addr then
              let! server := MakeKvServer nodeName sm responses in
              Ret (inl (addr, server))
            else Ret (inr FailedToListen)
        end
    end.

(** A node is where its clients look for it. When the server program
    gets to serve, its node is one of the map, it listens on the port of the
    address that the client pool dials for the node, and it hosts exactly the
    shards the map assigns to it; with a map that names the node and a free
    port it always gets there, if what its peers sent belongs to its shards. *)
Theorem server_main_serves Listen shardMapFile nodeName watched sm responses :
  watched ≫= GetState = Some sm -> NumShards sm <> 0 -> shardMapFile <> ""%string -> nodeName <> ""%string ->
  (forall v, v ∈ concat responses ->
    shard_of (sv_Key v.1) (NumShards sm) ∈ shardsToBeAdded (mkServer nodeName ∅) sm) ->
  NoDup ((fun v => sv_Key v.1) <$> concat responses) ->
  exists out, server_main Listen shardMapFile nodeName watched responses = Ret out
    /\ match out with
       | inl (addr, server) =>
           exists info, Nodes sm !! nodeName = Some info /\ Listen addr = true
             /\ Pool.address info = (Address info +:+ addr)%string
             /\ forall k, is_Some (availableShards server !! k) <-> assigned sm nodeName k
       | inr e => Nodes sm !! nodeName = None
           \/ exists info, Nodes sm !! nodeName = Some info /\ Listen (":" +:+ pretty (Port info))%string = false
       end.
Proof.
  intros Hsm Hn Hf Hname Hr Hnd. unfold server_main. rewrite Hsm.
  assert ((String.length shardMapFile =? 0)%nat || (String.length nodeName =? 0)%nat = false) as ->
    by (destruct shardMapFile, nodeName; done).
  destruct (Nodes sm !! nodeName) as [info|] eqn:E; [|eexists; split; [done|by left]].
  destruct (Listen (":" +:+ pretty (Port info))%string) eqn:El; [|eexists; split; [done|right; eauto]].
  unfold MakeKvServer. destruct (update_hosts_assigned (mkServer nodeName ∅) sm responses Hn Hr Hnd)
    as (s & -> & Hs & _). cbn [mbind go_bind]. eexists. split; [done|]. exists info. split_and!; done.
Qed.

(** ** Concrete runs *)

Definition cli_file : option FileShardMap := Some (mkFileSM [two_map] "two.json" false true).

Definition cli_set : net :=
  default (two_net ∅ ∅)
    match client_main cli_file 1 ["n2"; "n1"]%string (all_up (two_net ∅ ∅)) ["set"; "k"; "v"; "30"]%string with
    | Ret (w, Done) => Some w | _ => None end.

Lemma client_set_then_get_witness :
  exists w'', client_main cli_file 1 ["n2"; "n1"]%string (advance cli_set 20000000) ["get"; "k"]%string
    = Ret (w'', Printed "v").
Proof.
  destruct (client_set_then_get cli_file two_map 1 ["n2"; "n1"]%string (all_up (two_net ∅ ∅)) cli_set
    "k" "v" 30 20000000) as (w'' & out & E & Ha & _).
  - reflexivity.
  - apply two_net_wf.
  - exact two_order.
  - exact two_nodup.
  - intros n _. exact I.
  - lia.
  - cbn. lia.
  - vm_compute. reflexivity.
  - exists w''. rewrite E. rewrite Ha; [reflexivity|]. exists "n1"%string. split; [right; left|].
    split; [vm_compute; reflexivity|]. eexists _, _. vm_compute. reflexivity.
Defined.

Lemma server_main_serves_witness :
  exists server, server_main (fun _ => true) "two.json" "n1" cli_file [] = Ret (inl (":1"%string, server))
    /\ (is_Some (availableShards server !! 1) <-> assigned two_map "n1" 1).
Proof.
  destruct (server_main_serves (fun _ => true) "two.json" "n1" cli_file two_map []) as (out & E & Ho).
  - reflexivity.
  - discriminate.
  - discriminate.
  - discriminate.
  - intros v Hv. apply elem_of_nil in Hv. destruct Hv.
  - constructor.
  - vm_compute in E. injection E as <-. eexists. split; [vm_compute; reflexivity|].
    destruct Ho as (info & _ & _ & _ & Hk). apply (Hk 1).
Defined.
