(* ===== verification/Queue.v ===== *)
(** * lab0/queue.go: an unbounded FIFO queue on a Go slice

    A slice is a window into a backing array. [append] writes behind the
    window while the array has room and otherwise moves the window's elements
    to a new array, whose capacity the Go runtime chooses ([grow], any
    function that makes room); [elements[1:]] moves the window. The abstract
    queue is the list of the window's elements. Both queues lock a mutex for
    the whole of every operation, so an execution is a sequence of them. *)

From S2P Require Import Prelude.
From stdpp Require Import prelude.

Section Queue.
Context {T : Type} (dflt : T) (grow : nat -> nat).

Record slice : Type := mkSlice {
  arr : list T;
  off : nat;
  ln : nat
}.

Definition view (s : slice) : list T := take (ln s) (drop (off s) (arr s)).

Definition slice_wf (s : slice) : Prop := off s + ln s <= length (arr s).

Definition append (s : slice) (x : T) : slice :=
  if off s + ln s <? length (arr s)
  then mkSlice (<[off s + ln s := x]> (arr s)) (off s) (S (ln s))
  else mkSlice (view s ++ x :: replicate (grow (S (ln s)) - S (ln s)) dflt) 0 (S (ln s)).

Definition slice_tail (s : slice) : slice := mkSlice (arr s) (S (off s)) (pred (ln s)).

Record Queue : Type := mkQueue { elements : slice }.

Definition NewQueue : Queue := mkQueue (mkSlice [] 0 0).
Definition Push (q : Queue) (item : T) : Queue := mkQueue (append (elements q) item).
Definition Pop (q : Queue) : go (Queue * (T * bool)) :=
  if (ln (elements q) =? 0)%nat then Ret (q, (dflt, false))
  else let! item := go_index (view (elements q)) 0 in
       Ret (mkQueue (slice_tail (elements q)), (item, true)).

(** The wrapper with its own lock; it tests for emptiness before it calls
    [Queue.Pop]. *)
Record ConcurrentQueue : Type := mkCQueue { queue : Queue }.
Definition NewConcurrentQueue : ConcurrentQueue := mkCQueue (mkQueue (mkSlice [] 0 0)).
Definition CPush (q : ConcurrentQueue) (t : T) : ConcurrentQueue := mkCQueue (Push (queue q) t).
Definition CPop (q : ConcurrentQueue) : go (ConcurrentQueue * (T * bool)) :=
  if (ln (elements (queue q)) =? 0)%nat then Ret (q, (dflt, false))
  else let! r := Pop (queue q) in Ret (mkCQueue r.1, r.2).

(** ** The slice represents a list *)

Lemma view_length s : slice_wf s -> length (view s) = ln s.
Proof. unfold slice_wf, view. intros. rewrite length_take, length_drop. lia. Qed.

Lemma append_view s x : slice_wf s -> slice_wf (append s x) /\ view (append s x) = view s ++ [x].
Proof.
  intros Hwf. pose proof (view_length s Hwf) as Hl. unfold append, slice_wf in *.
  destruct (Nat.ltb_spec (off s + ln s) (length (arr s))) as [Hlt|Hge]; cbn; split.
  - rewrite length_insert. lia.
  - unfold view. cbn. rewrite drop_insert_ge by lia. replace (off s + ln s - off s) with (ln s) by lia.
    apply list_eq. intros i. destruct (lt_eq_lt_dec i (ln s)) as [[Hi| ->]|Hi].
    + rewrite lookup_take_lt, list_lookup_insert_ne by lia.
      rewrite lookup_app_l by (rewrite length_take, length_drop; lia). by rewrite lookup_take_lt.
    + rewrite lookup_take_lt, list_lookup_insert_eq by (rewrite ?length_drop; lia).
      rewrite lookup_app_r by (rewrite length_take, length_drop; lia).
      rewrite length_take, length_drop. by replace (ln s - _) with 0 by lia.
    + rewrite lookup_take_ge by lia. symmetry. apply lookup_ge_None.
      rewrite length_app, length_take, length_drop. cbn. lia.
  - rewrite length_app. cbn. rewrite length_replicate. lia.
  - unfold view at 1. cbn. rewrite drop_0.
    rewrite cons_middle, app_assoc. apply take_app_length'. rewrite length_app. cbn. lia.
Qed.

Lemma tail_view s x l :
  slice_wf s -> view s = x :: l -> slice_wf (slice_tail s) /\ view (slice_tail s) = l.
Proof.
  intros Hwf Hv. pose proof (view_length s Hwf) as Hl. rewrite Hv in Hl. cbn in Hl.
  unfold slice_wf, slice_tail, view in *. cbn. split; [lia|].
  rewrite <- Hl in *. cbn in *. destruct (drop (off s) (arr s)) as [|y d] eqn:E; [done|].
  injection Hv as -> Hv.
  replace (S (off s)) with (off s + 1) by lia. by rewrite <- drop_drop, E.
Qed.


Lemma Pop_view q :
  slice_wf (elements q) ->
  match view (elements q) with
  | [] => Pop q = Ret (q, (dflt, false))
  | x :: l => exists q', Pop q = Ret (q', (x, true)) /\ slice_wf (elements q') /\ view (elements q') = l
  end.
Proof.
  intros Hwf. pose proof (view_length _ Hwf) as Hl. unfold Pop.
  destruct (view (elements q)) as [|x l] eqn:E; cbn in Hl.
  - by rewrite <- Hl.
  - destruct (Nat.eqb_spec (ln (elements q)) 0); [lia|]. eexists. split; [done|].
    by apply (tail_view _ x).
Qed.

(** ** First in, first out *)

Inductive op : Type := OPush (item : T) | OPop.

(** Run operations from any goroutines in the order in which they got the
    lock; the results of the [Pop]s are collected. *)
Fixpoint run (q : ConcurrentQueue) (ops : list op) : go (ConcurrentQueue * list (T * bool)) :=
  match ops with
  | [] => Ret (q, [])
  | OPush x :: ops' => run (CPush q x) ops'
  | OPop :: ops' =>
      let! '(q1, r) := CPop q in
      let! '(q2, rs) := run q1 ops' in
      Ret (q2, r :: rs)
  end.

Definition pushed (ops : list op) : list T :=
  omap (fun o => match o with OPush x => Some x | OPop => None end) ops.
Definition popped (rs : list (T * bool)) : list T :=
  omap (fun r : T * bool => if r.2 then Some r.1 else None) rs.

Lemma CPop_view q :
  slice_wf (elements (queue q)) ->
  match view (elements (queue q)) with
  | [] => CPop q = Ret (q, (dflt, false))
  | x :: l => exists q', CPop q = Ret (q', (x, true)) /\ slice_wf (elements (queue q'))
      /\ view (elements (queue q')) = l
  end.
Proof.
  intros Hwf. pose proof (Pop_view _ Hwf) as H. pose proof (view_length _ Hwf) as Hl. unfold CPop.
  destruct (view (elements (queue q))) as [|x l]; cbn in Hl; [by rewrite <- Hl|].
  destruct (Nat.eqb_spec (ln (elements (queue q))) 0); [lia|]. destruct H as (q' & -> & ? & ?).
  by exists (mkCQueue q').
Qed.

Lemma run_fifo q ops :
  slice_wf (elements (queue q)) ->
  exists q' rs, run q ops = Ret (q', rs) /\ slice_wf (elements (queue q'))
    /\ view (elements (queue q)) ++ pushed ops = popped rs ++ view (elements (queue q')).
Proof.
  revert q. induction ops as [|[x|] ops IH]; intros q Hwf; cbn.
  - exists q, []. split; [done|]. split; [done|]. by rewrite app_nil_r.
  - destruct (append_view (elements (queue q)) x Hwf) as [Hwf' Hv].
    destruct (IH (CPush q x) Hwf') as (q' & rs & -> & Hq' & E). exists q', rs.
    split; [done|]. split; [done|]. rewrite <- E. cbn. rewrite Hv, <- app_assoc. done.
  - pose proof (CPop_view q Hwf) as H. destruct (view (elements (queue q))) as [|x l] eqn:Ev.
    + rewrite H. cbn. destruct (IH q Hwf) as (q' & rs & -> & Hq' & E). cbn. eexists _, _.
      split; [done|]. split; [done|]. by rewrite Ev in E.
    + destruct H as (q1 & -> & Hwf1 & Hv1). cbn. destruct (IH q1 Hwf1) as (q' & rs & -> & Hq' & E).
      cbn. eexists _, _. split; [done|]. split; [done|]. cbn. rewrite Hv1 in E. by f_equal.
Qed.

(** C37: The queue is first in, first out, loses nothing and never panics:
    after any sequence of operations, the items popped so far followed by the
    items still in the queue are exactly the items pushed, in order. This
    holds for the slice implementation with any growth policy of [append]. *)
Theorem queue_fifo (ops : list op) :
  exists q rs, run NewConcurrentQueue ops = Ret (q, rs)
    /\ pushed ops = popped rs ++ view (elements (queue q)).
Proof.
  destruct (run_fifo NewConcurrentQueue ops) as (q & rs & H & _ & E); [apply Nat.le_refl|]. eauto.
Qed.

End Queue.
