(* ===== verification/Semaphore.v ===== *)
(** * lab0/semaphore.go: a counting semaphore on an atomic counter and an
      unbuffered channel

    [Post] adds one and then tries to send on [signal], which succeeds only if
    a waiter is inside its [select] at that moment. [Wait] subtracts one and
    enters the [select] if the result is negative. Each of the two is two
    atomic actions; the state counts the calls between them. *)

From S2P Require Import Prelude.
From stdpp Require Import prelude relations.
Local Open Scope Z_scope.

Record Semaphore : Type := mkSem {
  v : Z;               (* s.v *)
  signalling : Z;      (* Posts between v.Add(1) and the select *)
  entering : Z;        (* Waits between v.Add(-1) and the select *)
  blocked : Z;         (* Waits inside the select *)
  posts : Z;           (* Posts that have added *)
  waits : Z;           (* Waits that have subtracted *)
  granted : Z;         (* Waits that returned nil *)
  cancelled : Z        (* Waits that returned ctx.Err() *)
}.

Definition NewSemaphore : Semaphore := mkSem 0 0 0 0 0 0 0 0.

Inductive action : Type := PostAdd | PostSend | WaitAdd | WaitSelect | Cancel.

Definition step (s : Semaphore) (a : action) : option Semaphore :=
  match a with
  | PostAdd =>
      Some (mkSem (v s + 1) (signalling s + 1) (entering s) (blocked s)
              (posts s + 1) (waits s) (granted s) (cancelled s))
  | PostSend =>
      if signalling s <=? 0 then None
      else if 0 <? blocked s
      then Some (mkSem (v s) (signalling s - 1) (entering s) (blocked s - 1)
                   (posts s) (waits s) (granted s + 1) (cancelled s))
      else Some (mkSem (v s) (signalling s - 1) (entering s) (blocked s)
                   (posts s) (waits s) (granted s) (cancelled s))
  | WaitAdd =>
      if v s - 1 <? 0
      then Some (mkSem (v s - 1) (signalling s) (entering s + 1) (blocked s)
                   (posts s) (waits s + 1) (granted s) (cancelled s))
      else Some (mkSem (v s - 1) (signalling s) (entering s) (blocked s)
                   (posts s) (waits s + 1) (granted s + 1) (cancelled s))
  | WaitSelect =>
      if entering s <=? 0 then None
      else Some (mkSem (v s) (signalling s) (entering s - 1) (blocked s + 1)
                   (posts s) (waits s) (granted s) (cancelled s))
  | Cancel =>
      if blocked s <=? 0 then None
      else Some (mkSem (v s) (signalling s) (entering s) (blocked s - 1)
                   (posts s) (waits s) (granted s) (cancelled s + 1))
  end.

Definition run (s : Semaphore) (acts : list action) : option Semaphore :=
  foldl (fun o a => s ← o; step s a) (Some s) acts.

Definition sstep (s s' : Semaphore) : Prop := exists a, step s a = Some s'.
Definition reachable (s : Semaphore) : Prop := rtc sstep NewSemaphore s.

(** A whole [Post] or [Wait] that no other call overlaps. *)
Definition Post (s : Semaphore) : option Semaphore := run s [PostAdd; PostSend].
Definition Wait (s : Semaphore) : option Semaphore :=
  if v s - 1 <? 0 then run s [WaitAdd; WaitSelect] else run s [WaitAdd].

(** ** Accounting *)

Definition counts (s : Semaphore) : Prop :=
  v s = posts s - waits s
  /\ granted s + entering s + blocked s + cancelled s = waits s
  /\ 0 <= signalling s <= posts s /\ 0 <= entering s /\ 0 <= blocked s
  /\ 0 <= granted s /\ 0 <= cancelled s.

(** Every waiter that was let through without blocking saw enough posts, and
    every other one used up the send of a [Post]. *)
Definition grant_bound (s : Semaphore) : Prop :=
  exists fast sent, granted s = fast + sent /\ 0 <= fast <= posts s
    /\ 0 <= sent <= posts s - signalling s /\ fast <= waits s.

Ltac sem_step H :=
  unfold step in H; repeat case_match; simplify_eq/=; bprop; cbn in *.

Lemma counts_step s s' : counts s -> sstep s s' -> counts s'.
Proof. intros Hc [a H]. unfold counts in *. destruct a; sem_step H; lia. Qed.

Lemma grant_bound_step s s' : counts s -> grant_bound s -> sstep s s' -> grant_bound s'.
Proof.
  intros Hc (f & t & E & Hf & Ht & Hw) [a H]. unfold counts in Hc. unfold grant_bound.
  destruct a; sem_step H;
    solve [exists f, t; lia | exists f, (t + 1); lia | exists (f + 1), t; lia].
Qed.

Lemma sem_inv s : reachable s -> counts s /\ grant_bound s.
Proof.
  unfold reachable. intros H.
  assert (counts NewSemaphore /\ grant_bound NewSemaphore) as H0.
  { split; [unfold counts; cbn; lia|]. exists 0, 0. cbn. lia. }
  revert H0. induction H as [|x y z Hs _ IH]; [done|]. intros [Hc Hg]. apply IH.
  split; [by eapply counts_step|by eapply grant_bound_step].
Qed.

(** However calls overlap, the counter is the number of posts minus the
    number of waits, no wait is lost, and at most twice as many waits return
    successfully as there were posts. *)
Theorem sem_grants_bounded (s : Semaphore) :
  reachable s ->
  v s = posts s - waits s /\ granted s + entering s + blocked s + cancelled s = waits s
  /\ granted s <= 2 * posts s.
Proof.
  intros H. apply sem_inv in H as [(? & ? & ? & ? & ? & ? & ?) (f & t & ? & ? & ? & ?)]. lia.
Qed.

Lemma run_reachable acts s : run NewSemaphore acts = Some s -> reachable s.
Proof.
  unfold run, reachable. generalize NewSemaphore. revert s.
  induction acts as [|a acts IH]; intros s s0 H; [cbn in H; by simplify_eq|].
  change (foldl (fun o a => s ← o; step s a) (step s0 a) acts = Some s) in H.
  destruct (step s0 a) as [s1|] eqn:E; [eapply rtc_l; [by exists a|by apply IH]|].
  exfalso. clear -H. induction acts; cbn in *; [done|auto].
Qed.

(** One post, and two waiters: the first passes on the counter, the second
    gets the signal. *)
Definition double_grant : list action := [PostAdd; WaitAdd; WaitAdd; WaitSelect; PostSend].

Lemma sem_grants_bounded_witness :
  exists s, run NewSemaphore double_grant = Some s
    /\ v s = posts s - waits s /\ granted s + entering s + blocked s + cancelled s = waits s
    /\ granted s <= 2 * posts s.
Proof.
  eexists. split; [vm_compute; reflexivity|]. apply sem_grants_bounded.
  apply (run_reachable double_grant). vm_compute. reflexivity.
Defined.

(** When calls overlap, [Post] and [Wait] are not a semaphore. One [Post]
    can let two [Wait]s through; and a [Wait] can block although a [Post]
    came, when the [Post] tries to send before the [Wait] has reached its
    [select], or when an earlier [Wait] was cancelled and left the counter
    decremented. *)
Theorem sem_overlap_defects :
  (exists s, reachable s /\ posts s = 1 /\ granted s = 2)
  /\ (exists s, reachable s /\ posts s = 1 /\ waits s = 1 /\ granted s = 0 /\ blocked s = 1
        /\ signalling s = 0 /\ cancelled s = 0)
  /\ (exists s, reachable s /\ posts s = 1 /\ waits s - cancelled s = 1 /\ granted s = 0 /\ blocked s = 1
        /\ signalling s = 0).
Proof.
  split; [|split]; eexists; (split; [|repeat split]).
  - apply (run_reachable double_grant). vm_compute. reflexivity.
  - reflexivity.
  - reflexivity.
  - apply (run_reachable [WaitAdd; PostAdd; PostSend; WaitSelect]). vm_compute. reflexivity.
  - reflexivity.
  - reflexivity.
  - reflexivity.
  - reflexivity.
  - reflexivity.
  - reflexivity.
  - apply (run_reachable [WaitAdd; WaitSelect; Cancel; PostAdd; PostSend; WaitAdd; WaitSelect]).
    vm_compute. reflexivity.
  - reflexivity.
  - reflexivity.
  - reflexivity.
  - reflexivity.
  - reflexivity.
Qed.

(** ** Calls that do not overlap *)

Inductive call : Type := CPost | CWait.
Definition do_call (s : Semaphore) (c : call) : option Semaphore :=
  match c with CPost => Post s | CWait => Wait s end.
Definition calls (s : Semaphore) (cs : list call) : option Semaphore :=
  foldl (fun o c => s ← o; do_call s c) (Some s) cs.

Definition quiet (s : Semaphore) : Prop :=
  signalling s = 0 /\ entering s = 0 /\ cancelled s = 0 /\ v s = posts s - waits s
  /\ 0 <= posts s /\ 0 <= waits s
  /\ granted s = Z.min (posts s) (waits s) /\ blocked s = waits s - granted s.

Lemma do_call_quiet s c :
  quiet s -> exists s', do_call s c = Some s' /\ quiet s'
    /\ posts s' = posts s + (if c then 1 else 0) /\ waits s' = waits s + (if c then 0 else 1).
Proof.
  intros Hq. unfold quiet in *. destruct c; cbn.
  - unfold Post, run. cbn. destruct (Z.leb_spec (signalling s + 1) 0); [lia|].
    destruct (Z.ltb_spec 0 (blocked s)); eexists; (split; [reflexivity|]); cbn; lia.
  - unfold Wait. destruct (Z.ltb_spec (v s - 1) 0) as [Hlt|Hge]; unfold run; cbn.
    + rewrite (proj2 (Z.ltb_lt _ _) Hlt). cbn. destruct (Z.leb_spec (entering s + 1) 0); [lia|].
      eexists. split; [reflexivity|]. cbn. lia.
    + rewrite (proj2 (Z.ltb_ge _ _) Hge). eexists. split; [reflexivity|]. cbn. lia.
Qed.

Definition count_posts (cs : list call) : Z :=
  foldr (fun (c : call) n => n + if c then 1 else 0) 0 cs.
Definition count_waits (cs : list call) : Z :=
  foldr (fun (c : call) n => n + if c then 0 else 1) 0 cs.

Lemma calls_quiet cs s :
  quiet s -> exists s', calls s cs = Some s' /\ quiet s'
    /\ posts s' = posts s + count_posts cs /\ waits s' = waits s + count_waits cs.
Proof.
  revert s. induction cs as [|c cs IH]; intros s Hq; cbn.
  { exists s. split; [done|]. split; [done|]. lia. }
  destruct (do_call_quiet s c Hq) as (s1 & H1 & Hq1 & Hp1 & Hw1).
  destruct (IH s1 Hq1) as (s2 & H2 & Hq2 & Hp2 & Hw2). exists s2. split.
  - unfold calls in *. cbn. by rewrite H1.
  - split; [done|]. unfold count_posts, count_waits in *. cbn. destruct c; lia.
Qed.

(** When calls do not overlap and none is cancelled, the semaphore is
    correct: a [Wait] returns exactly as long as there is a [Post] for it, so
    that the number of waits that have returned is the smaller of the number
    of posts and of waits, and all others are blocked. *)
Theorem sem_sequential (cs : list call) :
  exists s, calls NewSemaphore cs = Some s
    /\ granted s = Z.min (count_posts cs) (count_waits cs)
    /\ blocked s = count_waits cs - granted s.
Proof.
  destruct (calls_quiet cs NewSemaphore) as (s & H & Hq & Hp & Hw).
  - unfold quiet. cbn. lia.
  - exists s. split; [done|]. unfold quiet in Hq. cbn in *. lia.
Qed.
