(* ===== verification/Merge.v ===== *)
(** * lab0/merge_channels.go and lab0/parallel_fetcher.go

    [MergeChannels] and [MergeFetches] run two goroutines that copy their
    source to [out] and close [out] when both are done; they differ in what a
    source is, so they are one machine over [next], the next item of a source
    (a receive from a channel that will be closed, or a call of [Fetch]).
    [out] is the list of items sent; somebody receives them.
    [MergeChannelsOrCancel] is one loop around a [select]; its environment
    sends to, closes and cancels. [ParallelFetcher] uses
    [semaphore.Weighted], which is not part of the repository: it is an
    interface with the documented behaviour as its laws. *)

From S2P Require Import Prelude.
From stdpp Require Import prelude relations gmap.

(** The interleavings of two lists. *)
Inductive interleave {T} : list T -> list T -> list T -> Prop :=
| il_nil : interleave [] [] []
| il_left x a b out : interleave a b out -> interleave (a ++ [x]) b (out ++ [x])
| il_right x a b out : interleave a b out -> interleave a (b ++ [x]) (out ++ [x]).

Lemma interleave_perm {T} (a b out : list T) : interleave a b out -> out ≡ₚ a ++ b.
Proof.
  induction 1 as [|x a b out _ IH|x a b out _ IH]; [done| |].
  - rewrite IH, <- !app_assoc. by rewrite (Permutation_app_comm [x]), (Permutation_app_comm b).
  - by rewrite IH, <- app_assoc.
Qed.

(** ** MergeChannels and MergeFetches *)

Section Merge.
Context {F T : Type} (next : F -> option (T * F)).

(** [yields f l]: the source produces [l] and then ends. *)
Inductive yields : F -> list T -> Prop :=
| yields_end f : next f = None -> yields f []
| yields_item f x f' l : next f = Some (x, f') -> yields f' l -> yields f (x :: l).

(** A reader: in its loop, about to send, or after [wg.Done()]. *)
Inductive reader : Type := Reading (f : F) | Sending (x : T) (f : F) | Done.

Record merge : Type := mkMerge {
  reader_a : reader;
  reader_b : reader;
  out : list T;
  closed : bool
}.

Definition merge_start (a b : F) : merge := mkMerge (Reading a) (Reading b) [] false.

(** One step of a goroutine: read, or send what was read. *)
Definition reader_step (r : reader) (out : list T) : option (reader * list T) :=
  match r with
  | Reading f => match next f with
                 | Some (x, f') => Some (Sending x f', out)
                 | None => Some (Done, out)
                 end
  | Sending x f => Some (Reading f, out ++ [x])
  | Done => None
  end.

Inductive merge_step (m m' : merge) : Prop :=
| step_a r o
    (Hr : reader_step (reader_a m) (out m) = Some (r, o))
    (Hm : m' = mkMerge r (reader_b m) o (closed m))
| step_b r o
    (Hr : reader_step (reader_b m) (out m) = Some (r, o))
    (Hm : m' = mkMerge (reader_a m) r o (closed m))
| step_close
    (Ha : reader_a m = Done) (Hb : reader_b m = Done) (Hc : closed m = false)
    (Hm : m' = mkMerge Done Done (out m) true).

(** What a reader has yet to send. *)
Definition owes (r : reader) (l : list T) : Prop :=
  match r with
  | Reading f => yields f l
  | Sending x f => exists l', l = x :: l' /\ yields f l'
  | Done => l = []
  end.

Definition merge_inv (la lb : list T) (m : merge) : Prop :=
  exists sa sb ra rb, la = sa ++ ra /\ lb = sb ++ rb /\ owes (reader_a m) ra /\ owes (reader_b m) rb
    /\ interleave sa sb (out m)
    /\ (closed m = true -> reader_a m = Done /\ reader_b m = Done).

(** A step of a reader either sends nothing or the next item it owes. *)
Lemma reader_step_owes r o l r' o' :
  owes r l -> reader_step r o = Some (r', o') ->
  (o' = o /\ owes r' l) \/ (exists x l', l = x :: l' /\ o' = o ++ [x] /\ owes r' l').
Proof.
  intros Ho H. destruct r as [f|x f|]; cbn in *; [|simplify_eq|done].
  - destruct (next f) as [[x f']|] eqn:E; simplify_eq; left; (split; [done|]).
    + inversion Ho; simplify_eq. cbn. eauto.
    + inversion Ho; simplify_eq. done.
  - destruct Ho as (l' & -> & Hy). right. eauto.
Qed.

Lemma merge_inv_step la lb m m' : merge_inv la lb m -> merge_step m m' -> merge_inv la lb m'.
Proof.
  intros (sa & sb & ra & rb & -> & -> & Ha & Hb & Hi & Hcl) Hs.
  destruct Hs as [r o Hr ->|r o Hr ->|Hda Hdb Hc ->]; unfold merge_inv; cbn in *.
  - assert (closed m = false) as Ec by (destruct (closed m); [destruct Hcl as [E _]; [done|]; by rewrite E in Hr|done]).
    destruct (reader_step_owes _ _ _ _ _ Ha Hr) as [[-> ?]|(x & l' & -> & -> & ?)].
    + exists sa, sb, ra, rb. rewrite Ec. done.
    + exists (sa ++ [x]), sb, l', rb. rewrite <- app_assoc, Ec. repeat (split; [done|]).
      split; [by apply il_left|done].
  - assert (closed m = false) as Ec by (destruct (closed m); [destruct Hcl as [_ E]; [done|]; by rewrite E in Hr|done]).
    destruct (reader_step_owes _ _ _ _ _ Hb Hr) as [[-> ?]|(x & l' & -> & -> & ?)].
    + exists sa, sb, ra, rb. rewrite Ec. done.
    + exists sa, (sb ++ [x]), ra, l'. rewrite <- app_assoc, Ec. repeat (split; [done|]).
      split; [by apply il_right|done].
  - rewrite Hda, Hdb in *. exists sa, sb, ra, rb. done.
Qed.

Lemma merge_inv_rtc la lb m m' : merge_inv la lb m -> rtc merge_step m m' -> merge_inv la lb m'.
Proof. intros Hi H. induction H; eauto using merge_inv_step. Qed.

(** The work left, which every step reduces. *)
Definition work (r : reader) (l : list T) : nat :=
  match r with Reading _ => 2 * length l + 1 | Sending _ _ => 2 * length l | Done => 0 end.

Lemma reader_step_work r o l : owes r l -> r <> Done ->
  exists r' o' l', reader_step r o = Some (r', o') /\ owes r' l' /\ work r' l' < work r l.
Proof.
  intros Ho Hd. destruct r as [f|x f|]; cbn in *; [| |done].
  - destruct Ho as [f Hn|f x f' l Hn Hy]; rewrite Hn.
    + exists Done, o, []. cbn. eauto with lia.
    + exists (Sending x f'), o, (x :: l). cbn. split; [done|]. split; [eauto|lia].
  - destruct Ho as (l' & -> & Hy). exists (Reading f), (o ++ [x]), l'. cbn. split; [done|]. split; [done|lia].
Qed.

Lemma merge_finishes n m la lb :
  owes (reader_a m) la -> owes (reader_b m) lb -> work (reader_a m) la + work (reader_b m) lb <= n ->
  exists m', rtc merge_step m m' /\ closed m' = true.
Proof.
  revert m la lb. induction n as [|n IH]; intros m la lb Ha Hb Hn.
  all: destruct (decide (closed m = true)) as [|Hc%not_true_is_false]; [by exists m|].
  all: destruct (reader_a m) as [fa|xa fa|] eqn:Ea.
  all: try (destruct (reader_step_work (reader_a m) (out m) la) as (r' & o' & l' & Hs & Ho & Hlt);
    [by rewrite Ea|by rewrite Ea|]; rewrite Ea in Hlt; (lia || idtac)).
  all: try (destruct (IH (mkMerge r' (reader_b m) o' (closed m)) l' lb) as (m' & Hm' & ?);
    [done|done|cbn; lia|]; exists m'; split; [eapply rtc_l; [by eapply step_a|done]|done]).
  all: destruct (reader_b m) as [fb|xb fb|] eqn:Eb.
  all: try (destruct (reader_step_work (reader_b m) (out m) lb) as (r' & o' & l' & Hs & Ho & Hlt);
    [by rewrite Eb|by rewrite Eb|]; rewrite Eb in Hlt; (lia || idtac)).
  all: try (destruct (IH (mkMerge (reader_a m) r' o' (closed m)) la l') as (m' & Hm' & ?);
    [cbn; by rewrite Ea|done|cbn; rewrite Ea; cbn in *; lia|];
    exists m'; split; [eapply rtc_l; [by eapply step_b|done]|done]).
  all: eexists; split; [apply rtc_once; by eapply step_close|done].
Qed.

(** C38: [MergeChannels] and [MergeFetches] merge: from any state they can run
    to the point where they close [out], and when they have closed it, [out]
    has received every item of both sources exactly once, the items of each
    source in their order. *)
Theorem merge_correct a b la lb m :
  yields a la -> yields b lb -> rtc merge_step (merge_start a b) m ->
  (exists m', rtc merge_step m m' /\ closed m' = true)
  /\ (closed m = true -> interleave la lb (out m) /\ out m ≡ₚ la ++ lb).
Proof.
  intros Ha Hb H. assert (merge_inv la lb m) as (sa & sb & ra & rb & -> & -> & Hoa & Hob & Hi & Hcl).
  { eapply merge_inv_rtc; [|done]. exists [], [], la, lb. repeat (split; [done|]). split; [constructor|done]. }
  split; [by eapply merge_finishes|]. intros Hc. destruct (Hcl Hc) as [Ea Eb].
  rewrite Ea in Hoa. rewrite Eb in Hob. cbn in *. subst. rewrite !app_nil_r.
  split; [done|by apply interleave_perm].
Qed.

End Merge.

(** A receive in [for x := range in] from a channel whose remaining items are
    [l], closed behind them. *)
Definition recv {T} (l : list T) : option (T * list T) :=
  match l with [] => None | x :: l' => Some (x, l') end.

(** One call of [fetcher.Fetch()]; the fetcher is code of the caller. *)
Definition fetch_next {F} (Fetch : F -> F * (String.string * bool)) (f : F)
    : option (String.string * F) :=
  let '(f', (data, ok)) := Fetch f in if ok then Some (data, f') else None.

Lemma merge_correct_witness :
  exists m, rtc (merge_step recv) (merge_start [1] []) m /\ closed m = true
    /\ interleave [1] [] (out m) /\ out m ≡ₚ [1] ++ [].
Proof.
  assert (forall l : list nat, yields recv l l) as Hy.
  { intros l. induction l as [|x l IH]; [by apply yields_end|]. by eapply yields_item. }
  assert (rtc (merge_step recv) (merge_start [1] []) (mkMerge Done Done [1] true)) as Hr.
  { eapply rtc_l; [eapply step_a; reflexivity|]. eapply rtc_l; [eapply step_a; reflexivity|].
    eapply rtc_l; [eapply step_b; reflexivity|]. eapply rtc_l; [eapply step_a; reflexivity|].
    eapply rtc_l; [eapply step_close; reflexivity|]. apply rtc_refl. }
  exists (mkMerge Done Done [1] true). split; [exact Hr|]. split; [reflexivity|].
  exact (proj2 (merge_correct recv [1] [] [1] [] _ (Hy _) (Hy _) Hr) eq_refl).
Defined.

(** ** MergeChannelsOrCancel *)

Section OrCancel.
Context {T : Type}.

Record chan : Type := mkChan {
  buf : list T;        (* sent, not yet received *)
  ch_closed : bool
}.

Inductive pc : Type := AtCheck | AtSelect | AtSend (x : T) | Returned (err : bool).

Record mc : Type := mkMC {
  at_pc : pc;
  ch_a : chan; ch_b : chan;
  done_a : bool; done_b : bool;
  mc_out : list T;
  cancelled : bool
}.

Definition mc_start : mc := mkMC AtCheck (mkChan [] false) (mkChan [] false) false false [] false.

Definition at_ (m : mc) (p : pc) : mc :=
  mkMC p (ch_a m) (ch_b m) (done_a m) (done_b m) (mc_out m) (cancelled m).

(** The [case] of the [select] on [a] ([left]) or [b]: an item, or the news
    that the channel is closed; [None] when the case is not ready. *)
Definition select_a (m : mc) : option mc :=
  match buf (ch_a m), ch_closed (ch_a m) with
  | x :: l, c => Some (mkMC (AtSend x) (mkChan l c) (ch_b m) (done_a m) (done_b m) (mc_out m) (cancelled m))
  | [], true => Some (mkMC AtCheck (ch_a m) (ch_b m) true (done_b m) (mc_out m) (cancelled m))
  | [], false => None
  end.
Definition select_b (m : mc) : option mc :=
  match buf (ch_b m), ch_closed (ch_b m) with
  | x :: l, c => Some (mkMC (AtSend x) (ch_a m) (mkChan l c) (done_a m) (done_b m) (mc_out m) (cancelled m))
  | [], true => Some (mkMC AtCheck (ch_a m) (ch_b m) (done_a m) true (mc_out m) (cancelled m))
  | [], false => None
  end.

(** The steps of the function. *)
Definition prog_step (m : mc) (choose_a : bool) : option mc :=
  match at_pc m with
  | AtCheck =>
      if cancelled m then Some (at_ m (Returned true))
      else if done_a m && done_b m then Some (at_ m (Returned false))
      else Some (at_ m AtSelect)
  | AtSelect => if choose_a then select_a m else select_b m
  | AtSend x => Some (mkMC AtCheck (ch_a m) (ch_b m) (done_a m) (done_b m) (mc_out m ++ [x]) (cancelled m))
  | Returned _ => None
  end.

(** The steps of the environment. *)
Inductive env : Type := SendA (x : T) | SendB (x : T) | CloseA | CloseB | CancelCtx.

Definition ch_send (c : chan) (x : T) : option chan :=
  if ch_closed c then None else Some (mkChan (buf c ++ [x]) false).

Definition env_step (m : mc) (e : env) : option mc :=
  match e with
  | SendA x => c ← ch_send (ch_a m) x;
      Some (mkMC (at_pc m) c (ch_b m) (done_a m) (done_b m) (mc_out m) (cancelled m))
  | SendB x => c ← ch_send (ch_b m) x;
      Some (mkMC (at_pc m) (ch_a m) c (done_a m) (done_b m) (mc_out m) (cancelled m))
  | CloseA => Some (mkMC (at_pc m) (mkChan (buf (ch_a m)) true) (ch_b m) (done_a m) (done_b m) (mc_out m) (cancelled m))
  | CloseB => Some (mkMC (at_pc m) (ch_a m) (mkChan (buf (ch_b m)) true) (done_a m) (done_b m) (mc_out m) (cancelled m))
  | CancelCtx => Some (mkMC (at_pc m) (ch_a m) (ch_b m) (done_a m) (done_b m) (mc_out m) true)
  end.

(** Reachable states, with everything that was sent on [a] and [b]. *)
Inductive reach : list T -> list T -> mc -> Prop :=
| reach_start : reach [] [] mc_start
| reach_prog sa sb m c m' : reach sa sb m -> prog_step m c = Some m' -> reach sa sb m'
| reach_env sa sb m e m' : reach sa sb m -> env_step m e = Some m' ->
    reach (sa ++ match e with SendA x => [x] | _ => [] end)
          (sb ++ match e with SendB x => [x] | _ => [] end) m'.

Definition pending (p : pc) : list T := match p with AtSend x => [x] | _ => [] end.

Record mc_inv (sa sb : list T) (m : mc) : Prop := {
  i_out : exists ra rb, sa = ra ++ buf (ch_a m) /\ sb = rb ++ buf (ch_b m)
    /\ interleave ra rb (mc_out m ++ pending (at_pc m));
  i_a : done_a m = true -> ch_closed (ch_a m) = true /\ buf (ch_a m) = [];
  i_b : done_b m = true -> ch_closed (ch_b m) = true /\ buf (ch_b m) = [];
  i_ret : match at_pc m with
          | Returned true => cancelled m = true
          | Returned false => done_a m = true /\ done_b m = true
          | _ => True
          end
}.

Lemma mc_inv_prog sa sb m c m' : mc_inv sa sb m -> prog_step m c = Some m' -> mc_inv sa sb m'.
Proof.
  intros [(ra & rb & Hsa & Hsb & Hi) Ha Hb Hret] H. unfold prog_step in H.
  destruct (at_pc m) as [| |x|e] eqn:Ep; cbn in Hi; [| | |done].
  - rewrite app_nil_r in Hi. destruct (cancelled m) eqn:Ec; [|destruct (done_a m && done_b m) eqn:Ed]; simplify_eq;
      (split; [exists ra, rb; cbn; by rewrite app_nil_r|done|done|cbn]); [done|by bprop|done].
  - rewrite app_nil_r in Hi. destruct c; [unfold select_a in H|unfold select_b in H].
    + destruct (buf (ch_a m)) as [|x l] eqn:E; [destruct (ch_closed (ch_a m)) eqn:Ec|]; simplify_eq.
      * split; cbn; [exists ra, rb; rewrite ?app_nil_r in *; by rewrite E, app_nil_r|done|done|done].
      * split; cbn; [|intros Hd; by destruct (Ha Hd)|done|done].
        exists (ra ++ [x]), rb. rewrite <- app_assoc. split; [done|]. split; [done|by apply il_left].
    + destruct (buf (ch_b m)) as [|x l] eqn:E; [destruct (ch_closed (ch_b m)) eqn:Ec|]; simplify_eq.
      * split; cbn; [exists ra, rb; rewrite ?app_nil_r in *; by rewrite E, app_nil_r|done|done|done].
      * split; cbn; [|done|intros Hd; by destruct (Hb Hd)|done].
        exists ra, (rb ++ [x]). rewrite <- app_assoc. split; [done|]. split; [done|by apply il_right].
  - simplify_eq. split; cbn; [|done|done|done]. exists ra, rb. by rewrite app_nil_r.
Qed.

Lemma ch_send_Some c x c' : ch_send c x = Some c' ->
  ch_closed c = false /\ c' = mkChan (buf c ++ [x]) false.
Proof. unfold ch_send. destruct (ch_closed c); [done|]. naive_solver. Qed.

Lemma mc_inv_env sa sb m e m' : mc_inv sa sb m -> env_step m e = Some m' ->
  mc_inv (sa ++ match e with SendA x => [x] | _ => [] end)
         (sb ++ match e with SendB x => [x] | _ => [] end) m'.
Proof.
  intros [(ra & rb & -> & -> & Hi) Ha Hb Hret] H. destruct e; cbn in H.
  - apply bind_Some in H as (c & Hc & H). apply ch_send_Some in Hc as [Ec ->]. simplify_eq.
    split; cbn; [|intros Hd; by destruct (Ha Hd); congruence|done|].
    + exists ra, rb. by rewrite app_nil_r, app_assoc.
    + by destruct (at_pc m) as [| | |[]].
  - apply bind_Some in H as (c & Hc & H). apply ch_send_Some in Hc as [Ec ->]. simplify_eq.
    split; cbn; [|done|intros Hd; by destruct (Hb Hd); congruence|].
    + exists ra, rb. by rewrite app_nil_r, app_assoc.
    + by destruct (at_pc m) as [| | |[]].
  - simplify_eq. rewrite !app_nil_r. split; cbn; [by exists ra, rb|intros Hd; by destruct (Ha Hd)|done|done].
  - simplify_eq. rewrite !app_nil_r. split; cbn; [by exists ra, rb|done|intros Hd; by destruct (Hb Hd)|done].
  - simplify_eq. rewrite !app_nil_r. split; cbn; [by exists ra, rb|done|done|].
    by destruct (at_pc m) as [| | |[]].
Qed.

Lemma reach_inv sa sb m : reach sa sb m -> mc_inv sa sb m.
Proof.
  induction 1; [|by eapply mc_inv_prog|by eapply mc_inv_env].
  split; cbn; [|done|done|done]. exists [], []. split; [done|]. split; [done|constructor].
Qed.

(** When [MergeChannelsOrCancel] returns [nil], both channels were closed
    and [out] received everything that was sent on them, in order per
    channel; when it returns an error the context had been cancelled, and
    [out] holds what was received until then and nothing else. *)
Theorem or_cancel_result sa sb m err :
  reach sa sb m -> at_pc m = Returned err ->
  if err then cancelled m = true /\ exists pa pb, pa `prefix_of` sa /\ pb `prefix_of` sb
                /\ interleave pa pb (mc_out m)
  else ch_closed (ch_a m) = true /\ ch_closed (ch_b m) = true /\ interleave sa sb (mc_out m).
Proof.
  intros Hr Hp. destruct (reach_inv _ _ _ Hr) as [(ra & rb & -> & -> & Hi) Ha Hb Hret].
  rewrite Hp in *. cbn in *. rewrite app_nil_r in Hi. destruct err.
  - split; [done|]. exists ra, rb. split; [by apply prefix_app_r|]. split; [by apply prefix_app_r|done].
  - destruct Hret as [Hda Hdb]. destruct (Ha Hda) as [? ->], (Hb Hdb) as [? ->]. by rewrite !app_nil_r.
Qed.

(** Cancellation is not noticed inside the [select]: with both channels
    open and empty the function takes no step, whether or not its context is
    cancelled, until somebody sends to or closes a channel. *)
Theorem or_cancel_blocks_in_select :
  exists m, reach [] [] m /\ cancelled m = true
    /\ (forall choose_a, prog_step m choose_a = None) /\ forall err, at_pc m <> Returned err.
Proof.
  exists (mkMC AtSelect (mkChan [] false) (mkChan [] false) false false [] true).
  split; [|split; [done|split; [by intros []|done]]].
  apply (reach_env [] [] (mkMC AtSelect (mkChan [] false) (mkChan [] false) false false [] false) CancelCtx);
    [|done].
  by apply (reach_prog [] [] mc_start true); [apply reach_start|].
Qed.

End OrCancel.

Lemma or_cancel_result_witness :
  exists m : mc (T := nat), reach [7] [] m /\ at_pc m = Returned false
    /\ ch_closed (ch_a m) = true /\ ch_closed (ch_b m) = true /\ interleave [7] [] (mc_out m).
Proof.
  assert (reach [7] [] (mkMC (Returned false) (mkChan [] true) (mkChan [] true) true true [7] false)) as H.
  { pose proof (reach_env _ _ _ (SendA 7) _ reach_start eq_refl) as H1.
    pose proof (reach_env _ _ _ CloseA _ H1 eq_refl) as H2.
    pose proof (reach_env _ _ _ CloseB _ H2 eq_refl) as H3.
    pose proof (reach_prog _ _ _ true _ H3 eq_refl) as H4.
    pose proof (reach_prog _ _ _ true _ H4 eq_refl) as H5.
    pose proof (reach_prog _ _ _ true _ H5 eq_refl) as H6.
    pose proof (reach_prog _ _ _ true _ H6 eq_refl) as H7.
    pose proof (reach_prog _ _ _ true _ H7 eq_refl) as H8.
    pose proof (reach_prog _ _ _ true _ H8 eq_refl) as H9.
    pose proof (reach_prog _ _ _ false _ H9 eq_refl) as H10.
    exact (reach_prog _ _ _ true _ H10 eq_refl). }
  eexists. split; [exact H|]. split; [reflexivity|].
  apply (or_cancel_result _ _ _ false H). reflexivity.
Defined.
