(* ===== verification/ParallelFetcher.v ===== *)
(** * lab0/parallel_fetcher.go: at most [n] concurrent fetches

    [semaphore.Weighted] of golang.org/x/sync is not part of the repository:
    it is the class [Weighted], whose laws are its documentation. [Acquire]
    with a background context returns only when the weight is available;
    [Release] panics when more is released than is held. *)

From S2P Require Import Prelude.
From stdpp Require Import prelude relations.
Local Open Scope Z_scope.

Class Weighted (S : Type) : Type := {
  NewWeighted : Z -> S;
  Acquire : S -> option S;     (* of weight 1; None: it would block *)
  Release : S -> go S;
  held : S -> Z;
  capacity : S -> Z;
  new_law n : held (NewWeighted n) = 0 /\ capacity (NewWeighted n) = n;
  acquire_law s : match Acquire s with
                  | Some s' => held s' = held s + 1 /\ capacity s' = capacity s /\ held s < capacity s
                  | None => capacity s <= held s
                  end;
  release_law s : match Release s with
                  | Ret s' => held s' = held s - 1 /\ capacity s' = capacity s
                  | _ => held s <= 0
                  end
}.

Section ParallelFetcher.
Context {S F R : Type} `{Weighted S} (Fetch : F -> F * R).

(** The calls of [Fetch] in progress: before [Acquire], and between
    [Acquire] and the end. The results are in the order of the returns. *)
Record ParallelFetcher : Type := mkPF {
  fetcher : F;
  sem : S;
  waiting : Z;
  inside : Z;
  results : list R
}.

Definition NewParallelFetcher (f : F) (maxConcurrencyLimit : Z) : ParallelFetcher :=
  mkPF f (NewWeighted maxConcurrencyLimit) 0 0 [].

Inductive action : Type := CallFetch | Enter | Leave.

Definition pf_step (pf : ParallelFetcher) (a : action) : go ParallelFetcher :=
  match a with
  | CallFetch => Ret (mkPF (fetcher pf) (sem pf) (waiting pf + 1) (inside pf) (results pf))
  | Enter =>
      if waiting pf <=? 0 then Block
      else match Acquire (sem pf) with
           | None => Block
           | Some s => Ret (mkPF (fetcher pf) s (waiting pf - 1) (inside pf + 1) (results pf))
           end
  | Leave =>
      if inside pf <=? 0 then Block
      else let '(f, r) := Fetch (fetcher pf) in
           let! s := Release (sem pf) in
           Ret (mkPF f s (waiting pf) (inside pf - 1) (results pf ++ [r]))
  end.

Definition pstep (pf pf' : ParallelFetcher) : Prop := exists a, pf_step pf a = Ret pf'.

Definition pf_inv (limit : Z) (pf : ParallelFetcher) : Prop :=
  held (sem pf) = inside pf /\ capacity (sem pf) = limit /\ 0 <= inside pf <= Z.max 0 limit
  /\ 0 <= waiting pf.

Lemma pf_inv_step limit pf pf' : pf_inv limit pf -> pstep pf pf' -> pf_inv limit pf'.
Proof.
  intros (Hh & Hc & Hi & Hw) [a Hs]. unfold pf_inv. destruct a; cbn in Hs.
  - go_inv. lia.
  - pose proof (acquire_law (sem pf)) as Ha. destruct (Z.leb_spec (waiting pf) 0); [done|].
    destruct (Acquire (sem pf)) as [s|]; [|done]. go_inv. lia.
  - pose proof (release_law (sem pf)) as Ha. destruct (Z.leb_spec (inside pf) 0); [done|].
    destruct (Fetch (fetcher pf)) as [f r]. destruct (Release (sem pf)) as [s| |]; [|done|done]. go_inv. lia.
Qed.

Lemma pf_reach_inv f limit pf :
  0 <= limit -> rtc pstep (NewParallelFetcher f limit) pf -> pf_inv limit pf.
Proof.
  intros Hl Hr. assert (pf_inv limit (NewParallelFetcher f limit)) as H0.
  { destruct (new_law limit). unfold pf_inv. cbn. lia. }
  revert H0. induction Hr; eauto using pf_inv_step.
Qed.

(** C39: No more than [maxConcurrencyLimit] calls are inside the underlying
    [Fetch] at any time; [Release] never panics; and a caller is held back
    only while that many calls are inside. *)
Theorem parallel_fetcher_limit f limit pf :
  0 <= limit -> rtc pstep (NewParallelFetcher f limit) pf ->
  0 <= inside pf <= limit
  /\ (0 < inside pf -> returns (pf_step pf Leave))
  /\ (0 < waiting pf -> (inside pf < limit <-> returns (pf_step pf Enter))).
Proof.
  intros Hl Hr. destruct (pf_reach_inv _ _ _ Hl Hr) as (Hh & Hc & Hi & Hw). split; [lia|]. split.
  - intros Hin. cbn. destruct (Z.leb_spec (inside pf) 0); [lia|]. destruct (Fetch (fetcher pf)) as [f' r].
    pose proof (release_law (sem pf)) as Ha. destruct (Release (sem pf)) as [s| |]; [by eexists|lia|lia].
  - intros Hwt. cbn. destruct (Z.leb_spec (waiting pf) 0); [lia|].
    pose proof (acquire_law (sem pf)) as Ha. destruct (Acquire (sem pf)) as [s|].
    + split; [intros _; by eexists|lia].
    + split; [lia|]. intros [? ?]. done.
Qed.

End ParallelFetcher.

(** A semaphore that obeys the laws: the weight held and the capacity. *)
#[export] Program Instance counter_weighted : Weighted (Z * Z) := {
  NewWeighted n := (0, n);
  Acquire s := if s.1 <? s.2 then Some (s.1 + 1, s.2) else None;
  Release s := if 0 <? s.1 then Ret (s.1 - 1, s.2) else Panic;
  held s := s.1;
  capacity s := s.2
}.
Next Obligation. done. Qed.
Next Obligation. intros s. cbn. destruct (Z.ltb_spec s.1 s.2); cbn; lia. Qed.
Next Obligation. intros s. cbn. destruct (Z.ltb_spec 0 s.1); cbn; lia. Qed.

Definition count_fetch (n : nat) : nat * nat := (Datatypes.S n, n).

Lemma parallel_fetcher_limit_witness :
  exists pf : ParallelFetcher (S := Z * Z) (F := nat) (R := nat),
    rtc (pstep count_fetch) (NewParallelFetcher 0%nat 1) pf /\ inside pf = 1 /\ waiting pf = 1
    /\ ~ returns (pf_step count_fetch pf Enter).
Proof.
  exists (mkPF 0%nat (1, 1) 1 1 []).
  assert (rtc (pstep count_fetch) (NewParallelFetcher 0%nat 1) (mkPF 0%nat (1, 1) 1 1 [])) as Hr.
  { eapply rtc_l; [by exists CallFetch|]. eapply rtc_l; [by exists CallFetch|].
    eapply rtc_l; [by exists Enter|]. apply rtc_refl. }
  split; [exact Hr|]. split; [reflexivity|]. split; [reflexivity|].
  destruct (parallel_fetcher_limit count_fetch 0%nat 1 (mkPF 0%nat (1, 1) 1 1 [])) as (_ & _ & H).
  - lia.
  - exact Hr.
  - intros Hret. apply H in Hret; cbn in *; lia.
Defined.
