(* ===== verification/Backend.v ===== *)
(** * lab1: failure injection, the user service and the video service

    Random numbers come from [math/rand]: a generator state, seeded, from
    which [Intn] and [Int63n] draw below a bound. The code depends on no more
    than that, so the generator is a class with that law. The strings that
    the [gofakeit] package invents do not influence anything and are left out
    of the records. A handler that injects a response omission never returns:
    [Block]. *)

From Stdlib Require Import String.
From stdpp Require Import prelude gmap strings pretty.
From S2P Require Import Prelude.
Local Open Scope Z_scope.

(** ** math/rand *)

Class Rand (G : Type) : Type := {
  Seed : Z -> G;
  Intn : G -> Z -> G * Z;
  Intn_law g n : 0 < n -> 0 <= (Intn g n).2 < n
}.

(** ** failure_injection.go *)

Record InjectionConfig : Type := mkConfig {
  SleepNs : Z;
  FailureRate : Z;
  ResponseOmissionRate : Z
}.

Definition FailureInjector : Type := InjectionConfig.   (* the stored config *)

Definition MakeFailureInjector : FailureInjector := mkConfig 0 0 0.
Definition SetInjectionConfig (_ : FailureInjector) (s f r : Z) : FailureInjector := mkConfig s f r.
Definition ClearInjectionConfig (fi : FailureInjector) : FailureInjector := SetInjectionConfig fi 0 0 0.
Definition SetInjectionConfigPb (_ : FailureInjector) (config : InjectionConfig) : FailureInjector := config.
Definition GetInjectionConfig (fi : FailureInjector) : InjectionConfig := fi.

Section Injection.
Context {G : Type} `{Rand G}.

(** [rand.Int63n] panics on a bound that is not positive. *)
Definition oneIn (g : G) (n : Z) : go (G * bool) :=
  if n =? 0 then Ret (g, false)
  else if n <? 0 then Panic
  else let '(g', r) := Intn g n in Ret (g', r =? 0).

Definition MaybeInject (g : G) (fi : FailureInjector) : go (G * bool) :=
  let config := GetInjectionConfig fi in
  let! '(g1, shouldError) := oneIn g (FailureRate config) in
  let! '(g2, shouldOmitResponse) := oneIn g1 (ResponseOmissionRate config) in
  if (shouldOmitResponse : bool) then Block else Ret (g2, shouldError).
End Injection.
#[global] Arguments oneIn : simpl never.

(** ** The records of the services *)

Definition Coeffs : Type := gmap Z Z.

Record UserInfo : Type := mkUser {
  UserId : Z;
  ProfileUrl : string;
  UserCoefficients : gmap Z Z;
  SubscribedTo : list Z;
  LikedVideos : list Z
}.

Record VideoInfo : Type := mkVideo {
  VideoId : Z;
  Url : string;
  VideoCoefficients : gmap Z Z
}.

Inductive status : Type :=
| Internal
| InvalidArgument (what : string)
| NotFound (id : Z)
| Unavailable
| Unimplemented        (* of gRPC itself: the server has no such service *)
| DeadlineExceeded.    (* of gRPC itself *)

Definition USER_ID_OFFSET : Z := 200000.
Definition VIDEO_ID_OFFSET : Z := 1000.

Record ServiceOptions : Type := mkOptions {
  opt_Seed : Z;
  TtlSeconds : Z;             (* VideoService only *)
  opt_SleepNs : Z;
  opt_FailureRate : Z;
  opt_ResponseOmissionRate : Z;
  MaxBatchSize : Z
}.

Definition DefaultUserServiceOptions : ServiceOptions := mkOptions 42 0 0 0 0 50.
Definition DefaultVideoServiceOptions : ServiceOptions := mkOptions 42 60 0 0 0 50.

(** The loop of both [GetUser] and [GetVideo] over the requested ids: the
    records in the order of the request, or the first id that is unknown. *)
Fixpoint lookup_all {A} (db : gmap Z A) (ids : list Z) : list A + status :=
  match ids with
  | [] => inl []
  | id :: ids' =>
      match db !! id with
      | None => inr (NotFound id)
      | Some info => match lookup_all db ids' with
                     | inl l => inl (info :: l)
                     | inr e => inr e
                     end
      end
  end.

(** ** Random data *)

Section Generate.
Context {G : Type} `{Rand G}.

(** [for i := 0; i < n; i++ { ... }] around a state and a generator *)
Fixpoint repeat_draw {S} (body : G -> S -> G * S) (n : nat) (g : G) (s : S) : G * S :=
  match n with
  | O => (g, s)
  | S n' => let '(g1, s1) := body g s in repeat_draw body n' g1 s1
  end.

Definition draw_coeff (g : G) (m : gmap Z Z) : G * gmap Z Z :=
  let '(g1, k) := Intn g 20 in
  let '(g2, c) := Intn g1 500 in
  (g2, <[k := c]> m).

Definition makeRandomUser (g : G) (userId maxUsers maxVideos : Z) : G * UserInfo :=
  let '(g, cc) := Intn g 10 in
  let '(g, coeffs) := repeat_draw draw_coeff (Z.to_nat (cc + 10)) g ∅ in
  let '(g, sc) := Intn g 50 in
  let '(g, subs) := repeat_draw (fun g subs =>
      let '(g, r) := Intn g maxUsers in
      let subscribed := r + USER_ID_OFFSET in
      (g, if subscribed =? userId then subs else subs ++ [subscribed]))
    (Z.to_nat (sc + 10)) g [] in
  let '(g, lc) := Intn g 20 in
  let '(g, likes) := repeat_draw (fun g likes =>
      let '(g, r) := Intn g maxVideos in (g, likes ++ [r + VIDEO_ID_OFFSET]))
    (Z.to_nat (lc + 5)) g [] in
  (g, mkUser userId ("https://user-service.localhost/profile/" +:+ pretty userId)%string
        coeffs subs likes).

(** The loop over the ids from [id] up. *)
Fixpoint make_all {A} (make : G -> Z -> G * A) (id : Z) (n : nat) (g : G) (db : gmap Z A) : G * gmap Z A :=
  match n with
  | O => (g, db)
  | S n' => let '(g1, info) := make g id in make_all make (id + 1) n' g1 (<[id := info]> db)
  end.

Definition makeRandomUsers (g : G) : G * gmap Z UserInfo :=
  let '(g, v) := Intn g 500 in
  let videoCount := v + 100 in
  let '(g, u) := Intn g 5000 in
  let userCount := u + 5000 in
  make_all (fun g userId => makeRandomUser g userId userCount videoCount)
    USER_ID_OFFSET (Z.to_nat userCount) g ∅.

Definition makeRandomVideo (g : G) (videoId : Z) : G * VideoInfo :=
  let '(g, titleCase) := Intn g 4 in
  let '(g, cc) := Intn g 10 in
  let '(g, coeffs) := repeat_draw draw_coeff (Z.to_nat (cc + 10)) g ∅ in
  (g, mkVideo videoId ("https://video-data.localhost/blob/" +:+ pretty videoId)%string coeffs).

(** [deduplicateIds] of the video service and [deduplicate] of the
    recommender: the first occurrence of every id. *)
Fixpoint dedup_loop (seen : gset Z) (items : list Z) : list Z :=
  match items with
  | [] => []
  | i :: items' => if decide (i ∈ seen) then dedup_loop seen items'
                   else i :: dedup_loop ({[i]} ∪ seen) items'
  end.
Definition deduplicateIds (ids : list Z) : list Z := dedup_loop ∅ ids.

Definition makeRandomVideos (g : G) : G * (gmap Z VideoInfo * list Z) :=
  let '(g, v) := Intn g 500 in
  let videoCount := v + 100 in
  let '(g, videos) := make_all makeRandomVideo VIDEO_ID_OFFSET (Z.to_nat videoCount) g ∅ in
  let '(g, t) := Intn g 10 in
  let '(g, topVideos) := repeat_draw (fun g top =>
      let '(g, r) := Intn g videoCount in (g, top ++ [r + VIDEO_ID_OFFSET]))
    (Z.to_nat (t + 10)) g [] in
  (g, (videos, deduplicateIds topVideos)).

(** ** user_service/server_lib *)

Record UserServiceServer : Type := mkUserService {
  us_options : ServiceOptions;
  us_fi : FailureInjector;
  users : gmap Z UserInfo
}.

Definition inject_options (o : ServiceOptions) : FailureInjector :=
  SetInjectionConfig MakeFailureInjector (opt_SleepNs o) (opt_FailureRate o) (opt_ResponseOmissionRate o).

Definition MakeUserServiceServer (options : ServiceOptions) : UserServiceServer :=
  mkUserService options (inject_options options) (makeRandomUsers (Seed (opt_Seed options))).2.

Definition GetUser (db : UserServiceServer) (g : G) (userIds : list Z) : go (G * (list UserInfo + status)) :=
  let! '(g, shouldError) := MaybeInject g (us_fi db) in
  if (shouldError : bool) then Ret (g, inr Internal)
  else if len userIds =? 0 then Ret (g, inr (InvalidArgument "empty"))
  else if MaxBatchSize (us_options db) <? len userIds then Ret (g, inr (InvalidArgument "batch size"))
  else Ret (g, lookup_all (users db) userIds).

Definition us_SetInjectionConfig (db : UserServiceServer) (config : InjectionConfig) : UserServiceServer :=
  mkUserService (us_options db) (SetInjectionConfigPb (us_fi db) config) (users db).

(** ** video_service/server_lib *)

Record VideoServiceServer : Type := mkVideoService {
  vs_options : ServiceOptions;
  vs_fi : FailureInjector;
  videos : gmap Z VideoInfo;
  topVideos : list Z
}.

Definition MakeVideoServiceServer (options : ServiceOptions) : VideoServiceServer :=
  let '(_, (videos, topVideos)) := makeRandomVideos (Seed (opt_Seed options)) in
  mkVideoService options (inject_options options) videos topVideos.

Definition GetVideo (db : VideoServiceServer) (g : G) (videoIds : list Z) : go (G * (list VideoInfo + status)) :=
  let! '(g, shouldError) := MaybeInject g (vs_fi db) in
  if (shouldError : bool) then Ret (g, inr Internal)
  else if len videoIds =? 0 then Ret (g, inr (InvalidArgument "empty"))
  else if MaxBatchSize (vs_options db) <? len videoIds then Ret (g, inr (InvalidArgument "batch size"))
  else if negb (len (deduplicateIds videoIds) =? len videoIds) then Ret (g, inr (InvalidArgument "duplicate"))
  else Ret (g, lookup_all (videos db) videoIds).

(** The ids and the [ExpirationTimeS] of the response; [now] is
    [time.Now().Unix()]. *)
Definition GetTrendingVideos (db : VideoServiceServer) (g : G) (now : Z) : go (G * (list Z * Z + status)) :=
  let! '(g, shouldError) := MaybeInject g (vs_fi db) in
  if (shouldError : bool) then Ret (g, inr Internal)
  else Ret (g, inl (topVideos db, (now + TtlSeconds (vs_options db)) mod 2 ^ 64)).

Definition vs_SetInjectionConfig (db : VideoServiceServer) (config : InjectionConfig) : VideoServiceServer :=
  mkVideoService (vs_options db) (SetInjectionConfigPb (vs_fi db) config) (videos db) (topVideos db).

End Generate.

(** ** Deduplication *)

Lemma dedup_loop_spec seen items :
  NoDup (dedup_loop seen items) /\ dedup_loop seen items `sublist_of` items
  /\ forall i, i ∈ dedup_loop seen items <-> i ∈ items /\ i ∉ seen.
Proof.
  revert seen. induction items as [|x items IH]; intros seen; cbn.
  { split; [constructor|]. split; [done|]. intros i. split; [by intros ?%elem_of_nil|by intros [? _]]. }
  case_decide as Hx.
  - destruct (IH seen) as (? & ? & Hi). split; [done|]. split; [by apply sublist_cons|].
    intros i. rewrite Hi, elem_of_cons. split; [intros []; auto|]. intros [[->|?] ?]; done.
  - destruct (IH ({[x]} ∪ seen)) as (Hnd & Hsub & Hi). split.
    + apply NoDup_cons. split; [|done]. rewrite Hi. set_solver.
    + split; [by apply sublist_skip|]. intros i. rewrite !elem_of_cons, Hi.
      destruct (decide (i = x)) as [->|]; [naive_solver|]. set_solver.
Qed.

Lemma deduplicateIds_spec ids :
  NoDup (deduplicateIds ids) /\ deduplicateIds ids `sublist_of` ids
  /\ forall i, i ∈ deduplicateIds ids <-> i ∈ ids.
Proof.
  destruct (dedup_loop_spec ∅ ids) as (? & ? & Hi). split; [done|]. split; [done|].
  intros i. unfold deduplicateIds. rewrite Hi. set_solver.
Qed.

(** The length test of [GetVideo] is a test for duplicates. *)
Lemma deduplicateIds_length ids :
  length (deduplicateIds ids) = length ids <-> NoDup ids.
Proof.
  destruct (deduplicateIds_spec ids) as (Hnd & Hsub & Hi). split.
  - intros Hl. apply sublist_submseteq in Hsub.
    by rewrite <- (submseteq_length_Permutation _ _ Hsub ltac:(lia)).
  - intros Hids. apply Permutation_length, NoDup_Permutation; done.
Qed.

(** ** Lookups *)

Lemma lookup_all_ok {A} (db : gmap Z A) ids l :
  lookup_all db ids = inl l <-> Forall2 (fun id x => db !! id = Some x) ids l.
Proof.
  revert l. induction ids as [|id ids IH]; intros l; cbn.
  { split; [intros [= <-]; constructor|]. by inversion 1. }
  destruct (db !! id) as [x|] eqn:E; cycle 1.
  { split; [done|]. inversion 1; simplify_eq. }
  destruct (lookup_all db ids) as [l'|e].
  - split.
    + intros [= <-]. constructor; [done|]. by apply IH.
    + inversion 1 as [|?? ? ? ? H2]; simplify_eq. apply IH in H2. by simplify_eq.
  - split; [done|]. inversion 1 as [|?? ? ? ? H2]; simplify_eq. apply IH in H2. done.
Qed.

Definition infos {A} (db : gmap Z A) (ids : list Z) : list A := omap (fun id => db !! id) ids.

Lemma lookup_all_infos {A} (db : gmap Z A) ids :
  (forall id, id ∈ ids -> is_Some (db !! id)) -> lookup_all db ids = inl (infos db ids).
Proof.
  unfold infos. induction ids as [|id ids IH]; intros Hs; cbn; [done|].
  destruct (Hs id) as [x Hx]; [left|]. rewrite Hx, IH; [done|]. intros i Hi. apply Hs. by right.
Qed.

(** ** Injection *)

Section BackendTheorems.
Context {G : Type} `{Rand G}.

Lemma oneIn_zero (g : G) : oneIn g 0 = Ret (g, false).
Proof. done. Qed.

Lemma oneIn_returns (g : G) n : 0 <= n -> returns (oneIn g n).
Proof.
  intros Hn. unfold oneIn. destruct (Z.eqb_spec n 0); [by eexists|].
  destruct (Z.ltb_spec n 0); [lia|]. destruct (Intn g n). by eexists.
Qed.

Lemma oneIn_one (g : G) : exists g', oneIn g 1 = Ret (g', true).
Proof.
  unfold oneIn. cbn. pose proof (Intn_law g 1 ltac:(lia)). destruct (Intn g 1) as [g' r]. cbn in *.
  exists g'. by replace r with 0 by lia.
Qed.

(** Failure injection obeys its configuration: with both rates zero no
    request fails or hangs, with a failure rate of one every request that is
    answered fails, and with an omission rate of one no request is answered.
    Rates that are not negative never panic. *)
Theorem injection_config (g : G) (s f r : Z) (fi : FailureInjector) :
  MaybeInject g (ClearInjectionConfig fi) = Ret (g, false)
  /\ (forall g', MaybeInject g (SetInjectionConfig fi s 1 r) <> Ret (g', false))
  /\ (0 <= f -> MaybeInject g (SetInjectionConfig fi s f 1) = Block)
  /\ (0 <= f -> 0 <= r -> MaybeInject g (SetInjectionConfig fi s f r) <> Panic).
Proof.
  split; [done|]. split; [|split].
  - intros g' Hm. unfold MaybeInject in Hm. cbn in Hm. destruct (oneIn_one g) as [g1 E]. rewrite E in Hm.
    cbn in Hm. destruct (oneIn g1 r) as [[g2 []]| |]; cbn in Hm; done.
  - intros Hf. unfold MaybeInject. cbn. destruct (oneIn_returns g f Hf) as [[g1 b] ->]. cbn.
    by destruct (oneIn_one g1) as [g2 ->].
  - intros Hf Hr. unfold MaybeInject. cbn. destruct (oneIn_returns g f Hf) as [[g1 b] ->]. cbn.
    destruct (oneIn_returns g1 r Hr) as [[g2 []] ->]; done.
Qed.

(** ** Requests that fit *)

Lemma MaybeInject_none (g : G) : MaybeInject g MakeFailureInjector = Ret (g, false).
Proof. unfold MaybeInject. cbn. by rewrite !oneIn_zero. Qed.

Lemma GetUser_ok (us : UserServiceServer) (g : G) ids :
  us_fi us = MakeFailureInjector -> ids <> [] -> len ids <= MaxBatchSize (us_options us) ->
  (forall u, u ∈ ids -> is_Some (users us !! u)) -> GetUser us g ids = Ret (g, inl (infos (users us) ids)).
Proof.
  intros Hfi H0 Hl Hs. unfold GetUser. rewrite Hfi, MaybeInject_none. cbn.
  destruct (Z.eqb_spec (len ids) 0); [by destruct ids|].
  destruct (Z.ltb_spec (MaxBatchSize (us_options us)) (len ids)); [lia|]. by rewrite lookup_all_infos.
Qed.

Lemma GetVideo_ok (vs : VideoServiceServer) (g : G) ids :
  vs_fi vs = MakeFailureInjector -> ids <> [] -> len ids <= MaxBatchSize (vs_options vs) ->
  (forall v, v ∈ ids -> is_Some (videos vs !! v)) -> NoDup ids ->
  GetVideo vs g ids = Ret (g, inl (infos (videos vs) ids)).
Proof.
  intros Hfi H0 Hl Hs Hnd. unfold GetVideo. rewrite Hfi, MaybeInject_none. cbn.
  destruct (Z.eqb_spec (len ids) 0); [by destruct ids|].
  destruct (Z.ltb_spec (MaxBatchSize (vs_options vs)) (len ids)); [lia|].
  apply deduplicateIds_length in Hnd. unfold len. rewrite Hnd, Z.eqb_refl. cbn. by rewrite lookup_all_infos.
Qed.

(** Without injected failures the services answer every request that
    keeps to their limits: known users in any number up to the batch size,
    known videos without repetition; the answer lists the records in the
    order of the request. *)
Theorem services_answer (us : UserServiceServer) (vs : VideoServiceServer) (g : G) uids vids :
  us_fi us = MakeFailureInjector -> vs_fi vs = MakeFailureInjector ->
  uids <> [] -> len uids <= MaxBatchSize (us_options us) -> (forall u, u ∈ uids -> is_Some (users us !! u)) ->
  vids <> [] -> len vids <= MaxBatchSize (vs_options vs) -> (forall v, v ∈ vids -> is_Some (videos vs !! v)) ->
  NoDup vids ->
  (exists l, GetUser us g uids = Ret (g, inl l) /\ Forall2 (fun id x => users us !! id = Some x) uids l)
  /\ (exists l, GetVideo vs g vids = Ret (g, inl l) /\ Forall2 (fun id x => videos vs !! id = Some x) vids l).
Proof.
  intros Hu Hv Hu0 Hul Hus Hv0 Hvl Hvs Hnd. rewrite GetUser_ok, GetVideo_ok by done.
  split; eexists; (split; [done|]); by apply lookup_all_ok, lookup_all_infos.
Qed.

(** ** The generated data *)

Lemma repeat_draw_inv {S} (P : S -> Prop) body n (g : G) (s : S) :
  P s -> (forall g s, P s -> P (body g s).2) -> P (repeat_draw body n g s).2.
Proof.
  intros Hs Hb. revert g s Hs. induction n as [|n IH]; intros g s Hs; cbn; [done|].
  specialize (Hb g s Hs). destruct (body g s) as [g1 s1]. by apply IH.
Qed.

Lemma make_all_lookup {A} (make : G -> Z -> G * A) id n (g : G) db k x :
  (make_all make id n g db).2 !! k = Some x ->
  (id <= k < id + Z.of_nat n /\ exists g', x = (make g' k).2) \/ db !! k = Some x.
Proof.
  revert id g db. induction n as [|n IH]; intros id g db; cbn; [by right|].
  destruct (make g id) as [g1 info] eqn:E. intros [[? ?]|Hk]%IH; [left; split; [lia|done]|].
  apply lookup_insert_Some in Hk as [[<- <-]|[_ ?]]; [left|by right].
  split; [lia|]. exists g. by rewrite E.
Qed.

Lemma make_all_total {A} (make : G -> Z -> G * A) id n (g : G) db k :
  id <= k < id + Z.of_nat n \/ is_Some (db !! k) -> is_Some ((make_all make id n g db).2 !! k).
Proof.
  revert id g db. induction n as [|n IH]; intros id g db Hk; cbn; [destruct Hk; [lia|done]|].
  destruct (make g id) as [g1 info]. apply IH.
  destruct (decide (k = id)) as [->|Hne]; [right; by rewrite lookup_insert_eq|].
  destruct Hk as [?|?]; [left; lia|right]. by rewrite lookup_insert_ne.
Qed.

(** Appending one draw per iteration keeps all elements in range. *)
Lemma draw_ids_range (g : G) n m off (keep : Z -> bool) :
  0 < m ->
  forall i, i ∈ (repeat_draw (fun g l => let '(g, r) := Intn g m in
                 (g, if keep (r + off) then l else l ++ [r + off])) n g []).2 ->
  off <= i < off + m /\ keep i = false.
Proof.
  intros Hm. apply (repeat_draw_inv (fun l => forall i, i ∈ l -> off <= i < off + m /\ keep i = false)).
  - intros i Hi. by apply elem_of_nil in Hi.
  - intros g' l Hl. pose proof (Intn_law g' m Hm) as Hr. destruct (Intn g' m) as [g2 r]. cbn in *.
    destruct (keep (r + off)) eqn:Ek; [done|]. intros i [?| ->%list_elem_of_singleton]%elem_of_app; [auto|].
    split; [lia|done].
Qed.

Definition user_ok (maxUsers maxVideos : Z) (u : UserInfo) : Prop :=
  (forall i, i ∈ SubscribedTo u -> USER_ID_OFFSET <= i < USER_ID_OFFSET + maxUsers /\ i <> UserId u)
  /\ (forall i, i ∈ LikedVideos u -> VIDEO_ID_OFFSET <= i < VIDEO_ID_OFFSET + maxVideos).

Lemma makeRandomUser_ok (g : G) id maxUsers maxVideos :
  0 < maxUsers -> 0 < maxVideos -> user_ok maxUsers maxVideos (makeRandomUser g id maxUsers maxVideos).2.
Proof.
  intros Hu Hv. unfold makeRandomUser.
  destruct (Intn g 10) as [g1 cc]. destruct (repeat_draw draw_coeff _ g1 ∅) as [g2 coeffs].
  destruct (Intn g2 50) as [g3 sc].
  pose proof (draw_ids_range g3 (Z.to_nat (sc + 10)) maxUsers USER_ID_OFFSET (fun i => i =? id) Hu) as Hs.
  destruct (repeat_draw _ _ g3 []) as [g4 subs]. destruct (Intn g4 20) as [g5 lc].
  pose proof (draw_ids_range g5 (Z.to_nat (lc + 5)) maxVideos VIDEO_ID_OFFSET (fun _ => false) Hv) as Hl.
  cbn in Hl. destruct (repeat_draw _ _ g5 []) as [g6 likes]. cbn in *. split; cbn.
  - intros i Hi. destruct (Hs i Hi) as [? Hk]. split; [done|]. by apply Z.eqb_neq.
  - intros i Hi. by destruct (Hl i Hi).
Qed.

(** The two databases fit together. Built from the same seed, as the
    default options have it, both services draw the same number of videos,
    so every video a user likes and every trending video exists, every user
    subscribes only to other existing users, and no trending video is listed
    twice. *)
Theorem databases_consistent (uo vo : ServiceOptions) :
  opt_Seed uo = opt_Seed vo ->
  let us := MakeUserServiceServer (G := G) uo in
  let vs := MakeVideoServiceServer (G := G) vo in
  (forall id u, users us !! id = Some u ->
     (forall s, s ∈ SubscribedTo u -> is_Some (users us !! s) /\ s <> UserId u)
     /\ (forall v, v ∈ LikedVideos u -> is_Some (videos vs !! v)))
  /\ (forall v, v ∈ topVideos vs -> is_Some (videos vs !! v)) /\ NoDup (topVideos vs).
Proof.
  intros Hseed. cbn zeta. unfold MakeUserServiceServer, MakeVideoServiceServer, makeRandomUsers, makeRandomVideos.
  rewrite Hseed. pose proof (Intn_law (Seed (opt_Seed vo)) 500 ltac:(lia)) as Hv.
  destruct (Intn (Seed (opt_Seed vo)) 500) as [g v]. cbn in Hv. split.
  - intros id u Hu. cbn in Hu. pose proof (Intn_law g 5000 ltac:(lia)) as Hn.
    destruct (Intn g 5000) as [g1 n]. cbn in Hn. cbn [users].
    destruct (make_all makeRandomVideo _ _ g ∅) as [g2 vids] eqn:Ev.
    destruct (Intn g2 10) as [g3 t]. destruct (repeat_draw _ _ g3 []) as [g4 top]. cbn [videos].
    apply make_all_lookup in Hu as [[Hid (g' & ->)]|Hu]; [|by rewrite lookup_empty in Hu].
    destruct (makeRandomUser_ok g' id (n + 5000) (v + 100) ltac:(lia) ltac:(lia)) as [Hs Hl]. split.
    + intros s Hin. destruct (Hs s Hin) as [? ?]. split; [|done]. apply make_all_total. left. lia.
    + intros w Hin. specialize (Hl w Hin).
      change vids with (g2, vids).2. rewrite <- Ev. apply make_all_total. left. lia.
  - destruct (make_all makeRandomVideo _ _ g ∅) as [g2 vids] eqn:Ev. destruct (Intn g2 10) as [g3 t].
    pose proof (draw_ids_range g3 (Z.to_nat (t + 10)) (v + 100) VIDEO_ID_OFFSET (fun _ => false) ltac:(lia)) as Ht.
    cbn in Ht. destruct (repeat_draw _ _ g3 []) as [g4 top]. cbn in *.
    destruct (deduplicateIds_spec top) as (Hnd & _ & Hin). split; [|done].
    intros w Hw%Hin. destruct (Ht w Hw) as [? _].
    change vids with (g2, vids).2. rewrite <- Ev. apply make_all_total. left. lia.
Qed.

End BackendTheorems.

(** A generator for concrete runs: a counter modulo the bound. *)
#[export] Program Instance counter_rand : Rand Z := {
  Seed s := s;
  Intn g n := (g + 1, g mod n)
}.
Next Obligation. intros g n Hn. cbn. apply Z.mod_pos_bound. lia. Qed.

Definition small_users : UserServiceServer :=
  mkUserService DefaultUserServiceOptions MakeFailureInjector
    {[ 1 := mkUser 1 "" ∅ [2] [7; 8]; 2 := mkUser 2 "" ∅ [1] [8; 9] ]}.
Definition small_videos : VideoServiceServer :=
  mkVideoService DefaultVideoServiceOptions MakeFailureInjector
    {[ 7 := mkVideo 7 "" ∅; 8 := mkVideo 8 "" ∅; 9 := mkVideo 9 "" ∅ ]} [9; 7].

Lemma services_answer_witness :
  exists l, GetVideo small_videos 0 [9; 7] = Ret (0, inl l)
    /\ Forall2 (fun id x => videos small_videos !! id = Some x) [9; 7] l.
Proof.
  apply (services_answer small_users small_videos 0 [1; 2] [9; 7]).
  - reflexivity.
  - reflexivity.
  - discriminate.
  - vm_compute. discriminate.
  - intros u [-> | [-> | []%elem_of_nil]%elem_of_cons]%elem_of_cons; eexists; vm_compute; reflexivity.
  - discriminate.
  - vm_compute. discriminate.
  - intros u [-> | [-> | []%elem_of_nil]%elem_of_cons]%elem_of_cons; eexists; vm_compute; reflexivity.
  - apply (bool_decide_unpack _). vm_compute. exact I.
Defined.

Lemma databases_consistent_witness :
  NoDup (topVideos (MakeVideoServiceServer (G := Z) DefaultVideoServiceOptions)).
Proof.
  exact (proj2 (proj2 (databases_consistent (G := Z) DefaultUserServiceOptions DefaultVideoServiceOptions eq_refl))).
Defined.
