(* ===== verification/DetBcrypt.v ===== *)
(** * lab1/det_bcrypt/det_bcrypt.go: bcrypt with a fixed salt

    Bytes are integers from 0 to 255. [encoding/base64] with the bcrypt
    alphabet is modelled with its padding and its error cases (the decoder
    ignores line breaks, and rejects an incomplete or wrongly padded group).
    The Blowfish cipher of golang.org/x/crypto is not part of the repository:
    it is the class [Blowfish]; all the code needs is that a block stays a
    block of eight bytes. *)

From Stdlib Require Import String Ascii.
From stdpp Require Import prelude strings.
From S2P Require Import Prelude Fnv.
Local Open Scope Z_scope.

Notation bytes := (list Z).
Definition is_byte (b : Z) : Prop := 0 <= b < 256.

(** ** base64 *)

Definition alphabet : bytes :=
  bytes_of "./ABCDEFGHIJKLMNOPQRSTUVWXYZabcdefghijklmnopqrstuvwxyz0123456789".
Definition pad : Z := 61.   (* '=' *)

Definition digit (d : Z) : Z := default 0 (alphabet !! Z.to_nat d).

Fixpoint index_of (c : Z) (l : bytes) (i : Z) : option Z :=
  match l with
  | [] => None
  | x :: l' => if x =? c then Some i else index_of c l' (i + 1)
  end.
Definition undigit (c : Z) : option Z := index_of c alphabet 0.
#[global] Arguments digit : simpl never.
#[global] Arguments undigit : simpl never.

(** [bcEncoding.Encode] *)
Fixpoint b64_encode (src : bytes) : bytes :=
  match src with
  | a :: b :: c :: rest =>
      digit (a / 4) :: digit (a mod 4 * 16 + b / 16) :: digit (b mod 16 * 4 + c / 64)
        :: digit (c mod 64) :: b64_encode rest
  | [a; b] => [digit (a / 4); digit (a mod 4 * 16 + b / 16); digit (b mod 16 * 4); pad]
  | [a] => [digit (a / 4); digit (a mod 4 * 16); pad; pad]
  | [] => []
  end.

(** [bcEncoding.Decode] on input without line breaks *)
Fixpoint b64_groups (src : bytes) : option bytes :=
  match src with
  | [] => Some []
  | a :: b :: c :: d :: rest =>
      a' ← undigit a; b' ← undigit b;
      if c =? pad then
        (if (d =? pad) then match rest with [] => Some [a' * 4 + b' / 16] | _ => None end else None)
      else
        c' ← undigit c;
        if d =? pad then
          match rest with [] => Some [a' * 4 + b' / 16; b' mod 16 * 16 + c' / 4] | _ => None end
        else
          d' ← undigit d; r ← b64_groups rest;
          Some (a' * 4 + b' / 16 :: b' mod 16 * 16 + c' / 4 :: c' mod 4 * 64 + d' :: r)
  | _ => None
  end.
Definition b64_decode (src : bytes) : option bytes :=
  b64_groups (filter (fun c => c <> 10 /\ c <> 13) src).

(** [for dst[n-1] == '=' { n-- }; return dst[:n]]: indexing an empty slice
    panics. *)
Fixpoint strip_pad (rev_dst : bytes) : go bytes :=
  match rev_dst with
  | [] => Panic
  | c :: l => if c =? pad then strip_pad l else Ret (rev rev_dst)
  end.
Definition base64Encode (src : bytes) : go bytes := strip_pad (rev (b64_encode src)).
#[global] Arguments base64Encode : simpl never.

Definition base64Decode (src : bytes) : option bytes :=
  let numOfEquals := 4 - len src mod 4 in
  b64_decode (src ++ replicate (Z.to_nat numOfEquals) pad).

(** ** Hashes *)

Definition MinCost : Z := 1.
Definition MaxCost : Z := 31.
Definition DefaultCost : Z := 10.
Definition majorVersion : Z := 50.   (* '2' *)
Definition minorVersion : Z := 97.   (* 'a' *)
Definition dollar : Z := 36.
Definition maxSaltSize : nat := 16.
Definition maxCryptedHashSize : nat := 23.
Definition encodedSaltSize : nat := 22.
Definition encodedHashSize : nat := 31.
Definition minHashSize : Z := 59.

Definition magicCipherData : bytes := bytes_of "OrpheanBeholderScryDoubt".

Record hashed : Type := mkHashed {
  hash : bytes;
  salt : bytes;
  cost : Z;
  major : Z;
  minor : Z
}.

Inductive error : Type :=
| ErrMismatchedHashAndPassword
| ErrHashTooShort
| HashVersionTooNewError (b : Z)
| InvalidHashPrefixError (b : Z)
| InvalidCostError (c : Z)
| ErrAtoi
| ErrBase64
| ErrCipher.

Definition checkCost (c : Z) : option error :=
  if (c <? MinCost) || (MaxCost <? c) then Some (InvalidCostError c) else None.

(** [fmt.Sprintf("%02d", cost)] for a cost of at most two digits *)
Definition two_digits (c : Z) : bytes := [48 + c / 10; 48 + c mod 10].

(** [strconv.Atoi] of two bytes: a sign is allowed *)
Definition dec_digit (c : Z) : option Z := if (48 <=? c) && (c <=? 57) then Some (c - 48) else None.
Definition Atoi2 (a b : Z) : option Z :=
  if a =? 43 then dec_digit b
  else if a =? 45 then d ← dec_digit b; Some (- d)
  else x ← dec_digit a; y ← dec_digit b; Some (10 * x + y).

(** [copy(arr[n:], src)] *)
Definition copy_at (arr : bytes) (n : nat) (src : bytes) : bytes :=
  take n arr ++ take (length arr - n) src ++ drop (n + length (take (length arr - n) src)) arr.

Definition Hash (p : hashed) : bytes :=
  let arr := replicate 60 0 in
  let arr := <[0%nat := dollar]> arr in
  let arr := <[1%nat := major p]> arr in
  let '(arr, n) := if minor p =? 0 then (arr, 2%nat) else (<[2%nat := minor p]> arr, 3%nat) in
  let arr := <[n := dollar]> arr in
  let n := S n in
  let arr := copy_at arr n (two_digits (cost p)) in
  let n := (n + 2)%nat in
  let arr := <[n := dollar]> arr in
  let n := S n in
  let arr := copy_at arr n (salt p) in
  let n := (n + encodedSaltSize)%nat in
  let arr := copy_at arr n (hash p) in
  take (n + encodedHashSize) arr.

(** [decodeVersion]: the version bytes and how many bytes they took. *)
Definition decodeVersion (sbytes : bytes) : go (Z * Z * Z + error) :=
  let! b0 := go_index sbytes 0 in
  if negb (b0 =? dollar) then Ret (inr (InvalidHashPrefixError b0))
  else
    let! b1 := go_index sbytes 1 in
    if majorVersion <? b1 then Ret (inr (HashVersionTooNewError b1))
    else
      let! b2 := go_index sbytes 2 in
      if b2 =? dollar then Ret (inl (b1, 0, 3)) else Ret (inl (b1, b2, 4)).

Definition decodeCost (sbytes : bytes) : go (Z + error) :=
  let! two := go_range sbytes 0 2 in
  match two with
  | [a; b] => match Atoi2 a b with
              | None => Ret (inr ErrAtoi)
              | Some c => match checkCost c with Some e => Ret (inr e) | None => Ret (inl c) end
              end
  | _ => Panic
  end.

Definition newFromHash (hashedSecret : bytes) : go (hashed + error) :=
  if len hashedSecret <? minHashSize then Ret (inr ErrHashTooShort)
  else
    let! v := decodeVersion hashedSecret in
    match v with
    | inr e => Ret (inr e)
    | inl (mj, mn, n) =>
        let! hs := go_from hashedSecret n in
        let! c := decodeCost hs in
        match c with
        | inr e => Ret (inr e)
        | inl c =>
            let! hs := go_from hs 3 in
            let! s := go_upto hs (Z.of_nat encodedSaltSize) in
            let! h := go_from hs (Z.of_nat encodedSaltSize) in
            Ret (inl (mkHashed h s c mj mn))
        end
    end.

Definition Cost (hashedPassword : bytes) : go (Z * option error) :=
  let! r := newFromHash hashedPassword in
  match r with inl p => Ret (cost p, None) | inr e => Ret (0, Some e) end.

(** ** The cipher *)

Class Blowfish (Cipher : Type) : Type := {
  NewSaltedCipher : bytes -> bytes -> option Cipher;
  ExpandKey : bytes -> Cipher -> Cipher;
  Encrypt : Cipher -> bytes -> bytes;
  Encrypt_law c b : length b = 8%nat -> length (Encrypt c b) = 8%nat /\ Forall is_byte (Encrypt c b)
}.

Section Bcrypt.
Context {Cipher : Type} `{Blowfish Cipher}.

Definition expensiveBlowfishSetup (key : bytes) (cost : Z) (salt : bytes) : Cipher + error :=
  match base64Decode salt with
  | None => inr ErrBase64
  | Some csalt =>
      let ckey := key ++ [0] in
      match NewSaltedCipher ckey csalt with
      | None => inr ErrCipher
      | Some c =>
          let rounds := Z.shiftl 1 (cost mod 2 ^ 32) mod 2 ^ 64 in
          inl (N.iter (Z.to_N rounds) (fun c => ExpandKey csalt (ExpandKey ckey c)) c)
      end
  end.

(** 64 encryptions of the block at [i], in place *)
Definition encrypt_block (c : Cipher) (data : bytes) (i : nat) : bytes :=
  let block := take 8 (drop i data) in
  take i data ++ Nat.iter 64 (Encrypt c) block ++ drop (i + 8) data.

Definition bcrypt (password : bytes) (cost : Z) (salt : bytes) : go (bytes + error) :=
  match expensiveBlowfishSetup password cost salt with
  | inr e => Ret (inr e)
  | inl c =>
      let cipherData := foldl (encrypt_block c) magicCipherData [0; 8; 16]%nat in
      let! hsh := base64Encode (take maxCryptedHashSize cipherData) in
      Ret (inl hsh)
  end.

Definition newFromPassword (password : bytes) (cost : Z) : go (hashed + error) :=
  let cost := if cost <? MinCost then DefaultCost else cost in
  match checkCost cost with
  | Some e => Ret (inr e)
  | None =>
      let unencodedSalt := replicate maxSaltSize 97 in
      let! salt := base64Encode unencodedSalt in
      let! h := bcrypt password cost salt in
      match h with
      | inr e => Ret (inr e)
      | inl hash => Ret (inl (mkHashed hash salt cost majorVersion minorVersion))
      end
  end.

Definition GenerateFromPassword (password : bytes) (cost : Z) : go (bytes + error) :=
  let! p := newFromPassword password cost in
  match p with inr e => Ret (inr e) | inl p => Ret (inl (Hash p)) end.

Definition CompareHashAndPassword (hashedPassword password : bytes) : go (option error) :=
  let! r := newFromHash hashedPassword in
  match r with
  | inr e => Ret (Some e)
  | inl p =>
      let! other := bcrypt password (cost p) (salt p) in
      match other with
      | inr e => Ret (Some e)
      | inl otherHash =>
          let otherP := mkHashed otherHash (salt p) (cost p) (major p) (minor p) in
          if decide (Hash p = Hash otherP) then Ret None else Ret (Some ErrMismatchedHashAndPassword)
      end
  end.

End Bcrypt.

(** ** base64 round trip *)

Definition plain (c : Z) : Prop := c <> pad /\ (c <> 10 /\ c <> 13) /\ is_byte c.

Lemma digit_table :
  forallb (fun n => bool_decide (undigit (digit (Z.of_nat n)) = Some (Z.of_nat n))
    && negb (digit (Z.of_nat n) =? pad) && negb (digit (Z.of_nat n) =? 10) && negb (digit (Z.of_nat n) =? 13)
    && (0 <=? digit (Z.of_nat n)) && (digit (Z.of_nat n) <? 256))
    (seq 0 64) = true.
Proof. vm_compute. reflexivity. Qed.

Lemma digit_ok d : 0 <= d < 64 -> undigit (digit d) = Some d /\ plain (digit d).
Proof.
  intros Hd. pose proof digit_table as Ht. rewrite forallb_forall in Ht.
  specialize (Ht (Z.to_nat d)). rewrite Z2Nat.id in Ht by lia.
  assert (In (Z.to_nat d) (seq 0 64)) as Hin by (apply in_seq; lia). specialize (Ht Hin).
  unfold plain, is_byte. bprop.
  by match goal with H : bool_decide _ = true |- _ => apply bool_decide_eq_true in H end.
Qed.

(** The two halves of a byte, and what they give back. *)
Ltac byte_arith :=
  repeat match goal with
  | |- context [?x / ?k] => lazymatch goal with H : x = k * (x / k) + _ |- _ => fail
                            | _ => pose proof (Z.div_mod x k ltac:(lia)); pose proof (Z.mod_pos_bound x k ltac:(lia)) end
  | |- context [?x mod ?k] => lazymatch goal with H : x = k * (x / k) + _ |- _ => fail
                            | _ => pose proof (Z.div_mod x k ltac:(lia)); pose proof (Z.mod_pos_bound x k ltac:(lia)) end
  end; lia.

Lemma split2 x y : 0 <= y < 16 -> (x * 16 + y) / 16 = x /\ (x * 16 + y) mod 16 = y.
Proof.
  intros Hy. rewrite Z.add_comm. split.
  - rewrite Z.div_add by lia. rewrite Z.div_small by lia. lia.
  - rewrite Z.mod_add by lia. by apply Z.mod_small.
Qed.
Lemma split4 x y : 0 <= y < 4 -> (x * 4 + y) / 4 = x /\ (x * 4 + y) mod 4 = y.
Proof.
  intros Hy. rewrite Z.add_comm. split.
  - rewrite Z.div_add by lia. rewrite Z.div_small by lia. lia.
  - rewrite Z.mod_add by lia. by apply Z.mod_small.
Qed.

Lemma byte_parts a : is_byte a ->
  0 <= a / 4 < 64 /\ 0 <= a mod 4 < 4 /\ 0 <= a / 16 < 16 /\ 0 <= a mod 16 < 16
  /\ 0 <= a / 64 < 4 /\ 0 <= a mod 64 < 64
  /\ a / 4 * 4 + a mod 4 = a /\ a / 16 * 16 + a mod 16 = a /\ a / 64 * 64 + a mod 64 = a.
Proof. unfold is_byte. intros Ha. repeat split; byte_arith. Qed.

(** Induction by groups of three bytes. *)
Lemma triple_ind (P : bytes -> Prop) :
  P [] -> (forall a, P [a]) -> (forall a b, P [a; b]) ->
  (forall a b c l, P l -> P (a :: b :: c :: l)) -> forall l, P l.
Proof.
  intros H0 H1 H2 H3 l. enough (P l /\ (forall a, P (a :: l)) /\ forall a b, P (a :: b :: l)) as [? _] by done.
  induction l as [|x l (? & ? & ?)]; auto.
Qed.

Lemma b64_groups_encode src : Forall is_byte src -> b64_groups (b64_encode src) = Some src.
Proof.
  induction src as [|a|a b|a b c src IH] using triple_ind; intros Hb; [done|..].
  - apply Forall_cons in Hb as [Ha%byte_parts _]. cbn.
    destruct (digit_ok (a / 4)) as [-> _]; [lia|]. cbn.
    destruct (digit_ok (a mod 4 * 16)) as [-> _]; [lia|]. cbn.
    do 2 f_equal. destruct (split2 (a mod 4) 0 ltac:(lia)) as [E _]. rewrite Z.add_0_r in E. rewrite E. lia.
  - apply Forall_cons in Hb as [Ha%byte_parts Hb]. apply Forall_cons in Hb as [Hb%byte_parts _]. cbn.
    destruct (digit_ok (a / 4)) as [-> _]; [lia|]. cbn.
    destruct (digit_ok (a mod 4 * 16 + b / 16)) as [-> _]; [lia|]. cbn.
    destruct (digit_ok (b mod 16 * 4)) as [Hu [Hp _]]; [lia|].
    destruct (Z.eqb_spec (digit (b mod 16 * 4)) pad); [done|]. rewrite Hu. cbn.
    destruct (split2 (a mod 4) (b / 16) ltac:(lia)) as [-> ->].
    destruct (split4 (b mod 16) 0 ltac:(lia)) as [E _]. rewrite Z.add_0_r in E. rewrite E.
    repeat f_equal; lia.
  - apply Forall_cons in Hb as [Ha%byte_parts Hb]. apply Forall_cons in Hb as [Hb%byte_parts Hs].
    apply Forall_cons in Hs as [Hc%byte_parts Hs]. cbn.
    destruct (digit_ok (a / 4)) as [-> _]; [lia|]. cbn.
    destruct (digit_ok (a mod 4 * 16 + b / 16)) as [-> _]; [lia|]. cbn.
    destruct (digit_ok (b mod 16 * 4 + c / 64)) as [Hu [Hp _]]; [lia|].
    destruct (Z.eqb_spec (digit (b mod 16 * 4 + c / 64)) pad); [done|]. rewrite Hu. cbn.
    destruct (digit_ok (c mod 64)) as [Hu' [Hp' _]]; [lia|].
    destruct (Z.eqb_spec (digit (c mod 64)) pad); [done|]. rewrite Hu', IH by done. cbn.
    destruct (split2 (a mod 4) (b / 16) ltac:(lia)) as [-> ->].
    destruct (split4 (b mod 16) (c / 64) ltac:(lia)) as [-> ->]. repeat f_equal; lia.
Qed.

(** The encoding is digits followed by the padding. *)
Lemma b64_encode_shape src : Forall is_byte src ->
  exists body k, b64_encode src = body ++ replicate k pad /\ Forall plain body
    /\ (k < 3)%nat /\ len src = 3 * ((len body + Z.of_nat k) / 4) - Z.of_nat k
    /\ (len body + Z.of_nat k) mod 4 = 0 /\ (src <> [] -> body <> []).
Proof.
  induction src as [|a|a b|a b c src IH] using triple_ind; intros Hb.
  - exists [], 0%nat. split; [done|]. split; [constructor|]. split; [lia|]. done.
  - apply Forall_cons in Hb as [Ha%byte_parts _].
    exists [digit (a / 4); digit (a mod 4 * 16)], 2%nat. split; [done|].
    split; [repeat (constructor; [apply digit_ok; lia|]); constructor|]. split; [lia|]. done.
  - apply Forall_cons in Hb as [Ha%byte_parts Hb]. apply Forall_cons in Hb as [Hb%byte_parts _].
    exists [digit (a / 4); digit (a mod 4 * 16 + b / 16); digit (b mod 16 * 4)], 1%nat. split; [done|].
    split; [repeat (constructor; [apply digit_ok; lia|]); constructor|]. split; [lia|]. done.
  - apply Forall_cons in Hb as [Ha%byte_parts Hb]. apply Forall_cons in Hb as [Hb%byte_parts Hs].
    apply Forall_cons in Hs as [Hc%byte_parts Hs]. destruct (IH Hs) as (body & k & E & Hp & Hk & Hl & Hm & _).
    exists (digit (a / 4) :: digit (a mod 4 * 16 + b / 16) :: digit (b mod 16 * 4 + c / 64)
      :: digit (c mod 64) :: body), k. cbn. rewrite E. split; [done|].
    split; [repeat (constructor; [apply digit_ok; lia|]); done|]. split; [done|].
    unfold len in *. cbn [length]. rewrite !Nat2Z.inj_succ.
    replace (Z.succ (Z.succ (Z.succ (Z.succ (Z.of_nat (length body))))) + Z.of_nat k)
      with (Z.of_nat (length body) + Z.of_nat k + 1 * 4) by lia.
    rewrite Z.div_add, Z.mod_add by lia. split; [lia|]. done.
Qed.

Lemma strip_pad_ok body k : Forall plain body -> body <> [] ->
  strip_pad (rev (body ++ replicate k pad)) = Ret body.
Proof.
  intros Hp Hne. rewrite rev_app_distr.
  assert (rev (replicate k pad) = replicate k pad) as ->.
  { rewrite rev_alt. apply reverse_replicate. }
  induction k as [|k IH]; cbn; [|done].
  destruct (rev body) as [|c l] eqn:E; [apply (f_equal (@rev Z)) in E; by rewrite rev_involutive in E|].
  assert (plain c) as [Hc _].
  { rewrite Forall_forall in Hp. apply Hp, list_elem_of_In, in_rev. rewrite E. by left. }
  cbn. destruct (Z.eqb_spec c pad); [done|]. f_equal.
  rewrite <- (rev_involutive body), E. done.
Qed.

Lemma b64_filter_plain l k : Forall plain l ->
  filter (fun c => c <> 10 /\ c <> 13) (l ++ replicate k pad) = l ++ replicate k pad.
Proof.
  intros Hl. rewrite filter_app. f_equal.
  - induction Hl as [|c l (_ & ? & _) _ IH]; [done|]. rewrite filter_cons_True by done. by rewrite IH.
  - induction k as [|k IH]; [done|]. cbn [replicate]. rewrite filter_cons_True by done. by rewrite IH.
Qed.

Lemma base64Encode_shape src : Forall is_byte src -> src <> [] ->
  exists body k, base64Encode src = Ret body /\ b64_encode src = body ++ replicate k pad
    /\ Forall plain body /\ (k < 3)%nat
    /\ len src = 3 * ((len body + Z.of_nat k) / 4) - Z.of_nat k /\ (len body + Z.of_nat k) mod 4 = 0.
Proof.
  intros Hb Hne. destruct (b64_encode_shape src Hb) as (body & k & E & Hp & Hk & Hl & Hm & Hbne).
  exists body, k. unfold base64Encode. rewrite E, strip_pad_ok by auto. done.
Qed.

(** A group of padding after complete groups is an error. *)
Lemma b64_groups_extra src : Forall is_byte src -> len src mod 3 = 0 ->
  b64_groups (b64_encode src ++ replicate 4 pad) = None.
Proof.
  induction src as [|a|a b|a b c src IH] using triple_ind; intros Hb Hm; [done|done|done|].
  apply Forall_cons in Hb as [Ha%byte_parts Hb]. apply Forall_cons in Hb as [Hb%byte_parts Hs].
  apply Forall_cons in Hs as [Hc%byte_parts Hs].
  assert (len src mod 3 = 0) as Hm'.
  { rewrite <- Hm. unfold len. cbn [length]. rewrite !Nat2Z.inj_succ.
    replace (Z.succ (Z.succ (Z.succ (Z.of_nat (length src))))) with (Z.of_nat (length src) + 1 * 3) by lia.
    by rewrite Z.mod_add. }
  cbn. destruct (undigit (digit (a / 4))); [|done]. cbn.
  destruct (undigit (digit (a mod 4 * 16 + b / 16))); [|done]. cbn.
  destruct (digit_ok (b mod 16 * 4 + c / 64)) as [Hu [Hp _]]; [lia|].
  destruct (Z.eqb_spec (digit (b mod 16 * 4 + c / 64)) pad); [done|]. rewrite Hu. cbn.
  destruct (digit_ok (c mod 64)) as [Hu' [Hp' _]]; [lia|].
  destruct (Z.eqb_spec (digit (c mod 64)) pad); [done|]. rewrite Hu'. cbn.
  change [pad; pad; pad; pad] with (replicate 4 pad). by rewrite IH.
Qed.

(** The base64 helpers are inverse to each other on every non-empty byte
    string whose length is not a multiple of three, the lengths of salts and
    hashes among them. For the other lengths, whose encoding has no padding,
    [base64Decode] appends four padding characters and always fails. *)
Theorem base64_roundtrip (src : bytes) :
  Forall is_byte src -> src <> [] ->
  exists enc, base64Encode src = Ret enc
    /\ base64Decode enc = if len src mod 3 =? 0 then None else Some src.
Proof.
  intros Hb Hne. destruct (base64Encode_shape src Hb Hne) as (body & k & He & E & Hp & Hk & Hl & Hm).
  exists body. split; [done|]. unfold base64Decode, b64_decode. rewrite b64_filter_plain by done.
  apply Z.mod_divide in Hm as [q Hq]; [|lia]. rewrite Hq, Z.div_mul in Hl by lia.
  assert (len body = q * 4 - Z.of_nat k) as Hlb by lia. rewrite Hl, Hlb.
  destruct (decide (k = 0)%nat) as [->|Hk0].
  - assert ((3 * q - Z.of_nat 0) mod 3 = 0) as Hm3
      by (replace (3 * q - Z.of_nat 0) with (q * 3) by lia; by rewrite Z.mod_mul).
    rewrite Hm3. replace ((q * 4 - Z.of_nat 0) mod 4) with 0
      by (replace (q * 4 - Z.of_nat 0) with (q * 4) by lia; by rewrite Z.mod_mul).
    cbn in E. rewrite app_nil_r in E. rewrite <- E.
    apply b64_groups_extra; [done|]. by rewrite Hl.
  - replace ((3 * q - Z.of_nat k) mod 3) with (3 - Z.of_nat k)
      by (replace (3 * q - Z.of_nat k) with (3 - Z.of_nat k + (q - 1) * 3) by lia;
          rewrite Z.mod_add by lia; rewrite Z.mod_small; lia).
    replace ((q * 4 - Z.of_nat k) mod 4) with (4 - Z.of_nat k)
      by (replace (q * 4 - Z.of_nat k) with (4 - Z.of_nat k + (q - 1) * 4) by lia;
          rewrite Z.mod_add by lia; rewrite Z.mod_small; lia).
    destruct (Z.eqb_spec (3 - Z.of_nat k) 0); [lia|].
    replace (Z.to_nat (4 - (4 - Z.of_nat k))) with k by lia. rewrite <- E. by apply b64_groups_encode.
Qed.

Lemma base64_roundtrip_witness :
  exists enc, base64Encode (replicate 16 97) = Ret enc /\ base64Decode enc = Some (replicate 16 97).
Proof.
  apply (base64_roundtrip (replicate 16 97)).
  - apply Forall_replicate. unfold is_byte. lia.
  - discriminate.
Defined.

(** ** The printed form of a hash *)

Definition hash_wf (p : hashed) : Prop :=
  length (salt p) = encodedSaltSize /\ length (hash p) = encodedHashSize
  /\ MinCost <= cost p <= MaxCost /\ major p <= majorVersion /\ minor p <> 0 /\ minor p <> dollar.

Lemma copy_at_app l x r src : length src = length x -> copy_at (l ++ x ++ r) (length l) src = l ++ src ++ r.
Proof.
  intros E. unfold copy_at. rewrite take_app_length. f_equal.
  assert (take (length (l ++ x ++ r) - length l) src = src) as ->.
  { apply take_ge. rewrite !length_app. lia. }
  f_equal. rewrite E, app_assoc, <- length_app. apply drop_app_length.
Qed.

Lemma Hash_layout p : hash_wf p ->
  Hash p = [dollar; major p; minor p; dollar] ++ two_digits (cost p) ++ [dollar] ++ salt p ++ hash p.
Proof.
  intros (Hs & Hh & _ & _ & Hm & _). unfold Hash. destruct (Z.eqb_spec (minor p) 0); [done|].
  set (header := [dollar; major p; minor p; dollar]). cbn zeta.
  change (copy_at _ 4 (two_digits (cost p)))
    with (copy_at (header ++ replicate 2 0 ++ replicate 54 0) (length header) (two_digits (cost p))).
  rewrite copy_at_app by done.
  change (<[(4 + 2)%nat := dollar]> (header ++ two_digits (cost p) ++ replicate 54 0))
    with ((header ++ two_digits (cost p) ++ [dollar]) ++ replicate 22 0 ++ replicate 31 0).
  change (S (4 + 2)) with (length (header ++ two_digits (cost p) ++ [dollar])).
  rewrite copy_at_app by (rewrite length_replicate; exact Hs).
  set (A := header ++ two_digits (cost p) ++ [dollar]).
  assert (copy_at (A ++ salt p ++ replicate 31 0) (length A + encodedSaltSize) (hash p) = A ++ salt p ++ hash p) as ->.
  { rewrite app_assoc, <- Hs, <- length_app, <- (app_nil_r (replicate 31 0)).
    rewrite copy_at_app by (rewrite length_replicate; exact Hh). by rewrite app_nil_r, <- app_assoc. }
  rewrite take_ge; [by unfold A; rewrite <- !app_assoc|]. rewrite !length_app, Hs, Hh. done.
Qed.

Lemma two_digits_Atoi c : 1 <= c <= 31 ->
  match two_digits c with [a; b] => Atoi2 a b | _ => None end = Some c.
Proof.
  intros Hc. pose proof (Z.div_mod c 10 ltac:(lia)). pose proof (Z.mod_pos_bound c 10 ltac:(lia)).
  cbn. unfold Atoi2, dec_digit.
  repeat match goal with
  | |- context [?x =? ?y] => destruct (Z.eqb_spec x y); [lia|]
  | |- context [?x <=? ?y] => destruct (Z.leb_spec x y); [|lia]
  end. cbn. f_equal. lia.
Qed.

Lemma newFromHash_Hash p : hash_wf p -> newFromHash (Hash p) = Ret (inl p).
Proof.
  intros Hwf. rewrite Hash_layout by done. destruct Hwf as (Hs & Hh & Hc & Hmj & Hm0 & Hmd).
  assert (len ([dollar; major p; minor p; dollar] ++ two_digits (cost p) ++ [dollar] ++ salt p ++ hash p) = 60) as Hlen.
  { unfold len. rewrite !length_app, Hs, Hh. done. }
  unfold newFromHash. rewrite Hlen. cbn [Z.ltb Z.compare minHashSize Pos.compare Pos.compare_cont].
  unfold decodeVersion. change (go_index (_ ++ _) 0) with (Ret dollar). cbn [mbind go_bind].
  change (negb (dollar =? dollar)) with false. cbv iota.
  change (go_index (_ ++ _) 1) with (Ret (major p)). cbn [mbind go_bind].
  destruct (Z.ltb_spec majorVersion (major p)); [lia|].
  change (go_index (_ ++ _) 2) with (Ret (minor p)). cbn [mbind go_bind].
  destruct (Z.eqb_spec (minor p) dollar); [done|].
  cbn [mbind go_bind].
  assert (go_from ([dollar; major p; minor p; dollar] ++ two_digits (cost p) ++ [dollar] ++ salt p ++ hash p) 4
    = Ret (two_digits (cost p) ++ [dollar] ++ salt p ++ hash p)) as -> by (apply go_from_Ret; split; [lia|done]).
  cbn [mbind go_bind].
  unfold decodeCost. assert (go_range (two_digits (cost p) ++ [dollar] ++ salt p ++ hash p) 0 2 = Ret (two_digits (cost p))) as ->.
  { apply go_range_Ret. split; [lia|]. split; [|done]. unfold len. rewrite length_app. cbn. lia. }
  cbn [mbind go_bind]. pose proof (two_digits_Atoi (cost p) Hc) as Ha. unfold two_digits in Ha |- *. rewrite Ha.
  unfold checkCost. destruct (Z.ltb_spec (cost p) MinCost); [lia|]. destruct (Z.ltb_spec MaxCost (cost p)); [lia|].
  cbn [orb mbind go_bind].
  assert (go_from ([48 + cost p / 10; 48 + cost p mod 10] ++ [dollar] ++ salt p ++ hash p) 3 = Ret (salt p ++ hash p)) as ->.
  { apply go_from_Ret. split; [|done]. unfold len. rewrite !length_app. cbn [length]. lia. }
  cbn [mbind go_bind].
  assert (go_upto (salt p ++ hash p) (Z.of_nat encodedSaltSize) = Ret (salt p)) as ->.
  { apply go_upto_Ret. rewrite Nat2Z.id, <- Hs. unfold len. rewrite length_app, take_app_length. split; [lia|done]. }
  cbn [mbind go_bind].
  assert (go_from (salt p ++ hash p) (Z.of_nat encodedSaltSize) = Ret (hash p)) as ->.
  { apply go_from_Ret. rewrite Nat2Z.id, <- Hs. unfold len. rewrite length_app, drop_app_length. split; [lia|done]. }
  by destruct p.
Qed.

(** Printing a hash and parsing it back is the identity: [newFromHash]
    recovers from [Hash] the salt, the digest, the cost and both version
    bytes of every well-formed hash. *)
Theorem hash_roundtrip (p : hashed) : hash_wf p -> newFromHash (Hash p) = Ret (inl p).
Proof. apply newFromHash_Hash. Qed.

Definition demo_hash : hashed := mkHashed (replicate 31 65) (replicate 22 66) 7 majorVersion minorVersion.

Lemma hash_roundtrip_witness : newFromHash (Hash demo_hash) = Ret (inl demo_hash).
Proof.
  apply (hash_roundtrip demo_hash). unfold hash_wf, MinCost, MaxCost, majorVersion. cbn.
  repeat split; (reflexivity || lia || discriminate).
Defined.

Section BcryptTheorems.
Context {Cipher : Type} `{Blowfish Cipher}.

Lemma iter_encrypt_block (c : Cipher) n b : length b = 8%nat ->
  Forall is_byte b -> length (Nat.iter n (Encrypt c) b) = 8%nat /\ Forall is_byte (Nat.iter n (Encrypt c) b).
Proof. intros Hl Hb. induction n as [|n [IH _]]; [done|]. cbn. by apply Encrypt_law. Qed.

Lemma encrypt_block_ok (c : Cipher) data i : (i + 8 <= length data)%nat -> Forall is_byte data ->
  length (encrypt_block c data i) = length data /\ Forall is_byte (encrypt_block c data i).
Proof.
  intros Hl Hb. unfold encrypt_block.
  destruct (iter_encrypt_block c 64 (take 8 (drop i data))) as [E Hbb].
  { rewrite length_take, length_drop. lia. }
  { by apply Forall_take, Forall_drop. }
  split.
  - rewrite !length_app, E, length_take, length_drop. lia.
  - apply Forall_app. split; [by apply Forall_take|]. apply Forall_app. split; [done|by apply Forall_drop].
Qed.

Lemma magic_bytes : Forall is_byte magicCipherData.
Proof. apply Forall_forall. intros b Hb. by apply bytes_of_bound in Hb. Qed.

Lemma bcrypt_returns password c s :
  exists r, bcrypt (Cipher := Cipher) password c s = Ret r /\
    match r with
    | inl h => length h = encodedHashSize /\ Forall is_byte h
    | inr e => e = ErrBase64 \/ e = ErrCipher
    end.
Proof.
  unfold bcrypt. destruct (expensiveBlowfishSetup password c s) as [ci|e] eqn:Es; cycle 1.
  { exists (inr e). split; [done|]. unfold expensiveBlowfishSetup in Es. repeat case_match; naive_solver. }
  cbn [foldl]. destruct (encrypt_block_ok ci magicCipherData 0) as [L1 B1]; [cbn; lia|apply magic_bytes|].
  destruct (encrypt_block_ok ci (encrypt_block ci magicCipherData 0) 8) as [L2 B2]; [rewrite L1; cbn; lia|done|].
  destruct (encrypt_block_ok ci (encrypt_block ci (encrypt_block ci magicCipherData 0) 8) 16) as [L3 B3];
    [rewrite L2, L1; cbn; lia|done|].
  set (d := encrypt_block ci _ 16) in *. assert (length d = 24%nat) as Ld by (by rewrite L3, L2, L1).
  assert (length (take maxCryptedHashSize d) = 23%nat) as Lt by (rewrite length_take, Ld; done).
  destruct (base64Encode_shape (take maxCryptedHashSize d)) as (body & k & -> & _ & Hp & Hk & Hl & Hm).
  { by apply Forall_take. }
  { intros E. by rewrite E in Lt. }
  exists (inl body). cbn. split; [done|]. unfold len in *. rewrite Lt in Hl.
  apply Z.mod_divide in Hm as [q Hq]; [|lia]. rewrite Hq, Z.div_mul in Hl by lia.
  split; [unfold encodedHashSize; lia|]. eapply Forall_impl; [done|]. by intros x (_ & _ & ?).
Qed.

Lemma salt_encoding :
  exists s, base64Encode (replicate maxSaltSize 97) = Ret s /\ length s = encodedSaltSize /\ Forall is_byte s.
Proof.
  assert (exists s, base64Encode (replicate maxSaltSize 97) = Ret s /\ length s = encodedSaltSize
    /\ forallb (fun c => (0 <=? c) && (c <? 256)) s = true) as (s & E & Hl & Hb)
    by (eexists; repeat split; vm_compute; reflexivity).
  exists s. split; [done|]. split; [done|]. rewrite forallb_forall in Hb. apply Forall_forall.
  intros x Hx%list_elem_of_In%Hb. bprop. done.
Qed.

Lemma newFromPassword_wf password c p :
  newFromPassword (Cipher := Cipher) password c = Ret (inl p) ->
  hash_wf p /\ bcrypt (Cipher := Cipher) password (cost p) (salt p) = Ret (inl (hash p))
  /\ Forall is_byte (Hash p).
Proof.
  unfold newFromPassword. destruct (checkCost _) as [e|] eqn:Ec; [done|].
  set (c' := if c <? MinCost then DefaultCost else c) in *.
  assert (MinCost <= c' <= MaxCost) as Hc.
  { unfold checkCost in Ec. destruct (_ || _) eqn:E; [done|]. bprop. lia. }
  destruct salt_encoding as (s & -> & Hs & Hsb).
  cbn. destruct (bcrypt_returns password c' s) as ([h|e] & Eb & Hh); rewrite Eb; cbn; intros Hret; simplify_eq.
  destruct Hh as [Hhl Hhb].
  assert (hash_wf (mkHashed h s c' majorVersion minorVersion)) as Hwf.
  { split; [done|]. split; [done|]. split; [done|]. done. }
  split; [done|]. split; [done|]. rewrite Hash_layout by done. cbn [major minor cost salt hash].
  unfold MinCost, MaxCost in Hc. pose proof (Z.div_mod c' 10 ltac:(lia)). pose proof (Z.mod_pos_bound c' 10 ltac:(lia)).
  repeat (apply Forall_app; split); try done;
    repeat (apply Forall_cons; split); try apply Forall_nil; try done; unfold is_byte, dollar, majorVersion, minorVersion; lia.
Qed.

(** C40: A generated hash verifies: whatever cipher is used, when
    [GenerateFromPassword] returns a hash, [CompareHashAndPassword] accepts
    it with the same password, and [Cost] reports the cost that was used. *)
Theorem generate_then_compare password c h :
  GenerateFromPassword (Cipher := Cipher) password c = Ret (inl h) ->
  CompareHashAndPassword (Cipher := Cipher) h password = Ret None
  /\ Cost h = Ret (if c <? MinCost then DefaultCost else c, None).
Proof.
  unfold GenerateFromPassword. intros Hg.
  destruct (newFromPassword password c) as [[p|e]| |] eqn:E; cbn in Hg; simplify_eq.
  destruct (newFromPassword_wf _ _ _ E) as (Hwf & Hb & _).
  unfold CompareHashAndPassword, Cost. rewrite newFromHash_Hash by done. cbn. rewrite Hb. cbn. split.
  - rewrite decide_True; [done|]. by destruct p.
  - unfold newFromPassword in E. destruct (checkCost _); [done|].
    apply bind_Ret in E as (s & _ & E). apply bind_Ret in E as (hh & _ & E). by destruct hh; simplify_eq/=.
Qed.

(** With a cost in range the only errors are those of the salt's encoding and
    of the cipher, and the result is a string of bytes. *)
Lemma generate_returns password c :
  MinCost <= c <= MaxCost ->
  exists r, GenerateFromPassword (Cipher := Cipher) password c = Ret r /\
    match r with inl h => Forall is_byte h | inr e => e = ErrBase64 \/ e = ErrCipher end.
Proof.
  intros Hc. unfold GenerateFromPassword.
  destruct (newFromPassword password c) as [[p|e]| |] eqn:E.
  - exists (inl (Hash p)). split; [done|]. by destruct (newFromPassword_wf _ _ _ E) as (_ & _ & ?).
  - exists (inr e). split; [done|]. unfold newFromPassword in E. destruct (Z.ltb_spec c MinCost); [lia|].
    unfold checkCost in E. destruct (Z.ltb_spec c MinCost); [lia|]. destruct (Z.ltb_spec MaxCost c); [lia|]. cbn [orb] in E.
    destruct salt_encoding as (s & Hs & _). rewrite Hs in E. cbn in E.
    destruct (bcrypt_returns password c s) as ([h|e'] & Eb & Hh); rewrite Eb in E; cbn in E; by simplify_eq.
  - exfalso. unfold newFromPassword in E. destruct (checkCost _); [done|].
    destruct salt_encoding as (s & Hs & _). rewrite Hs in E. cbn in E.
    destruct (bcrypt_returns password (if c <? MinCost then DefaultCost else c) s) as ([h|e'] & Eb & _);
      rewrite Eb in E; done.
  - exfalso. unfold newFromPassword in E. destruct (checkCost _); [done|].
    destruct salt_encoding as (s & Hs & _). rewrite Hs in E. cbn in E.
    destruct (bcrypt_returns password (if c <? MinCost then DefaultCost else c) s) as ([h|e'] & Eb & _);
      rewrite Eb in E; done.
Qed.

End BcryptTheorems.

(** A stand-in for the cipher in concrete runs: a running sum. *)
Definition toy_encrypt (k : Z) (b : bytes) : bytes := (fun x => (x + k) mod 256) <$> b.
#[export] Program Instance toy_cipher : Blowfish Z := {
  NewSaltedCipher key salt := Some (foldr Z.add 0 key mod 256);
  ExpandKey key c := (c + len key) mod 256;
  Encrypt := toy_encrypt
}.
Next Obligation.
  intros c b Hl. unfold toy_encrypt. split; [by rewrite length_fmap|].
  apply Forall_fmap, Forall_forall. intros x _. apply Z.mod_pos_bound. lia.
Qed.

Lemma generate_then_compare_witness :
  exists h, GenerateFromPassword (Cipher := Z) [104; 105] 0 = Ret (inl h)
    /\ CompareHashAndPassword (Cipher := Z) h [104; 105] = Ret None /\ Cost h = Ret (10, None).
Proof.
  eexists. split; [vm_compute; reflexivity|].
  apply (generate_then_compare (Cipher := Z) [104; 105] 0). vm_compute. reflexivity.
Defined.
