(* ===== verification/Ranker.v ===== *)
(** * lab1/ranker/ranker.go: the score of a video for a user

    [range] over a Go map visits the entries in an order that changes from
    one run to the next, so [Rank] takes the entries of the user's map as a
    list, in whatever order they were visited. *)

From Stdlib Require Import String Ascii.
From stdpp Require Import prelude gmap strings pretty.
From S2P Require Import Prelude Fnv DetBcrypt.
Local Open Scope Z_scope.

(** [int(hasher.Sum32())%(4-min) + min] *)
Definition costHash (id : Z) : Z := Z.rem (fnv32 (pretty id)) (4 - MinCost) + MinCost.

(** [fmt.Sprintf("%020d", n)] *)
Definition pad20 (n : Z) : bytes :=
  let digits := bytes_of (pretty n) in replicate (20 - length digits) 48 ++ digits.

(** The loop over the user's coefficients, in [uint64] arithmetic. *)
Definition dotProduct (user : list (Z * Z)) (video : gmap Z Z) : Z :=
  foldl (fun acc '(featureId, userCoeff) =>
    match video !! featureId with
    | Some videoCoeff => (acc + (userCoeff * videoCoeff) mod 2 ^ 64) mod 2 ^ 64
    | None => acc
    end) 0 user.

Definition fnv64_bytes (bs : bytes) : Z := foldl (fnv_step 64 1099511628211) 14695981039346656037 bs.

Section Rank.
Context {Cipher : Type} `{Blowfish Cipher}.

(** The error of [GenerateFromPassword] is dropped: the bytes are then nil. *)
Definition Rank (user : list (Z * Z)) (video : gmap Z Z) : go Z :=
  let d := dotProduct user video in
  let! r := GenerateFromPassword (Cipher := Cipher) (pad20 d) (costHash d) in
  match r with
  | inl bs => Ret (fnv64_bytes bs)
  | inr _ => Ret (fnv64_bytes [])
  end.

Lemma costHash_range id : MinCost <= costHash id <= 3.
Proof.
  unfold costHash, MinCost. pose proof (fnv32_bound (pretty id)).
  pose proof (Z.rem_bound_pos (fnv32 (pretty id)) (4 - 1)). lia.
Qed.

Lemma dot_step_comm (video : gmap Z Z) a x y :
  (match video !! y.1 with Some c => (match video !! x.1 with Some d => (a + (x.2 * d) mod 2 ^ 64) mod 2 ^ 64 | None => a end
      + (y.2 * c) mod 2 ^ 64) mod 2 ^ 64
   | None => match video !! x.1 with Some d => (a + (x.2 * d) mod 2 ^ 64) mod 2 ^ 64 | None => a end end)
  = (match video !! x.1 with Some d => (match video !! y.1 with Some c => (a + (y.2 * c) mod 2 ^ 64) mod 2 ^ 64 | None => a end
      + (x.2 * d) mod 2 ^ 64) mod 2 ^ 64
   | None => match video !! y.1 with Some c => (a + (y.2 * c) mod 2 ^ 64) mod 2 ^ 64 | None => a end end).
Proof.
  destruct (video !! x.1), (video !! y.1); [|done..].
  rewrite !Zplus_mod_idemp_l. f_equal. lia.
Qed.

Lemma dotProduct_perm (u1 u2 : list (Z * Z)) video : u1 ≡ₚ u2 -> dotProduct u1 video = dotProduct u2 video.
Proof.
  unfold dotProduct. generalize 0. intros a Hp. revert a.
  induction Hp as [|[k c] u1 u2 _ IH|[k c] [k' c'] u|u1 u2 u3 _ IH1 _ IH2]; intros a; cbn; [done|apply IH| |congruence].
  f_equal. apply (dot_step_comm video a (k', c') (k, c)).
Qed.

Lemma Rank_returns u video : returns (Rank u video).
Proof.
  unfold Rank. destruct (generate_returns (Cipher := Cipher) (pad20 (dotProduct u video)) (costHash (dotProduct u video)))
    as ([bs|e] & -> & _); cbn; [|by eexists..].
  pose proof (costHash_range (dotProduct u video)). unfold MaxCost. lia.
Qed.

(** The score of a video is deterministic and always defined: it does not
    depend on the order in which the user's coefficients are visited, it
    never panics, the cost passed to bcrypt is always in its allowed range,
    and the score fits 64 bits. *)
Theorem rank_deterministic (u1 u2 : list (Z * Z)) (video : gmap Z Z) :
  u1 ≡ₚ u2 ->
  exists score, Rank u1 video = Ret score /\ Rank u2 video = Ret score /\ 0 <= score < 2 ^ 64
    /\ forall k, GenerateFromPassword (Cipher := Cipher) (pad20 (dotProduct u1 video))
         (costHash (dotProduct u1 video)) <> Ret (inr (InvalidCostError k)).
Proof.
  intros Hp. unfold Rank. rewrite (dotProduct_perm u1 u2 video Hp).
  destruct (generate_returns (Cipher := Cipher) (pad20 (dotProduct u2 video)) (costHash (dotProduct u2 video)))
    as ([bs|e] & -> & Hr); cbn.
  - pose proof (costHash_range (dotProduct u2 video)). unfold MaxCost. lia.
  - exists (fnv64_bytes bs). do 2 (split; [done|]). split; [|done].
    apply fnv_fold_bound; [lia|lia|]. by apply Forall_forall.
  - exists (fnv64_bytes []). do 2 (split; [done|]). split; [vm_compute; split; congruence|].
    intros k [= ->]. by destruct Hr.
Qed.
End Rank.

Lemma rank_deterministic_witness :
  exists score, Rank (Cipher := Z) [(1, 5); (2, 7)] {[ 1 := 3; 2 := 4 ]} = Ret score
    /\ Rank (Cipher := Z) [(2, 7); (1, 5)] {[ 1 := 3; 2 := 4 ]} = Ret score.
Proof.
  destruct (rank_deterministic (Cipher := Z) [(1, 5); (2, 7)] [(2, 7); (1, 5)] {[ 1 := 3; 2 := 4 ]})
    as (score & H1 & H2 & _).
  - apply perm_swap.
  - exact (ex_intro _ score (conj H1 H2)).
Defined.
