(* ===== verification/VideoRec.v ===== *)
(** * lab1/video_rec_service/server_lib/server_lib.go: recommendations

    The recommender asks the user service for a user and the users they
    subscribe to, the video service for the videos those users like, in
    batches, ranks them and returns the best. When a service fails it answers
    from a cache of trending videos.

    The two services are reached through generated gRPC clients: the class
    [Backends] over a state [W] of the outside world; the instance the tests
    run with (mock_client.go: the servers of Backend.v, called directly) is
    at the end. [sort.Slice] is not stable: it is a class with its contract.
    The loops advance by [MaxBatchSize]; they run on fuel that suffices
    whenever it is positive, and [Block] means that the loop does not end.
    [float64] is exact for the lengths of slices, so [math.Min] is [Z.min]. *)

From Stdlib Require Import String.
From stdpp Require Import prelude gmap strings sorting.
From S2P Require Import Prelude Fnv Backend DetBcrypt Ranker.
Local Open Scope Z_scope.

Class Backends (W : Type) : Type := {
  call_GetUser : W -> list Z -> go (W * (list UserInfo + status));
  call_GetVideo : W -> list Z -> go (W * (list VideoInfo + status));
  call_GetTrendingVideos : W -> go (W * (list Z * Z + status))
}.

(** [sort.Slice] with [>] on scores *)
Class SortSlice (A : Type) : Type := {
  sort_slice : list (A * Z) -> list (A * Z);
  sort_perm l : sort_slice l ≡ₚ l;
  sort_sorted l : StronglySorted (fun x y => y.2 <= x.2) (sort_slice l)
}.

Record RecOptions : Type := mkRecOptions {
  rec_MaxBatchSize : Z;
  DisableFallback : bool;
  DisableRetry : bool
}.

Record cachedVideos : Type := mkCached {
  c_videos : list VideoInfo;
  timeout : Z
}.

Record Server : Type := mkRec {
  options : RecOptions;
  total_reqs : Z;
  total_errs : Z;
  total_usr_serv_errs : Z;
  total_active_reqs : Z;
  total_latency : Z;
  total_stale_resp : Z;
  total_vid_serv_errs : Z;
  trending_vids : cachedVideos
}.

Definition new_server (o : RecOptions) : Server := mkRec o 0 0 0 0 0 0 0 (mkCached [] 0).

(** [uint64] and [int64] *)
Definition u64 (z : Z) : Z := z mod 2 ^ 64.
Definition i64 (z : Z) : Z := int_w 64 z.

(** [grpc.NewClient], tried again once unless retries are disabled; [attempt]
    is what the first and the second try give. *)
Definition connect_once_or_twice {Conn} (o : RecOptions) (attempt : bool -> Conn + status) : Conn + status :=
  match attempt false with
  | inl c => inl c
  | inr e => if DisableRetry o then inr e else attempt true
  end.

Definition MakeVideoRecServiceServer {Conn} (o : RecOptions)
    (usr vid : bool -> Conn + status) : (Server * Conn * Conn) + status :=
  match connect_once_or_twice o usr with
  | inr e => inr e
  | inl u => match connect_once_or_twice o vid with
             | inr e => inr e
             | inl v => inl (new_server o, u, v)
             end
  end.

Record Request : Type := mkRequest { req_UserId : Z; Limit : Z }.
Record Response : Type := mkResponse { Videos : list VideoInfo; StaleResponse : bool }.

Section Rec.
Context {W Cipher : Type} `{Backends W} `{Blowfish Cipher} `{SortSlice VideoInfo}.

(** The bounds [i:j] of the batch at [i]. *)
Definition batch (max i : Z) (ids : list Z) : go (list Z) :=
  go_range ids i (Z.min (i + max) (len ids)).

Fixpoint subscribed_loop (max : Z) (ids : list Z) (w : W) (i : Z) (liked : list Z) (fuel : nat)
    : go (W * list Z) :=
  if i <? len ids then
    match fuel with
    | O => Block
    | S fuel' =>
        let! b := batch max i ids in
        let! '(w, r) := call_GetUser w b in
        match r with
        | inr _ => subscribed_loop max ids w (i + max) liked fuel'
        | inl us => subscribed_loop max ids w (i + max) (liked ++ (us ≫= LikedVideos)) fuel'
        end
    end
  else Ret (w, liked).

Definition getSubscribedVideos (server : Server) (w : W) (subscribedUserIDs : list Z) : go (W * list Z) :=
  subscribed_loop (rec_MaxBatchSize (options server)) subscribedUserIDs w 0 []
    (length subscribedUserIDs).

Fixpoint video_loop (max : Z) (ids : list Z) (w : W) (i : Z) (videos : list VideoInfo) (fuel : nat)
    : go (W * (list VideoInfo + status)) :=
  if i <? len ids then
    match fuel with
    | O => Block
    | S fuel' =>
        let! b := batch max i ids in
        let! '(w, r) := call_GetVideo w b in
        match r with
        | inr e => Ret (w, inr e)
        | inl vs => video_loop max ids w (i + max) (videos ++ vs) fuel'
        end
    end
  else Ret (w, inl videos).

Definition getVideoInfo (server : Server) (w : W) (videoIds : list Z) : go (W * (list VideoInfo + status)) :=
  video_loop (rec_MaxBatchSize (options server)) videoIds w 0 [] (length videoIds).

(** The batches of [refreshTrendingVideos]: an error ends the loop with what
    there is. *)
Fixpoint trending_loop (max : Z) (ids : list Z) (w : W) (i : Z) (videos : list VideoInfo) (fuel : nat)
    : go (W * list VideoInfo) :=
  if i <? len ids then
    match fuel with
    | O => Block
    | S fuel' =>
        let! b := batch max i ids in
        let! '(w, r) := call_GetVideo w b in
        match r with
        | inr _ => Ret (w, videos)
        | inl vs => trending_loop max ids w (i + max) (videos ++ vs) fuel'
        end
    end
  else Ret (w, videos).

(** One iteration of [refreshTrendingVideos]; [now1] and [now2] are the two
    readings of [time.Now().Unix()]. *)
Definition set_trending (c : cachedVideos) (s : Server) : Server :=
  mkRec (options s) (total_reqs s) (total_errs s) (total_usr_serv_errs s) (total_active_reqs s)
    (total_latency s) (total_stale_resp s) (total_vid_serv_errs s) c.

Definition refreshTrendingVideos (server : Server) (w : W) (now1 now2 : Z) : go (Server * W) :=
  if timeout (trending_vids server) <? now1 then
    let! '(w, r) := call_GetTrendingVideos w in
    match r with
    | inr _ => Ret (server, w)
    | inl (video_ids, expirationTimeS) =>
        let! '(w, vids) := trending_loop (rec_MaxBatchSize (options server)) video_ids w 0 []
                             (length video_ids) in
        Ret (set_trending (mkCached vids (now2 + int_w 64 expirationTimeS)) server, w)
    end
  else Ret (server, w).

Fixpoint score_all (coeffs : list (Z * Z)) (vs : list VideoInfo) : go (list (VideoInfo * Z)) :=
  match vs with
  | [] => Ret []
  | v :: vs' =>
      let! score := Rank (Cipher := Cipher) coeffs (VideoCoefficients v) in
      let! rest := score_all coeffs vs' in
      Ret ((v, score) :: rest)
  end.

Definition rankerVids (userCoeffs : gmap Z Z) (vs : list VideoInfo) : go (list VideoInfo) :=
  let! scores := score_all (map_to_list userCoeffs) vs in
  Ret (sort_slice scores).*1.

(** [lim == 0 || lim > len]: all of them; a negative limit is left as it is *)
Definition limit_to (limit : Z) (vs : list VideoInfo) : go (list VideoInfo) :=
  go_upto vs (if (limit =? 0) || (len vs <? limit) then len vs else limit).

Definition count_stale (s : Server) : Server :=
  mkRec (options s) (total_reqs s) (total_errs s) (total_usr_serv_errs s) (total_active_reqs s)
    (total_latency s) (u64 (total_stale_resp s + 1)) (total_vid_serv_errs s) (trending_vids s).

Definition handleFallback (server : Server) (req : Request) : go (Server * (Response + status)) :=
  if DisableFallback (options server) then Ret (server, inr Unavailable)
  else
    let server := count_stale server in
    let! vs := limit_to (Limit req) (c_videos (trending_vids server)) in
    Ret (server, inl (mkResponse vs true)).

(** Errors are counted only when there is no fallback. *)
Definition count_error (s : Server) : Server :=
  if DisableFallback (options s) then
    mkRec (options s) (total_reqs s) (u64 (total_errs s + 1)) (u64 (total_usr_serv_errs s + 1))
      (total_active_reqs s) (total_latency s) (total_stale_resp s) (total_vid_serv_errs s) (trending_vids s)
  else s.

Definition begin_request (s : Server) : Server :=
  mkRec (options s) (u64 (total_reqs s + 1)) (total_errs s) (total_usr_serv_errs s)
    (i64 (total_active_reqs s + 1)) (total_latency s) (total_stale_resp s) (total_vid_serv_errs s) (trending_vids s).
Definition end_request (s : Server) : Server :=
  mkRec (options s) (total_reqs s) (total_errs s) (total_usr_serv_errs s)
    (i64 (total_active_reqs s - 1)) (total_latency s) (total_stale_resp s) (total_vid_serv_errs s) (trending_vids s).
Definition add_latency (d : Z) (s : Server) : Server :=
  mkRec (options s) (total_reqs s) (total_errs s) (total_usr_serv_errs s)
    (total_active_reqs s) (i64 (total_latency s + d)) (total_stale_resp s) (total_vid_serv_errs s) (trending_vids s).

(** [t0] and [t1] are the two readings of [time.Now().UnixMilli()]. *)
Definition GetTopVideos (server : Server) (w : W) (t0 t1 : Z) (req : Request)
    : go (Server * W * (Response + status)) :=
  let server := begin_request server in
  let fallback (s : Server) (w : W) :=
    let! '(s, r) := handleFallback (count_error s) req in Ret (end_request s, w, r) in
  let! '(w, r) := call_GetUser w [req_UserId req] in
  match r with
  | inr _ | inl [] => fallback server w
  | inl (user :: _) =>
      let! '(w, video_from_subs) := getSubscribedVideos server w (SubscribedTo user) in
      let! '(w, vids) := getVideoInfo server w (deduplicateIds video_from_subs) in
      match vids with
      | inr _ => fallback server w
      | inl vids =>
          let! ranked_vids := rankerVids (UserCoefficients user) vids in
          let! top := limit_to (Limit req) ranked_vids in
          Ret (end_request (add_latency (t1 - t0) server), w, inl (mkResponse top false))
      end
  end.

(** [GetStats]; the average latency is the pair of the numbers whose [float32]
    quotient the code returns, [None] when there was no request. *)
Record Stats : Type := mkStats {
  TotalRequests : Z; TotalErrors : Z; ActiveRequests : Z; UserServiceErrors : Z;
  VideoServiceErrors : Z; AverageLatency : option (Z * Z); StaleResponses : Z
}.
Definition GetStats (server : Server) : Stats :=
  mkStats (total_reqs server) (total_errs server) (u64 (total_active_reqs server))
    (total_usr_serv_errs server) (total_vid_serv_errs server)
    (if 0 <? total_reqs server then Some (total_latency server, total_reqs server) else None)
    (total_stale_resp server).

End Rec.

(** ** Batching *)

(** The reference: consecutive pieces of [max] ids, the last one shorter. *)
Fixpoint chunks (max : nat) (ids : list Z) (fuel : nat) : list (list Z) :=
  match fuel, ids with
  | S fuel', _ :: _ => take max ids :: chunks max (drop max ids) fuel'
  | _, _ => []
  end.

Lemma chunks_spec max ids fuel :
  (1 <= max)%nat -> (length ids <= fuel)%nat ->
  concat (chunks max ids fuel) = ids
  /\ Forall (fun b => b <> [] /\ (length b <= max)%nat /\ b `sublist_of` ids) (chunks max ids fuel).
Proof.
  intros Hm. revert ids. induction fuel as [|fuel IH]; intros [|x ids] Hl; cbn in Hl; try (cbn; by split; [|constructor]).
  - lia.
  - destruct (IH (drop max (x :: ids))) as [Hc Hf]; [rewrite length_drop; cbn; lia|].
    cbn [chunks concat]. rewrite Hc, take_drop. split; [done|]. constructor.
    + split; [destruct max; [lia|done]|]. split; [rewrite length_take; lia|apply sublist_take].
    + eapply Forall_impl; [exact Hf|]. intros b (? & ? & Hs). split; [done|]. split; [done|].
      etrans; [exact Hs|apply sublist_drop].
Qed.

Section Loops.
Context {W : Type} `{Backends W}.

(** The loops as folds over the batches. *)
Fixpoint users_of (w : W) (liked : list Z) (bs : list (list Z)) : go (W * list Z) :=
  match bs with
  | [] => Ret (w, liked)
  | b :: bs' =>
      let! '(w, r) := call_GetUser w b in
      users_of w (match r with inr _ => liked | inl us => liked ++ (us ≫= LikedVideos) end) bs'
  end.

Fixpoint videos_of (w : W) (acc : list VideoInfo) (bs : list (list Z)) : go (W * (list VideoInfo + status)) :=
  match bs with
  | [] => Ret (w, inl acc)
  | b :: bs' =>
      let! '(w, r) := call_GetVideo w b in
      match r with inr e => Ret (w, inr e) | inl vs => videos_of w (acc ++ vs) bs' end
  end.

Lemma batch_chunk (max k : nat) ids :
  (1 <= max)%nat -> (k < length ids)%nat ->
  batch (Z.of_nat max) (Z.of_nat k) ids = Ret (take max (drop k ids)).
Proof.
  intros Hm Hk. unfold batch. apply go_range_Ret. unfold len. split; [lia|]. split; [lia|].
  rewrite Nat2Z.id. destruct (Z.min_spec (Z.of_nat k + Z.of_nat max) (Z.of_nat (length ids))) as [[? ->]|[? ->]].
  - f_equal. lia.
  - rewrite !take_ge; [done| |]; rewrite length_drop; lia.
Qed.

Lemma loop_bounds max k (ids : list Z) fuel :
  (1 <= max)%nat -> (length ids - k <= S fuel)%nat -> (k < length ids)%nat ->
  (length ids - (k + max) <= fuel)%nat /\ drop k ids <> [] /\ drop max (drop k ids) = drop (k + max) ids.
Proof.
  intros Hm Hl Hk. split; [lia|]. split; [|apply drop_drop].
  intros E. apply (f_equal length) in E. rewrite length_drop in E. cbn in E. lia.
Qed.

Lemma subscribed_loop_chunks (max : nat) ids w k liked fuel :
  (1 <= max)%nat -> (length ids - k <= fuel)%nat ->
  subscribed_loop (Z.of_nat max) ids w (Z.of_nat k) liked fuel
  = users_of w liked (chunks max (drop k ids) fuel).
Proof.
  intros Hm. revert w k liked. induction fuel as [|fuel IH]; intros w k liked Hl; cbn [subscribed_loop chunks];
    unfold len; destruct (Z.ltb_spec (Z.of_nat k) (Z.of_nat (length ids))) as [Hk|Hk];
    try (by rewrite ?(drop_ge ids k) by lia); [lia|].
  destruct (loop_bounds max k ids fuel Hm Hl) as (Hl' & Hne & Hd); [lia|].
  rewrite batch_chunk by lia. destruct (drop k ids) as [|x l] eqn:E; [done|]. cbn [mbind go_bind users_of].
  destruct (call_GetUser w (take max (x :: l))) as [[w' [us|e]]| |]; [..|done|done]; cbn [mbind go_bind];
    rewrite Hd, <- Nat2Z.inj_add; by apply IH.
Qed.

Lemma video_loop_chunks (max : nat) ids w k acc fuel :
  (1 <= max)%nat -> (length ids - k <= fuel)%nat ->
  video_loop (Z.of_nat max) ids w (Z.of_nat k) acc fuel
  = videos_of w acc (chunks max (drop k ids) fuel).
Proof.
  intros Hm. revert w k acc. induction fuel as [|fuel IH]; intros w k acc Hl; cbn [video_loop chunks];
    unfold len; destruct (Z.ltb_spec (Z.of_nat k) (Z.of_nat (length ids))) as [Hk|Hk];
    try (by rewrite ?(drop_ge ids k) by lia); [lia|].
  destruct (loop_bounds max k ids fuel Hm Hl) as (Hl' & Hne & Hd); [lia|].
  rewrite batch_chunk by lia. destruct (drop k ids) as [|x l] eqn:E; [done|]. cbn [mbind go_bind videos_of].
  destruct (call_GetVideo w (take max (x :: l))) as [[w' [us|e]]| |]; [..|done|done]; cbn [mbind go_bind]; [|done].
  rewrite Hd, <- Nat2Z.inj_add; by apply IH.
Qed.

(** Where no batch fails, the loop of the trending videos is that of
    [getVideoInfo]. *)
Lemma trending_of_video max ids (w w' : W) i acc vs fuel :
  video_loop max ids w i acc fuel = Ret (w', inl vs) -> trending_loop max ids w i acc fuel = Ret (w', vs).
Proof.
  revert w i acc. induction fuel as [|fuel IH]; intros w i acc; cbn; destruct (i <? len ids); try done;
    try (intros E; by simplify_eq).
  destruct (batch max i ids) as [b| |]; cbn; [|done|done].
  destruct (call_GetVideo w b) as [[w1 [us|e]]| |]; cbn; [apply IH|done|done|done].
Qed.

Lemma getSubscribedVideos_chunks server w ids :
  1 <= rec_MaxBatchSize (options server) ->
  getSubscribedVideos server w ids
  = users_of w [] (chunks (Z.to_nat (rec_MaxBatchSize (options server))) ids (length ids)).
Proof.
  intros Hm. unfold getSubscribedVideos. rewrite <- (Z2Nat.id (rec_MaxBatchSize (options server))) at 1 by lia.
  change 0 with (Z.of_nat 0). rewrite subscribed_loop_chunks by lia. by rewrite drop_0.
Qed.

Lemma getVideoInfo_chunks server w ids :
  1 <= rec_MaxBatchSize (options server) ->
  getVideoInfo server w ids
  = videos_of w [] (chunks (Z.to_nat (rec_MaxBatchSize (options server))) ids (length ids)).
Proof.
  intros Hm. unfold getVideoInfo. rewrite <- (Z2Nat.id (rec_MaxBatchSize (options server))) at 1 by lia.
  change 0 with (Z.of_nat 0). rewrite video_loop_chunks by lia. by rewrite drop_0.
Qed.

(** Batching is right for every positive batch size: the index loops of
    [getSubscribedVideos] and [getVideoInfo] terminate and do what a plain
    loop over consecutive batches does, where the batches are non-empty, no
    longer than [MaxBatchSize], and together the requested ids in order. *)
Theorem batching_correct server w ids :
  1 <= rec_MaxBatchSize (options server) ->
  let bs := chunks (Z.to_nat (rec_MaxBatchSize (options server))) ids (length ids) in
  getSubscribedVideos server w ids = users_of w [] bs /\ getVideoInfo server w ids = videos_of w [] bs
  /\ concat bs = ids
  /\ Forall (fun b => b <> [] /\ len b <= rec_MaxBatchSize (options server)) bs.
Proof.
  intros Hm bs. rewrite getSubscribedVideos_chunks, getVideoInfo_chunks by done.
  destruct (chunks_spec (Z.to_nat (rec_MaxBatchSize (options server))) ids (length ids)) as [Hc Hf]; [lia|lia|].
  do 3 (split; [done|]). eapply Forall_impl; [exact Hf|]. intros b (? & ? & _). unfold len. split; [done|lia].
Qed.

(** With a batch size of zero the loop over a non-empty list of ids makes
    no progress: for no amount of fuel does [getSubscribedVideos] return. *)
Theorem zero_batch_never_returns ids w i liked fuel :
  i < len ids -> ~ returns (subscribed_loop 0 ids w i liked fuel).
Proof.
  intros Hi. revert w liked. induction fuel as [|fuel IH]; intros w liked [r Hr]; cbn in Hr;
    destruct (Z.ltb_spec i (len ids)); try lia; [done|].
  apply bind_Ret in Hr as (b & _ & Hr). apply bind_Ret in Hr as ([w' [us|e]] & _ & Hr);
    rewrite Z.add_0_r in Hr; eapply IH; eexists; exact Hr.
Qed.
End Loops.

(** ** Ranking and the limit *)

Section Ranking.
Context {Cipher : Type} `{Blowfish Cipher} `{SortSlice VideoInfo}.

Definition score_of (coeffs : gmap Z Z) (v : VideoInfo) : Z :=
  match Rank (Cipher := Cipher) (map_to_list coeffs) (VideoCoefficients v) with Ret s => s | _ => 0 end.

Lemma score_all_ok coeffs vs :
  score_all (Cipher := Cipher) (map_to_list coeffs) vs = Ret ((fun v => (v, score_of coeffs v)) <$> vs).
Proof.
  induction vs as [|v vs IH]; [done|]. cbn [score_all fmap list_fmap]. unfold score_of at 1.
  destruct (Rank_returns (Cipher := Cipher) (map_to_list coeffs) (VideoCoefficients v)) as [s ->]. cbn. by rewrite IH.
Qed.

Definition best_first (coeffs : gmap Z Z) (vs : list VideoInfo) : Prop :=
  StronglySorted (fun v v' => score_of coeffs v' <= score_of coeffs v) vs.

Lemma rankerVids_ok coeffs vs :
  exists ranked, rankerVids (Cipher := Cipher) coeffs vs = Ret ranked /\ ranked ≡ₚ vs /\ best_first coeffs ranked.
Proof.
  unfold rankerVids. rewrite score_all_ok. cbn [mbind go_bind].
  set (scores := (fun v => (v, score_of coeffs v)) <$> vs). eexists. split; [done|]. split.
  - rewrite (sort_perm scores). unfold scores. by rewrite <- list_fmap_compose, list_fmap_id.
  - pose proof (sort_sorted scores) as Hs.
    assert (forall x, x ∈ sort_slice scores -> x.2 = score_of coeffs x.1) as Hin.
    { intros x. rewrite (sort_perm scores). by intros (v & -> & _)%list_elem_of_fmap. }
    unfold best_first. induction Hs as [|x l Hs IH Hx]; [constructor|]. cbn. constructor.
    + apply IH. intros y Hy. apply Hin. by right.
    + apply Forall_fmap, Forall_forall. intros y Hy. rewrite Forall_forall in Hx. specialize (Hx y Hy). cbn.
      rewrite (Hin x), (Hin y) in Hx by (left || by right). done.
Qed.
End Ranking.

Lemma limit_to_ok limit vs :
  0 <= limit ->
  limit_to limit vs = Ret (if limit =? 0 then vs else take (Z.to_nat limit) vs).
Proof.
  intros Hl. unfold limit_to, len. apply go_upto_Ret. unfold len.
  destruct (Z.eqb_spec limit 0); cbn [orb].
  - split; [lia|]. by rewrite Nat2Z.id, firstn_all.
  - destruct (Z.ltb_spec (Z.of_nat (length vs)) limit); (split; [lia|]); [|done].
    rewrite Nat2Z.id, firstn_all. apply take_ge. lia.
Qed.

(** ** The services of Backend.v as backends (mock_client.go) *)

Record mock (G : Type) : Type := mkMock {
  mw_users : UserServiceServer;
  mw_videos : VideoServiceServer;
  mw_rand : G;
  mw_now : Z
}.
Arguments mkMock {G}. Arguments mw_users {G}. Arguments mw_videos {G}. Arguments mw_rand {G}. Arguments mw_now {G}.

Definition set_rand {G} (w : mock G) (g : G) : mock G := mkMock (mw_users w) (mw_videos w) g (mw_now w).

#[export] Instance mock_backends {G} `{Rand G} : Backends (mock G) := {
  call_GetUser w ids := let! '(g, r) := GetUser (mw_users w) (mw_rand w) ids in Ret (set_rand w g, r);
  call_GetVideo w ids := let! '(g, r) := GetVideo (mw_videos w) (mw_rand w) ids in Ret (set_rand w g, r);
  call_GetTrendingVideos w :=
    let! '(g, r) := GetTrendingVideos (mw_videos w) (mw_rand w) (mw_now w) in Ret (set_rand w g, r)
}.

Section Mock.
Context {G Cipher : Type} `{Rand G} `{Blowfish Cipher} `{SortSlice VideoInfo}.

(** No failures are injected, and batches of size [max] are accepted. *)
Definition healthy (w : mock G) (max : Z) : Prop :=
  us_fi (mw_users w) = MakeFailureInjector /\ vs_fi (mw_videos w) = MakeFailureInjector
  /\ 1 <= max <= MaxBatchSize (us_options (mw_users w)) /\ max <= MaxBatchSize (vs_options (mw_videos w)).

Lemma set_rand_id (w : mock G) : set_rand w (mw_rand w) = w.
Proof. by destruct w. Qed.

Lemma infos_app {A} (db : gmap Z A) l1 l2 : infos db (l1 ++ l2) = infos db l1 ++ infos db l2.
Proof. apply omap_app. Qed.

Lemma users_of_ok (w : mock G) max liked bs :
  healthy w max -> Forall (fun b => b <> [] /\ len b <= max) bs ->
  (forall u, u ∈ concat bs -> is_Some (users (mw_users w) !! u)) ->
  users_of w liked bs = Ret (w, liked ++ (infos (users (mw_users w)) (concat bs) ≫= LikedVideos)).
Proof.
  intros (Hu & _ & Hm & _) Hbs. revert liked.
  induction Hbs as [|b bs [Hb Hl] _ IH]; intros liked Hk; cbn [users_of concat]; [cbn; by rewrite app_nil_r|].
  cbn [call_GetUser mock_backends]. rewrite GetUser_ok; [|done|done|lia|intros u ?; apply Hk; apply elem_of_app; by left].
  cbn [mbind go_bind]. rewrite set_rand_id, IH by (intros u ?; apply Hk; apply elem_of_app; by right).
  by rewrite infos_app, bind_app, app_assoc.
Qed.

Lemma videos_of_ok (w : mock G) max acc bs :
  healthy w max -> Forall (fun b => b <> [] /\ len b <= max) bs -> NoDup (concat bs) ->
  (forall v, v ∈ concat bs -> is_Some (videos (mw_videos w) !! v)) ->
  videos_of w acc bs = Ret (w, inl (acc ++ infos (videos (mw_videos w)) (concat bs))).
Proof.
  intros (_ & Hv & _ & Hm) Hbs. revert acc.
  induction Hbs as [|b bs [Hb Hl] _ IH]; intros acc Hnd Hk; cbn [videos_of concat]; [cbn; by rewrite app_nil_r|].
  cbn in Hnd. apply NoDup_app in Hnd as (Hn1 & _ & Hn2).
  cbn [call_GetVideo mock_backends].
  rewrite GetVideo_ok; [|done|done|lia|intros u ?; apply Hk; apply elem_of_app; by left|done].
  cbn [mbind go_bind]. rewrite set_rand_id, IH by (try done; intros u ?; apply Hk; apply elem_of_app; by right).
  by rewrite infos_app, app_assoc.
Qed.

Lemma chunks_ok max ids : 1 <= max ->
  concat (chunks (Z.to_nat max) ids (length ids)) = ids
  /\ Forall (fun b => b <> [] /\ len b <= max) (chunks (Z.to_nat max) ids (length ids)).
Proof.
  intros Hm. destruct (chunks_spec (Z.to_nat max) ids (length ids)) as [Hc Hf]; [lia|lia|].
  split; [done|]. eapply Forall_impl; [exact Hf|]. intros b (? & ? & _). unfold len. split; [done|lia].
Qed.

(** The counter of requests in progress goes up and down again. *)
Lemma active_restored x : 0 <= x < 2 ^ 63 - 1 -> i64 (i64 (x + 1) - 1) = x.
Proof. intros Hx. unfold i64. rewrite (int_w_id 64 (x + 1)) by lia. rewrite int_w_id by lia. lia. Qed.

Lemma top_videos_ok server (w : mock G) t0 t1 uid limit user :
  healthy w (rec_MaxBatchSize (options server)) -> 0 <= limit ->
  users (mw_users w) !! uid = Some user ->
  (forall u, u ∈ SubscribedTo user -> is_Some (users (mw_users w) !! u)) ->
  let liked := infos (users (mw_users w)) (SubscribedTo user) ≫= LikedVideos in
  (forall v, v ∈ liked -> is_Some (videos (mw_videos w) !! v)) ->
  exists server' ranked,
    GetTopVideos (Cipher := Cipher) server w t0 t1 (mkRequest uid limit)
      = Ret (server', w, inl (mkResponse (if limit =? 0 then ranked else take (Z.to_nat limit) ranked) false))
    /\ ranked ≡ₚ infos (videos (mw_videos w)) (deduplicateIds liked)
    /\ best_first (Cipher := Cipher) (UserCoefficients user) ranked
    /\ total_reqs server' = u64 (total_reqs server + 1) /\ options server' = options server
    /\ (0 <= total_active_reqs server < 2 ^ 63 - 1 -> total_active_reqs server' = total_active_reqs server).
Proof.
  intros Hh Hlim Hu Hsub liked Hliked. pose proof Hh as (Huf & Hvf & Hm & Hm'). unfold GetTopVideos.
  cbn [req_UserId Limit call_GetUser mock_backends].
  rewrite GetUser_ok; [|done|done|change (len [uid]) with 1; lia|by intros u ->%list_elem_of_singleton].
  cbn [mbind go_bind]. rewrite set_rand_id. unfold infos at 1. cbn [omap list_omap]. rewrite Hu.
  rewrite getSubscribedVideos_chunks by exact (proj1 Hm). cbn [begin_request options].
  destruct (chunks_ok (rec_MaxBatchSize (options server)) (SubscribedTo user) (proj1 Hm)) as [Hc Hf].
  rewrite (users_of_ok w _ [] _ Hh Hf) by (by rewrite Hc). rewrite Hc. cbn [app mbind go_bind].
  rewrite getVideoInfo_chunks by exact (proj1 Hm). cbn [begin_request options]. fold liked.
  destruct (deduplicateIds_spec liked) as (Hnd & _ & Hin).
  destruct (chunks_ok (rec_MaxBatchSize (options server)) (deduplicateIds liked) (proj1 Hm)) as [Hc' Hf'].
  rewrite (videos_of_ok w _ [] _ Hh Hf') by (rewrite Hc'; try done; intros v Hv%Hin; auto). rewrite Hc'.
  cbn [app mbind go_bind].
  destruct (rankerVids_ok (Cipher := Cipher) (UserCoefficients user) (infos (videos (mw_videos w)) (deduplicateIds liked)))
    as (ranked & -> & Hp & Hs).
  cbn [mbind go_bind]. rewrite limit_to_ok by done. cbn [mbind go_bind].
  eexists _, ranked. split; [reflexivity|]. cbn [end_request add_latency begin_request options total_reqs total_active_reqs].
  do 4 (split; [done|]). apply active_restored.
Qed.

(** With healthy services a request is answered with the best videos: the
    videos liked by the users the requesting user subscribes to, each once,
    in order of decreasing score, cut to the limit (all of them for a limit
    of zero), and not marked stale. The request is counted. *)
Theorem top_videos_correct server (w : mock G) t0 t1 uid limit user :
  healthy w (rec_MaxBatchSize (options server)) -> 0 <= limit ->
  users (mw_users w) !! uid = Some user ->
  (forall u, u ∈ SubscribedTo user -> is_Some (users (mw_users w) !! u)) ->
  let liked := infos (users (mw_users w)) (SubscribedTo user) ≫= LikedVideos in
  (forall v, v ∈ liked -> is_Some (videos (mw_videos w) !! v)) ->
  exists server' ranked,
    GetTopVideos (Cipher := Cipher) server w t0 t1 (mkRequest uid limit)
      = Ret (server', w, inl (mkResponse (if limit =? 0 then ranked else take (Z.to_nat limit) ranked) false))
    /\ ranked ≡ₚ infos (videos (mw_videos w)) (deduplicateIds liked)
    /\ best_first (Cipher := Cipher) (UserCoefficients user) ranked
    /\ total_reqs server' = u64 (total_reqs server + 1) /\ options server' = options server
    /\ (0 <= total_active_reqs server < 2 ^ 63 - 1 -> total_active_reqs server' = total_active_reqs server).
Proof. intros. by apply top_videos_ok. Qed.

(** The cached trending videos are not refreshed when they expire. After a
    refresh with healthy services at time [now2], no iteration of the refresh
    loop does anything until [now2] plus the absolute expiration time, that
    is, until about twice the current Unix time. *)
Theorem trending_never_refreshed server (w : mock G) now1 now2 :
  healthy w (rec_MaxBatchSize (options server)) -> timeout (trending_vids server) < now1 ->
  NoDup (topVideos (mw_videos w)) ->
  (forall v, v ∈ topVideos (mw_videos w) -> is_Some (videos (mw_videos w) !! v)) ->
  0 <= mw_now w + TtlSeconds (vs_options (mw_videos w)) < 2 ^ 63 ->
  exists server', refreshTrendingVideos server w now1 now2 = Ret (server', w)
    /\ c_videos (trending_vids server') = infos (videos (mw_videos w)) (topVideos (mw_videos w))
    /\ forall (w' : mock G) t t', t <= now2 + (mw_now w + TtlSeconds (vs_options (mw_videos w))) ->
         refreshTrendingVideos server' w' t t' = Ret (server', w').
Proof.
  intros Hh Ht Hnd Hk Hexp. pose proof Hh as (_ & Hvf & Hm & Hm'). unfold refreshTrendingVideos at 1.
  destruct (Z.ltb_spec (timeout (trending_vids server)) now1); [|lia].
  cbn [call_GetTrendingVideos mock_backends]. unfold GetTrendingVideos. rewrite Hvf, MaybeInject_none.
  cbn [mbind go_bind]. rewrite set_rand_id. rewrite Z.mod_small by lia.
  assert (trending_loop (rec_MaxBatchSize (options server)) (topVideos (mw_videos w)) w 0 []
    (length (topVideos (mw_videos w))) = Ret (w, infos (videos (mw_videos w)) (topVideos (mw_videos w)))) as ->.
  { eapply trending_of_video. fold (getVideoInfo server w (topVideos (mw_videos w))).
    rewrite getVideoInfo_chunks by lia.
    destruct (chunks_ok (rec_MaxBatchSize (options server)) (topVideos (mw_videos w)) (proj1 Hm)) as [Hc Hf].
    rewrite (videos_of_ok w _ [] _ Hh Hf) by (by rewrite Hc). by rewrite Hc. }
  cbn [mbind go_bind]. eexists. split; [reflexivity|]. split; [done|]. intros w' t t' Hle.
  unfold refreshTrendingVideos. cbn [trending_vids set_trending timeout]. rewrite int_w_id by (change (64 - 1) with 63; lia).
  destruct (Z.ltb_spec (now2 + (mw_now w + TtlSeconds (vs_options (mw_videos w)))) t); [lia|done].
Qed.
End Mock.

(** ** Failures *)

Section Failures.
Context {W Cipher : Type} `{Backends W} `{Blowfish Cipher} `{SortSlice VideoInfo}.

(** C32: When the user service fails, or knows no such user, the answer depends
    on the options. The service is asked once: there is no second try. For a
    limit that is not negative, with the fallback the answer is the cached
    trending videos, cut to the limit (all of them for limit 0) and marked
    stale, one more stale response is counted and no error; without it, it is
    [Unavailable], and one more error and one more error of the user service
    are counted. One more request is counted either way, and nothing else
    changes, apart from the requests in progress, which are as many as before
    (unless the counter was negative or one short of overflowing). *)
Theorem fallback_correct server (w w' : W) t0 t1 uid limit r :
  call_GetUser w [uid] = Ret (w', r) -> r = inl [] \/ (exists e, r = inr e) -> 0 <= limit ->
  let disabled := DisableFallback (options server) in
  exists server', GetTopVideos (Cipher := Cipher) server w t0 t1 (mkRequest uid limit)
      = Ret (server', w', if disabled then inr Unavailable
          else inl (mkResponse (if limit =? 0 then c_videos (trending_vids server)
                                else take (Z.to_nat limit) (c_videos (trending_vids server))) true))
    /\ server' = mkRec (options server) (u64 (total_reqs server + 1))
         (if disabled then u64 (total_errs server + 1) else total_errs server)
         (if disabled then u64 (total_usr_serv_errs server + 1) else total_usr_serv_errs server)
         (total_active_reqs server') (total_latency server)
         (if disabled then total_stale_resp server else u64 (total_stale_resp server + 1))
         (total_vid_serv_errs server) (trending_vids server)
    /\ (0 <= total_active_reqs server < 2 ^ 63 - 1 -> total_active_reqs server' = total_active_reqs server).
Proof.
  intros Hc Hr Hl. unfold GetTopVideos. cbn [req_UserId Limit]. rewrite Hc. cbn [mbind go_bind].
  destruct Hr as [->|[e ->]]; unfold handleFallback, count_error; cbn [begin_request options];
    (destruct (DisableFallback (options server)) eqn:Ed; cbn [begin_request options]; rewrite ?Ed;
     [|cbn [count_stale begin_request trending_vids]; rewrite limit_to_ok by done; cbn [mbind go_bind]]);
    (eexists; split; [reflexivity|]; split; [reflexivity|]; apply active_restored).
Qed.

(** A negative limit is not checked: slicing with it panics. *)
Lemma negative_limit_panics server (w w' : W) t0 t1 uid limit e :
  call_GetUser w [uid] = Ret (w', inr e) -> limit < 0 -> DisableFallback (options server) = false ->
  GetTopVideos (Cipher := Cipher) server w t0 t1 (mkRequest uid limit) = Panic.
Proof.
  intros Hc Hl Hd. unfold GetTopVideos. cbn [req_UserId Limit]. rewrite Hc. cbn [mbind go_bind].
  unfold handleFallback, count_error. cbn [begin_request options]. rewrite Hd. cbn [begin_request options]. rewrite ?Hd.
  unfold limit_to. cbn [Limit]. destruct (Z.eqb_spec limit 0); [lia|].
  destruct (Z.ltb_spec (len (c_videos (trending_vids (count_stale (begin_request server))))) limit);
    [unfold len in *; lia|]. cbn [orb]. unfold go_upto. cbn [orb]. rewrite (proj2 (Z.ltb_lt limit 0) Hl). reflexivity.
Qed.
End Failures.

(** ** The theorems at concrete services *)

Definition desc (x y : VideoInfo * Z) : Prop := y.2 <= x.2.
#[local] Instance desc_dec : RelDecision desc := fun x y => decide (y.2 <= x.2).
#[local] Instance desc_total : Total desc.
Proof. intros x y. unfold desc. lia. Qed.
#[local] Instance desc_trans : Transitive desc.
Proof. intros x y z. unfold desc. lia. Qed.

(** A sorting routine that keeps the contract of [sort.Slice]. *)
#[export] Instance merge_sort_slice : SortSlice VideoInfo := {
  sort_slice := merge_sort desc;
  sort_perm := merge_sort_Permutation desc;
  sort_sorted := StronglySorted_merge_sort desc
}.

Definition small_mock : mock Z := mkMock small_users small_videos 0 1700000000.
Definition small_rec : Server := new_server (mkRecOptions 2 false false).

Lemma small_healthy : healthy small_mock 2.
Proof. unfold healthy. cbn. repeat split; lia. Qed.

Lemma batching_correct_witness :
  getSubscribedVideos small_rec small_mock [1; 2; 1] = users_of small_mock [] [[1; 2]; [1]].
Proof. apply (batching_correct small_rec small_mock [1; 2; 1]). cbn. lia. Defined.

Lemma zero_batch_never_returns_witness : ~ returns (subscribed_loop 0 [1; 2] small_mock 0 [] 100).
Proof. apply (zero_batch_never_returns [1; 2] small_mock 0 [] 100). vm_compute. reflexivity. Defined.

Lemma top_videos_correct_witness :
  exists server' ranked, GetTopVideos (Cipher := Z) small_rec small_mock 0 3 (mkRequest 1 1)
      = Ret (server', small_mock, inl (mkResponse (take 1 ranked) false))
    /\ ranked ≡ₚ [mkVideo 8 "" ∅; mkVideo 9 "" ∅].
Proof.
  destruct (top_videos_correct (Cipher := Z) small_rec small_mock 0 3 1 1 (mkUser 1 "" ∅ [2] [7; 8]))
    as (server' & ranked & Hg & Hp & _).
  - exact small_healthy.
  - lia.
  - vm_compute. reflexivity.
  - intros u ->%list_elem_of_singleton. eexists. vm_compute. reflexivity.
  - intros v Hv. vm_compute in Hv.
    apply elem_of_cons in Hv as [->|Hv]; [eexists; vm_compute; reflexivity|].
    apply list_elem_of_singleton in Hv as ->. eexists. vm_compute. reflexivity.
  - exists server', ranked. split; [exact Hg|]. exact Hp.
Defined.

Lemma trending_never_refreshed_witness :
  exists server', refreshTrendingVideos small_rec small_mock 1700000000 1700000001 = Ret (server', small_mock)
    /\ refreshTrendingVideos server' small_mock 3400000000 3400000000 = Ret (server', small_mock).
Proof.
  destruct (trending_never_refreshed small_rec small_mock 1700000000 1700000001)
    as (server' & Hr & _ & Hn).
  - exact small_healthy.
  - cbn. lia.
  - apply (bool_decide_unpack _). vm_compute. exact I.
  - intros v Hv. cbn in Hv. apply elem_of_cons in Hv as [->|Hv]; [eexists; vm_compute; reflexivity|].
    apply list_elem_of_singleton in Hv as ->. eexists. vm_compute. reflexivity.
  - vm_compute. split; congruence.
  - exists server'. split; [exact Hr|]. apply Hn. vm_compute. congruence.
Defined.

Lemma fallback_correct_witness :
  exists server' r, GetTopVideos (Cipher := Z) small_rec small_mock 0 0 (mkRequest 99 5) = Ret (server', small_mock, r)
    /\ r = inl (mkResponse [] true).
Proof.
  destruct (fallback_correct (Cipher := Z) small_rec small_mock small_mock 0 0 99 5 (inr (NotFound 99)))
    as (server' & Hg & _ & _).
  - vm_compute. reflexivity.
  - right. eexists. reflexivity.
  - lia.
  - exists server'. eexists. split; [exact Hg|]. reflexivity.
Defined.
