(* ===== verification/VideoRecPool.v ===== *)
(** * lab2/lab1/video_rec_service/server_lib: the pool of connections

    The second version of the recommendation service differs from the one of
    VideoRec.v in that it opens [ClientPoolSize] connections to each backend
    and hands them out in turn: where the first version calls
    [server.usr_client.GetUser], this one calls [GetUser] on a client made
    for [server.getUserClient()]. The handlers are otherwise the same text, so
    they are the handlers of VideoRec.v at another instance of [Backends],
    [pool_backends]: its state is the pool next to the outside world, and each
    of its calls takes the next connection. (A slice expression that panics
    would do so after the index was advanced, in the model before; the state
    is lost either way.) A call on a nil connection is a nil dereference.

    The refinement theorem is by simulation: [backends_sim] relates two
    instances of [Backends], and the handlers are shown to respect every such
    relation. *)

From Stdlib Require Import ZArith String.
From stdpp Require Import prelude gmap strings.
From S2P Require Import Prelude Fnv Backend DetBcrypt Ranker VideoRec.
Local Open Scope Z_scope.

Section Pool.
Context {Conn : Type}.

Record PooledServer : Type := mkPooled {
  base : Server;                         (* the counters, options and cache *)
  usr_clients : list (option Conn);      (* [None] is a nil connection *)
  vid_clients : list (option Conn);
  usr_client_index : Z;
  vid_client_index : Z
}.

(** [make([]*grpc.ClientConn, size)] panics for a negative size. *)
Definition make_conns (size : Z) : go (list (option Conn)) :=
  if size <? 0 then Panic else Ret (replicate (Z.to_nat size) None).

(** The loop of [MakeVideoRecServiceServer]: iteration [i] opens both
    connections, [usr i] and [vid i] being what the tries give. *)
Fixpoint open_pool (o : RecOptions) (usr vid : nat -> bool -> Conn + status) (i m : nat)
    (s : PooledServer) : PooledServer + status :=
  match m with
  | O => inl s
  | S m' =>
      match connect_once_or_twice o (usr i) with
      | inr e => inr e
      | inl u =>
          match connect_once_or_twice o (vid i) with
          | inr e => inr e
          | inl v => open_pool o usr vid (S i) m'
              (mkPooled (base s) (<[i := Some u]> (usr_clients s)) (<[i := Some v]> (vid_clients s))
                 (usr_client_index s) (vid_client_index s))
          end
      end
  end.

Definition MakePooledServer (o : RecOptions) (size : Z) (usr vid : nat -> bool -> Conn + status)
    : go (PooledServer + status) :=
  let! us := make_conns size in
  let! vs := make_conns size in
  Ret (open_pool o usr vid 0 (Z.to_nat size) (mkPooled (new_server o) us vs 0 0)).

(** [MakeVideoRecServiceServerWithMocks] allocates the pools and never fills
    them: its mock clients are not used. *)
Definition MakePooledServerWithMocks {Mock} (o : RecOptions) (size : Z) (_ _ : Mock) : go PooledServer :=
  let! us := make_conns size in
  let! vs := make_conns size in
  Ret (mkPooled (new_server o) us vs 0 0).

(** [atomic.AddUint64], then an index modulo the length; a modulus of zero
    panics. *)
Definition next_client (clients : list (option Conn)) (index : Z) : go (Z * option Conn) :=
  let idx := u64 (index + 1) in
  if len clients =? 0 then Panic
  else let! c := go_index clients (idx mod len clients) in Ret (idx, c).

Definition getUserClient (s : PooledServer) : go (PooledServer * option Conn) :=
  let! '(idx, c) := next_client (usr_clients s) (usr_client_index s) in
  Ret (mkPooled (base s) (usr_clients s) (vid_clients s) idx (vid_client_index s), c).

Definition getVideoClient (s : PooledServer) : go (PooledServer * option Conn) :=
  let! '(idx, c) := next_client (vid_clients s) (vid_client_index s) in
  Ret (mkPooled (base s) (usr_clients s) (vid_clients s) (usr_client_index s) idx, c).

(** [m] calls of one of the two, in a row. *)
Fixpoint calls (get : PooledServer -> go (PooledServer * option Conn)) (m : nat) (s : PooledServer)
    : go (PooledServer * list (option Conn)) :=
  match m with
  | O => Ret (s, [])
  | S m' =>
      let! '(s', c) := get s in
      let! '(s'', cs) := calls get m' s' in
      Ret (s'', c :: cs)
  end.

(** ** The pool after the constructor *)

Lemma open_pool_spec o usr vid us vs m i s :
  (forall j, (i <= j < i + m)%nat -> connect_once_or_twice o (usr j) = inl (us j)) ->
  (forall j, (i <= j < i + m)%nat -> connect_once_or_twice o (vid j) = inl (vs j)) ->
  length (usr_clients s) = (i + m)%nat -> length (vid_clients s) = (i + m)%nat ->
  open_pool o usr vid i m s = inl (mkPooled (base s)
    (take i (usr_clients s) ++ (Some ∘ us <$> seq i m)) (take i (vid_clients s) ++ (Some ∘ vs <$> seq i m))
    (usr_client_index s) (vid_client_index s)).
Proof.
  revert i s. induction m as [|m IH]; intros i s Hu Hv Lu Lv; cbn.
  { rewrite !app_nil_r, !take_ge by lia. by destruct s. }
  rewrite Hu, Hv by lia. rewrite IH; cbn [usr_clients vid_clients base usr_client_index vid_client_index];
    rewrite ?length_insert; try lia; [|intros j Hj; (apply Hu || apply Hv); lia..].
  f_equal. f_equal.
  - erewrite take_S_r by (apply list_lookup_insert_eq; lia). rewrite take_insert_ge by lia. by rewrite <- app_assoc.
  - erewrite take_S_r by (apply list_lookup_insert_eq; lia). rewrite take_insert_ge by lia. by rewrite <- app_assoc.
Qed.

(** ** Turns *)

Lemma next_client_spec (clients : list (option Conn)) index : clients <> [] -> 0 <= index ->
  index + 1 < 2 ^ 64 ->
  exists c, clients !! Z.to_nat ((index + 1) mod len clients) = Some c
    /\ next_client clients index = Ret (index + 1, c).
Proof.
  intros Hne H0 Hw. assert (Hl : 0 < len clients) by (unfold len; destruct clients; [done|cbn; lia]).
  pose proof (Z.mod_pos_bound (index + 1) (len clients) Hl) as Hb.
  destruct (lookup_lt_is_Some_2 clients (Z.to_nat ((index + 1) mod len clients))) as [c Hc]; [unfold len in *; lia|].
  exists c. split; [done|]. unfold next_client, u64. rewrite (Z.mod_small (index + 1) (2 ^ 64)) by lia.
  destruct (Z.eqb_spec (len clients) 0); [lia|].
  rewrite (proj2 (go_index_Ret clients _ c)); [done|]. split; [lia|done].
Qed.

Definition turns (clients : list (option Conn)) (index : Z) (m : nat) : list (option Conn) :=
  (fun j => default None (clients !! Z.to_nat ((index + 1 + Z.of_nat j) mod len clients))) <$> seq 0 m.

Lemma turns_S clients index m :
  turns clients index (S m) = default None (clients !! Z.to_nat ((index + 1) mod len clients)) :: turns clients (index + 1) m.
Proof.
  unfold turns. cbn. rewrite Z.add_0_r. f_equal. rewrite <- fmap_S_seq, <- list_fmap_compose.
  apply list_fmap_ext. intros ? j _. cbn. do 4 f_equal. lia.
Qed.

(** A full round starting anywhere is a rotation of the pool. *)
Lemma turns_rotation clients index : clients <> [] -> 0 <= index ->
  turns clients index (length clients)
  = drop (Z.to_nat ((index + 1) mod len clients)) clients ++ take (Z.to_nat ((index + 1) mod len clients)) clients.
Proof.
  intros Hne H0. assert (Hl : 0 < len clients) by (unfold len; destruct clients; [done|cbn; lia]).
  pose proof (Z.mod_pos_bound (index + 1) (len clients) Hl) as Hb. set (r := (index + 1) mod len clients) in *.
  apply list_eq_same_length with (length clients).
  - rewrite length_app, length_drop, length_take. unfold len in *. lia.
  - unfold turns. by rewrite length_fmap, length_seq.
  - intros j x y Hj Hx Hy. unfold turns in Hx. rewrite list_lookup_fmap in Hx.
    rewrite lookup_seq_lt in Hx by done. cbn in Hx. injection Hx as <-.
    assert (Em : (index + 1 + Z.of_nat j) mod len clients = (r + Z.of_nat j) mod len clients).
    { unfold r. by rewrite Zplus_mod_idemp_l. }
    rewrite Em. clear Em. apply lookup_app_Some in Hy as [Hy|[Hd Hy]].
    + rewrite lookup_drop in Hy. pose proof (lookup_lt_Some _ _ _ Hy). rewrite Z.mod_small by (unfold len in *; lia).
      replace (Z.to_nat (r + Z.of_nat j)) with (Z.to_nat r + j)%nat by lia. by rewrite Hy.
    + rewrite length_drop in Hd, Hy. apply lookup_take_Some in Hy as [Hy _].
      replace ((r + Z.of_nat j) mod len clients) with (r + Z.of_nat j - len clients).
      * replace (Z.to_nat (r + Z.of_nat j - len clients)) with (j - (length clients - Z.to_nat r))%nat
          by (unfold len in *; lia). by rewrite Hy.
      * rewrite <- (Z.mod_small (r + Z.of_nat j - len clients) (len clients)) by (unfold len in *; lia).
        replace (r + Z.of_nat j) with ((r + Z.of_nat j - len clients) + 1 * len clients) at 2 by lia.
        by rewrite Z.mod_add by lia.
Qed.

Lemma user_calls m s : usr_clients s <> [] -> 0 <= usr_client_index s ->
  usr_client_index s + Z.of_nat m < 2 ^ 64 ->
  calls getUserClient m s = Ret (mkPooled (base s) (usr_clients s) (vid_clients s)
    (usr_client_index s + Z.of_nat m) (vid_client_index s), turns (usr_clients s) (usr_client_index s) m).
Proof.
  revert s. induction m as [|m IH]; intros s Hne H0 Hw; [cbn; rewrite Z.add_0_r; by destruct s|].
  destruct (next_client_spec (usr_clients s) (usr_client_index s)) as (c & Hc & En); [done|lia|lia|].
  assert (Eg : getUserClient s = Ret (mkPooled (base s) (usr_clients s) (vid_clients s)
    (usr_client_index s + 1) (vid_client_index s), c)) by (unfold getUserClient; by rewrite En).
  cbn [calls]. rewrite Eg. cbn [mbind go_bind]. rewrite IH by (cbn; done || lia). cbn [mbind go_bind usr_clients usr_client_index base vid_clients vid_client_index].
  rewrite turns_S, Hc. cbn. do 3 f_equal. lia.
Qed.

(** The pool is fair. The server made with [ClientPoolSize] > 0 reachable
    backends holds one live connection per slot, and (as long as the 64-bit
    counter does not wrap) any [ClientPoolSize] consecutive calls of
    [getUserClient] return every connection of the pool exactly once; without
    a pool the call panics, and the server made with mocks holds nothing but
    nil connections. *)
Theorem pool_round_robin o size usr vid us vs m : 0 < size ->
  (forall j, (j < Z.to_nat size)%nat -> connect_once_or_twice o (usr j) = inl (us j)) ->
  (forall j, (j < Z.to_nat size)%nat -> connect_once_or_twice o (vid j) = inl (vs j)) ->
  Z.of_nat m + size < 2 ^ 64 ->
  exists s s1 cs1 s2 cs2,
    MakePooledServer o size usr vid = Ret (inl s) /\ usr_clients s = Some ∘ us <$> seq 0 (Z.to_nat size)
    /\ calls getUserClient m s = Ret (s1, cs1) /\ calls getUserClient (Z.to_nat size) s1 = Ret (s2, cs2)
    /\ cs2 ≡ₚ Some ∘ us <$> seq 0 (Z.to_nat size)
    /\ next_client [] (usr_client_index s) = Panic
    /\ (forall Mock (a b : Mock), exists s', MakePooledServerWithMocks o size a b = Ret s'
         /\ forall c, c ∈ usr_clients s' ++ vid_clients s' -> c = None).
Proof.
  intros Hs Hu Hv Hw. unfold MakePooledServer, MakePooledServerWithMocks, make_conns.
  destruct (Z.ltb_spec size 0); [lia|]. cbn [mbind go_bind].
  rewrite (open_pool_spec o usr vid us vs); cbn [usr_clients vid_clients]; rewrite ?length_replicate; try done;
    [|intros j Hj; apply Hu; lia|intros j Hj; apply Hv; lia].
  rewrite !take_0. cbn [app base usr_client_index vid_client_index].
  set (pool := Some ∘ us <$> seq 0 (Z.to_nat size)). set (s := mkPooled (new_server o) pool (Some ∘ vs <$> seq 0 (Z.to_nat size)) 0 0).
  assert (Hlen : length pool = Z.to_nat size) by (unfold pool; by rewrite length_fmap, length_seq).
  assert (Hne : pool <> []) by (intros E0; rewrite E0 in Hlen; cbn in Hlen; lia).
  eexists s, _, _, _, _. split_and!; [done|done|apply user_calls; cbn; done || lia| |..].
  - apply user_calls; cbn; done || lia.
  - cbn [usr_clients usr_client_index s]. rewrite <- Hlen, turns_rotation by done || lia.
    rewrite Permutation_app_comm. by rewrite take_drop.
  - done.
  - intros Mock a b. eexists. split; [done|]. cbn. intros c [Hc|Hc]%elem_of_app; by apply elem_of_replicate in Hc as [-> _].
Qed.

End Pool.

(** ** The handlers *)

(** The generated clients, on a given connection, and the address that a
    connection was made for. *)
Class ConnBackends (Conn W : Type) : Type := {
  conn_target : Conn -> string;
  conn_GetUser : Conn -> W -> list Z -> go (W * (list UserInfo + status));
  conn_GetVideo : Conn -> W -> list Z -> go (W * (list VideoInfo + status));
  conn_GetTrendingVideos : Conn -> W -> go (W * (list Z * Z + status))
}.

(** The clients of the server with one connection to each service:
    [upb.NewUserServiceClient(usr_conn)] and [vpb.NewVideoServiceClient(vid_conn)]. *)
Definition two_conns {Conn W} `{ConnBackends Conn W} (usr_conn vid_conn : Conn) : Backends W := {|
  call_GetUser := conn_GetUser usr_conn;
  call_GetVideo := conn_GetVideo vid_conn;
  call_GetTrendingVideos := conn_GetTrendingVideos vid_conn
|}.

Section Handlers.
Context {Conn W Cipher : Type} `{ConnBackends Conn W} `{Blowfish Cipher} `{SortSlice VideoInfo}.

(** [upb.NewUserServiceClient(conn).GetUser(...)] *)
Definition on_conn {A} (c : option Conn) (f : Conn -> go A) : go A :=
  match c with Some c => f c | None => Panic end.

#[local] Instance pool_backends : Backends (PooledServer (Conn := Conn) * W) := {
  call_GetUser pw ids :=
    let! '(s, c) := getUserClient pw.1 in
    let! '(w, r) := on_conn c (fun c => conn_GetUser c pw.2 ids) in Ret ((s, w), r);
  call_GetVideo pw ids :=
    let! '(s, c) := getVideoClient pw.1 in
    let! '(w, r) := on_conn c (fun c => conn_GetVideo c pw.2 ids) in Ret ((s, w), r);
  call_GetTrendingVideos pw :=
    let! '(s, c) := getVideoClient pw.1 in
    let! '(w, r) := on_conn c (fun c => conn_GetTrendingVideos c pw.2) in Ret ((s, w), r)
}.

Definition set_base (b : Server) (s : PooledServer (Conn := Conn)) : PooledServer (Conn := Conn) :=
  mkPooled b (usr_clients s) (vid_clients s) (usr_client_index s) (vid_client_index s).

Definition pooled_getSubscribedVideos (s : PooledServer) (w : W) (subscribedUserIDs : list Z)
    : go (PooledServer * W * list Z) :=
  getSubscribedVideos (base s) (s, w) subscribedUserIDs.

Definition pooled_getVideoInfo (s : PooledServer) (w : W) (videoIds : list Z)
    : go (PooledServer * W * (list VideoInfo + status)) :=
  getVideoInfo (base s) (s, w) videoIds.

Definition pooled_refreshTrendingVideos (s : PooledServer) (w : W) (now1 now2 : Z) : go (PooledServer * W) :=
  let! '(b, (s, w)) := refreshTrendingVideos (base s) (s, w) now1 now2 in Ret (set_base b s, w).

Definition pooled_rankerVids (userCoeffs : gmap Z Z) (vs : list VideoInfo) : go (list VideoInfo) :=
  rankerVids (Cipher := Cipher) userCoeffs vs.

Definition pooled_handleFallback (s : PooledServer) (req : Request) : go (PooledServer * (Response + status)) :=
  let! '(b, r) := handleFallback (base s) req in Ret (set_base b s, r).

Definition pooled_deduplicate (items : list Z) : list Z := deduplicateIds items.

Definition pooled_GetTopVideos (s : PooledServer) (w : W) (t0 t1 : Z) (req : Request)
    : go (PooledServer * W * (Response + status)) :=
  let! '(b, (s, w), r) := GetTopVideos (Cipher := Cipher) (base s) (s, w) t0 t1 req in
  Ret (set_base b s, w, r).

Definition pooled_GetStats (s : PooledServer (Conn := Conn)) : Stats := GetStats (base s).
End Handlers.

(** ** Simulation of backends *)

(** Two pieces of code end the same way, with related results. *)
Definition go_rel {A B} (R : A -> B -> Prop) (x : go A) (y : go B) : Prop :=
  match x, y with
  | Ret a, Ret b => R a b
  | Panic, Panic | Block, Block => True
  | _, _ => False
  end.

Lemma go_rel_bind {A B A' B'} (R : A -> B -> Prop) (R' : A' -> B' -> Prop) x y f g :
  go_rel R x y -> (forall a b, R a b -> go_rel R' (f a) (g b)) ->
  go_rel R' (let! a := x in f a) (let! b := y in g b).
Proof. intros Hx Hf. destruct x, y; cbn in *; try done. by apply Hf. Qed.

Lemma go_rel_refl {A} (x : go A) : go_rel eq x x.
Proof. by destruct x. Qed.

(** Related states of the world, equal replies. *)
Definition reply_rel {W1 W2 A} (R : W1 -> W2 -> Prop) (x : W1 * A) (y : W2 * A) : Prop :=
  R x.1 y.1 /\ x.2 = y.2.

Lemma reply_rel_refl {W A} (x : go (W * A)) : go_rel (reply_rel eq) x x.
Proof. by destruct x as [[]| |]. Qed.

Class backends_sim {W1 W2} (B1 : Backends W1) (B2 : Backends W2) (R : W1 -> W2 -> Prop) : Prop := {
  sim_GetUser w1 w2 ids : R w1 w2 -> go_rel (reply_rel R) (call_GetUser w1 ids) (call_GetUser w2 ids);
  sim_GetVideo w1 w2 ids : R w1 w2 -> go_rel (reply_rel R) (call_GetVideo w1 ids) (call_GetVideo w2 ids);
  sim_GetTrendingVideos w1 w2 : R w1 w2 ->
    go_rel (reply_rel R) (call_GetTrendingVideos w1) (call_GetTrendingVideos w2)
}.

Create HintDb gorel.
#[local] Hint Resolve go_rel_refl sim_GetUser sim_GetVideo sim_GetTrendingVideos : gorel.

(** Step through a [let!] on both sides. *)
Ltac go_rel_step :=
  eapply go_rel_bind; [eauto with gorel|];
  first [intros [? ?] [? ?] [? ?] | intros ? ? ?]; cbn [fst snd] in *; subst.

Section Simulation.
Context {W1 W2 Cipher : Type} {B1 : Backends W1} {B2 : Backends W2} `{Blowfish Cipher} `{SortSlice VideoInfo}.
Context (R : W1 -> W2 -> Prop) {HR : backends_sim B1 B2 R}.

Lemma subscribed_loop_sim max ids w1 w2 i liked fuel : R w1 w2 ->
  go_rel (reply_rel R) (subscribed_loop max ids w1 i liked fuel) (subscribed_loop max ids w2 i liked fuel).
Proof using HR.
  revert w1 w2 i liked. induction fuel as [|fuel IH]; intros w1 w2 i liked Hw; cbn [subscribed_loop];
    destruct (i <? len ids); try done.
  go_rel_step. go_rel_step. case_match; by apply IH.
Qed.

Lemma video_loop_sim max ids w1 w2 i vs fuel : R w1 w2 ->
  go_rel (reply_rel R) (video_loop max ids w1 i vs fuel) (video_loop max ids w2 i vs fuel).
Proof using HR.
  revert w1 w2 i vs. induction fuel as [|fuel IH]; intros w1 w2 i vs Hw; cbn [video_loop];
    destruct (i <? len ids); try done.
  go_rel_step. go_rel_step. case_match; [by apply IH|done].
Qed.

Lemma trending_loop_sim max ids w1 w2 i vs fuel : R w1 w2 ->
  go_rel (reply_rel R) (trending_loop max ids w1 i vs fuel) (trending_loop max ids w2 i vs fuel).
Proof using HR.
  revert w1 w2 i vs. induction fuel as [|fuel IH]; intros w1 w2 i vs Hw; cbn [trending_loop];
    destruct (i <? len ids); try done.
  go_rel_step. go_rel_step. case_match; [by apply IH|done].
Qed.

Lemma refresh_sim server w1 w2 now1 now2 : R w1 w2 ->
  go_rel (fun x y => x.1 = y.1 /\ R x.2 y.2)
    (refreshTrendingVideos server w1 now1 now2) (refreshTrendingVideos server w2 now1 now2).
Proof using HR.
  intros Hw. unfold refreshTrendingVideos. destruct (_ <? now1); [|done].
  go_rel_step. case_match; [|done]. case_match.
  eapply go_rel_bind; [by apply trending_loop_sim|]. intros [? ?] [? ?] [? ?]. by cbn in *; subst.
Qed.

Lemma GetTopVideos_sim server w1 w2 t0 t1 req : R w1 w2 ->
  go_rel (fun x y => x.1.1 = y.1.1 /\ R x.1.2 y.1.2 /\ x.2 = y.2)
    (GetTopVideos (Cipher := Cipher) server w1 t0 t1 req)
    (GetTopVideos (Cipher := Cipher) server w2 t0 t1 req).
Proof using HR.
  intros Hw. unfold GetTopVideos.
  assert (forall s v1 v2, R v1 v2 ->
    go_rel (fun x y => x.1.1 = y.1.1 /\ R x.1.2 y.1.2 /\ x.2 = y.2)
      (let! '(s, r) := handleFallback (count_error s) req in Ret (end_request s, v1, r))
      (let! '(s, r) := handleFallback (count_error s) req in Ret (end_request s, v2, r))) as Hfb.
  { intros s v1 v2 Hv. eapply go_rel_bind; [apply go_rel_refl|]. intros [s' r] ? <-. done. }
  go_rel_step. case_match; [|by apply Hfb]. case_match; [by apply Hfb|].
  eapply go_rel_bind; [by apply subscribed_loop_sim|]. intros [? ?] [? ?] [? ?]. cbn [fst snd] in *. subst.
  eapply go_rel_bind; [by apply video_loop_sim|]. intros [? ?] [? ?] [? ?]. cbn [fst snd] in *. subst.
  case_match; [|by apply Hfb]. go_rel_step. go_rel_step. done.
Qed.
End Simulation.

(** Backends that do the same give the same service. *)
Lemma GetTopVideos_same {W Cipher} {B1 B2 : Backends W} `{Blowfish Cipher} `{SortSlice VideoInfo} server (w : W) t0 t1 req :
  backends_sim B1 B2 eq ->
  GetTopVideos (H := B1) (Cipher := Cipher) server w t0 t1 req = GetTopVideos (H := B2) (Cipher := Cipher) server w t0 t1 req.
Proof.
  intros Hs. pose proof (GetTopVideos_sim (Cipher := Cipher) eq (HR := Hs) server w w t0 t1 req eq_refl) as Hr.
  destruct (GetTopVideos (H := B1) _ _ _ _ _) as [[[? ?] ?]| |], (GetTopVideos (H := B2) _ _ _ _ _) as [[[? ?] ?]| |]; try done.
  cbn in Hr. by destruct Hr as (-> & -> & ->).
Qed.

(** ** The pooled service is the service *)

(** What a call does depends on the address its connection was made for, and
    on nothing else of the connection: connections to one address reach one
    server. A connection to the user service need not serve [GetVideo], nor
    one to the video service [GetUser]. *)
Record by_target {Conn W} (CB : ConnBackends Conn W) : Prop := {
  target_GetUser c c' w ids : conn_target c = conn_target c' -> conn_GetUser c w ids = conn_GetUser c' w ids;
  target_GetVideo c c' w ids : conn_target c = conn_target c' -> conn_GetVideo c w ids = conn_GetVideo c' w ids;
  target_GetTrendingVideos c c' w :
    conn_target c = conn_target c' -> conn_GetTrendingVideos c w = conn_GetTrendingVideos c' w
}.

(** The connections that [grpc.NewClient] gives for an address are made for it. *)
Definition dials {Conn W} `{ConnBackends Conn W} (try : bool -> Conn + status) (addr : string) : Prop :=
  forall again c, try again = inl c -> conn_target c = addr.

Lemma connect_dials {Conn W} `{ConnBackends Conn W} o (try : bool -> Conn + status) addr c :
  dials try addr -> connect_once_or_twice o try = inl c -> conn_target c = addr.
Proof. intros Hd. unfold connect_once_or_twice. repeat case_match; intros E; simplify_eq; by eapply Hd. Qed.

Section Refinement.
Context {Conn W Cipher : Type} {CB : ConnBackends Conn W} `{Blowfish Cipher} `{SortSlice VideoInfo}.

(** Live connections to an address. *)
Definition leads_to (addr : string) (clients : list (option Conn)) : Prop :=
  Forall (fun c => exists c', c = Some c' /\ conn_target c' = addr) clients.

Lemma next_client_live addr (clients : list (option Conn)) index :
  clients <> [] -> leads_to addr clients ->
  exists c, next_client clients index = Ret (u64 (index + 1), Some c) /\ conn_target c = addr.
Proof.
  intros Hne Hlive. assert (0 < len clients) as Hl by (unfold len; destruct clients; [done|cbn; lia]).
  unfold next_client. destruct (Z.eqb_spec (len clients) 0); [lia|].
  destruct (go_index_returns clients (u64 (index + 1) mod len clients)) as [c Hc]; [by apply Z.mod_pos_bound|].
  rewrite Hc. apply go_index_Ret in Hc as [_ Hc]. unfold leads_to in Hlive. rewrite Forall_lookup in Hlive.
  destruct (Hlive _ _ Hc) as (c' & -> & Ht). by exists c'.
Qed.

Record live (ua va : string) (s : PooledServer (Conn := Conn)) : Prop := {
  live_usr : usr_clients s <> [] /\ leads_to ua (usr_clients s);
  live_vid : vid_clients s <> [] /\ leads_to va (vid_clients s)
}.

(** The slots that the loop of the constructor has filled. *)
Lemma leads_to_S addr i (clients : list (option Conn)) c :
  (i < length clients)%nat -> leads_to addr (take i clients) -> conn_target c = addr ->
  leads_to addr (take (S i) (<[i := Some c]> clients)).
Proof.
  intros Hi Hl Hc. unfold leads_to. erewrite take_S_r by (apply list_lookup_insert_eq; done).
  rewrite take_insert_ge by lia. apply Forall_app. split; [done|]. apply Forall_singleton. eauto.
Qed.

Lemma open_pool_live o usr vid ua va m i s s' :
  (forall j, dials (usr j) ua) -> (forall j, dials (vid j) va) ->
  length (usr_clients s) = (i + m)%nat -> length (vid_clients s) = (i + m)%nat ->
  leads_to ua (take i (usr_clients s)) -> leads_to va (take i (vid_clients s)) ->
  open_pool o usr vid i m s = inl s' ->
  base s' = base s /\ length (usr_clients s') = (i + m)%nat /\ length (vid_clients s') = (i + m)%nat
  /\ leads_to ua (usr_clients s') /\ leads_to va (vid_clients s').
Proof.
  intros Hu Hv. revert i s. induction m as [|m IH]; intros i s Lu Lv Tu Tv; cbn.
  { intros [= <-]. rewrite take_ge in Tu, Tv by lia. done. }
  destruct (connect_once_or_twice o (usr i)) as [u|] eqn:Eu; [|done].
  destruct (connect_once_or_twice o (vid i)) as [v|] eqn:Ev; [|done].
  apply connect_dials with (addr := ua) in Eu; [|done]. apply connect_dials with (addr := va) in Ev; [|done].
  intros E. apply IH in E; cbn in *; rewrite ?length_insert; try lia; try (apply leads_to_S; done || lia).
  destruct E as (? & ? & ? & ? & ?). split_and!; done || lia.
Qed.

(** The constructor makes a live pool. *)
Lemma made_live o size usr vid ua va s :
  0 < size -> (forall j, dials (usr j) ua) -> (forall j, dials (vid j) va) ->
  MakePooledServer o size usr vid = Ret (inl s) -> base s = new_server o /\ live ua va s.
Proof.
  intros Hs Hu Hv. unfold MakePooledServer, make_conns. destruct (Z.ltb_spec size 0); [lia|]. cbn. intros [= E].
  apply open_pool_live with (ua := ua) (va := va) in E; cbn in *; rewrite ?length_replicate; try done;
    try by rewrite take_0; constructor.
  destruct E as (-> & L1 & L2 & ? & ?). split; [done|]. split; (split; [|done]); intros E0; rewrite E0 in *; cbn in *; lia.
Qed.

Lemma server_made o usr vid ua va s uc vc :
  dials usr ua -> dials vid va -> MakeVideoRecServiceServer o usr vid = inl (s, uc, vc) ->
  s = new_server o /\ conn_target uc = ua /\ conn_target vc = va.
Proof.
  intros Hu Hv. unfold MakeVideoRecServiceServer. destruct (connect_once_or_twice o usr) as [u|] eqn:Eu; [|done].
  destruct (connect_once_or_twice o vid) as [v|] eqn:Ev; [|done]. intros [= <- <- <-]. eauto using connect_dials.
Qed.

(** The pool has the connections of [s], and the outside world is the same. *)
Definition pool_rel (s : PooledServer (Conn := Conn)) (pw : PooledServer (Conn := Conn) * W) (w : W) : Prop :=
  pw.2 = w /\ base pw.1 = base s /\ usr_clients pw.1 = usr_clients s /\ vid_clients pw.1 = vid_clients s.

Lemma pool_sim s uc vc : by_target CB -> live (conn_target uc) (conn_target vc) s ->
  backends_sim pool_backends (two_conns uc vc) (pool_rel s).
Proof.
  intros Hby [[Hu Lu] [Hv Lv]]. split.
  - intros [p w1] w2 ids (Hw & Hb & Hus & Hvs). cbn in *. subst w2. unfold getUserClient.
    destruct (next_client_live (conn_target uc) (usr_clients p) (usr_client_index p)) as (c & -> & Hc); [congruence..|]. cbn.
    rewrite (target_GetUser _ Hby c uc) by done. by destruct (conn_GetUser uc w1 ids) as [[? ?]| |].
  - intros [p w1] w2 ids (Hw & Hb & Hus & Hvs). cbn in *. subst w2. unfold getVideoClient.
    destruct (next_client_live (conn_target vc) (vid_clients p) (vid_client_index p)) as (c & -> & Hc); [congruence..|]. cbn.
    rewrite (target_GetVideo _ Hby c vc) by done. by destruct (conn_GetVideo vc w1 ids) as [[? ?]| |].
  - intros [p w1] w2 (Hw & Hb & Hus & Hvs). cbn in *. subst w2. unfold getVideoClient.
    destruct (next_client_live (conn_target vc) (vid_clients p) (vid_client_index p)) as (c & -> & Hc); [congruence..|]. cbn.
    rewrite (target_GetTrendingVideos _ Hby c vc) by done. by destruct (conn_GetTrendingVideos vc w1) as [[? ?]| |].
Qed.

(** C36: The pool does not change the service. Take the server that
    [MakeVideoRecServiceServer] makes with one connection to the address of
    the user service and one to that of the video service, and the one that
    the version with pools makes with [ClientPoolSize] > 0 connections to
    each, with the same options. What a call does depends on the address of
    its connection only; a connection to one service need not serve the other.
    Then the two start equal, and at every later moment (the pools are filled
    once) a request to the pooled server and an iteration of its refresh loop
    do exactly what the server with one connection does, panics and endless
    loops included: the same answer, the same counters and cache, the same
    effects on the backends. Only the two indices of the pool move. *)
Theorem pooled_service_refines o size usr vid s0 usr1 vid1 ua va rec uc vc s (w : W) :
  by_target CB -> (forall i, dials (usr i) ua) -> (forall i, dials (vid i) va) -> dials usr1 ua -> dials vid1 va ->
  0 < size -> MakePooledServer o size usr vid = Ret (inl s0) ->
  MakeVideoRecServiceServer o usr1 vid1 = inl (rec, uc, vc) ->
  usr_clients s = usr_clients s0 -> vid_clients s = vid_clients s0 ->
  base s0 = rec
  /\ (forall t0 t1 req, exists ui vi, pooled_GetTopVideos (Cipher := Cipher) s w t0 t1 req
     = let! '(b, w', r) := GetTopVideos (H := two_conns uc vc) (Cipher := Cipher) (base s) w t0 t1 req in
       Ret (mkPooled b (usr_clients s) (vid_clients s) ui vi, w', r))
  /\ (forall now1 now2, exists ui vi, pooled_refreshTrendingVideos s w now1 now2
     = let! '(b, w') := refreshTrendingVideos (H := two_conns uc vc) (base s) w now1 now2 in
       Ret (mkPooled b (usr_clients s) (vid_clients s) ui vi, w')).
Proof.
  intros Hby Hu Hv Hu1 Hv1 Hsize Hs0 Hr Eu Ev. destruct (made_live _ _ _ _ ua va _ Hsize Hu Hv Hs0) as [Hb Hl0].
  destruct (server_made _ _ _ ua va _ _ _ Hu1 Hv1 Hr) as (-> & <- & <-). split; [done|].
  assert (live (conn_target uc) (conn_target vc) s) as Hl by (destruct Hl0; split; congruence).
  pose proof (pool_sim s uc vc Hby Hl) as Hsim. assert (pool_rel s (s, w) w) as Hw by done. split.
  - intros t0 t1 req. pose proof (GetTopVideos_sim (Cipher := Cipher) _ (HR := Hsim) (base s) (s, w) w t0 t1 req Hw) as Hrel.
    unfold pooled_GetTopVideos.
    destruct (GetTopVideos _ (s, w) _ _ _) as [[[b1 [p w1]] r1]| |],
      (GetTopVideos _ w _ _ _) as [[[b2 w2] r2]| |]; cbn in *; try done; [|by exists 0, 0..].
    destruct Hrel as (-> & (Hw' & _ & Hus & Hvs) & ->). cbn in Hw', Hus, Hvs. subst w2. unfold set_base. rewrite Hus, Hvs. eauto.
  - intros now1 now2. pose proof (refresh_sim _ (HR := Hsim) (base s) (s, w) w now1 now2 Hw) as Hrel.
    unfold pooled_refreshTrendingVideos.
    destruct (refreshTrendingVideos _ (s, w) _ _) as [[b1 [p w1]]| |],
      (refreshTrendingVideos _ w _ _) as [[b2 w2]| |]; cbn in *; try done; [|by exists 0, 0..].
    destruct Hrel as (-> & (Hw' & _ & Hus & Hvs)). cbn in Hw', Hus, Hvs. subst w2. unfold set_base. rewrite Hus, Hvs. eauto.
Qed.

(** A server made with mocks cannot answer: its pool holds nil connections,
    or nothing, and the first call to a backend panics. *)
Theorem mock_pool_panics {Mock} o size (a b : Mock) s (w : W) t0 t1 req :
  MakePooledServerWithMocks (Conn := Conn) o size a b = Ret s ->
  pooled_GetTopVideos (Cipher := Cipher) s w t0 t1 req = Panic.
Proof.
  unfold MakePooledServerWithMocks, make_conns. destruct (Z.ltb_spec size 0); [done|]. cbn. intros [= <-].
  unfold pooled_GetTopVideos, GetTopVideos. cbn. unfold getUserClient, next_client, len. cbn.
  rewrite length_replicate, Z2Nat.id by done. destruct (Z.eqb_spec size 0); [done|].
  unfold go_index. rewrite (proj2 (Z.ltb_ge _ _)) by (apply Z.mod_pos_bound; lia).
  rewrite lookup_replicate_2; [done|]. apply Z2Nat.inj_lt; [apply Z.mod_pos_bound; lia|lia|].
  apply Z.mod_pos_bound. lia.
Qed.
End Refinement.

(** ** At concrete services *)

(** Numbered connections to the services of [small_mock]: each is to an
    address, and serves what is served there. *)
#[local] Instance numbered_conns : ConnBackends (string * nat) (mock Z) := {
  conn_target c := c.1;
  conn_GetUser c w ids := if bool_decide (c.1 = "users"%string) then call_GetUser w ids else Ret (w, inr Unimplemented);
  conn_GetVideo c w ids := if bool_decide (c.1 = "videos"%string) then call_GetVideo w ids else Ret (w, inr Unimplemented);
  conn_GetTrendingVideos c w :=
    if bool_decide (c.1 = "videos"%string) then call_GetTrendingVideos w else Ret (w, inr Unimplemented)
}.

Definition small_pool : PooledServer (Conn := string * nat) :=
  mkPooled small_rec [Some ("users"%string, 0%nat); Some ("users"%string, 1%nat)]
    [Some ("videos"%string, 0%nat); Some ("videos"%string, 1%nat)] 0 0.

Lemma pooled_service_refines_witness :
  exists ui vi b w r, pooled_GetTopVideos (Cipher := Z) small_pool small_mock 0 3 (mkRequest 1 1)
    = Ret (mkPooled b (usr_clients small_pool) (vid_clients small_pool) ui vi, w, inl r)
    /\ StaleResponse r = false /\ VideoId <$> Videos r = [8].
Proof.
  destruct (pooled_service_refines (Cipher := Z) (CB := numbered_conns) (mkRecOptions 2 false false) 2
    (fun i _ => inl ("users"%string, i)) (fun i _ => inl ("videos"%string, i)) small_pool
    (fun _ => inl ("users"%string, 9%nat)) (fun _ => inl ("videos"%string, 9%nat)) "users" "videos" small_rec
    ("users"%string, 9%nat) ("videos"%string, 9%nat) small_pool small_mock) as (_ & Hreq & _).
  - split; intros [] [] *; cbn; by intros ->.
  - by intros i again c [= <-].
  - by intros i again c [= <-].
  - by intros again c [= <-].
  - by intros again c [= <-].
  - lia.
  - reflexivity.
  - reflexivity.
  - reflexivity.
  - reflexivity.
  - destruct (Hreq 0 3 (mkRequest 1 1)) as (ui & vi & E).
    exists ui, vi. rewrite E. vm_compute. do 3 eexists. split; [reflexivity|]. split; reflexivity.
Defined.

Lemma mock_pool_panics_witness :
  pooled_GetTopVideos (Cipher := Z) (mkPooled (new_server (mkRecOptions 2 false false)) [None] [None] 0 0)
    small_mock 0 3 (mkRequest 1 1) = Panic.
Proof. apply (mock_pool_panics (Conn := string * nat) (mkRecOptions 2 false false) 1 tt tt). reflexivity. Defined.

Lemma pool_round_robin_witness : exists s s1 cs1 s2 cs2,
  MakePooledServer (Conn := nat) (mkRecOptions 50 false false) 3 (fun i _ => inl i) (fun i _ => inl i) = Ret (inl s)
  /\ calls getUserClient 2 s = Ret (s1, cs1) /\ calls getUserClient 3 s1 = Ret (s2, cs2)
  /\ cs2 ≡ₚ [Some 0%nat; Some 1%nat; Some 2%nat].
Proof.
  destruct (pool_round_robin (Conn := nat) (mkRecOptions 50 false false) 3 (fun i _ => inl i) (fun i _ => inl i) id id 2)
    as (s & s1 & cs1 & s2 & cs2 & Hm & _ & H1 & H2 & Hp & _); [lia|reflexivity|reflexivity|lia|].
  exists s, s1, cs1, s2, cs2. split; [exact Hm|]. split; [exact H1|]. split; [exact H2|exact Hp].
Defined.
