(* ===== verification/LoadGen.v ===== *)
(** * lab1/cmd/loadgen/loadgen.go: the load generator

    Every connection sends requests for one user after the other, each request
    in a goroutine of its own; the counters are shared and atomic. The
    goroutines are the parts of a step system: a step is what a goroutine does
    between two accesses to the counters. [rate.Limiter] decides when a
    connection may send, and the service what it answers: both are arguments
    of the actions; a connection that cannot be made ends the program, and no
    run goes on from there. [reportStats] is one more goroutine; the averages it prints
    are quotients of the numbers of a [report]. *)

From Stdlib Require Import String.
From stdpp Require Import prelude gmap.
From S2P Require Import Prelude Fnv Backend.
Local Open Scope Z_scope.

Definition MIN_USER_COUNT : Z := 5000.

Definition getNextUserId (userId : Z) : Z :=
  uint_w 64 (uint_w 64 (userId + 1) mod MIN_USER_COUNT + USER_ID_OFFSET).

Record counters : Type := mkCounters {
  totalSent : Z;
  totalResponses : Z;
  totalSuccesses : Z;
  totalLatencyMs : Z;
  totalStale : Z
}.

(** [atomic.AddUint64] on each of them. *)
Definition AddUint64 (x d : Z) : Z := uint_w 64 (x + d).
Definition add_sent (c : counters) : counters :=
  mkCounters (AddUint64 (totalSent c) 1) (totalResponses c) (totalSuccesses c) (totalLatencyMs c) (totalStale c).
Definition add_response (c : counters) : counters :=
  mkCounters (totalSent c) (AddUint64 (totalResponses c) 1) (totalSuccesses c) (totalLatencyMs c) (totalStale c).
Definition add_success (c : counters) : counters :=
  mkCounters (totalSent c) (totalResponses c) (AddUint64 (totalSuccesses c) 1) (totalLatencyMs c) (totalStale c).
Definition add_latency (d : Z) (c : counters) : counters :=
  mkCounters (totalSent c) (totalResponses c) (totalSuccesses c) (AddUint64 (totalLatencyMs c) d) (totalStale c).
Definition add_stale (c : counters) : counters :=
  mkCounters (totalSent c) (totalResponses c) (totalSuccesses c) (totalLatencyMs c) (AddUint64 (totalStale c) 1).

(** Where a [sendRequest] is. [answer] is what [GetTopVideos] returned: an
    error, or the flag [StaleResponse]; [wasSuccess] is that it is no error. *)
Inductive sender : Type :=
| Spawned
| Sent (start : Z)
| Answered (start : Z) (answer : option bool)    (* the stale response is not counted yet *)
| Deferred (start : Z) (answer : option bool)    (* the deferred function begins *)
| Responded (start : Z) (answer : option bool)
| Timed (elapsed : Z) (answer : option bool)
| Finished (elapsed : Z) (answer : option bool).

(** The next step of [sendRequest]; [None] when it has returned. *)
Definition sendRequest (c : counters) (s : sender) (now : Z) (answer : option bool) : option (counters * sender) :=
  match s with
  | Spawned => Some (add_sent c, Sent now)
  | Sent start => Some (c, Answered start answer)
  | Answered start a => Some (match a with Some true => add_stale c | _ => c end, Deferred start a)
  | Deferred start a => Some (add_response c, Responded start a)
  | Responded start a =>
      let elapsed := uint_w 64 (Z.quot (now - start) 1000000) in
      Some (add_latency elapsed c, Timed elapsed a)
  | Timed elapsed a => Some (match a with Some _ => add_success c | None => c end, Finished elapsed a)
  | Finished _ _ => None
  end.

(** One round of [reportStats], load by load. *)
Inductive reporter : Type :=
| Ticking
| LoadedReqs (numReqs : Z)
| LoadedErrors (numReqs numErrors : Z)
| LoadedLatency (numReqs numErrors latencyMs : Z)
| LoadedStale (numReqs numErrors latencyMs staleResponses : Z).

Record report : Type := mkReport {
  r_sent : Z;
  r_responses : Z;
  r_errors : Z;
  r_stale : Z;
  r_latencyMs : Z
}.

Definition reportStats (c : counters) (r : reporter) : reporter * list report :=
  match r with
  | Ticking => (LoadedReqs (totalResponses c), [])
  | LoadedReqs numReqs => (LoadedErrors numReqs (uint_w 64 (numReqs - totalSuccesses c)), [])
  | LoadedErrors numReqs numErrors => (LoadedLatency numReqs numErrors (totalLatencyMs c), [])
  | LoadedLatency numReqs numErrors latencyMs => (LoadedStale numReqs numErrors latencyMs (totalStale c), [])
  | LoadedStale numReqs numErrors latencyMs stale =>
      (Ticking, [mkReport (totalSent c) numReqs numErrors stale latencyMs])
  end.

(** ** The program *)

Record request : Type := mkRequest { q_UserId : Z; q_Limit : Z }.

(** [conns] is the next [userId] of every connection, [jobs] the requests it
    has started, [requests] what has been sent, in order. *)
Record world : Type := mkWorld {
  cnt : counters;
  conns : list Z;
  jobs : list (Z * sender);
  requests : list request;
  rep : reporter;
  reports : list report
}.

Inductive action : Type :=
| Wait (conn : nat) (ok : bool)                                   (* limiter.Wait returned *)
| Send (job : nat) (now draw : Z) (answer : option bool)           (* draw is rand.Int31n(10) *)
| Report.

(** The request is made when the answer of the service is taken. *)
Definition issued (userId : Z) (s : sender) (draw : Z) : list request :=
  match s with Sent _ => [mkRequest userId (draw + 1)] | _ => [] end.

Definition step (w : world) (a : action) : option world :=
  match a with
  | Wait i ok =>
      userId ← conns w !! i;
      if (ok : bool)
      then Some (mkWorld (cnt w) (<[i := getNextUserId userId]> (conns w)) (jobs w ++ [(userId, Spawned)])
                   (requests w) (rep w) (reports w))
      else Some w
  | Send j now draw answer =>
      job ← jobs w !! j;
      out ← sendRequest (cnt w) job.2 now answer;
      Some (mkWorld out.1 (conns w) (<[j := (job.1, out.2)]> (jobs w))
              (requests w ++ issued job.1 job.2 draw) (rep w) (reports w))
  | Report =>
      let out := reportStats (cnt w) (rep w) in
      Some (mkWorld (cnt w) (conns w) (jobs w) (requests w) out.1 (reports w ++ out.2))
  end.

Definition numConns (targetQps : Z) : Z := if targetQps <? 1000 then targetQps else 1000.
Definition maxBurst (targetQps : Z) : Z := if targetQps <? 100 then targetQps else 100.

Definition main (targetQps : Z) : world :=
  mkWorld (mkCounters 0 0 0 0 0) (replicate (Z.to_nat (numConns targetQps)) USER_ID_OFFSET) [] [] Ticking [].

Definition drawn (a : action) : Prop := match a with Send _ _ draw _ => 0 <= draw < 10 | _ => True end.

Inductive reachable (targetQps : Z) : world -> Prop :=
| reach_main : reachable targetQps (main targetQps)
| reach_step w a w' : reachable targetQps w -> drawn a -> step w a = Some w' -> reachable targetQps w'.

(** ** The users *)

Lemma getNextUserId_ok userId :
  0 <= userId < 2 ^ 64 - 1 -> getNextUserId userId = (userId + 1) mod 5000 + 200000.
Proof.
  intros Hu. unfold getNextUserId, uint_w, MIN_USER_COUNT, USER_ID_OFFSET.
  rewrite (Z.mod_small (userId + 1)) by lia. pose proof (Z.mod_pos_bound (userId + 1) 5000). apply Z.mod_small. lia.
Qed.

Definition user_after (k : nat) : Z := Nat.iter k getNextUserId USER_ID_OFFSET.

Lemma user_after_ok k : user_after k = 200000 + Z.of_nat k mod 5000.
Proof.
  induction k as [|k IH]; [done|]. unfold user_after in *. rewrite Nat.iter_succ, IH.
  pose proof (Z.mod_pos_bound (Z.of_nat k) 5000). rewrite getNextUserId_ok by lia.
  replace (200000 + Z.of_nat k mod 5000 + 1) with (1 + Z.of_nat k mod 5000 + 40 * 5000) by lia.
  rewrite Z.mod_add, Zplus_mod_idemp_r by lia. rewrite Nat2Z.inj_succ. rewrite Z.add_comm. f_equal. f_equal. lia.
Qed.

(** Every user of the range has its turn, in every round of 5000 requests. *)
Lemma user_after_covers round userId :
  200000 <= userId < 205000 -> exists k, (5000 * round <= k < 5000 * (round + 1))%nat /\ user_after k = userId.
Proof.
  intros Hu. exists (5000 * round + Z.to_nat (userId - 200000))%nat. split; [lia|]. rewrite user_after_ok.
  rewrite Nat2Z.inj_add, Nat2Z.inj_mul, Z2Nat.id by lia. rewrite Z.add_comm, (Z.mul_comm (Z.of_nat 5000)).
  change (Z.of_nat 5000) with 5000. rewrite (Z.add_comm (Z.of_nat round * 5000)), Z.mod_add by lia.
  rewrite Z.mod_small by lia. lia.
Qed.

(** ** The counters *)

(** What a request has added to each counter so far. *)
Definition sent1 (s : sender) : Z := match s with Spawned => 0 | _ => 1 end.
Definition response1 (s : sender) : Z :=
  match s with Responded _ _ | Timed _ _ | Finished _ _ => 1 | _ => 0 end.
Definition success1 (s : sender) : Z := match s with Finished _ (Some _) => 1 | _ => 0 end.
Definition latency1 (s : sender) : Z := match s with Timed d _ | Finished d _ => d | _ => 0 end.
Definition stale1 (s : sender) : Z :=
  match s with
  | Deferred _ (Some true) | Responded _ (Some true) | Timed _ (Some true) | Finished _ (Some true) => 1
  | _ => 0
  end.

Fixpoint tally (f : sender -> Z) (jobs : list (Z * sender)) : Z :=
  match jobs with [] => 0 | j :: rest => f j.2 + tally f rest end.

Lemma tally_app f l1 l2 : tally f (l1 ++ l2) = tally f l1 + tally f l2.
Proof. induction l1; cbn; lia. Qed.

Lemma tally_insert f l i j s :
  l !! i = Some j -> tally f (<[i := (j.1, s)]> l) = tally f l - f j.2 + f s.
Proof.
  revert i. induction l as [|x l IH]; intros [|i] Hi; cbn in *; simplify_eq; [lia|]. rewrite IH by done. lia.
Qed.

Lemma tally_le f g l : (forall s, f s <= g s) -> tally f l <= tally g l.
Proof. intros Hfg. induction l as [|x l IH]; cbn; [lia|]. specialize (Hfg x.2). lia. Qed.

Definition tallied (jobs : list (Z * sender)) : counters :=
  mkCounters (uint_w 64 (tally sent1 jobs)) (uint_w 64 (tally response1 jobs)) (uint_w 64 (tally success1 jobs))
    (uint_w 64 (tally latency1 jobs)) (uint_w 64 (tally stale1 jobs)).

Lemma AddUint64_tally x d : AddUint64 (uint_w 64 x) d = uint_w 64 (x + d).
Proof. unfold AddUint64, uint_w. apply Zplus_mod_idemp_l. Qed.

Ltac tally_step := rewrite ?AddUint64_tally; f_equal; lia.

(** A step of a request keeps the counters what the requests have added. *)
Lemma sendRequest_tallied l j job now answer c s :
  l !! j = Some job -> sendRequest (tallied l) job.2 now answer = Some (c, s) -> c = tallied (<[j := (job.1, s)]> l).
Proof.
  intros Hj Hs. unfold tallied. rewrite !(tally_insert _ l j job s Hj).
  destruct job as [u s0]. cbn in *. destruct s0 as [|?|? [[]|]|? [[]|]|? [[]|]|? [[]|]|]; cbn in Hs; simplify_eq;
    unfold tallied, add_sent, add_response, add_success, add_latency, add_stale; cbn; f_equal; tally_step.
Qed.

(** What a request has added only grows. *)
Lemma sendRequest_grows c s now answer c' s' :
  sendRequest c s now answer = Some (c', s') ->
  sent1 s <= sent1 s' /\ response1 s <= response1 s' /\ stale1 s <= stale1 s'.
Proof. intros H. destruct s as [|?|? [[]|]|? [[]|]|? [[]|]|? [[]|]|]; cbn in H; simplify_eq; cbn; lia. Qed.

Lemma shares s :
  0 <= success1 s <= response1 s /\ 0 <= response1 s <= sent1 s /\ 0 <= stale1 s <= sent1 s /\ 0 <= sent1 s <= 1.
Proof. destruct s as [|?|? [[]|]|? [[]|]|? [[]|]|? [[]|]|? [[]|]]; cbn; lia. Qed.

Lemma tally_shares l :
  0 <= tally success1 l <= tally response1 l /\ 0 <= tally response1 l <= tally sent1 l
  /\ 0 <= tally stale1 l <= tally sent1 l /\ 0 <= tally sent1 l <= len l.
Proof. unfold len. induction l as [|x l IH]; cbn; [lia|]. pose proof (shares x.2). lia. Qed.

Definition in_range (userId : Z) : Prop := 200000 <= userId < 205000.

(** What the reporter has loaded is at most what is there now. *)
Definition loaded (l : list (Z * sender)) (numReqs stale : Z) : Prop :=
  (exists n, numReqs = uint_w 64 n /\ 0 <= n <= tally response1 l)
  /\ (exists k, stale = uint_w 64 k /\ 0 <= k <= tally stale1 l).

Definition reporter_ok (l : list (Z * sender)) (r : reporter) : Prop :=
  match r with
  | Ticking => True
  | LoadedReqs n | LoadedErrors n _ | LoadedLatency n _ _ => loaded l n 0
  | LoadedStale n _ _ k => loaded l n k
  end.

Definition report_ok (l : list (Z * sender)) (r : report) : Prop :=
  exists n k s, r_responses r = uint_w 64 n /\ r_stale r = uint_w 64 k /\ r_sent r = uint_w 64 s
    /\ 0 <= n <= s /\ 0 <= k <= s /\ s <= len l.

Record sound (w : world) : Prop := {
  snd_counters : cnt w = tallied (jobs w);
  snd_conns : Forall in_range (conns w);
  snd_jobs : Forall (fun j => in_range j.1) (jobs w);
  snd_requests : Forall (fun q => in_range (q_UserId q) /\ 1 <= q_Limit q <= 10) (requests w);
  snd_rep : reporter_ok (jobs w) (rep w);
  snd_reports : Forall (report_ok (jobs w)) (reports w)
}.

Lemma in_range_next userId : in_range userId -> in_range (getNextUserId userId).
Proof.
  unfold in_range. intros Hu. rewrite getNextUserId_ok by lia. pose proof (Z.mod_pos_bound (userId + 1) 5000). lia.
Qed.

(** More requests, further along. *)
Definition grows (l l' : list (Z * sender)) : Prop :=
  tally response1 l <= tally response1 l' /\ tally stale1 l <= tally stale1 l' /\ len l <= len l'.

Lemma reporter_grows l l' r : grows l l' -> reporter_ok l r -> reporter_ok l' r.
Proof.
  intros (Hr & Hs & _). assert (forall n k, loaded l n k -> loaded l' n k) as Hl.
  { intros n k [(x & Hx & ?) (y & Hy & ?)]. split; [exists x|exists y]; (split; [done|lia]). }
  destruct r; cbn; auto.
Qed.

Lemma report_grows l l' r : grows l l' -> report_ok l r -> report_ok l' r.
Proof. intros (_ & _ & Hl) (n & k & s & ? & ? & ? & ? & ? & ?). exists n, k, s. split_and!; try done; lia. Qed.

Lemma grows_spawn l u : grows l (l ++ [(u, Spawned)]).
Proof. unfold grows, len. rewrite !tally_app, length_app. cbn. lia. Qed.

Lemma grows_send l j job c c' now answer s :
  l !! j = Some job -> sendRequest c job.2 now answer = Some (c', s) -> grows l (<[j := (job.1, s)]> l).
Proof.
  intros Hj Hs%sendRequest_grows. unfold grows, len. rewrite !(tally_insert _ l j job s Hj), length_insert. lia.
Qed.

Lemma report_step_ok l r :
  reporter_ok l r -> reporter_ok l (reportStats (tallied l) r).1 /\ Forall (report_ok l) (reportStats (tallied l) r).2.
Proof.
  pose proof (tally_shares l) as (H1 & H2 & H3 & H4). destruct r; cbn; intros Hr; (split; [|repeat constructor]); try done.
  - split; [exists (tally response1 l)|exists 0]; (split; [done|lia]).
  - destruct Hr as [Hn _]. split; [done|]. exists (tally stale1 l). split; [done|lia].
  - destruct Hr as [(n & -> & ?) (k & -> & ?)]. exists n, k, (tally sent1 l). cbn. split_and!; try done; lia.
Qed.

Lemma sound_step w a w' : sound w -> drawn a -> step w a = Some w' -> sound w'.
Proof.
  intros [H1 H2 H3 H4 H5 H6] Hd Hs. destruct a as [i ok|j now draw answer|]; cbn in Hs.
  - destruct (conns w !! i) as [u|] eqn:Eu; cbn in Hs; [|done]. destruct ok; simplify_eq; [|by constructor].
    pose proof (Forall_lookup_1 _ _ _ _ H2 Eu) as Hu. pose proof (grows_spawn (jobs w) u) as Hg. constructor; cbn; try done.
    + rewrite H1. unfold tallied. by rewrite !tally_app, !Z.add_0_r.
    + apply Forall_insert; [done|by apply in_range_next].
    + apply Forall_app. split; [done|by apply Forall_singleton].
    + by eapply reporter_grows.
    + eapply Forall_impl; [exact H6|]. intros r. by apply report_grows.
  - destruct (jobs w !! j) as [job|] eqn:Ej; cbn in Hs; [|done].
    destruct (sendRequest (cnt w) job.2 now answer) as [[c s]|] eqn:Es; cbn in Hs; [|done]. simplify_eq.
    pose proof (Forall_lookup_1 _ _ _ _ H3 Ej) as Hu. pose proof (grows_send _ _ _ _ _ _ _ _ Ej Es) as Hg.
    constructor; cbn; try done.
    + rewrite H1 in Es. by eapply sendRequest_tallied.
    + by apply Forall_insert.
    + apply Forall_app. split; [done|]. destruct job as [u [| | | | | |]]; cbn [issued snd]; try by constructor.
      apply Forall_singleton. cbn in *. split; [done|lia].
    + by eapply reporter_grows.
    + eapply Forall_impl; [exact H6|]. intros r. by apply report_grows.
  - simplify_eq. rewrite H1. destruct (report_step_ok (jobs w) (rep w) H5) as [Hr Hf]. constructor; cbn; try done.
    by apply Forall_app.
Qed.

Lemma sound_reachable targetQps w : reachable targetQps w -> sound w.
Proof.
  induction 1 as [|w a w' _ IH Hd Hs]; [|by eapply sound_step]. constructor; cbn; try done.
  apply Forall_replicate. unfold in_range, USER_ID_OFFSET. lia.
Qed.

(** The user service has a user for every id of the range. *)
Lemma range_exists {G} `{Rand G} (o : ServiceOptions) id :
  in_range id -> is_Some (users (MakeUserServiceServer (G := G) o) !! id).
Proof.
  unfold in_range, MakeUserServiceServer, makeRandomUsers. intros Hid. cbn [users].
  destruct (Intn (Seed (opt_Seed o)) 500) as [g v]. pose proof (Intn_law g 5000 ltac:(lia)) as Hu.
  destruct (Intn g 5000) as [g1 u]. cbn in Hu. apply make_all_total. left. unfold USER_ID_OFFSET. lia.
Qed.

(** ** Theorems *)

(** C34: The load generator counts right. Whatever the limiter allows, the
    service answers and the goroutines interleave, while fewer than 2^64
    requests are started: the counters of requests sent, responses, successes
    and stale responses are exactly what the requests so far amount to, the
    total latency is the sum (modulo 2^64) of the milliseconds that the
    requests whose time was taken measured, successes are at most the responses, these at most the
    requests sent; a report never shows more responses or stale responses than
    requests; every request asks for one to ten videos, for a user that the
    user service has, whatever its options. *)
Theorem loadgen_counts {G} `{Rand G} targetQps w :
  reachable targetQps w -> len (jobs w) < 2 ^ 64 ->
  totalSent (cnt w) = tally sent1 (jobs w) /\ totalResponses (cnt w) = tally response1 (jobs w)
  /\ totalSuccesses (cnt w) = tally success1 (jobs w) /\ totalStale (cnt w) = tally stale1 (jobs w)
  /\ totalLatencyMs (cnt w) = uint_w 64 (tally latency1 (jobs w))
  /\ totalSuccesses (cnt w) <= totalResponses (cnt w) <= totalSent (cnt w) /\ totalSent (cnt w) <= len (jobs w)
  /\ (forall r, r ∈ reports w -> r_responses r <= r_sent r /\ r_stale r <= r_sent r)
  /\ forall q, q ∈ requests w -> 1 <= q_Limit q <= 10
       /\ forall o, is_Some (users (MakeUserServiceServer (G := G) o) !! q_UserId q).
Proof.
  intros Hr%sound_reachable Hl. destruct Hr as [Hc _ _ Hq _ Hrep]. pose proof (tally_shares (jobs w)) as (H1 & H2 & H3 & H4).
  rewrite Hc. unfold tallied. cbn [totalSent totalResponses totalSuccesses totalStale totalLatencyMs].
  assert (forall x, 0 <= x < 2 ^ 64 -> uint_w 64 x = x) as Hid by (intros; by apply Z.mod_small).
  rewrite (Hid (tally sent1 _)), (Hid (tally response1 _)), (Hid (tally success1 _)), (Hid (tally stale1 _)) by lia.
  split_and!; try done; try lia.
  - intros r (n & k & s & -> & -> & -> & ? & ? & ?)%(proj1 (Forall_forall _ _) Hrep). rewrite !Hid by lia. lia.
  - intros q [Hu Hlim]%(proj1 (Forall_forall _ _) Hq). split; [done|]. intros o. by apply range_exists.
Qed.

Definition run (w : world) (acts : list action) : option world := foldl (fun w a => w ≫= fun w => step w a) (Some w) acts.

Lemma reachable_foldl targetQps acts o w :
  (forall x, o = Some x -> reachable targetQps x) -> Forall drawn acts ->
  foldl (fun w a => w ≫= fun w => step w a) o acts = Some w -> reachable targetQps w.
Proof.
  revert o. induction acts as [|a acts IH]; intros o Hw Hd Hr; cbn in Hr; [by apply Hw|].
  inversion_clear Hd as [|? ? Ha Hd']. apply (IH (o ≫= fun w => step w a)); [|done|done].
  intros x. destruct o as [y|]; cbn; [|done]. intros Hx. eapply reach_step; [by apply Hw|done|done].
Qed.

Lemma reachable_run targetQps acts w :
  Forall drawn acts -> run (main targetQps) acts = Some w -> reachable targetQps w.
Proof. intros Hd Hr. eapply reachable_foldl; [|exact Hd|exact Hr]. intros x [= <-]. constructor. Qed.

(** One request from start to end, answered with [answer]. *)
Definition whole_request (j : nat) (answer : option bool) : list action :=
  (fun now => Send j now 4 answer) <$> [0; 1000000; 2000000; 3000000; 4000000; 5000000].

Lemma whole_request_drawn j answer : Forall drawn (whole_request j answer).
Proof. apply Forall_fmap. repeat constructor; cbn; lia. Qed.

(** The number of errors that is printed can be 2^64 - 1 although no request
    failed: [totalResponses] is read before [totalSuccesses], and a request
    that ends in between is counted in the second only. *)
Theorem report_errors_wrap :
  exists w, reachable 1 w /\ reports w = [mkReport 1 0 (2 ^ 64 - 1) 0 4] /\ tally success1 (jobs w) = len (jobs w).
Proof.
  destruct (run (main 1) ([Wait 0 true; Report] ++ whole_request 0 (Some false) ++ [Report; Report; Report; Report]))
    as [w|] eqn:E; [|by vm_compute in E]. exists w. split.
  - eapply reachable_run; [|exact E]. repeat (apply Forall_app; split); [|apply whole_request_drawn|]; by repeat constructor.
  - vm_compute in E. injection E as <-. vm_compute. done.
Qed.

Lemma loadgen_counts_witness :
  exists w, reachable 2 w /\ totalSent (cnt w) = 2 /\ totalSuccesses (cnt w) = 1 /\ totalLatencyMs (cnt w) = 4
    /\ totalSuccesses (cnt w) <= totalResponses (cnt w) <= totalSent (cnt w).
Proof.
  destruct (run (main 2) ([Wait 0 true; Wait 1 true; Wait 1 false; Send 1 5 0 None] ++ whole_request 0 (Some true) ++ [Report]))
    as [w|] eqn:E; [|by vm_compute in E].
  assert (reachable 2 w) as Hr.
  { eapply reachable_run; [|exact E]. apply Forall_app. split; [repeat constructor; cbn; lia|].
    apply Forall_app. split; [apply whole_request_drawn|by repeat constructor]. }
  vm_compute in E. injection E as <-.
  destruct (loadgen_counts 2 _ Hr) as (H1 & _ & H3 & _ & H5 & H6 & _).
  - vm_compute. reflexivity.
  - eexists. split; [exact Hr|]. split; [exact H1|]. split; [exact H3|].
    split; [exact H5|exact H6].
Defined.
