(* ===== verification/Logging.v ===== *)
(** * lab1/logging/logging.go: the log of the services

    A server runs every handler inside the interceptor [MakeMiddleware], which
    measures it and logs the outcome, to standard error or also to an InfluxDB.
    [net.LookupAddr] and [os.Hostname] are parameters; the latency is kept in
    microseconds, whose quotient by 1000 the code logs. *)

From Stdlib Require Import String.
From stdpp Require Import prelude strings.
From S2P Require Import Prelude Backend.
Local Open Scope Z_scope.

(** [net.Addr]; [ip] is [a.IP.String()]. *)
Inductive Addr : Type :=
| TCPAddr (ip : string)
| UDPAddr (ip : string)
| OtherAddr.

(** The part of the context that is read: [peer.FromContext]. *)
Record Ctx : Type := mkCtx { FromContext : option Addr }.

Inductive event : Type :=
| Stderr (peerAddr : string) (isError : bool) (latencyUs : Z)
| WritePoint (measurement client host : string) (isError : bool) (latencyUs time : Z).

Inductive Logger : Type :=
| InfluxLogger (url authToken org bucket measurement : string)
| StderrLogger.

Definition getIpFromAddr (addr : Addr) : string :=
  match addr with
  | TCPAddr ip => ip
  | UDPAddr ip => ip
  | OtherAddr => "unknown"
  end.

Record log_flags : Type := mkLogFlags {
  influxDbUrl : string;
  influxDbAuthToken : string;
  influxOrg : string;
  influxBucket : string;
  influxMeasurement : string
}.

Definition default_log_flags : log_flags := mkLogFlags "" "" "influxdata" "default" "".

Definition MakeInfluxLogger (url authToken org bucket measurement : string) : Logger :=
  InfluxLogger url authToken org bucket measurement.

(** [log.Fatalf] ends the program. *)
Definition MakeLogger (f : log_flags) : Logger + string :=
  if (String.length (influxDbUrl f) =? 0)%nat then inl StderrLogger
  else if (String.length (influxDbAuthToken f) =? 0)%nat || (String.length (influxMeasurement f) =? 0)%nat
  then inr "Must set --influx-token and --influx-measurement"%string
  else inl (MakeInfluxLogger (influxDbUrl f) (influxDbAuthToken f) (influxOrg f) (influxBucket f) (influxMeasurement f)).

Section Middleware.
Context (LookupAddr : string -> list string * option string) (Hostname : string).

Definition getPeerHost (context : Ctx) : string :=
  match FromContext context with
  | None => "unknown"
  | Some addr =>
      let ip := getIpFromAddr addr in
      match LookupAddr ip with
      | (hostname :: _, None) => hostname
      | _ => ip
      end
  end.

Definition logToStderr (peerAddr : string) (isError : bool) (latencyUs : Z) : event :=
  Stderr peerAddr isError latencyUs.

Definition LogRequest (logger : Logger) (context : Ctx) (isError : bool) (latencyUs time : Z) : list event :=
  match logger with
  | InfluxLogger _ _ _ _ measurement =>
      let peerAddr := getPeerHost context in
      [logToStderr peerAddr isError latencyUs; WritePoint measurement peerAddr Hostname isError latencyUs time]
  | StderrLogger => [logToStderr (getPeerHost context) isError latencyUs]
  end.

Section Handlers.
Context {S Req Resp : Type} (handler : S -> Req -> go (S * (Resp + status))).

Definition isError (r : Resp + status) : bool := match r with inl _ => false | inr _ => true end.

(** A request as the server receives it: its context, the two readings of
    [time.Now().UnixMicro()] around the handler and the time of the point. *)
Record call : Type := mkCall {
  c_ctx : Ctx;
  c_start : Z;
  c_end : Z;
  c_time : Z;
  c_req : Req
}.

Definition MakeMiddleware (logger : Logger) (s : S) (log : list event) (c : call)
    : go (S * list event * (Resp + status)) :=
  let! out := handler s (c_req c) in
  let latency := c_end c - c_start c in
  Ret (out.1, log ++ LogRequest logger (c_ctx c) (isError out.2) latency (c_time c), out.2).

(** Requests one after the other, without and with the interceptor. *)
Fixpoint serve (s : S) (reqs : list Req) : go (S * list (Resp + status)) :=
  match reqs with
  | [] => Ret (s, [])
  | req :: rest =>
      let! out := handler s req in
      let! more := serve out.1 rest in
      Ret (more.1, out.2 :: more.2)
  end.

Fixpoint serve_logged (logger : Logger) (s : S) (log : list event) (calls : list call)
    : go (S * list event * list (Resp + status)) :=
  match calls with
  | [] => Ret (s, log, [])
  | c :: rest =>
      let! out := MakeMiddleware logger s log c in
      let! more := serve_logged logger out.1.1 out.1.2 rest in
      Ret (more.1, out.2 :: more.2)
  end.

(** The log of the calls with their answers. *)
Definition account (logger : Logger) (c : call) (r : Resp + status) : list event :=
  LogRequest logger (c_ctx c) (isError r) (c_end c - c_start c) (c_time c).

Lemma serve_logged_spec logger s log calls :
  serve_logged logger s log calls =
    (let! out := serve s (c_req <$> calls) in
     Ret (out.1, log ++ concat (zip_with (account logger) calls out.2), out.2)).
Proof.
  revert s log. induction calls as [|c calls IH]; intros s log; cbn; [by rewrite app_nil_r|].
  unfold MakeMiddleware. destruct (handler s (c_req c)) as [[s1 r]| |]; cbn; [|done|done].
  rewrite IH. destruct (serve s1 (c_req <$> calls)) as [[s2 rs]| |]; cbn; [|done|done].
  by rewrite <- app_assoc.
Qed.

Lemma serve_length s reqs out : serve s reqs = Ret out -> length out.2 = length reqs.
Proof.
  revert s out. induction reqs as [|q reqs IH]; intros s out H; cbn in H; [by simplify_eq|].
  apply bind_Ret in H as ([s1 r] & _ & H). apply bind_Ret in H as ([s2 rs] & H & [= <-]). cbn. f_equal. by apply (IH _ _ H).
Qed.

(** The line on standard error of a call. *)
Definition stderr_line (e : event) : option (string * bool * Z) :=
  match e with Stderr p b l => Some (p, b, l) | WritePoint _ _ _ _ _ _ => None end.

Lemma account_line logger c r :
  omap stderr_line (account logger c r) = [(getPeerHost (c_ctx c), isError r, c_end c - c_start c)].
Proof. by destruct logger. Qed.

Lemma accounts_lines logger calls rs :
  length rs = length calls ->
  omap stderr_line (concat (zip_with (account logger) calls rs)) =
    zip_with (fun c r => (getPeerHost (c_ctx c), isError r, c_end c - c_start c)) calls rs.
Proof.
  revert rs. induction calls as [|c calls IH]; intros [|r rs] Hl; cbn in *; [done|done|done|].
  rewrite omap_app, account_line, IH by lia. done.
Qed.

(** C35: The interceptor is transparent and its log is complete. A server
    that runs its handlers inside [MakeMiddleware] answers every sequence of
    requests as it would without, changes its state in the same way, and
    fails to return exactly when a handler does; afterwards standard error has
    one new line per request, in their order, with the peer, the latency, and
    [isError] exactly when the answer was an error, whichever logger is used. *)
Theorem logged_service_refines logger s log calls :
  match serve s (c_req <$> calls), serve_logged logger s log calls with
  | Ret (s', rs), Ret (s'', log', rs') =>
      s'' = s' /\ rs' = rs
      /\ omap stderr_line log' = omap stderr_line log
           ++ zip_with (fun c r => (getPeerHost (c_ctx c), isError r, c_end c - c_start c)) calls rs
  | Panic, Panic | Block, Block => True
  | _, _ => False
  end.
Proof.
  rewrite serve_logged_spec. destruct (serve s (c_req <$> calls)) as [[s' rs]| |] eqn:E; cbn; try done.
  apply serve_length in E. rewrite length_fmap in E. split_and!; try done.
  by rewrite omap_app, accounts_lines.
Qed.
End Handlers.
End Middleware.
