(* ===== verification/Deployment.v ===== *)
(** * lab1 and lab2: the programs that run the three services

    [main] of user_service/server, video_service/server and
    video_rec_service/server: flags, the port, the logger, the service. A
    program that goes on to [Serve] is its logger and its server; [log.Fatalf]
    ends it. [net.Listen], [grpc.NewClient] and the calls on a connection are
    parameters: [resolve] takes the address that a program dials to the one
    that it is listened on, and a call on a connection reaches the service that
    listens there. The result joins the parts: the three programs started with
    compatible flags and addresses answer every request for a user of the range
    that the clients use. *)

From Stdlib Require Import String.
From stdpp Require Import prelude gmap strings pretty sorting.
From S2P Require Import Prelude Fnv Backend DetBcrypt Ranker VideoRec VideoRecPool Logging LoadGen.
Local Open Scope Z_scope.

Inductive fatal : Type :=
| FailedToListen
| BadLogFlags (what : string)
| FailedToStart (e : status).

(** [fmt.Sprintf(":%d", port)] *)
Definition listen_addr (port : Z) : string := (":" +:+ pretty port)%string.

(** Listening comes first, then the logger. *)
Definition start {A} (Listen : string -> bool) (lf : log_flags) (port : Z) (make : Logger -> A + fatal) : A + fatal :=
  if Listen (listen_addr port) then
    match MakeLogger lf with
    | inr what => inr (BadLogFlags what)
    | inl logger => make logger
    end
  else inr FailedToListen.

Record user_flags : Type := mkUserFlags {
  uf_port : Z;
  uf_seed : Z;
  uf_sleepNs : Z;
  uf_failureRate : Z;
  uf_responseOmissionRate : Z;
  uf_maxBatchSize : Z
}.
Definition default_user_flags : user_flags := mkUserFlags 8081 42 0 0 0 50.

Record video_flags : Type := mkVideoFlags {
  vf_port : Z;
  vf_seed : Z;
  vf_ttlSeconds : Z;
  vf_sleepNs : Z;
  vf_failureRate : Z;
  vf_responseOmissionRate : Z;
  vf_maxBatchSize : Z
}.
Definition default_video_flags : video_flags := mkVideoFlags 8082 42 60 0 0 0 50.

Record rec_flags : Type := mkRecFlags {
  rf_port : Z;
  rf_userServiceAddr : string;
  rf_videoServiceAddr : string;
  rf_maxBatchSize : Z;
  rf_disableFallback : bool;
  rf_disableRetry : bool
}.
Definition default_rec_flags : rec_flags := mkRecFlags 8080 "[::1]:8081" "[::1]:8082" 50 false false.

(** The options each program makes from its flags. *)
Definition user_options (f : user_flags) : ServiceOptions :=
  mkOptions (uf_seed f) 0 (uf_sleepNs f) (uf_failureRate f) (uf_responseOmissionRate f) (uf_maxBatchSize f).
Definition video_options (f : video_flags) : ServiceOptions :=
  mkOptions (vf_seed f) (vf_ttlSeconds f) (vf_sleepNs f) (vf_failureRate f) (vf_responseOmissionRate f) (vf_maxBatchSize f).
Definition rec_options (f : rec_flags) : RecOptions :=
  mkRecOptions (rf_maxBatchSize f) (rf_disableFallback f) (rf_disableRetry f).

Section Mains.
Context {G : Type} `{Rand G} {Conn : Type} (Listen : string -> bool).

(** [connect addr again] is what [grpc.NewClient] gives for an address, at the
    first and at the second try. *)
Context (connect : string -> bool -> Conn + status).

Definition user_main (f : user_flags) (lf : log_flags) : Logger * UserServiceServer + fatal :=
  start Listen lf (uf_port f) (fun logger =>
    inl (logger, MakeUserServiceServer (G := G) (user_options f))).

Definition video_main (f : video_flags) (lf : log_flags) : Logger * VideoServiceServer + fatal :=
  start Listen lf (vf_port f) (fun logger =>
    inl (logger, MakeVideoServiceServer (G := G) (video_options f))).

Definition rec_main (f : rec_flags) (lf : log_flags) : Logger * (Server * Conn * Conn) + fatal :=
  start Listen lf (rf_port f) (fun logger =>
    match MakeVideoRecServiceServer (rec_options f) (connect (rf_userServiceAddr f)) (connect (rf_videoServiceAddr f)) with
    | inr e => inr (FailedToStart e)
    | inl server => inl (logger, server)
    end).

(** lab2: the same with a pool of connections; [dial i addr again] is the i-th
    connection. A negative size panics. *)
Definition pooled_rec_main (dial : nat -> string -> bool -> Conn + status) (f : rec_flags) (clientPoolSize : Z)
    (lf : log_flags) : go (Logger * PooledServer (Conn := Conn) + fatal) :=
  match start Listen lf (rf_port f) inl with
  | inr e => Ret (inr e)
  | inl logger =>
      let! made := MakePooledServer (rec_options f) clientPoolSize
                     (fun i => dial i (rf_userServiceAddr f)) (fun i => dial i (rf_videoServiceAddr f)) in
      match made with
      | inr e => Ret (inr (FailedToStart e))
      | inl server => Ret (inl (logger, server))
      end
  end.
End Mains.

(** The flags' defaults are the defaults of the libraries. *)
Theorem default_flags_agree {G} `{Rand G} lf logger :
  MakeLogger lf = inl logger ->
  user_main (G := G) (fun _ => true) default_user_flags lf
    = inl (logger, MakeUserServiceServer (G := G) DefaultUserServiceOptions)
  /\ video_main (G := G) (fun _ => true) default_video_flags lf
    = inl (logger, MakeVideoServiceServer (G := G) DefaultVideoServiceOptions).
Proof. intros Hl. unfold user_main, video_main, start. by rewrite Hl. Qed.

(** ** The services together *)

Section Deployed.
Context {G Cipher Conn : Type} `{Rand G} `{Blowfish Cipher} `{SortSlice VideoInfo} {CB : ConnBackends Conn (mock G)}.
Context (resolve : string -> string).

(** [GetTopVideos] as a handler of the server with these two connections: a
    request comes with its two clock readings. *)
Definition rec_handler (usr_conn vid_conn : Conn) (s : Server * mock G) (q : Z * Z * VideoRec.Request)
    : go (Server * mock G * (Response + status)) :=
  GetTopVideos (H := two_conns usr_conn vid_conn) (Cipher := Cipher) s.1 s.2 q.1.1 q.1.2 q.2.

(** Calls on a connection to the address that a service listens on are handled
    by that service, and its answer comes back. Nothing is known of calls
    elsewhere, or of other methods. *)
Record delivers (user_port video_port : Z) : Prop := {
  deliver_GetUser c (w : mock G) ids :
    resolve (conn_target c) = listen_addr user_port -> conn_GetUser c w ids = call_GetUser w ids;
  deliver_GetVideo c (w : mock G) ids :
    resolve (conn_target c) = listen_addr video_port -> conn_GetVideo c w ids = call_GetVideo w ids;
  deliver_GetTrendingVideos c (w : mock G) :
    resolve (conn_target c) = listen_addr video_port -> conn_GetTrendingVideos c w = call_GetTrendingVideos w
}.

(** The services inject nothing, come from the same seed, and accept the
    batches of the recommender, which is given their addresses. *)
Record compatible (uf : user_flags) (vf : video_flags) (rf : rec_flags) : Prop := {
  cp_seed : uf_seed uf = vf_seed vf;
  cp_user : uf_sleepNs uf = 0 /\ uf_failureRate uf = 0 /\ uf_responseOmissionRate uf = 0;
  cp_video : vf_sleepNs vf = 0 /\ vf_failureRate vf = 0 /\ vf_responseOmissionRate vf = 0;
  cp_batch : 1 <= rf_maxBatchSize rf <= uf_maxBatchSize uf /\ rf_maxBatchSize rf <= vf_maxBatchSize vf;
  cp_user_addr : resolve (rf_userServiceAddr rf) = listen_addr (uf_port uf);
  cp_video_addr : resolve (rf_videoServiceAddr rf) = listen_addr (vf_port vf)
}.

(** The connections of a recommender lead to the two services. *)
Definition wired (uc vc : Conn) : Prop := backends_sim (two_conns uc vc) mock_backends eq.


Lemma start_inl {A} Listen lf port (make : Logger -> A + fatal) (x : A) :
  start Listen lf port make = inl x -> exists logger, MakeLogger lf = inl logger /\ make logger = inl x.
Proof. unfold start. repeat case_match; try done. eauto. Qed.

(** The answer to a request: the best videos among those that the users the
    user subscribes to like, cut to the limit. *)
Definition best_answer (w : mock G) (q : Z * Z * VideoRec.Request) (r : Response + status) : Prop :=
  exists user ranked, users (mw_users w) !! req_UserId q.2 = Some user
    /\ ranked ≡ₚ infos (videos (mw_videos w))
         (deduplicateIds (infos (users (mw_users w)) (SubscribedTo user) ≫= LikedVideos))
    /\ best_first (Cipher := Cipher) (UserCoefficients user) ranked
    /\ r = inl (mkResponse (if Limit q.2 =? 0 then ranked else take (Z.to_nat (Limit q.2)) ranked) false).

Definition well_asked (q : Z * Z * VideoRec.Request) : Prop := in_range (req_UserId q.2) /\ 0 <= Limit q.2.

Lemma compatible_healthy uf vf rf (g : G) now :
  compatible uf vf rf ->
  healthy (mkMock (MakeUserServiceServer (G := G) (user_options uf)) (MakeVideoServiceServer (G := G) (video_options vf)) g now)
    (rf_maxBatchSize rf).
Proof.
  intros [Hs (Hu1 & Hu2 & Hu3) (Hv1 & Hv2 & Hv3) Hb _ _]. unfold healthy. cbn [mw_users mw_videos].
  unfold MakeUserServiceServer, MakeVideoServiceServer. cbn [us_fi us_options MaxBatchSize].
  destruct (makeRandomVideos (Seed (opt_Seed (video_options vf)))) as [g' [vids top]].
  cbn [vs_fi vs_options MaxBatchSize]. unfold inject_options. cbn. rewrite Hu1, Hu2, Hu3, Hv1, Hv2, Hv3. done.
Qed.

(** The data of the two services fit together. *)
Definition well_stocked (w : mock G) : Prop :=
  (forall id, in_range id -> is_Some (users (mw_users w) !! id))
  /\ forall id u, users (mw_users w) !! id = Some u ->
       (forall s, s ∈ SubscribedTo u -> is_Some (users (mw_users w) !! s))
       /\ (forall v, v ∈ LikedVideos u -> is_Some (videos (mw_videos w) !! v)).

Lemma compatible_stocked uf vf rf (g : G) now :
  compatible uf vf rf ->
  well_stocked (mkMock (MakeUserServiceServer (G := G) (user_options uf))
    (MakeVideoServiceServer (G := G) (video_options vf)) g now).
Proof.
  intros Hc. destruct (databases_consistent (G := G) (user_options uf) (video_options vf)) as [Hdb _];
    [exact (cp_seed _ _ _ Hc)|]. split; [intros id Hid; by apply range_exists|].
  intros id u Hid. destruct (Hdb id u Hid) as [Hs Hl]. split; [|done]. intros s Hin. by apply Hs.
Qed.

(** A recommender that has started is new, and dialled the services. *)
Lemma rec_started Listen connect uf vf rf lf rl rec uc vc :
  compatible uf vf rf -> delivers (uf_port uf) (vf_port vf) -> (forall addr, dials (connect addr) addr) ->
  rec_main Listen connect rf lf = inl (rl, (rec, uc, vc)) -> rec = new_server (rec_options rf) /\ wired uc vc.
Proof.
  intros Hc [D1 D2 D3] Hd Hr. apply start_inl in Hr as (l & _ & Hr).
  destruct (MakeVideoRecServiceServer _ _ _) as [[[s1 c1] c2]|] eqn:Em; [|done]. simplify_eq.
  destruct (server_made _ _ _ _ _ _ _ _ (Hd _) (Hd _) Em) as (-> & Hu & Hv). split; [done|].
  split; cbn.
  - intros w ? ids <-. rewrite D1 by (rewrite Hu; apply Hc). exact (reply_rel_refl _).
  - intros w ? ids <-. rewrite D2 by (rewrite Hv; apply Hc). exact (reply_rel_refl _).
  - intros w ? <-. rewrite D3 by (rewrite Hv; apply Hc). exact (reply_rel_refl _).
Qed.

(** One request to a deployment. *)
Lemma deployed_answer uc vc server (w : mock G) q :
  wired uc vc -> healthy w (rec_MaxBatchSize (options server)) -> well_stocked w -> well_asked q ->
  exists server' r, rec_handler uc vc (server, w) q = Ret (server', w, r) /\ best_answer w q r
    /\ options server' = options server /\ total_reqs server' = u64 (total_reqs server + 1).
Proof.
  intros Hwire Hh [Hrange Hdb] [Hu Hl]. destruct q as [[t0 t1] [uid limit]]. cbn in *.
  destruct (Hrange uid Hu) as [user Huser]. destruct (Hdb uid user Huser) as [Hsub _].
  destruct (top_videos_ok (Cipher := Cipher) server w t0 t1 uid limit user)
    as (server' & ranked & Hg & Hp & Hbest & Ht & Ho & _); try done.
  { intros v (u & Hv & Hin)%list_elem_of_bind. unfold infos in Hin. apply list_elem_of_omap in Hin as (id & _ & Hid).
    by apply (proj2 (Hdb id u Hid)). }
  exists server', (inl (mkResponse (if limit =? 0 then ranked else take (Z.to_nat limit) ranked) false)).
  split; [unfold rec_handler; cbn [fst snd]; etrans; [exact (GetTopVideos_same _ _ _ _ _ Hwire)|exact Hg]|].
  split; [by exists user, ranked|done].
Qed.

Lemma deployed_answers uc vc server (w : mock G) reqs :
  wired uc vc -> healthy w (rec_MaxBatchSize (options server)) -> well_stocked w -> Forall well_asked reqs ->
  total_reqs server = u64 (total_reqs server) ->
  exists server' rs, serve (rec_handler uc vc) (server, w) reqs = Ret (server', w, rs)
    /\ Forall2 (best_answer w) reqs rs /\ total_reqs server' = u64 (total_reqs server + len reqs).
Proof.
  intros Hwire Hh Hdb Hq. revert server Hh. induction Hq as [|q reqs Hq _ IH]; intros server Hh Hw.
  { exists server, []. split; [done|]. split; [constructor|]. unfold len. cbn. by rewrite Z.add_0_r. }
  destruct (deployed_answer uc vc server w q Hwire Hh Hdb Hq) as (s1 & r & E1 & Hr & Ho & Ht).
  destruct (IH s1) as (s2 & rs & E2 & Hrs & Ht2); [by rewrite Ho|rewrite Ht; unfold u64; by rewrite Z.mod_mod|].
  exists s2, (r :: rs). cbn [serve]. rewrite E1. cbn. rewrite E2. cbn. split; [done|]. split; [by constructor|].
  rewrite Ht2, Ht. unfold u64, len. rewrite Zplus_mod_idemp_l. f_equal. cbn. lia.
Qed.

(** C29: The deployment works. The three programs are started with compatible
    flags: no failures injected, the same seed, batches that the services
    accept, and the recommender is given the addresses that the two services
    listen on. While calls on the connections that it dialled are delivered to
    the service at their address and answered, every sequence of requests with
    a limit of zero or more for users of the range that the clients draw from
    is answered, each request with the best videos among those that the users
    the user subscribes to like, cut to the limit (all of them for limit 0),
    and none stale; no request fails, hangs or panics, and all are counted. (A
    negative limit panics.) *)
Theorem deployment_answers Listen (connect : string -> bool -> Conn + status) uf vf rf lf ul us vl vs rl rec uc vc
    (g : G) now reqs :
  compatible uf vf rf -> delivers (uf_port uf) (vf_port vf) -> (forall addr, dials (connect addr) addr) ->
  user_main (G := G) Listen uf lf = inl (ul, us) -> video_main (G := G) Listen vf lf = inl (vl, vs) ->
  rec_main Listen connect rf lf = inl (rl, (rec, uc, vc)) -> Forall well_asked reqs ->
  exists rec' rs, serve (rec_handler uc vc) (rec, mkMock us vs g now) reqs = Ret (rec', mkMock us vs g now, rs)
    /\ Forall2 (best_answer (mkMock us vs g now)) reqs rs
    /\ total_reqs rec' = u64 (len reqs).
Proof.
  intros Hc Hd Hdial Hu Hv Hr Hq. pose proof (compatible_healthy uf vf rf g now Hc) as Hh.
  apply start_inl in Hu as (l1 & _ & [= <- <-]). apply start_inl in Hv as (l2 & _ & [= <- <-]).
  apply (rec_started _ _ uf vf) in Hr as [-> Hwire]; [|done..].
  apply deployed_answers; [done|exact Hh|by apply (compatible_stocked uf vf rf)|done|done].
Qed.
End Deployed.

(** ** A network *)

(** On one machine: the address that is dialled names the host and the port.
    A connection is its address; it serves what is listened for there. *)
Definition local_host (addr : string) : string := String.substring 5 (String.length addr - 5) addr.

Definition local_service {A} (port : Z) (addr : string) (w : mock Z) (call : go (mock Z * (A + status)))
    : go (mock Z * (A + status)) :=
  if bool_decide (local_host addr = listen_addr port) then call else Ret (w, inr Unimplemented).

#[export] Instance local_conns : ConnBackends string (mock Z) := {
  conn_target c := c;
  conn_GetUser c w ids := local_service 8081 c w (call_GetUser w ids);
  conn_GetVideo c w ids := local_service 8082 c w (call_GetVideo w ids);
  conn_GetTrendingVideos c w := local_service 8082 c w (call_GetTrendingVideos w)
}.

Lemma local_delivers : delivers (CB := local_conns) local_host 8081 8082.
Proof. split; cbn; intros; unfold local_service; by rewrite bool_decide_eq_true_2. Qed.

Lemma local_compatible : compatible local_host default_user_flags default_video_flags default_rec_flags.
Proof. split; try (cbn; lia); vm_compute; reflexivity. Qed.

Lemma local_dials addr : dials (H := local_conns) (fun _ => inl addr) addr.
Proof. by intros again c [= <-]. Qed.

Lemma deployment_answers_witness :
  exists rec' rs, serve (rec_handler (G := Z) (Cipher := Z) (CB := local_conns) "[::1]:8081" "[::1]:8082")
      (new_server (rec_options default_rec_flags),
       mkMock (MakeUserServiceServer (G := Z) (user_options default_user_flags))
         (MakeVideoServiceServer (G := Z) (video_options default_video_flags)) 0 1700000000)
      [(0, 3, VideoRec.mkRequest 204054 5); (3, 9, VideoRec.mkRequest 203584 5)] = Ret (rec', rs)
    /\ total_reqs rec'.1 = 2.
Proof.
  destruct (deployment_answers (G := Z) (Cipher := Z) (CB := local_conns) local_host (fun _ => true) (fun addr _ => inl addr)
    default_user_flags default_video_flags default_rec_flags default_log_flags
    StderrLogger (MakeUserServiceServer (G := Z) (user_options default_user_flags))
    StderrLogger (MakeVideoServiceServer (G := Z) (video_options default_video_flags))
    StderrLogger (new_server (rec_options default_rec_flags)) "[::1]:8081"%string "[::1]:8082"%string
    0 1700000000 [(0, 3, VideoRec.mkRequest 204054 5); (3, 9, VideoRec.mkRequest 203584 5)])
    as (rec' & rs & E & _ & Ht).
  - exact local_compatible.
  - exact local_delivers.
  - exact local_dials.
  - reflexivity.
  - reflexivity.
  - reflexivity.
  - unfold well_asked, in_range. repeat (apply Forall_cons; split; [cbn; lia|]). apply Forall_nil. exact I.
  - exists (rec', mkMock (MakeUserServiceServer (G := Z) (user_options default_user_flags))
      (MakeVideoServiceServer (G := Z) (video_options default_video_flags)) 0 1700000000), rs.
    split; [exact E|exact Ht].
Defined.
