(* ===== verification/Frontend.v ===== *)
(** * lab1/cmd/frontend/frontend.go and lab1/cmd/stats/stats.go

    The test client of the recommender and the program that prints its
    statistics. A service is called on a connection, with the timeout of the
    context, in a state [W] of the outside world. What [gofakeit] invents (titles, authors, names) is a parameter. A
    program writes lines and may end with [log.Fatalf]: [io]. *)

From Stdlib Require Import String.
From stdpp Require Import prelude gmap strings.
From S2P Require Import Prelude Fnv Backend DetBcrypt Ranker VideoRec VideoRecPool Logging LoadGen Deployment.
Local Open Scope Z_scope.

Definition getUserId (netId : string) : Z := uint_w 64 (fnv64 netId mod 5000 + 200000).

Inductive line : Type :=
| Welcome (netId : string) (userId : Z)
| UserLine (username email profileUrl : string)
| Recommended
| VideoLine (i videoId : Z) (title author url : string)
| BasicTests
| TestCase (n userId : Z)
| Passed.

Inductive stop : Type :=
| FailToDial (e : status)
| NoUser (userId : Z) (e : option status)
| NoRecommendations (userId : Z) (e : status)
| WrongRecommendations (test : Z).

(** Programs that print and may be stopped. *)
Definition io (W A : Type) : Type := W -> go (W * list line * (A + stop)).

Definition io_ret {W A} (a : A) : io W A := fun w => Ret (w, [], inl a).
Definition io_bind {W A B} (m : io W A) (f : A -> io W B) : io W B :=
  fun w =>
    let! r := m w in
    match r.2 with
    | inr e => Ret (r.1, inr e)
    | inl a => let! r2 := f a r.1.1 in Ret (r2.1.1, r.1.2 ++ r2.1.2, r2.2)
    end.
Definition print {W} (l : line) : io W () := fun w => Ret (w, [l], inl ()).
Definition fatalf {W A} (e : stop) : io W A := fun w => Ret (w, [], inr e).
Definition call {W A} (f : W -> go (W * A)) : io W A := fun w => let! r := f w in Ret (r.1, [], inl r.2).
Definition pure {W A} (m : go A) : io W A := fun w => let! a := m in Ret (w, [], inl a).

Declare Scope io_scope.
Notation "x <- m ;; k" := (io_bind m (fun x => k)) (at level 100, m at next level, right associativity) : io_scope.
Notation "m ;;; k" := (io_bind m (fun _ => k)) (at level 100, right associativity) : io_scope.
Local Open Scope io_scope.

Section Frontend.
Context {W Conn : Type} (connect : string -> Conn + status).
Context (GetUser : Conn -> Z -> W -> list Z -> go (W * (list UserInfo + status))).
Context (GetTopVideos : Conn -> Z -> W -> VideoRec.Request -> go (W * (Response + status))).
Context (Username Email : UserInfo -> string) (Title Author : VideoInfo -> string).

(** [time.Second] *)
Definition Second : Z := 1000000000.

(** [grpc.NewClient] *)
Definition serviceConn (address : string) : io W Conn :=
  match connect address with
  | inl c => io_ret c
  | inr e => fatalf (FailToDial e)
  end.

Definition fetchUser (userServiceAddr : string) (userId : Z) : io W () :=
  userServiceConn <- serviceConn userServiceAddr;;
  out <- call (fun w => GetUser userServiceConn (3 * Second) w [userId]);;
  match out with
  | inr e => fatalf (NoUser userId (Some e))
  | inl us =>
      if negb (len us =? 1) then fatalf (NoUser userId None)
      else
        userInfo <- pure (go_index us 0);;
        print (UserLine (Username userInfo) (Email userInfo) (ProfileUrl userInfo))
  end.

Fixpoint print_videos (i : Z) (vs : list VideoInfo) : io W () :=
  match vs with
  | [] => io_ret ()
  | v :: rest => print (VideoLine i (VideoId v) (Title v) (Author v) (Url v));;; print_videos (i + 1) rest
  end.

Definition sendSingleTestRequest (userId : Z) (client : Conn) : io W (list VideoInfo) :=
  out <- call (fun w => GetTopVideos client (10 * Second) w (VideoRec.mkRequest userId 5));;
  match out with
  | inr e => fatalf (NoRecommendations userId e)
  | inl resp =>
      print Recommended;;;
      print_videos 0 (Videos resp);;;
      io_ret (Videos resp)
  end.

(** [a || b] evaluates [b] only when [a] is false. *)
Definition go_or (a : bool) (b : go bool) : go bool := if a then Ret true else b.

(** The condition of a test case: the expected id, author, id, URL and title
    of the five videos. *)
Definition wrong (videos : list VideoInfo) (id0 : Z) (author1 : string) (id2 : Z) (url3 title4 : string) : go bool :=
  go_or (negb (len videos =? 5)) (
  let! v0 := go_index videos 0 in
  go_or (negb (VideoId v0 =? id0)) (
  let! v1 := go_index videos 1 in
  go_or (negb (bool_decide (Author v1 = author1))) (
  let! v2 := go_index videos 2 in
  go_or (negb (VideoId v2 =? id2)) (
  let! v3 := go_index videos 3 in
  go_or (negb (bool_decide (Url v3 = url3))) (
  let! v4 := go_index videos 4 in
  Ret (negb (bool_decide (Title v4 = title4)))))))).

Definition test_case (n userId : Z) (client : Conn) (id0 : Z) (author1 : string) (id2 : Z) (url3 title4 : string) : io W () :=
  print (TestCase n userId);;;
  videos <- sendSingleTestRequest userId client;;
  bad <- pure (wrong videos id0 author1 id2 url3 title4);;
  if (bad : bool) then fatalf (WrongRecommendations n) else io_ret ().

Definition main (videoRecServiceAddr userServiceAddr netId : string) : io W () :=
  videoRecServiceConn <- serviceConn videoRecServiceAddr;;
  let userId := getUserId netId in
  print (Welcome netId userId);;;
  fetchUser userServiceAddr userId;;;
  _ <- sendSingleTestRequest userId videoRecServiceConn;;
  print BasicTests;;;
  test_case 1 204054 videoRecServiceConn 1012 "Harry Boehm" 1209 "https://video-data.localhost/blob/1309" "precious here";;;
  test_case 2 203584 videoRecServiceConn 1196 "Rocky Okuneva" 1071 "https://video-data.localhost/blob/1041" "witty downstairs";;;
  print Passed.

(** ** Behaviour *)

(** From a state in [I] the program returns; it ends in [I], or is stopped for
    a reason in [E]. *)
Definition safe {A} (I : W -> Prop) (E : stop -> Prop) (m : io W A) : Prop :=
  forall w, I w -> exists w' ls r, m w = Ret (w', ls, r) /\ match r with inl _ => I w' | inr e => E e end.

Section Safe.
Context (I : W -> Prop) (E : stop -> Prop).

Lemma safe_bind {A B} (m : io W A) (f : A -> io W B) :
  safe I E m -> (forall a, safe I E (f a)) -> safe I E (io_bind m f).
Proof.
  intros Hm Hf w Hw. destruct (Hm w Hw) as (w1 & ls & r & Em & Hr). unfold io_bind. rewrite Em. cbn.
  destruct r as [a|e]; [|by exists w1, ls, (inr e)].
  destruct (Hf a w1 Hr) as (w2 & ls2 & r2 & -> & Hr2). by exists w2, (ls ++ ls2), r2.
Qed.
Lemma safe_ret {A} (a : A) : safe I E (io_ret a).
Proof. intros w Hw. by exists w, [], (inl a). Qed.
Lemma safe_print l : safe I E (print l).
Proof. intros w Hw. by exists w, [l], (inl ()). Qed.
Lemma safe_fatalf {A} e : E e -> safe I E (fatalf (A := A) e).
Proof. intros He w Hw. by exists w, [], (inr e). Qed.
Lemma safe_pure {A} (m : go A) : returns m -> safe I E (pure m).
Proof. intros [a ->] w Hw. by exists w, [], (inl a). Qed.

(** A connection, with its address. *)
Lemma safe_conn {B} addr (k : Conn -> io W B) :
  (forall e, connect addr = inr e -> E (FailToDial e)) -> (forall c, connect addr = inl c -> safe I E (k c)) ->
  safe I E (io_bind (serviceConn addr) k).
Proof.
  intros He Hk. unfold serviceConn. destruct (connect addr) as [c|e] eqn:Ec.
  - intros w Hw. destruct (Hk c eq_refl w Hw) as (w' & ls & r & Er & Hr). exists w', ls, r.
    unfold io_bind, io_ret. cbn. by rewrite Er.
  - intros w Hw. exists w, [], (inr (FailToDial e)). split; [done|]. by apply He.
Qed.

(** A call, with what is known of its answer [r] and of the state after it;
    what follows need not care about the state when it stops at once. *)
Lemma safe_call {A B} (f : W -> go (W * (A + status))) (k : A + status -> io W B) (e' : status -> stop) :
  (forall e, k (inr e) = fatalf (e' e)) ->
  (forall w, I w -> exists w' r, f w = Ret (w', r)
     /\ match r with inl a => I w' /\ safe I E (k (inl a)) | inr e => E (e' e) end) ->
  safe I E (io_bind (call f) k).
Proof.
  intros Hk Hf w Hw. destruct (Hf w Hw) as (w1 & [a|e] & Ef & Hr); unfold io_bind, call; rewrite Ef; cbn.
  - destruct Hr as [Hw1 Hs]. destruct (Hs w1 Hw1) as (w2 & ls & r & -> & Hr). by exists w2, ls, r.
  - rewrite Hk. cbn. by exists w1, [], (inr (e' e)).
Qed.

Lemma safe_videos i vs : safe I E (print_videos i vs).
Proof. revert i. induction vs as [|v vs IH]; intros i; cbn; auto using safe_ret, safe_bind, safe_print. Qed.
End Safe.

Definition as_expected (videos : list VideoInfo) (id0 : Z) (author1 : string) (id2 : Z) (url3 title4 : string) : Prop :=
  match videos with
  | [v0; v1; v2; v3; v4] =>
      VideoId v0 = id0 /\ Author v1 = author1 /\ VideoId v2 = id2 /\ Url v3 = url3 /\ Title v4 = title4
  | _ => False
  end.

(** The test of the length guards the indices, and the condition is that the
    answer is not the expected one. *)
Lemma wrong_spec videos id0 author1 id2 url3 title4 :
  exists bad, wrong videos id0 author1 id2 url3 title4 = Ret bad
    /\ (bad = false <-> as_expected videos id0 author1 id2 url3 title4).
Proof.
  unfold wrong. destruct (Z.eqb_spec (len videos) 5) as [Hl|Hl]; cbn.
  - destruct videos as [|v0 [|v1 [|v2 [|v3 [|v4 [|]]]]]]; unfold len in Hl; cbn in Hl; try lia. cbn.
    change (go_index [v0; v1; v2; v3; v4] 0) with (Ret v0). change (go_index [v0; v1; v2; v3; v4] 1) with (Ret v1).
    change (go_index [v0; v1; v2; v3; v4] 2) with (Ret v2). change (go_index [v0; v1; v2; v3; v4] 3) with (Ret v3).
    change (go_index [v0; v1; v2; v3; v4] 4) with (Ret v4). unfold go_or. cbn.
    destruct (Z.eqb_spec (VideoId v0) id0); cbn; [|exists true; split; [done|naive_solver]].
    destruct (bool_decide_reflect (Author v1 = author1)); cbn; [|exists true; split; [done|naive_solver]].
    destruct (Z.eqb_spec (VideoId v2) id2); cbn; [|exists true; split; [done|naive_solver]].
    destruct (bool_decide_reflect (Url v3 = url3)); cbn; [|exists true; split; [done|naive_solver]].
    destruct (bool_decide_reflect (Title v4 = title4)); cbn; eexists; (split; [done|naive_solver]).
  - exists true. split; [done|]. split; [done|].
    intros Hv. exfalso. apply Hl. by destruct videos as [|v0 [|v1 [|v2 [|v3 [|v4 [|]]]]]].
Qed.

Lemma getUserId_range netId : in_range (getUserId netId).
Proof.
  unfold in_range, getUserId, uint_w. pose proof (Z.mod_pos_bound (fnv64 netId) 5000).
  rewrite Z.mod_small by lia. lia.
Qed.

(** The program stops only for the reasons that its calls, made on the
    connections that it dialled, give. *)
Section Calls.
Context (I : W -> Prop) (E : stop -> Prop) (rec_addr user_addr : string).
Context (Hdial : forall addr e, addr = rec_addr \/ addr = user_addr -> connect addr = inr e -> E (FailToDial e)).
Context (Husers : forall c w userId, connect user_addr = inl c -> I w -> in_range userId ->
  exists w' r, GetUser c (3 * Second) w [userId] = Ret (w', r)
  /\ match r with inl us => I w' /\ (len us = 1 \/ E (NoUser userId None)) | inr e => E (NoUser userId (Some e)) end).
Context (Hvideos : forall c w userId, connect rec_addr = inl c -> I w -> in_range userId ->
  exists w' r, GetTopVideos c (10 * Second) w (VideoRec.mkRequest userId 5) = Ret (w', r)
  /\ match r with inl _ => I w' | inr e => E (NoRecommendations userId e) end).
Context (Hwrong : forall n, E (WrongRecommendations n)).

Lemma safe_fetchUser userId : in_range userId -> safe I E (fetchUser user_addr userId).
Proof using Hdial Husers.
  intros Hu. apply safe_conn; [by eauto|]. intros c Hc.
  apply safe_call with (e' := fun e => NoUser userId (Some e)); [done|]. intros w Hw.
  destruct (Husers c w userId Hc Hw Hu) as (w' & r & Er & Hr). exists w', r. split; [done|].
  destruct r as [us|e]; [|done]. destruct Hr as [Hw' Hl]. split; [done|].
  destruct (Z.eqb_spec (len us) 1) as [Hl1|Hl1]; cbn.
  - apply safe_bind; [apply safe_pure|intros; apply safe_print]. apply go_index_returns. lia.
  - apply safe_fatalf. by destruct Hl.
Qed.

Lemma safe_send userId c : in_range userId -> connect rec_addr = inl c -> safe I E (sendSingleTestRequest userId c).
Proof using Hvideos.
  intros Hu Hc. apply safe_call with (e' := NoRecommendations userId); [done|]. intros w Hw.
  destruct (Hvideos c w userId Hc Hw Hu) as (w' & r & Er & Hr). exists w', r. split; [done|].
  destruct r; [|done]. split; [done|]. eauto using safe_bind, safe_print, safe_videos, safe_ret.
Qed.

Lemma safe_test n userId c id0 author1 id2 url3 title4 :
  in_range userId -> connect rec_addr = inl c -> safe I E (test_case n userId c id0 author1 id2 url3 title4).
Proof using Hvideos Hwrong.
  intros Hu Hc. apply safe_bind; [apply safe_print|]. intros _. apply safe_bind; [by apply safe_send|]. intros vs.
  destruct (wrong_spec vs id0 author1 id2 url3 title4) as (bad & Hb & _).
  apply safe_bind; [apply safe_pure; by exists bad|]. intros []; auto using safe_fatalf, safe_ret.
Qed.

Lemma safe_main netId : safe I E (main rec_addr user_addr netId).
Proof using Hdial Husers Hvideos Hwrong.
  apply safe_conn; [by eauto|]. intros c Hc. apply safe_bind; [apply safe_print|]. intros _.
  apply safe_bind; [apply safe_fetchUser, getUserId_range|]. intros _.
  apply safe_bind; [by apply safe_send; [apply getUserId_range|]|]. intros _. apply safe_bind; [apply safe_print|]. intros _.
  apply safe_bind; [apply safe_test; [unfold in_range; lia|done]|]. intros _.
  apply safe_bind; [apply safe_test; [unfold in_range; lia|done]|]. intros _. apply safe_print.
Qed.
End Calls.

(** ** What a passed run means *)

Lemma io_bind_inv {A B} (m : io W A) (f : A -> io W B) w w' ls b :
  io_bind m f w = Ret (w', ls, inl b) ->
  exists w1 ls1 a ls2, m w = Ret (w1, ls1, inl a) /\ f a w1 = Ret (w', ls2, inl b) /\ ls = ls1 ++ ls2.
Proof.
  unfold io_bind. intros H. apply bind_Ret in H as ([[w1 ls1] [a|e]] & Hm & H); [|done]. cbn in H.
  apply bind_Ret in H as ([[w2 ls2] r] & Hf & [= <- <- ->]). by exists w1, ls1, a, ls2.
Qed.

Lemma test_case_passed n userId c id0 author1 id2 url3 title4 w w' ls :
  test_case n userId c id0 author1 id2 url3 title4 w = Ret (w', ls, inl ()) ->
  exists w1 w2 resp, GetTopVideos c (10 * Second) w1 (VideoRec.mkRequest userId 5) = Ret (w2, inl resp)
    /\ as_expected (Videos resp) id0 author1 id2 url3 title4.
Proof.
  intros (w1 & ? & ? & ? & _ & H & _)%io_bind_inv. apply io_bind_inv in H as (w2 & ? & vs & ? & Hs & H & _).
  apply io_bind_inv in H as (w3 & ? & bad & ? & Hb & H & _). destruct bad; [done|].
  destruct (wrong_spec vs id0 author1 id2 url3 title4) as (bad & Eb & Hbad). unfold pure in Hb. rewrite Eb in Hb.
  cbn in Hb. simplify_eq. apply io_bind_inv in Hs as (w4 & ? & out & ? & Hc & Hs & _).
  unfold call in Hc. apply bind_Ret in Hc as ([w5 o] & Hc & [= <- <- <-]). cbn in Hs. destruct o as [resp|e]; [|done].
  exists w1, w5, resp. split; [done|]. apply io_bind_inv in Hs as (? & ? & ? & ? & _ & Hs & _).
  apply io_bind_inv in Hs as (? & ? & ? & ? & _ & Hs & _). unfold io_ret in Hs. simplify_eq. by apply Hbad.
Qed.

(** The verdict of the test client. Whatever the services answer, as
    long as they answer, the program does not panic: the tests of the length
    guard every index. When it ends without being stopped, it has printed
    that the tests passed, and the answers to both test requests were five
    videos with the expected ids, author, URL and title. *)
Theorem frontend_verdict rec_addr user_addr netId w :
  (forall c t w ids, returns (GetUser c t w ids)) -> (forall c t w q, returns (GetTopVideos c t w q)) ->
  exists w' ls r, main rec_addr user_addr netId w = Ret (w', ls, r)
    /\ (r = inl () ->
         last ls = Some Passed /\ exists c, connect rec_addr = inl c
         /\ (exists w1 w2 resp, GetTopVideos c (10 * Second) w1 (VideoRec.mkRequest 204054 5) = Ret (w2, inl resp)
              /\ as_expected (Videos resp) 1012 "Harry Boehm" 1209 "https://video-data.localhost/blob/1309" "precious here")
         /\ exists w1 w2 resp, GetTopVideos c (10 * Second) w1 (VideoRec.mkRequest 203584 5) = Ret (w2, inl resp)
              /\ as_expected (Videos resp) 1196 "Rocky Okuneva" 1071 "https://video-data.localhost/blob/1041"
                   "witty downstairs").
Proof.
  intros Hu Hv. destruct (safe_main (fun _ => True) (fun _ => True) rec_addr user_addr) with
    (netId := netId) (w := w) as (w' & ls & r & Em & _); try done.
  { intros c w1 u _ _ _. destruct (Hu c (3 * Second) w1 [u]) as [[w2 [us|e]] E]; rewrite E; eexists _, _; (split; [reflexivity|]); cbn; auto. }
  { intros c w1 u _ _ _. destruct (Hv c (10 * Second) w1 (VideoRec.mkRequest u 5)) as [[w2 [us|e]] E]; rewrite E;
      eexists _, _; (split; [reflexivity|]); cbn; auto. }
  exists w', ls, r. split; [done|]. intros ->. unfold main in Em.
  apply io_bind_inv in Em as (? & ? & c & ? & Hc & Em & ->). do 4 apply io_bind_inv in Em as (? & ? & ? & ? & _ & Em & ->).
  apply io_bind_inv in Em as (? & ? & [] & ? & H1 & Em & ->). apply io_bind_inv in Em as (? & ? & [] & ? & H2 & Em & ->).
  unfold print in Em. simplify_eq. split; [by rewrite !app_assoc, last_snoc|]. exists c.
  split; [unfold serviceConn, io_ret, fatalf in Hc; by repeat case_match; simplify_eq|].
  split; [by apply test_case_passed in H1|by apply test_case_passed in H2].
Qed.
End Frontend.

(** ** Against the services *)

Section Deployed.
Context {G Cipher Conn : Type} `{Rand G} `{Blowfish Cipher} `{SortSlice VideoInfo} {CB : ConnBackends Conn (mock G)}.
Context (resolve : string -> string).

(** The user service of Deployment.v, as clients see it. *)
Definition deployed_GetUser (w : Server * mock G) (ids : list Z) : go (Server * mock G * (list UserInfo + status)) :=
  let! out := GetUser (mw_users w.2) (mw_rand w.2) ids in Ret (w.1, set_rand w.2 out.1, out.2).

(** The connections of the test client, the calls on them, and which calls
    take too long: [late timeout w]. *)
Context {C2 : Type} (target : C2 -> string) (late : Z -> Server * mock G -> Prop).
Context (c_GetUser : C2 -> Z -> Server * mock G -> list Z -> go (Server * mock G * (list UserInfo + status))).
Context (c_GetTopVideos : C2 -> Z -> Server * mock G -> VideoRec.Request -> go (Server * mock G * (Response + status))).

(** A call on a connection to the address of the user service or of the
    recommender is handled there, at some time of the day, and its answer
    comes back, or it exceeds its deadline; whatever else happened by then. *)
Record answers (user_port rec_port : Z) (uc vc : Conn) : Prop := {
  answer_user c timeout w ids : resolve (target c) = listen_addr user_port ->
    c_GetUser c timeout w ids = deployed_GetUser w ids
    \/ late timeout w /\ exists w', c_GetUser c timeout w ids = Ret (w', inr DeadlineExceeded);
  answer_rec c timeout w q : resolve (target c) = listen_addr rec_port ->
    (exists clock, c_GetTopVideos c timeout w q = rec_handler (Cipher := Cipher) uc vc w (clock, q))
    \/ late timeout w /\ exists w', c_GetTopVideos c timeout w q = Ret (w', inr DeadlineExceeded)
}.

(** Why the test client may stop. *)
Inductive excused (dial : string -> C2 + status) (rec_addr user_addr : string) : stop -> Prop :=
| excuse_data n : excused dial rec_addr user_addr (WrongRecommendations n)
| excuse_dial addr e : addr = rec_addr \/ addr = user_addr -> dial addr = inr e ->
    excused dial rec_addr user_addr (FailToDial e)
| excuse_user userId w : late (3 * Second) w ->
    excused dial rec_addr user_addr (NoUser userId (Some DeadlineExceeded))
| excuse_rec userId w : late (10 * Second) w ->
    excused dial rec_addr user_addr (NoRecommendations userId DeadlineExceeded).

End Deployed.

(** ** stats.go *)

Inductive stats_line : Type :=
| Header
| Row (nowUs : Z) (r : Stats)
| ErrorRetrievingStats (e : status)
| FailToConnect (e : status).

Definition printHeader : stats_line := Header.
Definition printStats (nowUs : Z) (r : Stats) : stats_line := Row nowUs r.

(** [answer] is what [client.GetStats] returned. *)
Definition gatherStats (nowUs : Z) (answer : Stats + status) : stats_line :=
  match answer with
  | inr e => ErrorRetrievingStats e
  | inl out => printStats nowUs out
  end.

(** The first call is made at once, the others at every tick in goroutines of
    their own; [answers] are in the order in which they come. *)
Definition stats_main {Conn} (conn : Conn + status) (answers : list (Z * (Stats + status))) : list stats_line :=
  match conn with
  | inr e => [FailToConnect e]
  | inl _ => printHeader :: ((fun a => gatherStats a.1 a.2) <$> answers)
  end.

(** Polled after any number of requests, a deployment reports all of them. *)
Lemma deployed_stats {G Cipher Conn} `{Rand G} `{Blowfish Cipher} `{SortSlice VideoInfo} {CB : ConnBackends Conn (mock G)}
    uc vc (w : mock G) o reqs nowUs :
  wired uc vc -> healthy w (rec_MaxBatchSize o) -> well_stocked w -> Forall well_asked reqs ->
  exists s r, serve (rec_handler (Cipher := Cipher) uc vc) (new_server o, w) reqs = Ret (s, w, r)
    /\ exists st, gatherStats nowUs (inl (GetStats s)) = Row nowUs st /\ TotalRequests st = u64 (len reqs).
Proof.
  intros Hwire Hh Hs Hq. destruct (deployed_answers (Cipher := Cipher) uc vc (new_server o) w reqs Hwire Hh Hs Hq eq_refl)
    as (s & r & E & _ & Ht). exists s, r. split; [done|]. by eexists.
Qed.

(** ** Concrete runs *)

(** A recommender with fixed answers. *)
Definition canned (videos : list VideoInfo) (c : string) (timeout : Z) (w : ()) (q : VideoRec.Request)
    : go (() * (Response + status)) :=
  Ret (w, inl (mkResponse videos false)).
Definition canned_user (c : string) (timeout : Z) (w : ()) (ids : list Z) : go (() * (list UserInfo + status)) :=
  Ret (w, inl ((fun id => mkUser id "" ∅ [] []) <$> ids)).

Lemma frontend_verdict_witness :
  exists w' ls r, main (fun addr => inl addr) canned_user (canned [mkVideo 1012 "" ∅]) (fun _ => "") (fun _ => "")
    (fun _ => "") (fun _ => "") "a" "b" "xs66" () = Ret (w', ls, r) /\ r = inr (WrongRecommendations 1)%string.
Proof.
  destruct (frontend_verdict (fun addr => inl addr) canned_user (canned [mkVideo 1012 "" ∅]) (fun _ => ""%string)
    (fun _ => ""%string) (fun _ => ""%string) (fun _ => ""%string) "a" "b" "xs66" ()) as (w' & ls & r & E & _).
  - intros c t w ids. eexists. reflexivity.
  - intros c t w q. eexists. reflexivity.
  - exists w', ls, r. split; [exact E|]. vm_compute in E. injection E as _ _ <-. reflexivity.
Defined.

(** The services of one machine, for a client whose calls are in time when
    they may take 5 s. A connection is its address. *)
Definition late_local (timeout : Z) (_ : Server * mock Z) : Prop := timeout < 5 * Second.
Definition local_call {A} (port : Z) (c : string) (timeout : Z) (w : Server * mock Z)
    (f : go (Server * mock Z * (A + status))) : go (Server * mock Z * (A + status)) :=
  if bool_decide (local_host c = listen_addr port)
  then if timeout <? 5 * Second then Ret (w, inr DeadlineExceeded) else f
  else Ret (w, inr Unimplemented).
Definition local_GetUser (c : string) (timeout : Z) (w : Server * mock Z) (ids : list Z)
    : go (Server * mock Z * (list UserInfo + status)) :=
  if bool_decide (local_host c = listen_addr 8081) then deployed_GetUser w ids else Ret (w, inr Unimplemented).
Definition local_GetTopVideos (c : string) (timeout : Z) (w : Server * mock Z) (q : VideoRec.Request)
    : go (Server * mock Z * (Response + status)) :=
  local_call 8080 c timeout w
    (rec_handler (Cipher := Z) (CB := local_conns) "[::1]:8081" "[::1]:8082" w (0, 3, q)).

Lemma local_answers : answers (Cipher := Z) (CB := local_conns) local_host id late_local local_GetUser local_GetTopVideos
  8081 8080 "[::1]:8081" "[::1]:8082".
Proof.
  split; cbn; intros c timeout w x Hc; unfold local_GetUser, local_GetTopVideos, local_call;
    rewrite bool_decide_eq_true_2 by exact Hc; [by left|].
  unfold late_local. destruct (Z.ltb_spec timeout (5 * Second)); [right; eauto|left; eauto].
Qed.

