(* ===== verification/Checker.v ===== *)
(** * lab4/checker/checker.go: the consistency checker of the stress tester

    The checker records, per key, the values a read may return. Its contract
    is that it raises no false alarm: when the store behaves as an atomic
    register, every read it checks is accepted. The second half of the file
    runs the checker beside such a register, with concurrent readers and
    writers, and proves the contract for reads that find a value. *)

From Stdlib Require Import String.
From stdpp Require Import prelude gmap strings relations.
From S2P Require Import Prelude.
Local Open Scope Z_scope.

Record stateValue : Type := mkValue {
  value : string;
  writtenAt : Z;
  maybeExpiredBy : Z;
  definitelyExpiredBy : Z;
  err : bool                       (* the Set returned an error *)
}.

Record ConsistencyChecker : Type := mkCC {
  ChecksRun : Z;
  values : gmap string (gmap string stateValue);
  overwrittenValues : gmap string (gmap string stateValue);
  version : gmap string Z;
  rc : gmap string Z
}.

Definition MakeConsistencyChecker : ConsistencyChecker := mkCC 0 ∅ ∅ ∅ ∅.

(** The command line flags. *)
Record flags : Type := mkFlags {
  checkCorrectness : bool;
  checkTtl : bool;
  ttlCheckBuffer : Z
}.

(** Indexing a Go map gives the zero value for a missing key. *)
Definition geti (m : gmap string Z) (k : string) : Z := default 0 (m !! k).
Definition getm (m : gmap string (gmap string stateValue)) (k : string) : gmap string stateValue :=
  default ∅ (m !! k).

Definition BeginWrite (fl : flags) (cc : ConsistencyChecker) (key : string) : ConsistencyChecker * Z :=
  if negb (checkCorrectness fl) then (cc, 0)
  else (mkCC (ChecksRun cc) (values cc) (overwrittenValues cc) (version cc)
          (<[key := geti (rc cc) key + 1]> (rc cc)), geti (version cc) key).

(** [now] is [time.Now()]; an error of the write is [e]. *)
Definition CompleteWrite (fl : flags) (cc : ConsistencyChecker) (key val : string) (e : bool)
    (initialVersion maybeExp definitelyExp now : Z) : go ConsistencyChecker :=
  if negb (checkCorrectness fl) then Ret cc
  else
    let newVal := mkValue val now maybeExp (definitelyExp + ttlCheckBuffer fl) e in
    let currentVersion := geti (version cc) key in
    match getm (values cc) key !! val, getm (overwrittenValues cc) key !! val with
    | None, None =>
        let finish vs ow := mkCC (ChecksRun cc) vs ow
            (<[key := currentVersion + 1]> (version cc)) (<[key := geti (rc cc) key - 1]> (rc cc)) in
        if negb e && (initialVersion =? currentVersion) && (geti (rc cc) key =? 1) then
          Ret (finish (<[key := {[ val := newVal ]}]> (values cc))
                 (if decide (getm (values cc) key = ∅) then overwrittenValues cc
                  else <[key := map_fold (fun _ v ow => <[value v := v]> ow)
                                  (getm (overwrittenValues cc) key) (getm (values cc) key)]>
                         (overwrittenValues cc)))
        else Ret (finish (<[key := <[val := newVal]> (getm (values cc) key)]> (values cc)) (overwrittenValues cc))
    | _, _ => Panic
    end.

Definition BeginRead (fl : flags) (cc : ConsistencyChecker) (key : string) : Z * bool :=
  if negb (checkCorrectness fl) then (0, false)
  else (geti (version cc) key, negb (geti (rc cc) key =? 0)).

Inductive verdict : Type := Fine | Unexpired | Overwritten | NeverWritten | Expired.

(** The verdict and the checker with its counter; [now] is [time.Now()]. *)
Definition CheckReadCorrect (fl : flags) (cc : ConsistencyChecker) (key val : string) (wasFound : bool)
    (startTime initialVersion : Z) (writesPending : bool) (now : Z) : ConsistencyChecker * verdict :=
  if negb (checkCorrectness fl) then (cc, Fine)
  else if negb (geti (version cc) key =? initialVersion) || writesPending || negb (geti (rc cc) key =? 0)
  then (cc, Fine)
  else
    let cc' := mkCC (ChecksRun cc + 1) (values cc) (overwrittenValues cc) (version cc) (rc cc) in
    let vals := getm (values cc) key in
    (cc',
     if negb wasFound then
       if decide (vals = ∅) then Fine
       else if existsb (fun v => maybeExpiredBy v.2 <? now) (map_to_list vals) then Fine else Unexpired
     else
       match vals !! val with
       | None => match getm (overwrittenValues cc) key !! val with Some _ => Overwritten | None => NeverWritten end
       | Some v => if checkTtl fl && negb (err v) && (definitelyExpiredBy v <? startTime) then Expired else Fine
       end).

(** ** The checker beside an atomic register *)

Section Soundness.
Context (fl : flags) (key : string).
Hypothesis checking : checkCorrectness fl = true.

Record pending_write : Type := mkPW { pw_value : string; pw_version : Z; pw_applied : bool }.
Record pending_read : Type := mkPR { pr_version : Z; pr_writes : bool; pr_result : option (option string) }.

Record system : Type := mkSys {
  cc : ConsistencyChecker;
  reg : option string;               (* what the store holds for the key *)
  writes : list pending_write;
  reads : list pending_read;
  used : gset string                 (* values of all writes so far *)
}.

Definition sys_start : system := mkSys MakeConsistencyChecker None [] [] ∅.

(** A write takes effect at one moment between its beginning and its
    completion, a write that fails perhaps not at all; a read takes the value
    of one moment. Every write has a value of its own: the stress
    tester draws them at random (StressTester.v shows what it takes). *)
Inductive sys_step (s : system) : system -> Prop :=
| s_begin_write v : v ∉ used s ->
    sys_step s (mkSys (BeginWrite fl (cc s) key).1 (reg s)
      (writes s ++ [mkPW v (BeginWrite fl (cc s) key).2 false]) (reads s) ({[v]} ∪ used s))
| s_apply k w : writes s !! k = Some w -> pw_applied w = false ->
    sys_step s (mkSys (cc s) (Some (pw_value w))
      (<[k := mkPW (pw_value w) (pw_version w) true]> (writes s)) (reads s) (used s))
| s_complete k w e me de now cc' : writes s !! k = Some w -> (e = false -> pw_applied w = true) ->
    CompleteWrite fl (cc s) key (pw_value w) e (pw_version w) me de now = Ret cc' ->
    sys_step s (mkSys cc' (reg s) (delete k (writes s)) (reads s) (used s))
| s_begin_read :
    sys_step s (mkSys (cc s) (reg s) (writes s)
      (reads s ++ [mkPR (BeginRead fl (cc s) key).1 (BeginRead fl (cc s) key).2 None]) (used s))
| s_read k r : reads s !! k = Some r ->
    sys_step s (mkSys (cc s) (reg s) (writes s)
      (<[k := mkPR (pr_version r) (pr_writes r) (Some (reg s))]> (reads s)) (used s))
| s_check k r res now start : reads s !! k = Some r -> pr_result r = Some res ->
    sys_step s (mkSys (CheckReadCorrect fl (cc s) key (default ""%string res) (bool_decide (is_Some res))
        start (pr_version r) (pr_writes r) now).1 (reg s) (writes s) (delete k (reads s)) (used s)).

Definition ver (s : system) : Z := geti (version (cc s)) key.
Definition vals (s : system) : gmap string stateValue := getm (values (cc s)) key.
Definition old (s : system) : gmap string stateValue := getm (overwrittenValues (cc s)) key.
Definition known (s : system) : gset string := dom (vals s) ∪ dom (old s).

Record sys_inv (s : system) : Prop := {
  i_rc : geti (rc (cc s)) key = Z.of_nat (length (writes s));
  i_reg : forall v, reg s = Some v ->
    v ∈ dom (vals s) \/ exists w, w ∈ writes s /\ pw_value w = v;
  i_ver : forall w, w ∈ writes s -> pw_version w <= ver s;
  i_last : forall w, w ∈ writes s -> pw_applied w = true ->
    exists v, reg s = Some v /\ (v = pw_value w \/ pw_version w < ver s
      \/ exists w', w' ∈ writes s /\ pw_value w' <> pw_value w);
  i_reads : forall r res, r ∈ reads s -> pr_version r = ver s -> writes s = [] ->
    pr_result r = Some res -> res = reg s;
  i_rver : forall r, r ∈ reads s -> pr_version r <= ver s;
  i_keys : forall v x, vals s !! v = Some x -> value x = v;
  i_known : known s ⊆ used s;
  i_used : forall w, w ∈ writes s -> pw_value w ∈ used s;
  i_nodup : NoDup (pw_value <$> writes s);
  i_fresh : forall w, w ∈ writes s -> pw_value w ∉ known s
}.

Lemma geti_insert m k v : geti (<[k := v]> m) k = v.
Proof. unfold geti. by rewrite lookup_insert_eq. Qed.

Lemma getm_insert m k v : getm (<[k := v]> m) k = v.
Proof. unfold getm. by rewrite lookup_insert_eq. Qed.

(** Moving the current values to the overwritten ones adds exactly their keys. *)
Lemma dom_overwrite (m ow : gmap string stateValue) :
  (forall v x, m !! v = Some x -> value x = v) ->
  dom (map_fold (fun _ v ow => <[value v := v]> ow) ow m) = dom m ∪ dom ow.
Proof.
  clear checking. revert m. refine (map_fold_weak_ind (fun r m => (forall v x, m !! v = Some x -> value x = v) ->
    dom r = dom m ∪ dom ow) _ _ _ _).
  - set_solver.
  - intros i x m r Hi IH Hk.
    rewrite !dom_insert_L, (Hk i x (lookup_insert_eq _ _ _)), IH; [set_solver|].
    intros v y Hv. apply Hk. rewrite lookup_insert_ne by congruence. done.
Qed.

(** What a completed write leaves behind: the checker never panics on it, the
    version and the number of pending writes move, and the write's value is a
    current one, alone when the write was, and with the earlier ones if not. *)
Lemma complete_spec s k w e me de now : sys_inv s -> writes s !! k = Some w ->
  exists cc', CompleteWrite fl (cc s) key (pw_value w) e (pw_version w) me de now = Ret cc'
    /\ geti (version cc') key = ver s + 1
    /\ geti (rc cc') key = Z.of_nat (length (writes s)) - 1
    /\ dom (getm (values cc') key) ∪ dom (getm (overwrittenValues cc') key) = {[pw_value w]} ∪ known s
    /\ (forall v x, getm (values cc') key !! v = Some x -> value x = v)
    /\ pw_value w ∈ dom (getm (values cc') key)
    /\ (dom (vals s) ⊆ dom (getm (values cc') key)
        \/ e = false /\ pw_version w = ver s /\ length (writes s) = 1%nat).
Proof.
  intros I Hk. pose proof (i_fresh s I w ltac:(by eapply list_elem_of_lookup_2)) as Hf.
  unfold known, vals, old in *. apply not_elem_of_union in Hf as [F1 F2].
  apply not_elem_of_dom in F1, F2.
  unfold CompleteWrite, ver. rewrite checking, F1, F2. cbn [negb].
  rewrite (i_rc s I).
  assert (Hk' : forall v x, <[pw_value w := mkValue (pw_value w) now me (de + ttlCheckBuffer fl) e]>
    (getm (values (cc s)) key) !! v = Some x -> value x = v).
  { intros v x. rewrite lookup_insert_Some. intros [[<- <-]|[_ Hv]]; [done|]. by apply (i_keys s I). }
  destruct (negb e && (pw_version w =? geti (version (cc s)) key) && (Z.of_nat (length (writes s)) =? 1)) eqn:C.
  - apply andb_true_iff in C as [[Ce Cv]%andb_true_iff Cl].
    eexists; split; [done|]. cbn [version rc values overwrittenValues].
    rewrite !geti_insert, getm_insert. split_and!; try done.
    + case_decide as D; [rewrite D; set_solver|]. rewrite getm_insert, dom_overwrite by apply (i_keys s I).
      set_solver.
    + intros v x. rewrite lookup_singleton_Some. by intros [<- <-].
    + set_solver.
    + right. destruct e; [done|]. lia.
  - eexists; split; [done|]. cbn [version rc values overwrittenValues].
    rewrite !geti_insert, getm_insert. rewrite dom_insert_L. split_and!; try done; [set_solver..|].
    left. set_solver.
Qed.

Lemma BeginWrite_cc c :
  BeginWrite fl c key = (mkCC (ChecksRun c) (values c) (overwrittenValues c) (version c)
    (<[key := geti (rc c) key + 1]> (rc c)), geti (version c) key).
Proof. unfold BeginWrite. by rewrite checking. Qed.

Lemma inv_begin_write s v : sys_inv s -> v ∉ used s ->
  sys_inv (mkSys (BeginWrite fl (cc s) key).1 (reg s)
    (writes s ++ [mkPW v (BeginWrite fl (cc s) key).2 false]) (reads s) ({[v]} ∪ used s)).
Proof.
  intros I Hv. rewrite BeginWrite_cc. destruct I. constructor; unfold ver, known, vals, old in *;
    cbn [cc reg writes reads used rc version values overwrittenValues fst snd] in *.
  - rewrite geti_insert, length_app. simpl. lia.
  - set_solver.
  - intros w [Hw| ->%list_elem_of_singleton]%elem_of_app; [by apply i_ver0|simpl; lia].
  - intros w [Hw| ->%list_elem_of_singleton]%elem_of_app Ha; [|done].
    destruct (i_last0 w Hw Ha) as (u & Hu & [?|[?|(w' & ? & ?)]]); exists u; [tauto..|].
    split; [done|]. right; right. exists w'. set_solver.
  - intros r res _ _ H. destruct (writes s); discriminate.
  - done.
  - done.
  - set_solver.
  - intros w [Hw| ->%list_elem_of_singleton]%elem_of_app; set_solver.
  - rewrite fmap_app. apply NoDup_app. split; [done|]. split; [|apply NoDup_singleton].
    intros x Hx ->%list_elem_of_singleton. apply list_elem_of_fmap in Hx as (w & E & Hw).
    apply Hv. rewrite <- (eq_refl : pw_value (mkPW v (geti (version (cc s)) key) false) = v), E. auto.
  - intros w [Hw| ->%list_elem_of_singleton]%elem_of_app; [by apply i_fresh0|]. set_solver.
Qed.

Lemma inv_apply s k w : sys_inv s -> writes s !! k = Some w ->
  sys_inv (mkSys (cc s) (Some (pw_value w))
    (<[k := mkPW (pw_value w) (pw_version w) true]> (writes s)) (reads s) (used s)).
Proof.
  intros I Hk. set (w1 := mkPW (pw_value w) (pw_version w) true).
  assert (Hw : w ∈ writes s) by by eapply list_elem_of_lookup_2.
  assert (Hmem : forall x, x ∈ <[k := w1]> (writes s) -> exists y, y ∈ writes s
    /\ pw_value y = pw_value x /\ pw_version y = pw_version x).
  { intros x [j Hj]%list_elem_of_lookup_1. rewrite list_lookup_insert in Hj. case_decide; simplify_eq.
    - by exists w. - exists x. by apply list_elem_of_lookup_2 in Hj. }
  assert (Hw1 : w1 ∈ <[k := w1]> (writes s)).
  { eapply list_elem_of_lookup_2, list_lookup_insert_eq. by eapply lookup_lt_Some. }
  destruct I. constructor; unfold ver, known, vals, old in *; cbn [cc reg writes reads used] in *; try done.
  - by rewrite length_insert.
  - intros v [= <-]. right. by exists w1.
  - intros x (y & Hy & _ & <-)%Hmem. auto.
  - intros x Hx _. exists (pw_value w). split; [done|].
    destruct (decide (pw_value w = pw_value x)); [by left|]. right; right. by exists w1.
  - intros r res _ _ H. apply (f_equal length) in H. rewrite length_insert in H.
    apply lookup_lt_Some in Hk. simpl in H. lia.
  - intros x (y & Hy & <- & _)%Hmem. auto.
  - rewrite list_fmap_insert, list_insert_id; [done|]. by rewrite list_lookup_fmap, Hk.
  - intros x (y & Hy & <- & _)%Hmem. auto.
Qed.

Lemma inv_complete s k w e me de now cc' : sys_inv s -> writes s !! k = Some w ->
  (e = false -> pw_applied w = true) ->
  CompleteWrite fl (cc s) key (pw_value w) e (pw_version w) me de now = Ret cc' ->
  sys_inv (mkSys cc' (reg s) (delete k (writes s)) (reads s) (used s)).
Proof.
  intros I Hk Ha Hc. assert (Hw : w ∈ writes s) by by eapply list_elem_of_lookup_2.
  destruct (complete_spec s k w e me de now I Hk) as (c & Hc' & Hver & Hrc & Hdom & Hkeys & Hval & Hkeep).
  rewrite Hc in Hc'. injection Hc' as <-.
  assert (HP : writes s ≡ₚ w :: delete k (writes s)) by (by rewrite <- delete_Permutation).
  assert (Hmem : forall x, x ∈ writes s <-> x = w \/ x ∈ delete k (writes s)).
  { intros x. rewrite HP at 1. by rewrite elem_of_cons. }
  destruct I. unfold ver, known, vals, old in *.
  assert (ND : NoDup (pw_value w :: (pw_value <$> delete k (writes s)))).
  { eapply (NoDup_Permutation_proper _ (pw_value <$> writes s)); [|done]. by rewrite HP at 2. }
  apply NoDup_cons in ND as [Hnw ND].
  constructor; unfold ver, known, vals, old; cbn [cc reg writes reads used] in *; try done.
  - rewrite Hrc. apply Permutation_length in HP. simpl in HP. lia.
  - intros v Hv. destruct (i_reg0 v Hv) as [Hin|(w' & Hw' & Ew')].
    + destruct Hkeep as [Hkeep|(-> & Ev & El)]; [set_solver|]. left.
      destruct (i_last0 w Hw (Ha eq_refl)) as (u & Hu & [->|[?|(w' & Hw' & Hne)]]); [congruence|lia|].
      apply Permutation_length in HP as HL. simpl in HL.
      apply Hmem in Hw' as [->|Hw']; [done|]. destruct (delete k (writes s)); [set_solver|simpl in HL; lia].
    + apply Hmem in Hw' as [->|Hw']; [left; congruence|right; by exists w'].
  - intros x Hx. rewrite Hver. specialize (i_ver0 x). rewrite Hmem in i_ver0. lia || (pose proof (i_ver0 (or_intror Hx)); lia).
  - intros x Hx Hax. destruct (i_last0 x) as (u & Hu & _); [by apply Hmem; right|done|].
    exists u. split; [done|]. right; left. rewrite Hver. pose proof (i_ver0 x (proj2 (Hmem x) (or_intror Hx))). lia.
  - intros r res Hr E. pose proof (i_rver0 r Hr). lia.
  - intros r Hr. pose proof (i_rver0 r Hr). lia.
  - rewrite Hdom. pose proof (i_used0 w Hw). set_solver.
  - intros x Hx. apply i_used0, Hmem. by right.
  - intros x Hx. rewrite Hdom. apply not_elem_of_union. split.
    + intros E%elem_of_singleton. apply Hnw. rewrite <- E. by apply list_elem_of_fmap_2.
    + apply i_fresh0, Hmem. by right.
Qed.

(** A check changes only the counter of checks. *)
Lemma check_cc c val found start iv wp now :
  let c' := (CheckReadCorrect fl c key val found start iv wp now).1 in
  values c' = values c /\ overwrittenValues c' = overwrittenValues c /\ version c' = version c /\ rc c' = rc c.
Proof. unfold CheckReadCorrect. rewrite checking. simpl. by case_match. Qed.

Lemma inv_reads s c rs : sys_inv s ->
  values c = values (cc s) -> overwrittenValues c = overwrittenValues (cc s) ->
  version c = version (cc s) -> rc c = rc (cc s) ->
  (forall r, r ∈ rs -> pr_version r <= ver s /\ (forall res, pr_result r = Some res ->
     pr_version r = ver s -> writes s = [] -> res = reg s)) ->
  sys_inv (mkSys c (reg s) (writes s) rs (used s)).
Proof.
  intros [] E1 E2 E3 E4 Hr. constructor; unfold ver, known, vals, old in *;
    cbn [cc reg writes reads used]; rewrite ?E1, ?E2, ?E3, ?E4; try done.
  - intros r res Hin Hv Hn Hres. destruct (Hr r Hin) as [_ H]. auto.
  - intros r Hin. apply Hr, Hin.
Qed.

Lemma inv_step s s' : sys_inv s -> sys_step s s' -> sys_inv s'.
Proof.
  intros I H. assert (Hrd : forall r, r ∈ reads s -> pr_version r <= ver s /\ (forall res, pr_result r = Some res ->
     pr_version r = ver s -> writes s = [] -> res = reg s)).
  { intros r Hr. split; [by apply (i_rver s I)|]. intros. by eapply (i_reads s I). }
  destruct H as [v Hv|k w Hk _|k w e me de now cc' Hk Ha Hc| |k r Hk|k r res now start Hk Hres].
  - by apply inv_begin_write.
  - by apply inv_apply.
  - by eapply inv_complete.
  - apply inv_reads; try done. intros r [Hr| ->%list_elem_of_singleton]%elem_of_app; [auto|].
    unfold BeginRead. rewrite checking. simpl. split; [unfold ver; lia|done].
  - apply inv_reads; try done. intros x [j Hj]%list_elem_of_lookup_1.
    rewrite list_lookup_insert in Hj. case_decide; simplify_eq.
    + simpl. split; [apply (i_rver s I); by eapply list_elem_of_lookup_2|]. congruence.
    + apply Hrd. by eapply list_elem_of_lookup_2.
  - pose proof (check_cc (cc s) (default ""%string res) (bool_decide (is_Some res)) start (pr_version r) (pr_writes r) now)
      as (? & ? & ? & ?). apply inv_reads; try done. intros x Hx. apply Hrd.
    apply delete_Permutation in Hk. rewrite Hk. set_solver.
Qed.

Definition reachable (s : system) : Prop := rtc sys_step sys_start s.

Lemma reachable_inv s : reachable s -> sys_inv s.
Proof.
  intros H. eapply rtc_ind_r; [..|exact H]; [|intros; by eapply inv_step].
  constructor; unfold ver, known, vals, old; simpl; try done; try set_solver. apply NoDup_nil_2.
Qed.

(** C28: the checker raises no false alarm about a value. In every reachable
    state of the checker beside an atomic register, with any number of
    concurrent readers and writers, successful or failed, as long as every
    write has a value that no earlier write had, the check of a read that
    found a value neither calls it overwritten nor unknown (with the TTL
    check off it is accepted), and no completing write can panic. (A second
    write of the same value does panic: [same_microsecond_panics].) *)
Theorem checker_sound_values (s : system) : reachable s ->
  (forall k r v now start, reads s !! k = Some r -> pr_result r = Some (Some v) ->
     let verd := (CheckReadCorrect fl (cc s) key v true start (pr_version r) (pr_writes r) now).2 in
     verd <> Overwritten /\ verd <> NeverWritten /\ verd <> Unexpired /\ (checkTtl fl = false -> verd = Fine))
  /\ (forall k w e me de now, writes s !! k = Some w ->
     CompleteWrite fl (cc s) key (pw_value w) e (pw_version w) me de now <> Panic).
Proof.
  intros I%reachable_inv. split.
  - intros k r v now start Hk Hr. unfold CheckReadCorrect. rewrite checking. cbn [negb].
    destruct (negb (geti (version (cc s)) key =? pr_version r) || pr_writes r
      || negb (geti (rc (cc s)) key =? 0)) eqn:C; [by simpl|].
    apply orb_false_iff in C as [[C1 _]%orb_false_iff C2].
    apply negb_false_iff, Z.eqb_eq in C1, C2. rewrite (i_rc s I) in C2.
    assert (Hn : writes s = []) by (destruct (writes s); [done|simpl in C2; lia]).
    assert (Hreg : Some v = reg s).
    { eapply (i_reads s I); [by eapply list_elem_of_lookup_2|by rewrite <- C1|done|done]. }
    destruct (i_reg s I v) as [[x Hx]%elem_of_dom|(w & Hw & _)]; [done| |rewrite Hn in Hw; set_solver].
    unfold vals in Hx. cbn [snd negb]. rewrite Hx. by destruct (checkTtl fl); simpl; try case_match.
  - intros k w e me de now Hk. by destruct (complete_spec s k w e me de now I Hk) as (c & -> & _).
Qed.

End Soundness.

Definition fl0 : flags := mkFlags true false 10.

(** A write of "a" that completes, then a read of it, up to its check. *)
Definition one_write (e : bool) (r : option string) : system :=
  let cc1 := BeginWrite fl0 MakeConsistencyChecker "k" in
  match CompleteWrite fl0 cc1.1 "k" "a" e cc1.2 100 100 0 with
  | Ret c => mkSys c r [] [mkPR (BeginRead fl0 c "k").1 (BeginRead fl0 c "k").2 (Some r)] {["a"%string]}
  | _ => sys_start
  end.

Lemma one_write_reachable (e : bool) :
  reachable fl0 "k" (one_write e (if e then None else Some "a"%string)).
Proof.
  unfold reachable, one_write. eapply rtc_l; [by apply (s_begin_write _ _ _ "a"%string)|].
  destruct e; cbn [sys_start cc reg writes reads used app].
  - eapply rtc_l; [by apply (s_complete _ _ _ 0 (mkPW "a" 0 false) true 100 100 0)|].
    eapply rtc_l; [apply s_begin_read|]. eapply rtc_l; [by apply (s_read _ _ _ 0)|].
    cbn. rewrite (right_id_L ∅ (∪)). apply rtc_refl.
  - eapply rtc_l; [by apply (s_apply _ _ _ 0 (mkPW "a" 0 false))|].
    eapply rtc_l; [by apply (s_complete _ _ _ 0 (mkPW "a" 0 true) false 100 100 0)|].
    eapply rtc_l; [apply s_begin_read|]. eapply rtc_l; [by apply (s_read _ _ _ 0)|].
    cbn. rewrite (right_id_L ∅ (∪)). apply rtc_refl.
Qed.

Lemma checker_sound_values_witness :
  (CheckReadCorrect fl0 (cc (one_write false (Some "a"%string))) "k" "a" true 0 1 false 50).2 = Fine.
Proof.
  refine (proj2 (proj2 (proj2 (proj1 (checker_sound_values fl0 "k" eq_refl (one_write false (Some "a"%string))
    (one_write_reachable false)) 0%nat (mkPR 1 false (Some (Some "a"%string))) "a"%string 50 0 _ _))) _);
    reflexivity.
Defined.

(** The checker does raise a false alarm about a missing value. When the
    first write of a key fails without having taken effect, a read that
    rightly finds nothing is reported as wrong ("there are unexpired potential
    values"), although a failed write is only a potential value. *)
Theorem checker_false_alarm : exists s r,
  reachable fl0 "k" s /\ reg s = None /\ reads s !! 0%nat = Some r /\ pr_result r = Some None
  /\ (CheckReadCorrect fl0 (cc s) "k" "" false 0 (pr_version r) (pr_writes r) 50).2 = Unexpired.
Proof.
  exists (one_write true None). eexists. split; [apply (one_write_reachable true)|]. by vm_compute.
Qed.
