(* ===== verification/StressTester.v ===== *)
(** * lab4/cmd/stress/tester.go: the stress tester

    Two loops start Get and Set requests at a given rate, at most
    [maxPendingRequests] at a time, each request in a goroutine of its own;
    the checker of Checker.v watches them. A state of the run has the tester,
    the permits of the semaphore, the counter of the wait group, the two loops
    and the requests in flight; each action is the code between two points at
    which a goroutine waits. How the calls of the client end (with an answer,
    an error or a panic), the clock, the random numbers and the log limiters
    are inputs of the actions: [Block] is an action that is not possible in a
    state. Releasing a permit that is not held, a negative wait group and an
    [Add] to a wait group whose waiter is already released are panics, as in
    the libraries.

    The flags are the record [options]. Counters are plain numbers: they do
    not reach 2^64. *)

From Stdlib Require Import String Ascii.
From stdpp Require Import prelude gmap strings relations.
From S2P Require Import Prelude Checker.
Local Open Scope Z_scope.

(** *** math/rand, as far as it is used *)
Class RandSource (G : Type) : Type := {
  NewSource : Z -> G;
  rng_Int : G -> G * Z;
  rng_Int_nonneg g : 0 <= (rng_Int g).2
}.

Record stressTester : Type := mkTester {
  keys : list string;
  gets : Z;
  getErrs : Z;
  sets : Z;
  setErrs : Z;
  inconsistencies : Z;
  st_cc : ConsistencyChecker
}.

Record options : Type := mkOptions {
  maxPendingRequests : Z;
  numKeys : Z;
  ttl : Z;
  checking : flags
}.

Section Stress.
Context {G : Type} `{RandSource G}.

Definition chars : list ascii := list_ascii_of_string "abcdefghijklmnopqrstuvwxyz".

(** The loop of [randomString]. *)
Fixpoint random_chars (rng : G) (k : nat) : go (G * list ascii) :=
  match k with
  | O => Ret (rng, [])
  | S k' =>
      let '(rng, r) := rng_Int rng in
      let! c := go_index chars (Z.rem r (len chars)) in
      let! '(rng, cs) := random_chars rng k' in
      Ret (rng, c :: cs)
  end.

Definition randomString (rng : G) (length : Z) : go (G * string) :=
  let! '(rng, cs) := random_chars rng (Z.to_nat length) in
  Ret (rng, string_of_list_ascii cs).

Fixpoint random_keys (rng : G) (k : nat) (length : Z) : go (list string) :=
  match k with
  | O => Ret []
  | S k' =>
      let! '(rng, s) := randomString rng length in
      let! out := random_keys rng k' length in
      Ret (s :: out)
  end.

(** [now] is [time.Now().UnixNano()]. *)
Definition randomKeys (n length now : Z) : go (list string) :=
  random_keys (NewSource now) (Z.to_nat n) length.

Definition makeStressTester (o : options) (now : Z) : go stressTester :=
  let! ks := randomKeys (numKeys o) 10 now in
  Ret (mkTester ks 0 0 0 0 0 MakeConsistencyChecker).

(** ** Requests *)

(** A request that was started, and one that has told the checker. *)
Inductive job : Type :=
| JGet (key : string)
| JSet (key value : string)
| JReading (key : string) (startTime initialVersion : Z) (writesPending : bool)
| JWriting (key value : string) (startTime initialVersion : Z).

Record world : Type := mkWorld {
  tester : stressTester;
  sem : Z;
  wg : Z;
  get_loop : bool;
  set_loop : bool;
  jobs : list job
}.

Definition set_cc (cc : ConsistencyChecker) (st : stressTester) : stressTester :=
  mkTester (keys st) (gets st) (getErrs st) (sets st) (setErrs st) (inconsistencies st) cc.

(** The choice of a key: an index modulo the number of keys, which panics
    when there is none. *)
Definition pick_key (st : stressTester) (r : Z) : go string :=
  if len (keys st) =? 0 then Panic else go_index (keys st) (Z.rem r (len (keys st))).

(** [st.wg.Add(delta)], of which [Done] is the case -1: the counter must not
    become negative, nor leave zero again, since [main] waits from the start. *)
Definition wg_Add (counter delta : Z) : go Z :=
  if counter + delta <? 0 then Panic
  else if (0 <? delta) && (counter =? 0) then Panic
  else Ret (counter + delta).

(** [st.sem.Release(1)]: [permits] are free, of [size]. *)
Definition sem_Release (size permits : Z) : go Z :=
  if size <? permits + 1 then Panic else Ret (permits + 1).

(** One iteration of [stressLoop], up to the [go] statement. The value of a
    Set depends only on the microsecond [micro] at which it is drawn; a Get
    draws one too and does not use it. *)
Definition spawn (w : world) (is_set : bool) (r micro : Z) : go world :=
  if sem w <? 1 then Block
  else
    let! wg' := wg_Add (wg w) 1 in
    let! key := pick_key (tester w) r in
    let! '(_, v) := randomString (NewSource micro) 32 in
    Ret (mkWorld (tester w) (sem w - 1) wg' (get_loop w) (set_loop w)
           (jobs w ++ [if is_set then JSet key v else JGet key])).

(** The end of the goroutine: [st.sem.Release(1); st.wg.Done()]. *)
Definition finish (o : options) (w : world) (st : stressTester) (k : nat) : go world :=
  let! sem' := sem_Release (maxPendingRequests o) (sem w) in
  let! wg' := wg_Add (wg w) (-1) in
  Ret (mkWorld st sem' wg' (get_loop w) (set_loop w) (delete k (jobs w))).

(** The body of [stressGets] after the call of [Get]: [result] is [None] for
    an error; [allow] is what [errorLogLimiter.Allow()] answers. *)
Definition end_get (o : options) (st : stressTester) (key : string) (startTime initialVersion : Z)
    (writesPending : bool) (result : option (string * bool)) (allow : bool) (now : Z) : stressTester :=
  match result with
  | None => mkTester (keys st) (gets st + 1) (getErrs st + 1) (sets st) (setErrs st) (inconsistencies st) (st_cc st)
  | Some (val, wasFound) =>
      let '(cc, verd) := CheckReadCorrect (checking o) (st_cc st) key val wasFound startTime
                           initialVersion writesPending now in
      mkTester (keys st) (gets st + 1) (getErrs st) (sets st) (setErrs st)
        (match verd with Fine => inconsistencies st
         | _ => if allow then inconsistencies st + 1 else inconsistencies st end) cc
  end.

(** The body of [stressSets] after the call of [Set], which failed for [e]. *)
Definition end_set (o : options) (st : stressTester) (key value : string) (startTime initialVersion : Z)
    (e : bool) (endTime now : Z) : go stressTester :=
  let! cc := CompleteWrite (checking o) (st_cc st) key value e initialVersion
               (startTime + ttl o) (endTime + ttl o) now in
  Ret (mkTester (keys st) (gets st) (getErrs st) (sets st + 1)
         (if e then setErrs st + 1 else setErrs st) (inconsistencies st) cc).

Inductive action : Type :=
| SpawnGet (r micro : Z)
| SpawnSet (r micro : Z)
| BeginJob (k : nat) (now : Z)
| EndGet (k : nat) (result : go (option (string * bool))) (allow : bool) (now : Z)
| EndSet (k : nat) (failed : go bool) (endTime now : Z)
| LoopEnd (is_set : bool).

Definition step (o : options) (w : world) (a : action) : go world :=
  match a with
  | SpawnGet r micro => if get_loop w then spawn w false r micro else Block
  | SpawnSet r micro => if set_loop w then spawn w true r micro else Block
  | BeginJob k now =>
      match jobs w !! k with
      | Some (JGet key) =>
          let '(v, p) := BeginRead (checking o) (st_cc (tester w)) key in
          Ret (mkWorld (tester w) (sem w) (wg w) (get_loop w) (set_loop w)
                 (<[k := JReading key now v p]> (jobs w)))
      | Some (JSet key value) =>
          let '(cc, v) := BeginWrite (checking o) (st_cc (tester w)) key in
          Ret (mkWorld (set_cc cc (tester w)) (sem w) (wg w) (get_loop w) (set_loop w)
                 (<[k := JWriting key value now v]> (jobs w)))
      | _ => Block
      end
  | EndGet k result allow now =>
      match jobs w !! k with
      | Some (JReading key start v p) =>
          let! result := result in
          finish o w (end_get o (tester w) key start v p result allow now) k
      | _ => Block
      end
  | EndSet k failed endTime now =>
      match jobs w !! k with
      | Some (JWriting key value start v) =>
          let! e := failed in
          let! st := end_set o (tester w) key value start v e endTime now in
          finish o w st k
      | _ => Block
      end
  | LoopEnd is_set =>
      if (if is_set then set_loop w else get_loop w) then
        let! wg' := wg_Add (wg w) (-1) in
        Ret (if is_set then mkWorld (tester w) (sem w) wg' (get_loop w) false (jobs w)
             else mkWorld (tester w) (sem w) wg' false (set_loop w) (jobs w))
      else Block
  end.

(** [main] starts both loops. *)
Definition start (o : options) (st : stressTester) : world :=
  mkWorld st (maxPendingRequests o) 2 true true [].

(** [st.wg.Wait()] returns. *)
Definition waited (w : world) : bool := wg w =? 0.

Definition run (o : options) (w : world) (acts : list action) : go world := go_fold (step o) w acts.

(** ** Random strings *)

Lemma random_chars_ok rng k :
  exists rng' cs, random_chars rng k = Ret (rng', cs) /\ length cs = k /\ Forall (fun c => c ∈ chars) cs.
Proof.
  revert rng. induction k as [|k IH]; intros rng; cbn [random_chars]; [by exists rng, []|].
  pose proof (rng_Int_nonneg rng) as Hr. destruct (rng_Int rng) as [rng1 r]. cbn in Hr.
  destruct (go_index_returns chars (Z.rem r (len chars))) as [c Hc].
  { rewrite Z.rem_mod_nonneg by (done || by compute). by apply Z.mod_pos_bound. }
  rewrite Hc. cbn [mbind go_bind]. destruct (IH rng1) as (rng2 & cs & -> & Hl & Hf). cbn [mbind go_bind].
  exists rng2, (c :: cs). split; [done|]. split; [cbn; by rewrite Hl|]. constructor; [|done].
  apply go_index_Ret in Hc as [_ Hc]. by eapply list_elem_of_lookup_2.
Qed.

(** [randomString] always returns a string of the asked length made of
    lower-case letters (the empty one for a negative length). *)
Theorem randomString_spec rng length :
  exists rng' s, randomString rng length = Ret (rng', s)
    /\ String.length s = Z.to_nat length /\ Forall (fun c => c ∈ chars) (list_ascii_of_string s).
Proof.
  unfold randomString. destruct (random_chars_ok rng (Z.to_nat length)) as (rng' & cs & -> & Hl & Hf).
  exists rng', (string_of_list_ascii cs). split; [done|]. rewrite list_ascii_of_string_of_list_ascii.
  split; [|done]. rewrite <- Hl. clear. induction cs as [|c cs IH]; [done|]. cbn. by rewrite IH.
Qed.

(** ** Bookkeeping *)

Definition writes_key (key : string) (j : job) : Prop :=
  match j with JWriting k _ _ _ => k = key | _ => False end.
#[local] Instance writes_key_dec key j : Decision (writes_key key j).
Proof. destruct j; cbn; apply _. Defined.

Definition pending_writes (key : string) (js : list job) : Z := len (filter (writes_key key) js).

Record counters_ok (o : options) (st : stressTester) : Prop := {
  c_getErrs : 0 <= getErrs st;
  c_setErrs : 0 <= setErrs st <= sets st;
  c_incons : 0 <= inconsistencies st <= ChecksRun (st_cc st);
  c_checks : ChecksRun (st_cc st) <= gets st - getErrs st
}.

Record run_inv (o : options) (w : world) : Prop := {
  r_sem : sem w = maxPendingRequests o - len (jobs w);
  r_permits : 0 <= maxPendingRequests o -> 0 <= sem w;
  r_wg : wg w = len (jobs w) + (if get_loop w then 1 else 0) + (if set_loop w then 1 else 0);
  r_counters : counters_ok o (tester w);
  r_rc : checkCorrectness (checking o) = true ->
    forall key, geti (rc (st_cc (tester w))) key = pending_writes key (jobs w)
}.

Lemma geti_insert_ne m (k k' : string) v : k <> k' -> geti (<[k := v]> m) k' = geti m k'.
Proof. intros Hne. unfold geti. by rewrite lookup_insert_ne. Qed.

Lemma BeginWrite_spec fl cc key cc' v :
  BeginWrite fl cc key = (cc', v) ->
  ChecksRun cc' = ChecksRun cc /\ values cc' = values cc /\ overwrittenValues cc' = overwrittenValues cc
  /\ (checkCorrectness fl = true -> forall k,
       geti (rc cc') k = geti (rc cc) k + if decide (k = key) then 1 else 0).
Proof.
  unfold BeginWrite. destruct (checkCorrectness fl); intros [= <- <-]; cbn; [|done].
  split_and!; [done..|]. intros _ k. case_decide as E; [subst; apply geti_insert|].
  rewrite geti_insert_ne by congruence. lia.
Qed.

Lemma CheckReadCorrect_spec fl cc key val found start iv wp now cc' verd :
  CheckReadCorrect fl cc key val found start iv wp now = (cc', verd) ->
  rc cc' = rc cc /\ values cc' = values cc /\ overwrittenValues cc' = overwrittenValues cc
  /\ (ChecksRun cc' = ChecksRun cc + 1 \/ ChecksRun cc' = ChecksRun cc /\ verd = Fine).
Proof.
  unfold CheckReadCorrect. destruct (checkCorrectness fl); cbn [negb]; [|intros [= <- <-]; naive_solver].
  case_match; intros [= <- <-]; cbn; [naive_solver|]. split_and!; [done..|by left].
Qed.

Lemma CompleteWrite_rc fl cc key val e iv me de now cc' :
  CompleteWrite fl cc key val e iv me de now = Ret cc' ->
  ChecksRun cc' = ChecksRun cc
  /\ (checkCorrectness fl = true -> forall k,
       geti (rc cc') k = geti (rc cc) k - if decide (k = key) then 1 else 0).
Proof.
  unfold CompleteWrite. destruct (checkCorrectness fl); cbn [negb]; [|intros [= <-]; done].
  destruct (getm (values cc) key !! val); [done|]. destruct (getm (overwrittenValues cc) key !! val); [done|].
  destruct (_ && _); intros [= <-]; cbn; (split; [done|]); intros _ k; case_decide as E; subst;
    rewrite ?geti_insert, ?geti_insert_ne by congruence; lia.
Qed.

Lemma pending_app key js j :
  pending_writes key (js ++ [j]) = pending_writes key js + if decide (writes_key key j) then 1 else 0.
Proof.
  unfold pending_writes, len. rewrite filter_app, length_app, filter_cons, filter_nil. case_decide; cbn; lia.
Qed.

Lemma pending_delete key js k j :
  js !! k = Some j ->
  pending_writes key (delete k js) = pending_writes key js - if decide (writes_key key j) then 1 else 0.
Proof.
  intros Hk. unfold pending_writes, len. rewrite (delete_Permutation js k j Hk) at 2.
  rewrite filter_cons. case_decide; cbn; lia.
Qed.

Lemma pending_insert key js k j j' :
  js !! k = Some j ->
  pending_writes key (<[k := j']> js) = pending_writes key js
    - (if decide (writes_key key j) then 1 else 0) + (if decide (writes_key key j') then 1 else 0).
Proof.
  intros Hk. pose proof (lookup_lt_Some _ _ _ Hk) as Hlt. unfold pending_writes, len.
  rewrite insert_take_drop by done. rewrite <- (take_drop_middle js k j Hk) at 3.
  rewrite !filter_app, !length_app, !filter_cons. repeat case_decide; cbn; lia.
Qed.

Lemma len_delete {A} (l : list A) k x : l !! k = Some x -> len (delete k l) = len l - 1.
Proof. intros Hk. unfold len. apply delete_Permutation, Permutation_length in Hk. cbn in Hk. lia. Qed.

Lemma counters_end_get o st key start v p result allow now :
  counters_ok o st -> counters_ok o (end_get o st key start v p result allow now).
Proof.
  intros []. unfold end_get. destruct result as [[val found]|]; [|constructor; cbn; lia].
  destruct (CheckReadCorrect _ _ _ _ _ _ _ _ _) as [cc verd] eqn:E.
  apply CheckReadCorrect_spec in E as (_ & _ & _ & E). constructor; cbn; try lia; try done.
  destruct verd; [lia|destruct allow; destruct E as [?|[? ?]]; try done; lia..].
Qed.

Lemma end_get_cc o st key start v p result allow now :
  let cc := st_cc (end_get o st key start v p result allow now) in
  rc cc = rc (st_cc st) /\ values cc = values (st_cc st) /\ overwrittenValues cc = overwrittenValues (st_cc st).
Proof.
  unfold end_get. destruct result as [[val found]|]; [|done].
  destruct (CheckReadCorrect _ _ _ _ _ _ _ _ _) as [cc verd] eqn:E.
  apply CheckReadCorrect_spec in E as (? & ? & ? & _). done.
Qed.

Lemma wg_Add_Ret counter delta c : wg_Add counter delta = Ret c -> c = counter + delta.
Proof. unfold wg_Add. repeat case_match; congruence. Qed.

Lemma sem_Release_Ret size permits p : sem_Release size permits = Ret p -> p = permits + 1.
Proof. unfold sem_Release. case_match; congruence. Qed.

(** A request that is in flight holds a permit and is waited for, and so is a
    loop that runs. *)
Lemma finish_ok o w st k j : run_inv o w -> jobs w !! k = Some j ->
  finish o w st k = Ret (mkWorld st (sem w + 1) (wg w - 1) (get_loop w) (set_loop w) (delete k (jobs w))).
Proof.
  intros [Hs Hp Hw _ _] Hk%lookup_lt_Some. unfold finish, sem_Release, wg_Add, len in *.
  destruct (Z.ltb_spec (maxPendingRequests o) (sem w + 1)); [lia|]. cbn [mbind go_bind].
  destruct (Z.ltb_spec (wg w + -1) 0); [destruct (get_loop w), (set_loop w); lia|]. done.
Qed.

Lemma wg_loop_ok o w (is_set : bool) delta : run_inv o w -> (if is_set then set_loop w else get_loop w) = true ->
  delta = 1 \/ delta = -1 -> wg_Add (wg w) delta = Ret (wg w + delta).
Proof.
  intros [_ _ Hw _ _] Hl Hd. assert (1 <= wg w).
  { rewrite Hw. unfold len. destruct is_set; rewrite Hl; [destruct (get_loop w)|destruct (set_loop w)]; lia. }
  unfold wg_Add. destruct (Z.ltb_spec (wg w + delta) 0); [lia|]. destruct (Z.eqb_spec (wg w) 0); [lia|].
  by rewrite andb_false_r.
Qed.

Lemma spawn_inv o w is_set r micro w' :
  run_inv o w -> spawn w is_set r micro = Ret w' -> run_inv o w'.
Proof.
  intros [Hs Hp Hw Hc Hr] Hf. unfold spawn in Hf. destruct (Z.ltb_spec (sem w) 1); [done|].
  apply bind_Ret in Hf as (wg' & ->%wg_Add_Ret & Hf). apply bind_Ret in Hf as (key & _ & Hf).
  apply bind_Ret in Hf as ([g v] & _ & Hf). injection Hf as <-.
  assert (len (jobs w ++ [if is_set then JSet key v else JGet key]) = len (jobs w) + 1) as El
    by (unfold len; rewrite length_app; cbn; lia).
  constructor; cbn; rewrite ?El; [lia|lia|lia|done|]. intros Hck k.
  rewrite pending_app, Hr by done. destruct is_set; rewrite decide_False by (by intros ?); lia.
Qed.

Lemma step_inv o w a w' : run_inv o w -> step o w a = Ret w' -> run_inv o w'.
Proof.
  intros Hinv Hf. pose proof Hinv as [Hs Hp Hw Hc Hr].
  destruct a as [r m|r m|k now|k result allow now|k failed et now|is_set]; cbn -[finish] in Hf.
  - destruct (get_loop w); [by eapply spawn_inv|done].
  - destruct (set_loop w); [by eapply spawn_inv|done].
  - destruct (jobs w !! k) as [j|] eqn:Hk; [|done].
    assert (forall j', len (<[k := j']> (jobs w)) = len (jobs w)) as El
      by (intros; unfold len; by rewrite length_insert).
    destruct j as [key|key v| |]; try done.
    + destruct (BeginRead _ _ _) as [v p]. injection Hf as <-. constructor; cbn; rewrite ?El; try done.
      intros Hck k'. rewrite (pending_insert _ _ _ _ _ Hk), Hr by done.
      rewrite !decide_False by (by intros ?). lia.
    + destruct (BeginWrite _ _ _) as [cc v'] eqn:E. injection Hf as <-.
      apply BeginWrite_spec in E as (Ec & _ & _ & Erc). constructor; cbn; rewrite ?El; try done.
      * destruct Hc. constructor; cbn; rewrite ?Ec; done.
      * intros Hck k'. rewrite (pending_insert _ _ _ _ _ Hk), Erc, Hr by done.
        cbn [writes_key]. repeat case_decide; subst; try done; lia.
  - destruct (jobs w !! k) as [j|] eqn:Hk; [|done]. destruct j as [| |key st v p|]; try done.
    apply bind_Ret in Hf as (res & _ & Hf). rewrite (finish_ok _ _ _ _ _ Hinv Hk) in Hf. injection Hf as <-.
    constructor; cbn; rewrite ?(len_delete _ _ _ Hk); [lia|lia|lia|by apply counters_end_get|].
    intros Hck k'. rewrite (pending_delete _ _ _ _ Hk), <- Hr by done. rewrite decide_False by (by intros ?).
    rewrite (proj1 (end_get_cc _ _ _ _ _ _ _ _ _)). lia.
  - destruct (jobs w !! k) as [j|] eqn:Hk; [|done]. destruct j as [| | |key v st iv]; try done.
    apply bind_Ret in Hf as (e & _ & Hf). unfold end_set in Hf. apply bind_Ret in Hf as (st' & Hst & Hf).
    rewrite (finish_ok _ _ _ _ _ Hinv Hk) in Hf. injection Hf as <-.
    apply bind_Ret in Hst as (cc & E & Hst). injection Hst as <-. apply CompleteWrite_rc in E as [Ec Erc].
    constructor; cbn; rewrite ?(len_delete _ _ _ Hk); [lia|lia|lia| |].
    + destruct Hc. constructor; cbn; rewrite ?Ec; try done. destruct e; lia.
    + intros Hck k'. rewrite (pending_delete _ _ _ _ Hk), Erc, Hr by done. cbn [writes_key].
      repeat case_decide; subst; try done; lia.
  - destruct (if is_set then set_loop w else get_loop w) eqn:El; [|done].
    apply bind_Ret in Hf as (wg' & ->%wg_Add_Ret & Hf). injection Hf as <-.
    destruct is_set; constructor; cbn; try done; destruct (get_loop w), (set_loop w); try done; lia.
Qed.

Lemma start_inv o ks : run_inv o (start o (mkTester ks 0 0 0 0 0 MakeConsistencyChecker)).
Proof. constructor; cbn; try done; unfold len; cbn; lia. Qed.

(** The bookkeeping of a stress test is right, however requests overlap:
    never more than [maxPendingRequests] of them are in flight; the failed
    requests are at most the requests, and the reported inconsistencies at
    most the checks, which are at most the successful Gets, so none of the
    differences [main] prints is negative; and when [wait] returns, no request
    is in flight, all permits are back, and the checker knows of no pending
    write of any key. *)
Theorem stress_bookkeeping o ks acts w :
  0 <= maxPendingRequests o ->
  run o (start o (mkTester ks 0 0 0 0 0 MakeConsistencyChecker)) acts = Ret w ->
  len (jobs w) <= maxPendingRequests o
  /\ 0 <= gets (tester w) - getErrs (tester w) /\ 0 <= sets (tester w) - setErrs (tester w)
  /\ 0 <= inconsistencies (tester w) <= ChecksRun (st_cc (tester w))
  /\ ChecksRun (st_cc (tester w)) <= gets (tester w) - getErrs (tester w)
  /\ (waited w = true -> jobs w = [] /\ sem w = maxPendingRequests o
        /\ (checkCorrectness (checking o) = true -> forall key, geti (rc (st_cc (tester w))) key = 0)).
Proof.
  intros Hm Hrun. unfold run in Hrun.
  apply (go_fold_inv (run_inv o)) in Hrun; [|apply start_inv|intros; by eapply step_inv].
  destruct Hrun as [Hs Hp Hw [] Hr]. specialize (Hp Hm). split_and!; try lia. intros Hz%Z.eqb_eq.
  assert (jobs w = []) as Hj.
  { destruct (jobs w); [done|]. unfold len in Hw. cbn in Hw. destruct (get_loop w), (set_loop w); lia. }
  rewrite Hj in *. split_and!; [done|unfold len in *; cbn in *; lia|]. intros Hck key. by rewrite Hr.
Qed.

(** ** Values that are drawn once *)

Definition keyed (cc : ConsistencyChecker) : Prop :=
  forall key v x, getm (values cc) key !! v = Some x -> value x = v.

Definition known (cc : ConsistencyChecker) (key v : string) : Prop :=
  v ∈ dom (getm (values cc) key) ∪ dom (getm (overwrittenValues cc) key).

Lemma getm_insert_ne m (k k' : string) v : k <> k' -> getm (<[k := v]> m) k' = getm m k'.
Proof. intros Hne. unfold getm. by rewrite lookup_insert_ne. Qed.

Lemma CompleteWrite_fresh fl cc key val e iv me de now :
  keyed cc -> ~ known cc key val ->
  exists cc', CompleteWrite fl cc key val e iv me de now = Ret cc' /\ keyed cc'
    /\ forall k v, known cc' k v -> known cc k v \/ v = val.
Proof.
  intros Hkd Hn. unfold CompleteWrite. destruct (checkCorrectness fl); cbn [negb]; [|exists cc; auto].
  unfold known in Hn. apply not_elem_of_union in Hn as [F1%not_elem_of_dom F2%not_elem_of_dom].
  rewrite F1, F2. set (nv := mkValue val now me (de + ttlCheckBuffer fl) e).
  destruct (_ && _); eexists; (split; [done|]); unfold keyed, known; cbn [values overwrittenValues].
  - split.
    + intros k v x. destruct (decide (key = k)) as [<-|Hne].
      * rewrite getm_insert. intros [<- <-]%lookup_singleton_Some. done.
      * rewrite getm_insert_ne by done. apply Hkd.
    + intros k v. destruct (decide (key = k)) as [<-|Hne].
      * rewrite getm_insert, dom_singleton_L. case_decide as Em; [set_solver|].
        rewrite getm_insert, dom_overwrite by apply Hkd. set_solver.
      * rewrite getm_insert_ne by done. case_decide; [|rewrite getm_insert_ne by done]; auto.
  - split.
    + intros k v x. destruct (decide (key = k)) as [<-|Hne].
      * rewrite getm_insert. intros [[<- <-]|[_ Hv]]%lookup_insert_Some; [done|by eapply Hkd].
      * rewrite getm_insert_ne by done. apply Hkd.
    + intros k v. destruct (decide (key = k)) as [<-|Hne].
      * rewrite getm_insert, dom_insert_L. set_solver.
      * rewrite getm_insert_ne by done. auto.
Qed.

Definition job_value (j : job) : list string :=
  match j with JSet _ v | JWriting _ v _ _ => [v] | _ => [] end.
Definition in_flight (js : list job) : list string := js ≫= job_value.

Record value_inv (used : gset string) (w : world) : Prop := {
  v_keys : keys (tester w) <> [];
  v_keyed : keyed (st_cc (tester w));
  v_known : forall key v, known (st_cc (tester w)) key v -> v ∈ used;
  v_used : forall v, v ∈ in_flight (jobs w) -> v ∈ used;
  v_nodup : NoDup (in_flight (jobs w));
  v_fresh : forall key v, v ∈ in_flight (jobs w) -> ~ known (st_cc (tester w)) key v
}.

Lemma in_flight_delete js k j : js !! k = Some j -> in_flight js ≡ₚ job_value j ++ in_flight (delete k js).
Proof. intros Hk. unfold in_flight. by rewrite (delete_Permutation js k j Hk) at 1. Qed.

Lemma in_flight_insert js k j j' :
  js !! k = Some j -> job_value j' = job_value j -> in_flight (<[k := j']> js) = in_flight js.
Proof.
  intros Hk Hv. unfold in_flight. pose proof (lookup_lt_Some _ _ _ Hk).
  rewrite insert_take_drop by done. rewrite <- (take_drop_middle js k j Hk) at 3.
  rewrite !bind_app, !bind_cons. by rewrite Hv.
Qed.

(** The value of a Set is a function of the microsecond. *)
Definition value_at (micro : Z) : string :=
  match randomString (NewSource micro) 32 with Ret (_, v) => v | _ => ""%string end.

Definition drawn (a : action) : gset string :=
  match a with SpawnSet _ micro => {[ value_at micro ]} | _ => ∅ end.

(** An action draws a non-negative number for the key and, for a Set, a value
    that was not drawn before; the client does not panic. *)
Definition fresh (used : gset string) (a : action) : Prop :=
  match a with
  | SpawnGet r _ => 0 <= r
  | SpawnSet r micro => 0 <= r /\ value_at micro ∉ used
  | EndGet _ result _ _ => result <> Panic
  | EndSet _ failed _ _ => failed <> Panic
  | _ => True
  end.

Lemma value_at_spec micro : exists g, randomString (NewSource micro) 32 = Ret (g, value_at micro).
Proof.
  unfold value_at. destruct (randomString_spec (NewSource micro) 32) as (g & v & E & _). rewrite E. by exists g.
Qed.

Lemma pick_key_returns st r : keys st <> [] -> 0 <= r -> returns (pick_key st r).
Proof.
  intros Hne Hr. assert (0 < len (keys st)) as Hl by (unfold len; destruct (keys st); [done|cbn; lia]).
  unfold pick_key. destruct (Z.eqb_spec (len (keys st)) 0); [lia|]. apply go_index_returns.
  rewrite Z.rem_mod_nonneg by lia. by apply Z.mod_pos_bound.
Qed.

Definition safe (used : gset string) (r : go world) : Prop :=
  r = Block \/ exists w', r = Ret w' /\ value_inv used w'.

Lemma safe_spawn o used w (is_set : bool) r micro :
  run_inv o w -> (if is_set then set_loop w else get_loop w) = true -> value_inv used w -> 0 <= r -> (is_set = true -> value_at micro ∉ used) ->
  safe (used ∪ if is_set then {[ value_at micro ]} else ∅) (spawn w is_set r micro).
Proof.
  intros Hinv Hl [Hk Hkd Hkn Hu Hnd Hf] Hr Hv. unfold spawn. destruct (sem w <? 1); [by left|right].
  rewrite (wg_loop_ok o w is_set) by auto. cbn [mbind go_bind].
  destruct (pick_key_returns (tester w) r Hk Hr) as [key ->]. cbn [mbind go_bind].
  destruct (value_at_spec micro) as [g ->]. cbn [mbind go_bind]. eexists. split; [done|].
  constructor; cbn [tester jobs]; unfold in_flight in *; try done.
  - intros k v Hkv%Hkn. set_solver.
  - intros v. rewrite bind_app. destruct is_set; cbn; set_solver.
  - rewrite bind_app. destruct is_set; cbn; [|by rewrite app_nil_r]. apply NoDup_app. split; [done|].
    split; [|apply NoDup_singleton]. intros x Hx ->%list_elem_of_singleton. by apply (Hv eq_refl), Hu.
  - intros k v. rewrite bind_app, elem_of_app. intros [Hin|Hin]; [by apply Hf|].
    destruct is_set; cbn in Hin; [|by apply elem_of_nil in Hin]. apply list_elem_of_singleton in Hin as ->.
    intros Hkv%Hkn. by apply Hv.
Qed.

Lemma safe_step o used w a :
  run_inv o w -> value_inv used w -> fresh used a -> safe (used ∪ drawn a) (step o w a).
Proof.
  intros Hrun Hinv Hfr. pose proof Hinv as [Hk Hkd Hkn Hu Hnd Hf].
  assert (forall w', value_inv used w' -> used ∪ ∅ = used) as Eu by (intros; set_solver).
  destruct a as [r m|r m|k now|k result allow now|k failed et now|is_set]; cbn [step drawn].
  - destruct (get_loop w) eqn:El; [|by left]. by apply (safe_spawn o used w false).
  - destruct (set_loop w) eqn:El; [|by left]. destruct Hfr. by apply (safe_spawn o used w true).
  - rewrite (Eu w Hinv). destruct (jobs w !! k) as [[key|key v| |]|] eqn:Ej; try by left.
    + destruct (BeginRead _ _ _) as [v p]. right. eexists. split; [done|].
      constructor; cbn [tester jobs]; rewrite ?(in_flight_insert _ _ _ (JReading key now v p) Ej); done.
    + destruct (BeginWrite _ _ _) as [cc v'] eqn:E. apply BeginWrite_spec in E as (_ & Ev & Eo & _). right.
      eexists. split; [done|].
      constructor; cbn [tester jobs set_cc st_cc keys]; unfold keyed, known;
        rewrite ?(in_flight_insert _ _ _ (JWriting key v now v') Ej), ?Ev, ?Eo; done.
  - rewrite (Eu w Hinv). destruct (jobs w !! k) as [[| |key st v p|]|] eqn:Ej; try by left.
    destruct result as [result| |]; [right|done|by left]. cbn [mbind go_bind].
    rewrite (finish_ok _ _ _ _ _ Hrun Ej). eexists. split; [done|]. pose proof (in_flight_delete _ _ _ Ej) as Ep. cbn in Ep.
    destruct (end_get_cc o (tester w) key st v p result allow now) as (_ & Ev & Eo).
    constructor; cbn [tester jobs]; unfold keyed, known; rewrite ?Ev, ?Eo; try setoid_rewrite <- Ep; try done.
    unfold end_get. destruct result as [[val found]|]; [|done]. by destruct (CheckReadCorrect _ _ _ _ _ _ _ _ _).
  - rewrite (Eu w Hinv). destruct (jobs w !! k) as [[| | |key v st iv]|] eqn:Ej; try by left.
    destruct failed as [e| |]; [right|done|by left]. cbn [mbind go_bind].
    pose proof (in_flight_delete _ _ _ Ej) as Ep. cbn in Ep. setoid_rewrite Ep in Hu. setoid_rewrite Ep in Hf.
    rewrite Ep in Hnd. apply NoDup_cons in Hnd as [Hv Hnd]. unfold end_set.
    destruct (CompleteWrite_fresh (checking o) (st_cc (tester w)) key v e iv (st + ttl o) (et + ttl o) now)
      as (cc & -> & Hkd' & Hkn'); [done|apply Hf; left|]. cbn [mbind go_bind].
    rewrite (finish_ok _ _ _ _ _ Hrun Ej). eexists. split; [done|].
    constructor; cbn [tester jobs st_cc keys]; try done.
    + intros k' x [?| ->]%Hkn'; [by eapply Hkn|]. apply Hu. left.
    + intros x Hx. apply Hu. by right.
    + intros k' x Hx [?| ->]%Hkn'; [|done]. eapply Hf; [by right|done].
  - rewrite (Eu w Hinv). destruct (if is_set then set_loop w else get_loop w) eqn:El; [right|by left].
    rewrite (wg_loop_ok o w is_set) by auto. cbn [mbind go_bind].
    eexists. split; [done|]. destruct is_set; by constructor.
Qed.

Inductive fresh_run (o : options) (ks : list string) : gset string -> world -> Prop :=
| fresh_start : fresh_run o ks ∅ (start o (mkTester ks 0 0 0 0 0 MakeConsistencyChecker))
| fresh_step used w a w' : fresh_run o ks used w -> fresh used a -> step o w a = Ret w' ->
    fresh_run o ks (used ∪ drawn a) w'.

Lemma fresh_run_inv o ks used w : ks <> [] -> fresh_run o ks used w -> run_inv o w /\ value_inv used w.
Proof.
  intros Hks. induction 1 as [|used w a w' _ [IHr IH] Ha Hs].
  - split; [apply start_inv|]. constructor; cbn; try done; try set_solver. apply NoDup_nil_2.
  - split; [by eapply step_inv|]. destruct (safe_step o used w a IHr IH Ha) as [E|(x & E & Hx)]; rewrite Hs in E; [done|].
    by apply Ret_inj in E as ->.
Qed.

(** C30: A stress test does not crash as long as every Set draws a value of its
    own and the calls of the client do not panic: with at least one key, and
    whatever the store answers, no step of any interleaving panics. No value
    is a duplicate for the checker, no index is out of range, no permit is
    released that is not held, and the wait group neither becomes negative
    nor is added to after it has reached zero. *)
Theorem stress_never_panics o ks used w a :
  ks <> [] -> fresh_run o ks used w -> fresh used a -> step o w a <> Panic.
Proof.
  intros Hks Hrun Ha. apply fresh_run_inv in Hrun as [Hr Hv]; [|done].
  destruct (safe_step o used w a Hr Hv Ha) as [->|(x & -> & _)]; done.
Qed.
End Stress.

(** ** Runs *)

(** A generator that counts up from its seed. *)
#[local] Program Instance counting : RandSource Z := {
  NewSource seed := Z.abs seed;
  rng_Int g := (g + 1, Z.abs g)
}.
Next Obligation. intros g. cbn. lia. Qed.

Definition demo_options : options := mkOptions 2 1 2000 (mkFlags true true 10).
Definition demo_tester : stressTester := mkTester ["k"%string] 0 0 0 0 0 MakeConsistencyChecker.
Definition demo_start : world := start demo_options demo_tester.

(** A Set, then a Get of its value and one that fails, up to the end. *)
Definition demo_acts : list action :=
  [SpawnSet 0 5; BeginJob 0 0; EndSet 0 (Ret false) 1 1; SpawnGet 3 6; SpawnGet 4 7; BeginJob 0 2; BeginJob 1 2;
   EndGet 0 (Ret (Some ("fghijklmnopqrstuvwxyzabcdefghijk"%string, true))) true 3; EndGet 0 (Ret None) true 3;
   LoopEnd true; LoopEnd false].
Definition demo_end : world := match run demo_options demo_start demo_acts with Ret w => w | _ => demo_start end.

Lemma stress_bookkeeping_witness :
  len (jobs demo_end) <= 2 /\ 0 <= gets (tester demo_end) - getErrs (tester demo_end)
  /\ jobs demo_end = [] /\ sem demo_end = 2.
Proof.
  destruct (stress_bookkeeping demo_options ["k"%string] demo_acts demo_end) as (H1 & H2 & _ & _ & _ & Hw).
  - cbn. lia.
  - vm_compute. reflexivity.
  - split; [exact H1|]. split; [exact H2|]. destruct (Hw eq_refl) as (Hj & Hs & _). split; [exact Hj|exact Hs].
Defined.

Definition one_set : world :=
  match step demo_options demo_start (SpawnSet 0 5) with Ret w => w | _ => demo_start end.

Lemma stress_never_panics_witness : step demo_options one_set (SpawnSet 1 6) <> Panic.
Proof.
  apply (stress_never_panics demo_options ["k"%string] (∅ ∪ drawn (SpawnSet 0 5)) one_set).
  - discriminate.
  - apply (fresh_step demo_options ["k"%string] ∅ demo_start (SpawnSet 0 5) one_set).
    + apply fresh_start.
    + split; [lia|]. apply not_elem_of_empty.
    + vm_compute. reflexivity.
  - split; [lia|]. apply (bool_decide_unpack _). vm_compute. exact I.
Defined.

(** Two Sets of one key that are started in the same microsecond have the same
    value, and the checker panics when the second of them completes. *)
Theorem same_microsecond_panics :
  run demo_options demo_start
    [SpawnSet 0 5; SpawnSet 0 5; BeginJob 0 0; BeginJob 1 0; EndSet 0 (Ret false) 1 1; EndSet 0 (Ret false) 1 1] = Panic.
Proof. vm_compute. reflexivity. Qed.

(** A wrong answer is counted only when the limiter of the error log allows
    one more message: here the store returns a value that was never written,
    the check fails, and the test reports no inconsistency. *)
Theorem inconsistency_uncounted :
  exists w, run demo_options demo_start
      [SpawnSet 0 5; BeginJob 0 0; EndSet 0 (Ret false) 1 1; SpawnGet 0 6; BeginJob 0 2;
       EndGet 0 (Ret (Some ("wrong"%string, true))) false 3; LoopEnd true; LoopEnd false] = Ret w
    /\ waited w = true /\ ChecksRun (st_cc (tester w)) = 1 /\ inconsistencies (tester w) = 0.
Proof. eexists. split; [vm_compute; reflexivity|]. done. Qed.
