(* ===== verification/KvTestSetup.v ===== *)
(** * lab4/kv/test/test_setup.go: a test setup with its client

    A setup whose nodes are reached through the client pool of the tests is a
    second instance of the interface [KvNodes] of KvClient.v: clients that
    have been told to fail do fail, and a node without a client panics. The
    laws of the interface hold as long as no client is told to answer
    successfully on its own. [Get], [Set] and [Delete] of the setup are the
    client of KvClient.v on this instance.

    [Shutdown] stops the listen loop of every node and closes its listener,
    on the listeners of ShardMap.v. *)

From Stdlib Require Import String.
From stdpp Require Import prelude gmap strings.
From S2P Require Import Prelude Fnv ShardMap ShardWorkflows KvServer KvClient KvSystem KvTestPool StressTester.
Local Open Scope Z_scope.

(** ** A setup and the time *)

Record world : Type := mkWorld { ws : TestSetup; wt : Z }.

Definition pool_of (w : world) : gmap string TestClient := default ∅ (nodes (ts_pool (ws w))).
Definition numShards (w : world) : Z := NumShards (ts_map (ws w)).

(** A remote call of the client for [node]; nil has no methods. *)
Definition with_client {A} (w : world) (node : string)
    (f : TestClient -> heap -> go (TestClient * heap * A)) : go (world * A) :=
  match (KvTestPool.GetClient (ts_pool (ws w)) node).1 with
  | None => Panic
  | Some c =>
      let! '(c', h', r) := f c (ts_heap (ws w)) in
      Ret (mkWorld (mkSetup (ts_map (ws w)) (ts_nodes (ws w))
             (mkTestPool (getClientErrors (ts_pool (ws w))) (insert node c' <$> nodes (ts_pool (ws w)))) h')
             (wt w), r)
  end.

(** The response is nil exactly when there is an error. *)
Definition response {A} (no_response : A) (out : world * (option A * option error)) : go (world * (A * option error)) :=
  match out with
  | (w, (Some r, e)) => Ret (w, (r, e))
  | (w, (None, Some e)) => Ret (w, (no_response, Some e))
  | (_, (None, None)) => Panic
  end.

#[export] Instance setup_nodes : KvNodes world := {
  GetClient w node := (w, (KvTestPool.GetClient (ts_pool (ws w)) node).2);
  client_Get w node key :=
    let! out := with_client w node (fun c h => TestClient_Get c h (numShards w) (wt w) key) in
    response no_value out;
  client_Set w node key v ttlMs :=
    let! '(w, (_, e)) := with_client w node (fun c h => TestClient_Set c h (numShards w) (wt w) key v ttlMs) in
    Ret (w, e);
  client_Delete w node key :=
    let! '(w, (_, e)) := with_client w node (fun c h => TestClient_Delete c h (numShards w) key) in
    Ret (w, e)
}.

(** [ts.kv.Get] and the like; [start] and [order] are those of KvClient.v. *)
Definition setup_Get (w : world) (start : Z) (key : string) := kv_Get w (ts_map (ws w)) start key.
Definition setup_Set (w : world) (order : list string) (key value : string) (ttl : Z) :=
  kv_Set w (ts_map (ws w)) order key value ttl.
Definition setup_Delete (w : world) (order : list string) (key : string) :=
  kv_Delete w (ts_map (ws w)) order key.

(** ** What the client may rely on *)

(** The server of a node of the map *)
Definition server_of (w : world) (node : string) : option (nat * KvServer) :=
  _ ← Nodes (ts_map (ws w)) !! node;
  c ← pool_of w !! node;
  l ← server c;
  s ← ts_heap (ws w) !! l;
  Some (l, s).

Definition setup_served (w : world) (t : Z) (node key : string) : option string :=
  ls ← server_of w node; serves ls.2 (numShards w) t key.

(** No client answers on its own, except with an error; every node of the map
    has a client with a server, and no two have the same one. *)
Record setup_wf (w : world) : Prop := {
  swf_shards : numShards w <> 0;
  swf_mock : forall n c, pool_of w !! n = Some c ->
    getResponse c = None /\ setResponse c = None /\ deleteResponse c = None;
  swf_server : forall n, is_Some (Nodes (ts_map (ws w)) !! n) -> is_Some (server_of w n);
  swf_distinct : forall n n' l s s', server_of w n = Some (l, s) -> server_of w n' = Some (l, s') -> n = n'
}.

(** The client is there, unless [GetClient] has been told to give none. *)
Definition setup_has (w : world) (node : string) : Prop :=
  is_Some (Nodes (ts_map (ws w)) !! node) /\ getClientErrors (ts_pool (ws w)) !! node <> Some None.

Definition setup_advance (w : world) (t : Z) : world :=
  mkWorld (mkSetup (ts_map (ws w)) (ts_nodes (ws w)) (ts_pool (ws w)) (sweep_all t <$> ts_heap (ws w))) t.

#[export] Instance setup_view : KvView world := {
  w_now := wt;
  w_wf := setup_wf;
  has_client := setup_has;
  advance := setup_advance;
  served := setup_served
}.

(** ** A request, when the client has not been told to answer *)

(** The world after a request of [node]: the counter of its client has moved
    and its server is [s']. *)
Definition after (w : world) (node : string) (c : TestClient) (l : nat) (s' : KvServer) : world :=
  mkWorld (mkSetup (ts_map (ws w)) (ts_nodes (ws w))
    (mkTestPool (getClientErrors (ts_pool (ws w)))
       (insert node (set_sent (uint_w 64 (requestsSent c + 1)) c) <$> nodes (ts_pool (ws w))))
    (<[l := s']> (ts_heap (ws w)))) (wt w).

Lemma server_of_Some w node l s :
  server_of w node = Some (l, s) ->
  is_Some (Nodes (ts_map (ws w)) !! node) /\ ts_heap (ws w) !! l = Some s
  /\ exists c, pool_of w !! node = Some c /\ server c = Some l.
Proof.
  unfold server_of. destruct (Nodes (ts_map (ws w)) !! node) as [i|]; [|done]. cbn.
  destruct (pool_of w !! node) as [c|] eqn:Ec; [|done]. cbn.
  destruct (server c) as [l'|] eqn:El; [|done]. cbn.
  destruct (ts_heap (ws w) !! l') as [s'|] eqn:Es; [|done]. cbn. intros [= <- <-]. eauto 10.
Qed.

Lemma pool_client w node c :
  pool_of w !! node = Some c -> getClientErrors (ts_pool (ws w)) !! node <> Some None ->
  (KvTestPool.GetClient (ts_pool (ws w)) node).2 = None -> (KvTestPool.GetClient (ts_pool (ws w)) node).1 = Some c.
Proof.
  unfold pool_of, KvTestPool.GetClient. intros Hc Hne.
  destruct (getClientErrors _ !! node) as [e|]; [cbn; intros ->; done|].
  destruct (nodes (ts_pool (ws w))) as [ns|]; [done|]. cbn in Hc. by rewrite lookup_empty in Hc.
Qed.

(** Whatever the request, a client that is not overridden passes it on. *)
Lemma with_client_request {A} w node c l s f (call : KvServer -> go (KvServer * (option A * option error))) :
  setup_has w node -> (KvClient.GetClient w node).2 = None ->
  server_of w node = Some (l, s) -> pool_of w !! node = Some c ->
  (forall h, f c h = request c h None call) ->
  with_client w node f =
    match err c with
    | Some e => Ret (after w node c l s, (None, Some e))
    | None => let! '(s', r) := call s in Ret (after w node c l s', r)
    end.
Proof.
  intros [_ Hhas] Hg Hs Hc Hf. unfold with_client. cbn in Hg.
  rewrite (pool_client w node c Hc Hhas Hg), Hf. unfold request. cbn [err set_sent server].
  destruct (server_of_Some _ _ _ _ Hs) as (_ & Hh & c' & Hc' & Hsv). rewrite Hc in Hc'. injection Hc' as <-.
  destruct (err c) as [e|]; cbn.
  - unfold after. rewrite insert_id by done. done.
  - rewrite Hsv. cbn. rewrite Hh. cbn. by destruct (call s) as [[s' r]| |].
Qed.

(** ** What a request leaves *)

Section After.
Context (w : world) (node : string) (c : TestClient) (l : nat) (s s' : KvServer).
Context (Hwf : setup_wf w) (Hs : server_of w node = Some (l, s)) (Hc : pool_of w !! node = Some c).

Lemma pool_after : pool_of (after w node c l s') = <[node := set_sent (uint_w 64 (requestsSent c + 1)) c]> (pool_of w).
Proof.
  unfold pool_of in *. cbn. destruct (nodes (ts_pool (ws w))) as [ns|]; cbn in *; [done|].
  by rewrite lookup_empty in Hc.
Qed.

Lemma server_of_after n :
  server_of (after w node c l s') n = if decide (n = node) then Some (l, s') else server_of w n.
Proof.
  destruct (server_of_Some _ _ _ _ Hs) as ([i Hi] & Hh & c' & Hc' & Hsv). rewrite Hc in Hc'. injection Hc' as <-.
  unfold server_of at 1. rewrite pool_after. cbn [after ws ts_map ts_heap]. case_decide as E.
  - subst n. rewrite Hi. cbn. rewrite lookup_insert_eq. cbn. rewrite Hsv. cbn. by rewrite lookup_insert_eq.
  - rewrite lookup_insert_ne by done. unfold server_of.
    destruct (Nodes (ts_map (ws w)) !! n) as [i'|] eqn:Ei; [|done]. cbn.
    destruct (pool_of w !! n) as [cn|] eqn:En; [|done]. cbn. destruct (server cn) as [ln|] eqn:El; [|done]. cbn.
    destruct (decide (ln = l)) as [->|Hne]; [|by rewrite lookup_insert_ne].
    exfalso. apply E. eapply (swf_distinct w Hwf n node l s s); [|exact Hs].
    unfold server_of. rewrite Ei. cbn. rewrite En. cbn. rewrite El. cbn. by rewrite Hh.
Qed.

Lemma after_wf : setup_wf (after w node c l s').
Proof.
  split.
  - apply Hwf.
  - intros n cn. rewrite pool_after. intros [[<- <-]|[_ Hn]]%lookup_insert_Some; [|by eapply swf_mock].
    exact (swf_mock w Hwf node c Hc).
  - intros n Hn. rewrite server_of_after. case_decide; [done|]. by apply (swf_server w Hwf).
  - intros n n' l0 s0 s0'. rewrite !server_of_after. pose proof (swf_distinct w Hwf) as Hd.
    repeat case_decide; subst; intros; simplify_eq; eauto.
Qed.

Lemma after_has n : setup_has w n -> setup_has (after w node c l s') n.
Proof. done. Qed.

Lemma after_client n : (KvClient.GetClient (after w node c l s') n).2 = (KvClient.GetClient w n).2.
Proof.
  cbn. unfold KvTestPool.GetClient. cbn. destruct (getClientErrors _ !! n); [done|].
  by destruct (nodes (ts_pool (ws w))).
Qed.

Lemma after_served t n k :
  setup_served (after w node c l s') t n k = if decide (n = node) then serves s' (numShards w) t k else setup_served w t n k.
Proof. unfold setup_served. rewrite server_of_after. by case_decide. Qed.

End After.

(** A client answers when it is there, has not been told to fail, and has an
    answer of its own or a server that answers. *)
Lemma responds_iff w n k :
  responds w n k <-> exists c, (KvTestPool.GetClient (ts_pool (ws w)) n).1 = Some c /\ err c = None /\
    (is_Some (getResponse c) \/ (getResponse c = None /\ exists l s r, server c = Some l
       /\ ts_heap (ws w) !! l = Some s /\ Get s (numShards w) (wt w) k = Ret (r, None))).
Proof.
  unfold responds. cbn. unfold with_client.
  destruct (KvTestPool.GetClient (ts_pool (ws w)) n).1 as [c|]; [|split; [by intros (? & ? & ?)|by intros (? & ? & _)]].
  unfold TestClient_Get, request. cbn.
  destruct (err c) as [e|] eqn:Ee; cbn.
  { split; [by intros (? & ? & ?)|]. intros (c' & [= <-] & ? & _). congruence. }
  destruct (getResponse c) as [r|] eqn:Er; cbn.
  { split; [intros _; exists c; rewrite Ee, Er; eauto|]. intros _. eauto. }
  destruct (server c) as [l|] eqn:El; cbn.
  2: { split; [by intros (? & ? & ?)|]. intros (c' & [= <-] & _ & [[? ?]|(_ & ? & ? & ? & ? & _)]); congruence. }
  destruct (ts_heap (ws w) !! l) as [s|] eqn:Es; cbn.
  2: { split; [by intros (? & ? & ?)|]. intros (c' & [= <-] & _ & [[? ?]|(_ & ? & ? & ? & ? & ? & _)]); congruence. }
  unfold serve_get. destruct (Get s (numShards w) (wt w) k) as [[r e]| |] eqn:Eg; cbn.
  - split.
    + intros (w' & r' & [= _ -> ->]). exists c. rewrite Ee, Er, El. eauto 15.
    + intros (c' & [= <-] & _ & [[? ?]|(_ & l' & s' & r' & ? & ? & ?)]); simplify_eq.
      rewrite Eg in *. simplify_eq. eexists _, _. reflexivity.
  - split; [by intros (? & ? & ?)|]. intros (c' & [= <-] & _ & [[? ?]|(_ & l' & s' & r' & ? & ? & ?)]); simplify_eq; congruence.
  - split; [by intros (? & ? & ?)|]. intros (c' & [= <-] & _ & [[? ?]|(_ & l' & s' & r' & ? & ? & ?)]); simplify_eq; congruence.
Qed.

(** A request that leaves its server as it was changes no node. *)
Lemma after_same w node c l s :
  setup_wf w -> server_of w node = Some (l, s) -> pool_of w !! node = Some c -> same_nodes w (after w node c l s).
Proof.
  intros Hwf Hs Hc. split.
  - by eapply (after_wf w node c l s s).
  - done.
  - by intros n Hn.
  - intros t n k. cbn. rewrite (after_served w node c l s s) by done. case_decide; [subst|done].
    unfold setup_served. by rewrite Hs.
  - intros n. apply after_client.
  - intros n k. rewrite !responds_iff. destruct (server_of_Some _ _ _ _ Hs) as (_ & Hh & _).
    assert (ts_heap (ws (after w node c l s)) = ts_heap (ws w)) as -> by (cbn; by rewrite insert_id).
    unfold KvTestPool.GetClient, pool_of in *. cbn. destruct (getClientErrors _ !! n); [done|].
    destruct (nodes (ts_pool (ws w))) as [ns|]; cbn in *; [|done].
    destruct (decide (n = node)) as [->|Hne]; [|by rewrite lookup_insert_ne].
    rewrite lookup_insert_eq, Hc. split; intros (c' & [= <-] & ?); eexists; (split; [done|]); done.
Qed.

(** ** The laws *)

Lemma Get_total s n now key : n <> 0 -> exists r e, Get s n now key = Ret (r, e).
Proof.
  intros Hn. unfold Get. case_decide; [eauto|]. rewrite GetShardForKey_Ret by done. cbn.
  destruct (_ !! _) as [d|]; [|eauto]. destruct (d !! key) as [it|]; [|eauto]. destruct (expired now it); eauto.
Qed.

Lemma on_shard_total s n key f : n <> 0 -> exists s' e, on_shard s n key f = Ret (s', e).
Proof.
  intros Hn. unfold on_shard. case_decide; [eauto|]. rewrite GetShardForKey_Ret by done. cbn.
  destruct (_ !! _); eauto.
Qed.

(** The client and the server of a node *)
Lemma client_of w node :
  setup_wf w -> setup_has w node -> exists c l s, pool_of w !! node = Some c /\ server_of w node = Some (l, s).
Proof.
  intros Hwf [Hn _]. destruct (swf_server w Hwf node Hn) as [[l s] Hs].
  destruct (server_of_Some _ _ _ _ Hs) as (_ & _ & c & Hc & _). by exists c, l, s.
Qed.

Lemma after_written w node c l s s' key e val :
  setup_wf w -> server_of w node = Some (l, s) -> pool_of w !! node = Some c ->
  (forall t k, serves s' (numShards w) t k =
     match e with
     | None => if decide (k = key) then val t else serves s (numShards w) t k
     | Some _ => serves s (numShards w) t k
     end) ->
  written w (after w node c l s') node key e val.
Proof.
  intros Hwf Hs Hc Hv. split; cbn.
  - by eapply after_wf.
  - done.
  - auto.
  - intros t n k Hne. rewrite (after_served w node c l s s') by done. case_decide; [subst|done].
    unfold setup_served. rewrite Hs, Hv. cbn. destruct e; [done|]. rewrite decide_False by congruence. done.
  - intros -> t. rewrite (after_served w node c l s s'), decide_True by done. by rewrite Hv, decide_True.
Qed.

(** [Set] and [Delete] of a client *)
Lemma client_write w node f (op : KvServer -> go (KvServer * option error)) key val :
  setup_wf w -> setup_has w node -> (KvClient.GetClient w node).2 = None ->
  (forall c h, pool_of w !! node = Some c -> f c h = request c h None (serve_write op key)) ->
  (forall s, exists s' e, op s = Ret (s', e)) ->
  (forall s s' e t k, op s = Ret (s', e) -> serves s' (numShards w) t k =
     match e with
     | None => if decide (k = key) then val t else serves s (numShards w) t k
     | Some _ => serves s (numShards w) t k
     end) ->
  exists w' e, (let! '(w, (_, e)) := with_client w node f in Ret (w, e)) = Ret (w', e)
    /\ written w w' node key e val.
Proof.
  intros Hwf Hhas Hg Hf Hop Hv. destruct (client_of w node Hwf Hhas) as (c & l & s & Hc & Hs).
  rewrite (with_client_request w node c l s f (serve_write op key)) by auto.
  destruct (err c) as [e|].
  - eexists _, _. split; [done|]. by apply (after_written w node c l s).
  - unfold serve_write. destruct (Hop s) as (s' & e & Ho). rewrite Ho. cbn.
    eexists _, _. split; [done|]. apply (after_written w node c l s); auto.
Qed.

Lemma server_of_advance w t n :
  server_of (setup_advance w t) n = (fun ls => (ls.1, sweep_all t ls.2)) <$> server_of w n.
Proof.
  unfold server_of. cbn. destruct (Nodes _ !! n); [|done]. cbn.
  destruct (pool_of w !! n) as [c|] eqn:Ec; unfold pool_of in *; cbn; rewrite Ec; [|done]. cbn.
  destruct (server c) as [l|]; [|done]. cbn. rewrite lookup_fmap. by destruct (ts_heap (ws w) !! l).
Qed.

#[export] Program Instance setup_laws : KvNodesLaws world.
Next Obligation.
  intros w node Hwf. cbn in *. split; [done|done|by intros n Hn|done|done|]. intros n k. done.
Qed.
Next Obligation.
  intros w node key Hwf Hhas Hg. destruct (client_of w node Hwf Hhas) as (c & l & s & Hc & Hs).
  destruct (swf_mock w Hwf node c Hc) as (Hm & _ & _).
  cbn [KvClient.client_Get setup_nodes].
  rewrite (with_client_request w node c l s _ (serve_get (numShards w) (wt w) key))
    by (auto; intros h; unfold TestClient_Get; by rewrite Hm).
  destruct (err c) as [e|].
  - eexists _, _, _. split; [done|]. split; [by apply after_same|done].
  - unfold serve_get. destruct (Get_total s (numShards w) (wt w) key) as (r & e & Eg); [apply Hwf|]. rewrite Eg. cbn.
    eexists _, _, _. split; [done|]. split; [by apply after_same|]. intros ->.
    apply Get_ok_serves in Eg as ->; [|apply Hwf]. unfold setup_served. by rewrite Hs.
Qed.
Next Obligation.
  intros w node key v ttlMs Hwf Hhas Hg. cbn [KvClient.client_Set setup_nodes].
  apply (client_write w node _ (fun s => KvServer.Set_ s (numShards w) (wt w) key v ttlMs)); auto.
  - intros c h Hc. unfold TestClient_Set. by destruct (swf_mock w Hwf node c Hc) as (_ & -> & _).
  - intros s. apply on_shard_total, Hwf.
  - intros s s' e t k Hf. destruct e as [e|]; [by apply on_shard_fail in Hf as ->; [|apply Hwf]|].
    apply Set_serves in Hf as (_ & _ & _ & ->); [|apply Hwf]. by case_decide.
Qed.
Next Obligation.
  intros w node key Hwf Hhas Hg. cbn [KvClient.client_Delete setup_nodes].
  apply (client_write w node _ (fun s => KvServer.Delete s (numShards w) key)); auto.
  - intros c h Hc. unfold TestClient_Delete. by destruct (swf_mock w Hwf node c Hc) as (_ & _ & ->).
  - intros s. apply on_shard_total, Hwf.
  - intros s s' e t k Hf. destruct e as [e|]; [by apply on_shard_fail in Hf as ->; [|apply Hwf]|].
    by apply Delete_serves in Hf as (_ & ->); [|apply Hwf].
Qed.
Next Obligation.
  intros w t Hwf Ht. cbn in *.
  pose proof (server_of_advance w t) as Hso.
  split; [split|split; [done|split; [done|]]].
  - apply Hwf.
  - apply Hwf.
  - intros n Hn. rewrite Hso. by apply fmap_is_Some, (swf_server w Hwf).
  - intros n n' l s s'. rewrite !Hso. intros ([l1 s1] & E1 & [= -> ->])%fmap_Some ([l2 s2] & E2 & [= -> ->])%fmap_Some.
    by eapply (swf_distinct w Hwf).
  - intros t' n k Ht'. unfold setup_served. rewrite Hso. destruct (server_of w n) as [[l s]|]; [|done]. cbn.
    by apply sweep_all_serves.
Qed.

(** ** A setup in which nothing fails *)

(** The node has a client that passes requests on to a server with the key's
    shard. *)
Definition ready (w : world) (key node : string) : Prop :=
  exists c l s, KvTestPool.GetClient (ts_pool (ws w)) node = (Some c, None) /\ err c = None
    /\ getClientErrors (ts_pool (ws w)) !! node = None
    /\ pool_of w !! node = Some c /\ server_of w node = Some (l, s) /\ hosts s (numShards w) key.

Lemma ready_has w key node : ready w key node -> setup_has w node.
Proof.
  intros (c & l & s & _ & _ & He & _ & Hs & _). split; [|by rewrite He].
  by destruct (server_of_Some _ _ _ _ Hs).
Qed.

Lemma ready_node_answers w key node : setup_wf w -> key <> ""%string -> ready w key node -> answers w node key.
Proof.
  intros Hwf Hk (c & l & s & Hg & He & _ & Hc & Hs & Hh). split; [cbn; by rewrite Hg|].
  apply responds_iff. exists c. rewrite Hg. split; [done|]. split; [done|]. right.
  destruct (swf_mock w Hwf node c Hc) as (Hm & _ & _). split; [done|].
  destruct (server_of_Some _ _ _ _ Hs) as (_ & Hl & c' & Hc' & Hsv). rewrite Hc in Hc'. injection Hc' as <-.
  exists l, s, (response_of (serves s (numShards w) (wt w) key)). split; [done|]. split; [done|].
  apply Get_serves; [apply Hwf|done|done].
Qed.

(** A write that keeps the shards of its server keeps the nodes ready. *)
Lemma after_ready w key node c l s s' n :
  setup_wf w -> server_of w node = Some (l, s) -> pool_of w !! node = Some c -> err c = None ->
  (hosts s (numShards w) key -> hosts s' (numShards w) key) ->
  ready w key n -> ready (after w node c l s') key n.
Proof.
  intros Hwf Hs Hc He Hh (cn & ln & sn & Hg & Hen & Hge & Hcn & Hsn & Hhn). unfold ready.
  rewrite (server_of_after w node c l s s'), (pool_after w node c l s') by done.
  assert (forall c', (<[node := set_sent (uint_w 64 (requestsSent c + 1)) c]> (pool_of w)) !! n = Some c' ->
    KvTestPool.GetClient (ts_pool (ws (after w node c l s'))) n = (Some c', None)) as Hg'.
  { intros c'. unfold KvTestPool.GetClient, pool_of in *. cbn. rewrite Hge.
    destruct (nodes (ts_pool (ws w))) as [ns|]; cbn in *; [by intros ->|by rewrite lookup_empty in Hc]. }
  case_decide as E.
  - subst n. rewrite Hs in Hsn. injection Hsn as <- <-. eexists _, _, _.
    split; [apply Hg'; apply lookup_insert_eq|]. rewrite lookup_insert_eq. split_and!; auto.
  - exists cn, ln, sn. rewrite lookup_insert_ne by done. split; [apply Hg'; by rewrite lookup_insert_ne|]. done.
Qed.

Lemma Set_hosted s n now key v ttlMs :
  n <> 0 -> key <> ""%string -> hosts s n key ->
  exists s', KvServer.Set_ s n now key v ttlMs = Ret (s', None) /\ (hosts s n key -> hosts s' n key).
Proof.
  intros Hn Hk [d Hd]. unfold Set_, on_shard. rewrite decide_False, GetShardForKey_Ret by done. cbn.
  fold (shard_of key n). rewrite Hd. eexists. split; [done|]. intros Hh. by apply (hosts_update s n key (shard_of key n) d).
Qed.

Lemma set_ready w key node v ttlMs :
  setup_wf w -> key <> ""%string -> ready w key node ->
  exists w', client_Set w node key v ttlMs = Ret (w', None)
    /\ setup_wf w' /\ ts_map (ws w') = ts_map (ws w) /\ wt w' = wt w /\ (forall n, ready w key n -> ready w' key n).
Proof.
  intros Hwf Hk Hr. pose proof (ready_has _ _ _ Hr) as Hhas. destruct Hr as (c & l & s & Hg & He & _ & Hc & Hs & Hh).
  destruct (swf_mock w Hwf node c Hc) as (_ & Hm & _). cbn [KvClient.client_Set setup_nodes].
  rewrite (with_client_request w node c l s _
    (serve_write (fun s => KvServer.Set_ s (numShards w) (wt w) key v ttlMs) key));
    [|done|cbn; by rewrite Hg|done|done|intros h; unfold TestClient_Set; by rewrite Hm].
  rewrite He. unfold serve_write. destruct (Set_hosted s (numShards w) (wt w) key v ttlMs) as (s' & Es & Hs');
    [apply Hwf|done|done|].
  rewrite Es. cbn. eexists. split; [done|]. split; [by apply (after_wf w node c l s s')|]. split; [done|].
  split; [done|]. intros n. by apply (after_ready w key node c l s s').
Qed.

(** Every replica is written when every replica is ready. *)
Lemma set_all_ready w key v ttlMs order :
  setup_wf w -> key <> ""%string -> (forall n, n ∈ order -> ready w key n) ->
  exists w', call_all (fun w node => client_Set w node key v ttlMs) w order = Ret (w', None)
    /\ setup_wf w' /\ ts_map (ws w') = ts_map (ws w) /\ wt w' = wt w /\ (forall n, ready w key n -> ready w' key n).
Proof.
  intros Hwf Hk. revert w Hwf. induction order as [|node order IH]; intros w Hwf Hr; cbn [call_all].
  { exists w. split_and!; auto. }
  destruct (set_ready w key node v ttlMs Hwf Hk) as (w1 & Es & Hwf1 & Hm1 & Ht1 & H1); [apply Hr; left|].
  assert (replica_call (fun w node => client_Set w node key v ttlMs) w node = Ret (w1, None)) as ->.
  { unfold replica_call. destruct (Hr node) as (c & l & s & Hg & _); [left|].
    cbn [KvClient.GetClient setup_nodes]. rewrite Hg. exact Es. }
  cbn [mbind go_bind]. destruct (IH w1 Hwf1) as (w2 & -> & Hwf2 & Hm2 & Ht2 & H2); [intros n Hn; apply H1, Hr; by right|].
  exists w2. split_and!; auto; congruence.
Qed.

Lemma advance_ready w key t n : ready w key n -> ready (setup_advance w t) key n.
Proof.
  intros (c & l & s & Hg & He & Hge & Hc & Hs & Hh). exists c, l, (sweep_all t s). rewrite server_of_advance, Hs.
  split_and!; auto. unfold hosts, sweep_all. cbn. rewrite lookup_fmap. by apply fmap_is_Some.
Qed.

(** What the constructor makes *)
Section Made.
Context (sm : ShardMapState) (start : Z -> Z) (now : Z) (ts : TestSetup).
Context (Hv : valid_assignment sm) (Hn : 0 < NumShards sm < 2 ^ 31) (Hmk : MakeTestSetup sm start now = Ret ts).

Lemma made_pool :
  getClientErrors (ts_pool ts) = ∅
  /\ exists ns, nodes (ts_pool ts) = Some ns /\ forall n c, ns !! n = Some c -> no_override c.
Proof.
  unfold MakeTestSetup in Hmk. apply bind_Ret in Hmk as ([ns h] & _ & E). injection E as <-. cbn. split; [done|].
  eexists. split; [done|]. intros m c. rewrite lookup_fmap. intros (? & _ & ->)%fmap_Some. done.
Qed.

Lemma made_map : ts_map ts = sm.
Proof. unfold MakeTestSetup in Hmk. apply bind_Ret in Hmk as ([ns h] & _ & E). by injection E as <-. Qed.

Lemma made_server m :
  is_Some (Nodes sm !! m) -> exists c l s,
    KvTestPool.GetClient (ts_pool ts) m = (Some c, None) /\ pool_of (mkWorld ts now) !! m = Some c /\ err c = None
    /\ server_of (mkWorld ts now) m = Some (l, s) /\ nodeName s = m
    /\ forall k, m ∈ NodesForShard sm k -> is_Some (availableShards s !! k).
Proof.
  intros Hm. destruct (MakeTestSetup_spec sm start now Hv) as (ts' & Hmk' & _ & Hts); [lia|].
  rewrite Hmk in Hmk'. injection Hmk' as Ets.
  destruct (Hts m Hm) as (l & s & _ & Hs & Hname & Hav & c & Hg & Hsv & _ & He & _). rewrite <- Ets in *.
  exists c, l, s. split; [done|]. destruct made_pool as (Hge & ns & Hns & _).
  assert (pool_of (mkWorld ts now) !! m = Some c) as Hc.
  { unfold KvTestPool.GetClient in Hg. rewrite Hge, lookup_empty, Hns in Hg. unfold pool_of. cbn. rewrite Hns.
    by injection Hg. }
  split_and!; [done|done| |done|intros k Hk; rewrite Hav; by case_decide].
  unfold server_of. cbn. rewrite made_map. destruct Hm as [i ->]. cbn. rewrite Hc. cbn. rewrite Hsv. cbn. by rewrite Hs.
Qed.

Lemma made_wf : setup_wf (mkWorld ts now).
Proof.
  assert (forall n l s, server_of (mkWorld ts now) n = Some (l, s) -> nodeName s = n) as Hname.
  { intros n l s Hs. pose proof (server_of_Some _ _ _ _ Hs) as ([i Hi] & _). cbn in Hi. rewrite made_map in Hi.
    destruct (made_server n) as (c & l' & s' & _ & _ & _ & Hs' & ? & _); [eauto|]. congruence. }
  split.
  - unfold numShards. cbn. rewrite made_map. lia.
  - intros n c. destruct made_pool as (_ & ns & Hns & Hno). unfold pool_of. cbn. rewrite Hns. cbn.
    intros (_ & ? & ? & ? & _)%Hno. done.
  - intros n. cbn. rewrite made_map. intros Hm. destruct (made_server n Hm) as (c & l & s & _ & _ & _ & -> & _). eauto.
  - intros n n' l s s' H1 H2. pose proof (Hname _ _ _ H1). pose proof (Hname _ _ _ H2).
    destruct (server_of_Some _ _ _ _ H1) as (_ & L1 & _). destruct (server_of_Some _ _ _ _ H2) as (_ & L2 & _).
    congruence.
Qed.

Lemma made_ready key n :
  n ∈ NodesForShard sm (Z.rem (fnv32 key) (NumShards sm) + 1) -> ready (mkWorld ts now) key n.
Proof.
  intros Hin. destruct (valid_nodes sm (Z.rem (fnv32 key) (NumShards sm) + 1) Hv) as [_ Hnodes].
  destruct (made_server n) as (c & l & s & Hg & Hc & He & Hs & _ & Hav); [by apply Hnodes|].
  exists c, l, s. split_and!; try done.
  - cbn. by rewrite (proj1 made_pool), lookup_empty.
  - unfold hosts, shard_of, numShards. cbn. rewrite made_map. pose proof (hosted_range sm _ n Hv Hin).
    rewrite int32_id by lia. by apply Hav.
Qed.

End Made.

(** C11: A fresh setup stores what it is given: for a valid map, a key that is not
    empty and a shard that has a node, [Set] on the setup that
    [MakeTestSetup] returns writes every replica without an error, and every
    [Get] at a later time then succeeds, whichever replica it starts from,
    and returns the value while its time to live, in whole milliseconds, has
    not passed, and nothing afterwards. *)
Theorem setup_stores sm start now ts order key value ttl first t :
  valid_assignment sm -> 0 < NumShards sm < 2 ^ 31 -> key <> ""%string ->
  NodesForShard sm (Z.rem (fnv32 key) (NumShards sm) + 1) <> [] ->
  order ≡ₚ NodesForShard sm (Z.rem (fnv32 key) (NumShards sm) + 1) ->
  MakeTestSetup sm start now = Ret ts -> now <= t ->
  exists w, setup_Set (mkWorld ts now) order key value ttl = Ret (w, None)
    /\ exists w' v found, setup_Get (setup_advance w t) first key = Ret (w', (v, found, None))
         /\ mkGetResponse v found =
              response_of (if Milliseconds (t - now) <? Z.quot ttl 1000000 then Some value else None).
Proof.
  intros Hv Hn Hk Hne Hord Hmk Ht. set (w0 := mkWorld ts now).
  pose proof (made_wf sm start now ts Hv Hn Hmk) as Hwf. pose proof (made_map sm start now ts Hmk) as Hmap.
  assert (forall n, n ∈ order -> ready w0 key n) as Hr by (intros n Hin; apply (made_ready sm start now ts Hv Hn Hmk);
    by rewrite <- Hord).
  set (shard := Z.rem (fnv32 key) (NumShards sm) + 1) in *.
  assert (GetShardForKey key (NumShards sm) = Ret shard) as Hsh by (apply GetShardForKey_Ret; lia).
  destruct (set_all_ready w0 key value (Z.quot ttl 1000000) order Hwf Hk Hr) as (w & Es & Hwf' & Hmap' & Ht' & Hr').
  assert (setup_Set w0 order key value ttl = Ret (w, None)) as Hset.
  { unfold setup_Set, kv_Set, kv_write. cbn [w0 ws]. rewrite Hmap, Hsh. cbn [mbind go_bind].
    destruct (Z.eqb_spec (len (NodesForShard sm shard)) 0) as [E|_]; [|exact Es].
    destruct (NodesForShard sm shard); [done|]. unfold len in E. cbn in E. lia. }
  exists w. split; [done|]. unfold setup_Get. cbn [ws setup_advance ts_map]. rewrite Hmap'. cbn [w0 ws]. rewrite Hmap.
  destruct (advance_law w t) as (Hwf2 & Hnow2 & _ & _); [exact Hwf'|cbn; by rewrite Ht'|].
  assert (forall n, n ∈ NodesForShard sm shard -> ready (setup_advance w t) key n) as Hr2
    by (intros n Hin; apply advance_ready, Hr', Hr; by rewrite Hord).
  destruct (kv_Get_spec (setup_advance w t) sm first key shard Hwf2 Hsh Hne) as (w' & v & found & e & Hget & He & _).
  { intros n Hin. apply (ready_has _ key). auto. }
  assert (e = None) as ->.
  { apply He. destruct (NodesForShard sm shard) as [|n ns] eqn:E; [done|]. exists n. split; [left|].
    apply ready_node_answers; [done|done|]. apply Hr2. left. }
  exists w', v, found. split; [done|].
  change now with (w_now w0). apply (kv_Set_reads w0 w w' sm order key value ttl first t v found);
    [exact Hwf| | | | |exact Ht|exact Hget].
  - intros sh. rewrite Hsh. by intros [= <-].
  - rewrite Hord. by apply valid_nodes.
  - intros n Hin. apply (ready_has _ key). auto.
  - unfold setup_Set in Hset. cbn [w0 ws] in Hset. by rewrite Hmap in Hset.
Qed.

Lemma setup_stores_witness :
  exists ts w w', MakeTestSetup two (fun _ => 0) 7 = Ret ts
    /\ setup_Set (mkWorld ts 7) ["n2"; "n1"]%string "k" "v" 50000000 = Ret (w, None)
    /\ setup_Get (setup_advance w 30000007) 1 "k" = Ret (w', ("v"%string, true, None)).
Proof.
  exists ts0.
  destruct (setup_stores two (fun _ => 0) 7 ts0 ["n2"; "n1"]%string "k" "v" 50000000 1 30000007)
    as (w & E & w' & v & found & E' & Er).
  - apply check_assignment_ok. vm_compute. reflexivity.
  - split; reflexivity.
  - discriminate.
  - vm_compute. discriminate.
  - assert (NodesForShard two (Z.rem (fnv32 "k") (NumShards two) + 1) = ["n1"; "n2"]%string) as ->
      by (vm_compute; reflexivity).
    constructor.
  - vm_compute. reflexivity.
  - discriminate.
  - exists w, w'. split; [vm_compute; reflexivity|]. split; [exact E|]. rewrite E'. cbn in Er. by injection Er as -> ->.
Defined.

(** ** Shutdown

    A setup together with its [ShardMap] and the listener that every server
    has registered there, by the address of the server. *)

Record fixture : Type := mkFixture {
  fx_setup : TestSetup;
  fx_listener : gmap nat Z;
  fx_map : Listeners.ShardMap
}.

(** [MakeKvServer] registers a listener before anything else. *)
Definition add_listener (fx : gmap nat Z * Listeners.ShardMap) (l : nat) : gmap nat Z * Listeners.ShardMap :=
  let '(sm, id) := Listeners.makeListener fx.2 in (<[l := id]> fx.1, sm).

(** The servers are made one after the other, at the addresses 0, 1, ... *)
Definition MakeFixture (sm : ShardMapState) (start : Z -> Z) (now : Z) : go fixture :=
  let! ts := MakeTestSetup sm start now in
  let '(listener, shardMap) := foldl add_listener (∅, Listeners.mkShardMap (Some sm) ∅ 0 [])
                                 (seq 0 (size (ts_heap ts))) in
  Ret (mkFixture ts listener shardMap).

(** [server.Shutdown]: the send waits until the listen loop, if it is handling
    an update, is back at its select; a loop that has returned receives
    nothing. *)
Definition server_Shutdown (sm : Listeners.ShardMap) (id : Z) : go Listeners.ShardMap :=
  let sm := default sm (Listeners.step sm (Listeners.LoopHandled id)) in
  match Listeners.step sm (Listeners.LoopShutdown id) with
  | None => Block
  | Some sm =>
      match Listeners.step sm (Listeners.Close id) with
      | None => Block
      | Some sm => Ret sm
      end
  end.

Definition listener_of (fx : fixture) (name : string) : option Z :=
  o ← ts_nodes (fx_setup fx) !! name; l ← o; fx_listener fx !! l.

(** [order] is the order in which the loop visits the nodes; a nil server has
    no channel. *)
Definition Shutdown (fx : fixture) (order : list string) : go fixture :=
  let! sm := go_fold (fun sm name =>
      match listener_of fx name with
      | None => Panic
      | Some id => server_Shutdown sm id
      end) (fx_map fx) order in
  Ret (mkFixture (fx_setup fx) (fx_listener fx) sm).

Definition RunTestWith (testFunc : fixture -> go fixture) (setup : fixture) (order : list string) : go fixture :=
  let! setup := testFunc setup in
  Shutdown setup order.

(** [RandomKeys] of the tests has the body of [randomKeys] of the stress tester. *)
Definition RandomKeys {G : Type} `{RandSource G} (n length now : Z) : go (list string) :=
  random_keys (NewSource now) (Z.to_nat n) length.

(** Every node has a server whose loop runs, every listener belongs to one
    node, and no update is in progress. *)
Record running (fx : fixture) (names : list string) : Prop := {
  run_idle : Listeners.updates (fx_map fx) = [];
  run_loop : forall name, name ∈ names -> exists id l, listener_of fx name = Some id
    /\ Listeners.updateChannels (fx_map fx) !! id = Some l /\ l <> Listeners.Stopped;
  run_distinct : forall n n' id, n ∈ names -> n' ∈ names -> listener_of fx n = Some id -> listener_of fx n' = Some id -> n = n';
  run_all : forall id, is_Some (Listeners.updateChannels (fx_map fx) !! id) -> exists name, name ∈ names /\ listener_of fx name = Some id
}.

Lemma server_Shutdown_ok sm id l :
  Listeners.updates sm = [] -> Listeners.updateChannels sm !! id = Some l -> l <> Listeners.Stopped ->
  exists sm', server_Shutdown sm id = Ret sm' /\ Listeners.updates sm' = []
    /\ Listeners.updateChannels sm' = delete id (Listeners.updateChannels sm).
Proof.
  intros Hu Hl Hne. unfold server_Shutdown.
  destruct l; [| |done]; cbn; rewrite Hl; cbn; rewrite ?lookup_insert_eq, ?Hl; cbn;
    rewrite ?lookup_insert_eq; unfold Listeners.no_update; cbn; rewrite Hu;
    eexists; (split; [done|]); cbn; (split; [done|]); by rewrite ?delete_insert_eq, ?delete_insert_eq.
Qed.

Lemma server_Shutdown_closed sm id : Listeners.updateChannels sm !! id = None -> server_Shutdown sm id = Block.
Proof. intros Hl. unfold server_Shutdown. cbn. rewrite Hl. cbn. by rewrite Hl. Qed.

(** The loop over the nodes closes the listeners of the nodes it visits. *)
Lemma shutdown_loop fx names order sm :
  running fx names -> NoDup order -> (forall n, n ∈ order -> n ∈ names) -> Listeners.updates sm = [] ->
  (forall n id, n ∈ order -> listener_of fx n = Some id ->
     Listeners.updateChannels sm !! id = Listeners.updateChannels (fx_map fx) !! id) ->
  exists sm', go_fold (fun sm name => match listener_of fx name with None => Panic | Some id => server_Shutdown sm id end)
      sm order = Ret sm'
    /\ forall id, Listeners.updateChannels sm' !! id =
         if decide (Exists (fun n => listener_of fx n = Some id) order) then None else Listeners.updateChannels sm !! id.
Proof.
  intros Hrun Hnd. revert sm. induction Hnd as [|n order Hn _ IH]; intros sm Hin Hu Hch; cbn [go_fold].
  { exists sm. split; [done|]. intros id. rewrite decide_False; [done|]. intros E. inversion E. }
  destruct (run_loop fx names Hrun n) as (id & l & Hid & Hl & Hne); [apply Hin; left|]. rewrite Hid.
  destruct (server_Shutdown_ok sm id l Hu) as (sm1 & -> & Hu1 & Hc1); [|done|].
  { rewrite (Hch n id); [done|left|done]. }
  cbn [mbind go_bind]. destruct (IH sm1) as (sm' & -> & Hc'); [intros; apply Hin; by right|done| |].
  - intros m id' Hm Hid'. rewrite Hc1, lookup_delete_ne, (Hch m); [done|by right|done|].
    intros <-. apply Hn. rewrite (run_distinct fx names Hrun n m id); [done|apply Hin; by left|apply Hin; by right|done|done].
  - exists sm'. split; [done|]. intros id'. rewrite Hc', Hc1. destruct (decide (id' = id)) as [->|Hne'].
    + rewrite lookup_delete_eq. assert (Exists (fun n => listener_of fx n = Some id) (n :: order)) by (by left).
      by repeat case_decide.
    + rewrite lookup_delete_ne by done. apply decide_ext. rewrite Exists_cons. split; [by right|].
      intros [E|?]; [congruence|done].
Qed.

(** After a test every listener is closed. [Shutdown] of a setup whose loops
    run and in which no update is in progress returns, whatever the order of
    the nodes and even while loops are still handling an update, and the
    [ShardMap] then has no listener left; a second [Shutdown] would wait for
    ever. *)
Theorem Shutdown_closes fx names order :
  running fx names -> NoDup names -> order ≡ₚ names ->
  exists fx', Shutdown fx order = Ret fx' /\ fx_setup fx' = fx_setup fx
    /\ Listeners.updateChannels (fx_map fx') = ∅ /\ (order <> [] -> Shutdown fx' order = Block).
Proof.
  intros Hrun Hnd Hord. unfold Shutdown.
  destruct (shutdown_loop fx names order (fx_map fx) Hrun) as (sm' & -> & Hc).
  - by rewrite Hord.
  - intros n. by rewrite Hord.
  - apply Hrun.
  - done.
  - cbn. eexists. split; [done|]. split; [done|]. cbn.
    assert (Listeners.updateChannels sm' = ∅) as Hempty.
    { apply map_eq. intros id. rewrite Hc, lookup_empty. case_decide as E; [done|].
      destruct (Listeners.updateChannels (fx_map fx) !! id) as [l|] eqn:El; [|done]. exfalso. apply E.
      destruct (run_all fx names Hrun id) as (n & Hn & Hid); [eauto|]. apply Exists_exists. exists n. by rewrite Hord. }
    split; [done|]. intros Hne. destruct order as [|n order]; [done|]. cbn [go_fold].
    destruct (run_loop fx names Hrun n) as (id & l & Hid & _); [rewrite <- Hord; left|].
    change (listener_of (mkFixture (fx_setup fx) (fx_listener fx) sm') n) with (listener_of fx n).
    rewrite Hid, server_Shutdown_closed; [done|]. by rewrite Hempty, lookup_empty.
Qed.

(** The servers of the loop get consecutive addresses. *)
Lemma make_servers_addresses cp sm start now names ns h ns' h' :
  NoDup names -> (forall i, is_Some (h !! i) -> (i < size h)%nat) ->
  make_servers cp sm start now (ns, h) names = Ret (ns', h') ->
  size h' = (size h + length names)%nat
  /\ (forall i name, names !! i = Some name -> ns' !! name = Some (Some (size h + i)%nat))
  /\ (forall name, name ∉ names -> ns' !! name = ns !! name).
Proof.
  intros Hnd. revert ns h. induction Hnd as [|x names Hx _ IH]; intros ns h Hfresh E.
  { injection E as <- <-. split; [cbn; lia|]. split; [done|done]. }
  unfold make_servers in E. cbn [go_fold] in E. apply bind_Ret in E as ([ns1 h1] & E1 & E).
  apply bind_Ret in E1 as (s & _ & E1). injection E1 as <- <-.
  assert (h !! size h = None) as Hnone
    by (destruct (h !! size h) eqn:El; [specialize (Hfresh (size h) ltac:(eauto)); lia|done]).
  apply IH in E as (Hsz & Hns & Hother).
  - rewrite map_size_insert_None in Hsz by done. split; [cbn; lia|]. split.
    + intros [|i] name Hi; cbn in Hi.
      * injection Hi as <-. by rewrite Hother, lookup_insert_eq, Nat.add_0_r.
      * rewrite (Hns i name Hi). by rewrite map_size_insert_None, <- Nat.add_succ_comm by done.
    + intros name [Hne Hin]%not_elem_of_cons. by rewrite Hother, lookup_insert_ne.
  - intros i. rewrite map_size_insert_None by done. intros [<-|[_ Hi]]%lookup_insert_is_Some; [lia|].
    specialize (Hfresh i Hi). lia.
Qed.

Lemma listeners_made sm k :
  let '(listener, shardMap) := foldl add_listener (∅, Listeners.mkShardMap (Some sm) ∅ 0 []) (seq 0 k) in
  (forall l, listener !! l = if decide (l < k)%nat then Some (Z.of_nat l) else None)
  /\ (forall id, Listeners.updateChannels shardMap !! id =
        if decide (0 <= id < Z.of_nat k) then Some Listeners.Listening else None)
  /\ Listeners.updateChannelCounter shardMap = Z.of_nat k /\ Listeners.updates shardMap = [].
Proof.
  induction k as [|k IH]; [split_and!; intros; rewrite ?lookup_empty; by try case_decide; try lia|].
  rewrite seq_S, foldl_app. destruct (foldl add_listener _ (seq 0 k)) as [listener shardMap].
  destruct IH as (Hl & Hc & Hn & Hu). cbn. split_and!; [| |lia|done].
  - intros l. destruct (decide (l = k)) as [->|Hne].
    + by rewrite lookup_insert_eq, Hn, decide_True by lia.
    + rewrite lookup_insert_ne, Hl by done. apply decide_ext. lia.
  - intros id. rewrite Hn. destruct (decide (id = Z.of_nat k)) as [->|Hne].
    + by rewrite lookup_insert_eq, decide_True by lia.
    + rewrite lookup_insert_ne, Hc by done. apply decide_ext. lia.
Qed.

(** A new setup runs: one listener for every node of its map. *)
Lemma MakeFixture_running sm start now fx :
  MakeFixture sm start now = Ret fx -> running fx (map_to_list (Nodes sm)).*1.
Proof.
  intros E. unfold MakeFixture in E. apply bind_Ret in E as (ts & Ets & E).
  pose proof (listeners_made sm (size (ts_heap ts))) as Hmade.
  destruct (foldl _ _ _) as [listener shardMap]. injection E as <-. destruct Hmade as (Hl & Hc & _ & Hu).
  unfold MakeTestSetup in Ets. apply bind_Ret in Ets as ([ns h] & Ens & Ets). injection Ets as <-. cbn in Hl, Hc.
  apply make_servers_addresses in Ens as (Hsz & Hns & _);
    [|apply NoDup_fst_map_to_list|intros i [? Hi]; by rewrite lookup_empty in Hi].
  set (names := (map_to_list (Nodes sm)).*1) in *. rewrite map_size_empty in *. cbn in Hsz.
  assert (forall i name, names !! i = Some name -> listener_of (mkFixture (mkSetup sm ns (Setup empty_pool ns) h)
    listener shardMap) name = Some (Z.of_nat i)) as Hof.
  { intros i name Hi. pose proof (lookup_lt_Some _ _ _ Hi). unfold listener_of. cbn. rewrite (Hns i name Hi). cbn.
    rewrite Hl, decide_True by lia. done. }
  split; cbn.
  - done.
  - intros name [i Hi]%list_elem_of_lookup. pose proof (lookup_lt_Some _ _ _ Hi). exists (Z.of_nat i), Listeners.Listening.
    rewrite (Hof i name Hi), Hc, decide_True by lia. done.
  - intros n n' id [i Hi]%list_elem_of_lookup [i' Hi']%list_elem_of_lookup.
    rewrite (Hof i n Hi), (Hof i' n' Hi'). intros [= <-] [= E]. assert (i = i') as -> by lia. congruence.
  - intros id. rewrite Hc. case_decide as Hid; [|by intros [? ?]]. intros _.
    destruct (lookup_lt_is_Some_2 names (Z.to_nat id)) as [name Hi]; [lia|]. exists name.
    split; [by eapply list_elem_of_lookup_2|]. rewrite (Hof _ _ Hi). f_equal. lia.
Qed.

(** A test ends with every listener closed: on a setup for a valid map, a
    test function that returns with the loops running, and no update in
    progress, is followed by a [Shutdown] that returns and leaves the
    [ShardMap] without listeners. *)
Theorem RunTestWith_closes sm start now testFunc order :
  let names := (map_to_list (Nodes sm)).*1 in
  valid_assignment sm -> NumShards sm < 2 ^ 31 -> order ≡ₚ names ->
  (forall fx, running fx names -> exists fx', testFunc fx = Ret fx' /\ running fx' names) ->
  exists fx fx', MakeFixture sm start now = Ret fx /\ RunTestWith testFunc fx order = Ret fx'
    /\ Listeners.updateChannels (fx_map fx') = ∅.
Proof.
  intros names Hv Hn Hord Htest. destruct (MakeTestSetup_spec sm start now Hv Hn) as (ts & Hmk & _).
  assert (exists fx, MakeFixture sm start now = Ret fx) as [fx Hfx].
  { unfold MakeFixture. rewrite Hmk. cbn [mbind go_bind]. destruct (foldl _ _ _). eauto. }
  destruct (Htest fx (MakeFixture_running _ _ _ _ Hfx)) as (fx1 & Ht & Hrun).
  destruct (Shutdown_closes fx1 names order Hrun) as (fx' & Hsd & _ & He & _); [apply NoDup_fst_map_to_list|done|].
  exists fx, fx'. split; [done|]. split; [|done]. unfold RunTestWith. rewrite Ht. exact Hsd.
Qed.

(** The servers of a setup without servers are nil: it cannot be shut down. *)
Lemma without_servers_Shutdown sm listener shardMap order :
  order <> [] -> (forall n, n ∈ order -> is_Some (Nodes sm !! n)) ->
  Shutdown (mkFixture (MakeTestSetupWithoutServers sm) listener shardMap) order = Panic.
Proof.
  intros Hne Hin. destruct order as [|n order]; [done|]. unfold Shutdown. cbn [go_fold].
  destruct (Hin n) as [i Hi]; [left|]. unfold listener_of. cbn. rewrite lookup_fmap, Hi. done.
Qed.

(** A test that ends while both loops are still handling its last update. *)
Definition last_update (fx : fixture) : go fixture :=
  match Listeners.run (fx_map fx) [Listeners.UpdateBegin two [1; 0]; Listeners.UpdateSend 0;
          Listeners.UpdateSend 0; Listeners.UpdateEnd 0] with
  | None => Block
  | Some sm => Ret (mkFixture (fx_setup fx) (fx_listener fx) sm)
  end.

Example shutdown_waits_for_handlers :
  match (let! fx := MakeFixture two (fun _ => 0) 7 in
         let! fx1 := last_update fx in
         let! fx2 := RunTestWith last_update fx ["n2"; "n1"]%string in
         Ret (map_to_list (Listeners.updateChannels (fx_map fx1)), Listeners.updateChannels (fx_map fx2))) with
  | Ret (handling, rest) => (handling.*2, bool_decide (rest = ∅))
  | _ => ([], false)
  end = ([Listeners.Handling; Listeners.Handling], true).
Proof. vm_compute. reflexivity. Qed.
